(** * Food lookup and nutrient aggregation (Michael-app)

    A shallow embedding of the logic of the meal-logging screens:

    - [FoodSelect] (the second file bundled in [components/layout/BottomNav.tsx]):
      [parseBrazilianNumber], [normalizeText], [searchFoods];
    - [AddExtraMealModal] ([components/ui/AddExtraMealModal.tsx]):
      [normalizeText], [searchFoods], [addFoodToMeal], [removeFood],
      [updateFoodQuantity], [mealTotals].

    The rest of these components is embedded as well: the handlers, the key
    navigation and the panels of [FoodSelect], with [formatCalories] and
    [formatNutrient]; the other handlers of [AddExtraMealModal] and the line
    of its totals; [FoodLibraryManager] (the third file bundled in
    [components/ui/AddExtraMealModal.tsx]), its requests and alerts being
    effects and the answers of the database inputs; and the guards of
    [usePageData] ([hooks/usePageData.ts]). [Number::toString] and [toFixed]
    are modelled for what the components print.

    JavaScript numbers are IEEE 754 binary64 values, modelled by Rocq's primitive
    [float]; strings are sequences of UTF-16 code units, modelled by [list N]. *)

From Stdlib Require Import ZArith NArith List Bool Lia Floats Uint63.
From Stdlib Require Import Permutation Sorted String Ascii.
From Stdlib Require Import Reals Lra Psatz.
Import ListNotations.

Set Warnings "-inexact-float".

(** ** The JavaScript platform: numbers *)

Module JS.

Definition number := float.

(** An integer as a number (exact for magnitudes below [2^53]). *)
Definition Z2F (n : Z) : number :=
  match n with
  | Z0 => PrimFloat.zero
  | Zpos p => of_uint63 (Uint63.of_Z (Zpos p))
  | Zneg p => (- of_uint63 (Uint63.of_Z (Zpos p)))%float
  end.

(** [floor (x + 1/2)] of the finite, non-integral value [(-1)^s * m * 2^e], [e < 0]. *)
Definition round_half_up (s : bool) (m : positive) (e : Z) : Z :=
  ((2 * (if s then Zneg m else Zpos m) + 2 ^ (- e)) / 2 ^ (1 - e))%Z.

(** [Math.round]: the integer nearest to [x], ties towards +infinity; NaN, the
    infinities and the zeros are returned as they are, and a value in
    [[-0.5, 0)] gives [-0]. *)
Definition Math_round (x : number) : number :=
  match Prim2SF x with
  | S754_finite s m e =>
      if (0 <=? e)%Z then x
      else
        let n := round_half_up s m e in
        if (n =? 0)%Z then (if s then neg_zero else PrimFloat.zero) else Z2F n
  | _ => x
  end.

Definition isNaN (x : number) : bool := PrimFloat.is_nan x.

(** [isFinite(x)]: neither NaN nor an infinity. *)
Definition isFinite (x : number) : bool :=
  match Prim2SF x with
  | S754_zero _ | S754_finite _ _ _ => true
  | _ => false
  end.

(** ToBoolean on a number: [0], [-0] and NaN are falsy. *)
Definition truthy (x : number) : bool := negb (PrimFloat.is_zero x || PrimFloat.is_nan x).

(** [x || d] on numbers. *)
Definition or_else (x d : number) : number := if truthy x then x else d.

(** ** The JavaScript platform: strings *)

(** A string is its sequence of UTF-16 code units. *)
Definition jsstring := list N.

(** An ASCII literal as a JavaScript string. *)
Definition lit (s : string) : jsstring := map N_of_ascii (list_ascii_of_string s).

Definition str_eqb (a b : jsstring) : bool :=
  if list_eq_dec N.eq_dec a b then true else false.

Definition length (s : jsstring) : nat := List.length s.

(** WhiteSpace and LineTerminator code units ([\s] of a regular expression, and
    what [trim] strips). *)
Definition isWhiteSpace (c : N) : bool :=
  ((9 <=? c) && (c <=? 13) || (c =? 32) || (c =? 160) || (c =? 5760)
   || (8192 <=? c) && (c <=? 8202) || (c =? 8232) || (c =? 8233)
   || (c =? 8239) || (c =? 8287) || (c =? 12288) || (c =? 65279))%N.

Fixpoint trimStart (s : jsstring) : jsstring :=
  match s with
  | c :: r => if isWhiteSpace c then trimStart r else s
  | [] => []
  end.

Definition trimEnd (s : jsstring) : jsstring := rev (trimStart (rev s)).

Definition trim (s : jsstring) : jsstring := trimEnd (trimStart s).

(** [s.startsWith(p)]. *)
Fixpoint startsWith (s p : jsstring) : bool :=
  match p, s with
  | [], _ => true
  | _ :: _, [] => false
  | a :: p', c :: s' => (c =? a)%N && startsWith s' p'
  end.

(** [s.includes(p)]: [p] occurs in [s] as a contiguous substring. *)
Fixpoint includes (s p : jsstring) : bool :=
  startsWith s p ||
  match s with
  | [] => false
  | _ :: s' => includes s' p
  end.

(** [s.replace(/c/g, d)]: every occurrence of the code unit [c] becomes [d]. *)
Definition replaceAll (c d : N) (s : jsstring) : jsstring :=
  map (fun x => if (x =? c)%N then d else x) s.

(** [s.replace('c', 'd')] with a string pattern: only the first occurrence. *)
Fixpoint replaceFirst (c d : N) (s : jsstring) : jsstring :=
  match s with
  | [] => []
  | x :: r => if (x =? c)%N then d :: r else x :: replaceFirst c d r
  end.

(** [s.split(/\s+/)]: the pieces between maximal runs of white space; [cur] is
    the piece being read (reversed), [insep] tells that the previous code unit
    was white space. *)
Fixpoint split_ws_aux (s : jsstring) (cur : jsstring) (insep : bool) : list jsstring :=
  match s with
  | [] => [rev cur]
  | c :: r =>
      if isWhiteSpace c then
        if insep then split_ws_aux r cur true
        else rev cur :: split_ws_aux r [] true
      else split_ws_aux r (c :: cur) false
  end.

Definition split_ws (s : jsstring) : list jsstring := split_ws_aux s [] false.

(** The repertoire on which [toLowerCase] and [normalize('NFD')] are
    described below: Basic Latin and Latin-1 Supplement, the code units below
    256 (the repertoire of the food table, which is in Portuguese). On such a
    text both act one code unit at a time: no code unit is part of a surrogate
    pair, none is a sigma, and no two combining marks meet. Outside this
    repertoire the platform's functions are not described; every statement
    that depends on what they return is made for texts that [isLatin1]
    accepts. *)
Definition isLatin1 (s : jsstring) : bool := forallb (fun c => (c <? 256)%N) s.

(** The lower case of a code unit of Basic Latin or Latin-1 Supplement: A to Z
    and the capitals U+00C0 to U+00DE but the multiplication sign. *)
Definition lowerUnit (c : N) : N :=
  if ((65 <=? c) && (c <=? 90))%N then (c + 32)%N
  else if ((192 <=? c) && (c <=? 222) && negb (c =? 215))%N then (c + 32)%N
  else c.

(** [s.toLowerCase()], for a text of Basic Latin and Latin-1 Supplement. *)
Definition toLowerCase (s : jsstring) : jsstring := map lowerUnit s.

(** Canonical decomposition of one code unit of Latin-1 Supplement: the base
    letter followed by its combining mark. *)
Definition decompose (c : N) : list N :=
  match c with
  | 192 => [65; 768] | 193 => [65; 769] | 194 => [65; 770] | 195 => [65; 771]
  | 196 => [65; 776] | 197 => [65; 778] | 199 => [67; 807]
  | 200 => [69; 768] | 201 => [69; 769] | 202 => [69; 770] | 203 => [69; 776]
  | 204 => [73; 768] | 205 => [73; 769] | 206 => [73; 770] | 207 => [73; 776]
  | 209 => [78; 771]
  | 210 => [79; 768] | 211 => [79; 769] | 212 => [79; 770] | 213 => [79; 771]
  | 214 => [79; 776]
  | 217 => [85; 768] | 218 => [85; 769] | 219 => [85; 770] | 220 => [85; 776]
  | 221 => [89; 769]
  | 224 => [97; 768] | 225 => [97; 769] | 226 => [97; 770] | 227 => [97; 771]
  | 228 => [97; 776] | 229 => [97; 778] | 231 => [99; 807]
  | 232 => [101; 768] | 233 => [101; 769] | 234 => [101; 770] | 235 => [101; 776]
  | 236 => [105; 768] | 237 => [105; 769] | 238 => [105; 770] | 239 => [105; 776]
  | 241 => [110; 771]
  | 242 => [111; 768] | 243 => [111; 769] | 244 => [111; 770] | 245 => [111; 771]
  | 246 => [111; 776]
  | 249 => [117; 768] | 250 => [117; 769] | 251 => [117; 770] | 252 => [117; 776]
  | 253 => [121; 769] | 255 => [121; 776]
  | _ => [c]
  end%N.

(** [s.normalize('NFD')], for a text of Basic Latin and Latin-1 Supplement:
    a letter with a diacritic becomes the letter and one combining mark, and
    there is nothing to reorder. *)
Definition normalizeNFD (s : jsstring) : jsstring := flat_map decompose s.

(** A combining diacritical mark, U+0300 to U+036F. *)
Definition isCombiningMark (c : N) : bool := ((768 <=? c) && (c <=? 879))%N.

(** [s.replace(/[\u0300-\u036f]/g, '')]: the combining marks are dropped. *)
Definition stripMarks (s : jsstring) : jsstring :=
  filter (fun c => negb (isCombiningMark c)) s.

(** *** [parseFloat] *)

Definition isDigit (c : N) : bool := ((48 <=? c) && (c <=? 57))%N.

(** The longest prefix of code units satisfying [p], and the rest. *)
Fixpoint span (p : N -> bool) (s : jsstring) : jsstring * jsstring :=
  match s with
  | c :: r => if p c then let (a, b) := span p r in (c :: a, b) else ([], s)
  | [] => ([], [])
  end.

(** The value of a run of decimal digits. *)
Definition digitsValue (ds : jsstring) : Z :=
  fold_left (fun acc c => 10 * acc + (Z.of_N c - 48))%Z ds 0%Z.

(** A parsed [StrUnsignedDecimalLiteral]. *)
Inductive literal :=
| LitInfinity
| LitDecimal (intPart fracPart : jsstring) (exponent : Z).

(** An optional sign: whether it is [-], and the rest. *)
Definition readSign (s : jsstring) : bool * jsstring :=
  match s with
  | c :: r =>
      if (c =? 43)%N then (false, r)
      else if (c =? 45)%N then (true, r)
      else (false, s)
  | [] => (false, s)
  end.

(** An optional [ExponentPart]: [e] or [E], an optional sign, digits. An
    exponent indicator with no digit after it is not part of the literal. *)
Definition readExponent (s : jsstring) : Z :=
  match s with
  | c :: r =>
      if ((c =? 101) || (c =? 69))%N then
        let (neg, r') := readSign r in
        let (ds, _) := span isDigit r' in
        match ds with
        | [] => 0%Z
        | _ => if neg then (- digitsValue ds)%Z else digitsValue ds
        end
      else 0%Z
  | [] => 0%Z
  end.

(** The longest prefix that is a [StrUnsignedDecimalLiteral], if there is one. *)
Definition readUnsigned (s : jsstring) : option literal :=
  if startsWith s (lit "Infinity") then Some LitInfinity
  else
    let (ip, r1) := span isDigit s in
    let (fp, r2) :=
      match r1 with
      | c :: r => if (c =? 46)%N then span isDigit r else ([], r1)
      | [] => ([], r1)
      end in
    match ip, fp with
    | [], [] => None
    | _, _ => Some (LitDecimal ip fp (readExponent r2))
    end.

(** The binary64 value nearest to [digits * 10^(ex - |fp|)], ties to even. *)
Definition decimalValue (ip fp : jsstring) (ex : Z) : number :=
  let e := (ex - Z.of_nat (List.length fp))%Z in
  match digitsValue (ip ++ fp) with
  | Zpos m =>
      let num := if (0 <=? e)%Z then (Zpos m * 10 ^ e)%Z else Zpos m in
      let den := if (0 <=? e)%Z then 1%Z else (10 ^ (- e))%Z in
      match num, den with
      | Zpos n, Zpos d => SF2Prim (SF64div (S754_finite false n 0) (S754_finite false d 0))
      | _, _ => PrimFloat.zero
      end
  | _ => PrimFloat.zero
  end.

Definition literalValue (l : literal) : number :=
  match l with
  | LitInfinity => infinity
  | LitDecimal ip fp ex => decimalValue ip fp ex
  end.

(** [parseFloat(s)]: leading white space is skipped, the longest prefix that is
    a decimal literal is read, and what follows it is ignored; NaN when no
    prefix is a literal. *)
Definition parseFloat (s : jsstring) : number :=
  let (neg, u) := readSign (trimStart s) in
  match readUnsigned u with
  | None => nan
  | Some l => if neg then (- literalValue l)%float else literalValue l
  end.

(** The values of type [string | number | null | undefined]. *)
Inductive value :=
| VNumber (x : number)
| VString (s : jsstring)
| VNull
| VUndefined.

(** *** [Array.prototype.sort]

    The sort is stable; [cmp a b] is negative, zero or positive. Elements are
    inserted from the right, each before the first element it does not follow. *)
Section Sort.
Context {A : Type} (cmp : A -> A -> Z).

Fixpoint insert (x : A) (l : list A) : list A :=
  match l with
  | [] => [x]
  | y :: l' => if (cmp x y <=? 0)%Z then x :: l else y :: insert x l'
  end.

Definition sort (l : list A) : list A := fold_right insert [] l.
End Sort.

(** [a.slice(0, n)]. *)
Definition slice0 {A : Type} (n : nat) (l : list A) : list A := firstn n l.

(** *** Numbers as text *)

(** The decimal digits of [n >= 0], most significant first. *)
Fixpoint decimalFrom (fuel : nat) (n : Z) (acc : jsstring) : jsstring :=
  match fuel with
  | O => acc
  | S fuel' =>
      let acc' := Z.to_N (48 + n mod 10) :: acc in
      if (n <? 10)%Z then acc' else decimalFrom fuel' (n / 10)%Z acc'
  end.

Definition decimal (n : Z) : jsstring := decimalFrom (S (Z.to_nat (Z.log2 n))) n [].

Definition zeros (n : nat) : jsstring := repeat 48%N n.

(** The finite value [m * 2^e] as a fraction. *)
Definition fraction (m : positive) (e : Z) : Z * Z :=
  if (0 <=? e)%Z then (Zpos m * 2 ^ e, 1)%Z else (Zpos m, 2 ^ (- e))%Z.

(** The fraction [q] times [10^j]. *)
Definition scale10 (q : Z * Z) (j : Z) : Z * Z :=
  let (a, b) := q in
  if (0 <=? j)%Z then (a * 10 ^ j, b)%Z else (a, b * 10 ^ (- j))%Z.

Fixpoint firstScale (fuel : nat) (a b j : Z) : Z :=
  match fuel with
  | O => j
  | S fuel' => if (b <=? a * 10 ^ j)%Z then j else firstScale fuel' a b (j + 1)%Z
  end.

(** The [n] with [10^(n-1) <= a/b < 10^n]. *)
Definition decimalExponent (a b : Z) : Z :=
  if (b <=? a)%Z then Z.of_nat (List.length (decimal (a / b)))
  else (1 - firstScale 400 a b 1)%Z.

(** The integer [s] of [k] digits and the [n] for which [s * 10^(n-k)] is
    nearest to [x = a/b] among those that denote [x], if one does. *)
Definition candidate (x : number) (a b n0 k : Z) : option (Z * Z) :=
  let (a', b') := scale10 (a, b) (k - n0) in
  let lo := (a' / b')%Z in
  let r := (a' mod b')%Z in
  let hi := if (lo + 1 =? 10 ^ k)%Z then (10 ^ (k - 1), n0 + 1)%Z else (lo + 1, n0)%Z in
  let denotes (sn : Z * Z) :=
    (decimalValue (decimal (fst sn)) [] (snd sn - k) =? x)%float in
  match denotes (lo, n0), denotes hi with
  | true, true =>
      if (2 * r <? b')%Z then Some (lo, n0)
      else if (b' <? 2 * r)%Z then Some hi
      else if Z.even lo then Some (lo, n0) else Some hi
  | true, false => Some (lo, n0)
  | false, true => Some hi
  | false, false => None
  end.

(** The shortest digits that denote [x], from [k] digits on. *)
Fixpoint shortest (fuel : nat) (x : number) (a b n0 k : Z) : Z * Z :=
  match fuel with
  | O => (0, 0)%Z
  | S fuel' =>
      match candidate x a b n0 k with
      | Some sn => sn
      | None => shortest fuel' x a b n0 (k + 1)%Z
      end
  end.

(** The digits of [s] laid out for the decimal exponent [n]. *)
Definition layout (digits : jsstring) (n : Z) : jsstring :=
  let k := Z.of_nat (List.length digits) in
  if ((k <=? n) && (n <=? 21))%Z then digits ++ zeros (Z.to_nat (n - k))
  else if ((0 <? n) && (n <=? 21))%Z then
    firstn (Z.to_nat n) digits ++ lit "." ++ skipn (Z.to_nat n) digits
  else if ((-6 <? n) && (n <=? 0))%Z then
    lit "0." ++ zeros (Z.to_nat (- n)) ++ digits
  else
    let e := (n - 1)%Z in
    let exponent :=
      (if (0 <=? e)%Z then lit "e+" else lit "e-") ++ decimal (Z.abs e) in
    match digits with
    | [d] => [d] ++ exponent
    | d :: rest => [d] ++ lit "." ++ rest ++ exponent
    | [] => []
    end.

(** [String(x)], [Number::toString] in radix 10: the shortest digits that
    read back as [x], the nearest to [x] among them. *)
Definition numberToString (x : number) : jsstring :=
  match Prim2SF x with
  | S754_nan => lit "NaN"
  | S754_zero _ => lit "0"
  | S754_infinity s => if s then lit "-Infinity" else lit "Infinity"
  | S754_finite s m e =>
      let (a, b) := fraction m e in
      let n0 := decimalExponent a b in
      let (sd, n) := shortest 17 (abs x) a b n0 1 in
      (if s then lit "-" else []) ++ layout (decimal sd) n
  end.

(** The integer nearest to [m * 2^e * 10^f], the larger of two. *)
Definition nearestScaled (f : nat) (m : positive) (e : Z) : Z :=
  if (0 <=? e)%Z then (Zpos m * 2 ^ e * 10 ^ Z.of_nat f)%Z
  else ((2 * Zpos m * 10 ^ Z.of_nat f + 2 ^ (- e)) / 2 ^ (1 - e))%Z.

(** The digits of [n] with a point before the last [f]. *)
Definition fixedDigits (f : nat) (n : Z) : jsstring :=
  let m := decimal n in
  match f with
  | O => m
  | _ =>
      let m' := if (List.length m <=? f)%nat
                then zeros (f + 1 - List.length m) ++ m else m in
      let k := List.length m' in
      firstn (k - f) m' ++ lit "." ++ skipn (k - f) m'
  end.

(** [x.toFixed(fractionDigits)]. *)
Definition toFixed (fractionDigits : nat) (x : number) : jsstring :=
  match Prim2SF x with
  | S754_finite s m e =>
      let (a, b) := fraction m e in
      if (10 ^ 21 * b <=? a)%Z then numberToString x
      else (if s then lit "-" else [])
           ++ fixedDigits fractionDigits (nearestScaled fractionDigits m e)
  | S754_zero _ => fixedDigits fractionDigits 0
  | _ => numberToString x
  end.

End JS.

(** ** The reference table *)

Module Database.

(** Modelled from the spec: the row type [TabelaTaco] of [types/database] is
    not among the sources. A food record has an identifier, a display name
    ([alimento]) and four nutrient fields per 100 g, which are locale-formatted
    decimal strings or absent. *)
Record TabelaTaco := {
  id : JS.value;
  alimento : JS.jsstring;
  caloria : JS.value;
  proteina : JS.value;
  carboidrato : JS.value;
  gordura : JS.value
}.

(** What the fetch of [tabela_taco] (ordered by [alimento], at most 500 rows)
    answers: an error, the rows, or neither. *)
Inductive response :=
| Failed
| Rows (data : list TabelaTaco)
| NoData.

End Database.

(** ** [FoodSelect]: the inline food search *)

Module FoodSelect.
Import JS Database.

Definition parseBrazilianNumber (value : JS.value) : number :=
  match value with
  | VNumber x => x
  | VNull | VUndefined | VString [] => PrimFloat.zero
  | VString s =>
      let normalized := replaceFirst 44 46 s in
      let parsed := parseFloat normalized in
      if isNaN parsed then PrimFloat.zero else parsed
  end.

Definition normalizeText (text : jsstring) : jsstring :=
  trim (replaceAll 44 32 (stripMarks (normalizeNFD (toLowerCase text)))).

(** [normalizedSearchTerm.split(/\s+/).filter(w => w.length > 0)]. *)
Definition searchWordsOf (searchTerm : jsstring) : list jsstring :=
  filter (fun w => (0 <? JS.length w)%nat) (split_ws (normalizeText searchTerm)).

(** The filter's predicate: every search word is in the normalized name. *)
Definition matchesAll (searchWords : list jsstring) (food : TabelaTaco) : bool :=
  let normalizedFoodName := normalizeText (alimento food) in
  forallb (fun word => includes normalizedFoodName word) searchWords.

(** The sort's comparison: names starting with the first word come first. *)
Definition byRelevance (localeCompare : jsstring -> jsstring -> Z)
    (searchWords : list jsstring) (a b : TabelaTaco) : Z :=
  let aName := normalizeText (alimento a) in
  let bName := normalizeText (alimento b) in
  let firstWord := hd [] searchWords in
  let aStartsWith := startsWith aName firstWord in
  let bStartsWith := startsWith bName firstWord in
  if aStartsWith && negb bStartsWith then (-1)%Z
  else if negb aStartsWith && bStartsWith then 1%Z
  else localeCompare aName bName.

Record State := {
  isOpen : bool;
  searchTerm : jsstring;
  foods : list TabelaTaco;
  loading : bool;
  selectedFood : option TabelaTaco;
  highlightedIndex : nat
}.

Definition setFoods (l : list TabelaTaco) (st : State) : State :=
  {| isOpen := isOpen st; searchTerm := searchTerm st; foods := l;
     loading := loading st; selectedFood := selectedFood st;
     highlightedIndex := highlightedIndex st |}.

Definition setLoading (b : bool) (st : State) : State :=
  {| isOpen := isOpen st; searchTerm := searchTerm st; foods := foods st;
     loading := b; selectedFood := selectedFood st;
     highlightedIndex := highlightedIndex st |}.

Definition setHighlightedIndex (i : nat) (st : State) : State :=
  {| isOpen := isOpen st; searchTerm := searchTerm st; foods := foods st;
     loading := loading st; selectedFood := selectedFood st;
     highlightedIndex := i |}.

(** The debounced effect's [searchFoods], run to its end on the answer [resp]
    of the fetch. *)
Definition searchFoods (localeCompare : jsstring -> jsstring -> Z)
    (resp : response) (st : State) : State :=
  if (JS.length (searchTerm st) <? 2)%nat then setFoods [] st
  else
    let searchWords := searchWordsOf (searchTerm st) in
    match resp with
    | Failed => setLoading false (setFoods [] st)
    | Rows data =>
        let filteredFoods := filter (matchesAll searchWords) data in
        let sorted := sort (byRelevance localeCompare searchWords) filteredFoods in
        setLoading false (setHighlightedIndex 0 (setFoods (slice0 30 sorted) st))
    | NoData => setLoading false st
    end.

(** *** The handlers of the inline search *)

Definition setIsOpen (b : bool) (st : State) : State :=
  {| isOpen := b; searchTerm := searchTerm st; foods := foods st;
     loading := loading st; selectedFood := selectedFood st;
     highlightedIndex := highlightedIndex st |}.

Definition setSearchTerm (t : jsstring) (st : State) : State :=
  {| isOpen := isOpen st; searchTerm := t; foods := foods st;
     loading := loading st; selectedFood := selectedFood st;
     highlightedIndex := highlightedIndex st |}.

Definition setSelectedFood (f : option TabelaTaco) (st : State) : State :=
  {| isOpen := isOpen st; searchTerm := searchTerm st; foods := foods st;
     loading := loading st; selectedFood := f;
     highlightedIndex := highlightedIndex st |}.

(** What a handler does besides updating the state: the calls of the parent's
    [onChange] and [onFoodSelect] (when the parent gave one), the focus put
    back on the input, and [e.preventDefault()]. *)
Inductive Effect :=
| onChange (foodName : jsstring)
| onFoodSelect (food : TabelaTaco)
| focusInput
| preventDefault.

(** The component as mounted with the property [value]. *)
Definition initial (value : jsstring) : State :=
  {| isOpen := false; searchTerm := value; foods := []; loading := false;
     selectedFood := None; highlightedIndex := 0 |}.

(** The effect on [value]: the term follows the property, and an empty value
    drops the selection. *)
Definition valueChanged (value : jsstring) (st : State) : State :=
  let st1 := setSearchTerm value st in
  match value with
  | [] => setSelectedFood None st1
  | _ => st1
  end.

(** [handleClickOutside], for a click outside the wrapper. *)
Definition handleClickOutside (st : State) : State := setIsOpen false st.

Definition handleInputChange (newValue : jsstring) (st : State) : State * list Effect :=
  (setIsOpen true (setSelectedFood None (setSearchTerm newValue st)),
   [onChange newValue]).

Definition handleFoodSelect (food : TabelaTaco) (st : State) : State * list Effect :=
  (setIsOpen false (setSearchTerm (alimento food) (setSelectedFood (Some food) st)),
   [onChange (alimento food); onFoodSelect food]).

Definition handleClear (st : State) : State * list Effect :=
  (setFoods [] (setSearchTerm [] (setSelectedFood None st)),
   [onChange []; focusInput]).

(** [handleKeyDown] for the key named [key]. *)
Definition handleKeyDown (key : jsstring) (st : State) : State * list Effect :=
  if negb (isOpen st) || (List.length (foods st) =? 0)%nat then (st, [])
  else if str_eqb key (lit "ArrowDown") then
    let prev := highlightedIndex st in
    (setHighlightedIndex
       (if (prev <? List.length (foods st) - 1)%nat then (prev + 1)%nat else prev) st,
     [preventDefault])
  else if str_eqb key (lit "ArrowUp") then
    let prev := highlightedIndex st in
    (setHighlightedIndex (if (0 <? prev)%nat then (prev - 1)%nat else prev) st,
     [preventDefault])
  else if str_eqb key (lit "Enter") then
    match nth_error (foods st) (highlightedIndex st) with
    | Some food =>
        let (st', effects) := handleFoodSelect food st in
        (st', preventDefault :: effects)
    | None => (st, [preventDefault])
    end
  else if str_eqb key (lit "Escape") then (setIsOpen false st, [])
  else (st, []).

(** The input's [onFocus]. *)
Definition handleFocus (st : State) : State :=
  if (2 <=? JS.length (searchTerm st))%nat then setIsOpen true st else st.

(** A list item's [onMouseEnter]. *)
Definition handleMouseEnter (index : nat) (st : State) : State :=
  setHighlightedIndex index st.

(** [searchFoods] in two parts, as the debounce timer runs it: up to the
    [await], for the term of the render that set the timer, and from the
    answer on. The timer is cleared when the term changes; a fetch that has
    started is not, and its answer is handled whatever the term is by then. *)
Definition searchFoodsBegin (st : State) : State :=
  if (JS.length (searchTerm st) <? 2)%nat then setFoods [] st
  else setLoading true st.

Definition searchFoodsEnd (localeCompare : jsstring -> jsstring -> Z)
    (term : jsstring) (resp : response) (st : State) : State :=
  let searchWords := searchWordsOf term in
  match resp with
  | Failed => setLoading false (setFoods [] st)
  | Rows data =>
      let filteredFoods := filter (matchesAll searchWords) data in
      let sorted := sort (byRelevance localeCompare searchWords) filteredFoods in
      setLoading false (setHighlightedIndex 0 (setFoods (slice0 30 sorted) st))
  | NoData => setLoading false st
  end.

(** What the open dropdown shows. *)
Inductive Panel :=
| loadingState
| emptyState
| hintState
| foodList (items : list TabelaTaco).

Definition dropdown (st : State) : list Panel :=
  if isOpen st then
    (if loading st then [loadingState] else []) ++
    (if negb (loading st) && (2 <=? JS.length (searchTerm st))%nat
        && (List.length (foods st) =? 0)%nat
     then [emptyState] else []) ++
    (if negb (loading st) && (JS.length (searchTerm st) <? 2)%nat
     then [hintState] else []) ++
    (if negb (loading st) && (0 <? List.length (foods st))%nat
     then [foodList (foods st)] else [])
  else [].

(** What happens to the mounted component. *)
Inductive Event :=
| ValueProp (value : jsstring)
| ClickOutside
| InputChange (newValue : jsstring)
| ItemClick (food : TabelaTaco)
| ItemMouseEnter (index : nat)
| ClearClick
| KeyDown (key : jsstring)
| Focus
| TimerFires
| FetchAnswers (term : jsstring) (resp : response).

Definition step (localeCompare : jsstring -> jsstring -> Z) (e : Event) (st : State) : State :=
  match e with
  | ValueProp value => valueChanged value st
  | ClickOutside => handleClickOutside st
  | InputChange newValue => fst (handleInputChange newValue st)
  | ItemClick food => fst (handleFoodSelect food st)
  | ItemMouseEnter index => handleMouseEnter index st
  | ClearClick => fst (handleClear st)
  | KeyDown key => fst (handleKeyDown key st)
  | Focus => handleFocus st
  | TimerFires => searchFoodsBegin st
  | FetchAnswers term resp => searchFoodsEnd localeCompare term resp st
  end.

(** An event the rendered component can receive in the state [st]: a list
    item is clicked or hovered where the list is shown, the clear button
    exists while the term is not empty, and a fetch is only started for a term
    of two code units or more. *)
Definition possible (st : State) (e : Event) : Prop :=
  match e with
  | ItemClick food =>
      isOpen st = true /\ loading st = false /\ In food (foods st)
  | ItemMouseEnter index =>
      isOpen st = true /\ loading st = false /\ (index < List.length (foods st))%nat
  | ClearClick => searchTerm st <> []
  | FetchAnswers term _ => (2 <= JS.length term)%nat
  | _ => True
  end.

(** The states the component reaches from its mounting, by events that
    satisfy [allowed]. *)
Inductive reachable (localeCompare : jsstring -> jsstring -> Z)
    (allowed : State -> Event -> Prop) : State -> Prop :=
| reachable_initial value : reachable localeCompare allowed (initial value)
| reachable_step st e :
    reachable localeCompare allowed st -> allowed st e ->
    reachable localeCompare allowed (step localeCompare e st).

(** *** What the selected food shows *)

Definition formatCalories (cal : jsstring) : jsstring :=
  let num := parseBrazilianNumber (VString cal) in
  if PrimFloat.is_zero num then cal
  else numberToString (Math_round num) ++ lit " kcal".

Definition formatNutrient (value : jsstring) : jsstring :=
  let num := parseBrazilianNumber (VString value) in
  toFixed 1 num.

End FoodSelect.

(** ** [AddExtraMealModal]: composing an extra meal *)

Module AddExtraMealModal.
Import JS Database.

Record ExtraFood := {
  id : jsstring;
  name : jsstring;
  quantity : number;
  calories : number;
  protein : number;
  carbs : number;
  fats : number
}.

Definition normalizeText (text : jsstring) : jsstring :=
  trim (replaceAll 44 32 (stripMarks (normalizeNFD (toLowerCase text)))).

Definition searchWordsOf (term : jsstring) : list jsstring :=
  filter (fun w => (0 <? JS.length w)%nat) (split_ws (normalizeText term)).

Definition matchesAll (searchWords : list jsstring) (food : TabelaTaco) : bool :=
  let normalizedName := normalizeText (alimento food) in
  forallb (fun word => includes normalizedName word) searchWords.

Definition byRelevance (localeCompare : jsstring -> jsstring -> Z)
    (searchWords : list jsstring) (a b : TabelaTaco) : Z :=
  let aName := normalizeText (alimento a) in
  let bName := normalizeText (alimento b) in
  let firstWord := hd [] searchWords in
  let aStartsWith := startsWith aName firstWord in
  let bStartsWith := startsWith bName firstWord in
  if aStartsWith && negb bStartsWith then (-1)%Z
  else if negb aStartsWith && bStartsWith then 1%Z
  else localeCompare aName bName.

Record State := {
  mealName : jsstring;
  foods : list ExtraFood;
  searchTerm : jsstring;
  searchResults : list TabelaTaco;
  loading : bool;
  selectedFood : option TabelaTaco;
  quantityInput : jsstring
}.

Definition setFoods (l : list ExtraFood) (st : State) : State :=
  {| mealName := mealName st; foods := l; searchTerm := searchTerm st;
     searchResults := searchResults st; loading := loading st;
     selectedFood := selectedFood st; quantityInput := quantityInput st |}.

Definition setSearchResults (l : list TabelaTaco) (st : State) : State :=
  {| mealName := mealName st; foods := foods st; searchTerm := searchTerm st;
     searchResults := l; loading := loading st;
     selectedFood := selectedFood st; quantityInput := quantityInput st |}.

Definition setLoading (b : bool) (st : State) : State :=
  {| mealName := mealName st; foods := foods st; searchTerm := searchTerm st;
     searchResults := searchResults st; loading := b;
     selectedFood := selectedFood st; quantityInput := quantityInput st |}.

(** [searchFoods(term)], run to its end on the answer [resp] of the fetch (a
    fetch that throws ends like [NoData]). *)
Definition searchFoods (localeCompare : jsstring -> jsstring -> Z)
    (term : jsstring) (resp : response) (st : State) : State :=
  if (JS.length term <? 2)%nat then setSearchResults [] st
  else
    let searchWords := searchWordsOf term in
    match resp with
    | Failed => setLoading false st
    | Rows data =>
        let filtered := filter (matchesAll searchWords) data in
        let sorted := sort (byRelevance localeCompare searchWords) filtered in
        setLoading false (setSearchResults (slice0 20 sorted) st)
    | NoData => setLoading false st
    end.

Section Handlers.
(** [formatFoodName] of [utils/formatters] is not among the sources. *)
Variable formatFoodName : jsstring -> jsstring.

(** [addFoodToMeal()]; [uuid] is what [crypto.randomUUID()] returns. *)
Definition addFoodToMeal (uuid : jsstring) (st : State) : State :=
  match selectedFood st with
  | None => st
  | Some food =>
      let qty := or_else (parseFloat (quantityInput st)) 100%float in
      let multiplier := (qty / 100)%float in
      let newFood :=
        {| id := uuid;
           name := formatFoodName (alimento food);
           quantity := qty;
           calories :=
             Math_round (FoodSelect.parseBrazilianNumber (caloria food) * multiplier);
           protein :=
             Math_round (FoodSelect.parseBrazilianNumber (proteina food) * multiplier * 10) / 10;
           carbs :=
             Math_round (FoodSelect.parseBrazilianNumber (carboidrato food) * multiplier * 10) / 10;
           fats :=
             Math_round (FoodSelect.parseBrazilianNumber (gordura food) * multiplier * 10) / 10
        |}%float in
      {| mealName := mealName st; foods := foods st ++ [newFood];
         searchTerm := []; searchResults := searchResults st;
         loading := loading st; selectedFood := None;
         quantityInput := lit "100" |}
  end.
End Handlers.

Definition removeFood (id' : jsstring) (st : State) : State :=
  setFoods (filter (fun f => negb (str_eqb (id f) id')) (foods st)) st.

(** The body of the [map] in [updateFoodQuantity]. The guarded [ratio] is
    computed and not used. *)
Definition rescaleFood (id' : jsstring) (qty : number) (f : ExtraFood) : ExtraFood :=
  if negb (str_eqb (id f) id') then f
  else
    let originalMultiplier := (quantity f / 100)%float in
    let newMultiplier := (qty / 100)%float in
    let ratio :=
      if (0 <? originalMultiplier)%float
      then (newMultiplier / originalMultiplier)%float else newMultiplier in
    {| id := id f;
       name := name f;
       quantity := qty;
       calories := Math_round ((calories f / (quantity f / 100)) * (qty / 100));
       protein := Math_round (((protein f / (quantity f / 100)) * (qty / 100)) * 10) / 10;
       carbs := Math_round (((carbs f / (quantity f / 100)) * (qty / 100)) * 10) / 10;
       fats := Math_round (((fats f / (quantity f / 100)) * (qty / 100)) * 10) / 10
    |}%float.

Definition updateFoodQuantity (id' : jsstring) (newQty : jsstring) (st : State) : State :=
  let qty := or_else (parseFloat newQty) 0%float in
  setFoods (map (rescaleFood id' qty) (foods st)) st.

Record Totals := {
  total_calories : number;
  total_protein : number;
  total_carbs : number;
  total_fats : number
}.

(** [foods.reduce(...)], from the left, starting at zero. *)
Definition mealTotals (st : State) : Totals :=
  fold_left
    (fun acc food =>
       {| total_calories := total_calories acc + calories food;
          total_protein := total_protein acc + protein food;
          total_carbs := total_carbs acc + carbs food;
          total_fats := total_fats acc + fats food |}%float)
    (foods st)
    {| total_calories := 0; total_protein := 0; total_carbs := 0; total_fats := 0 |}%float.

(** *** The other handlers of the dialog *)

Definition setMealName (n : jsstring) (st : State) : State :=
  {| mealName := n; foods := foods st; searchTerm := searchTerm st;
     searchResults := searchResults st; loading := loading st;
     selectedFood := selectedFood st; quantityInput := quantityInput st |}.

Definition setSearchTerm (t : jsstring) (st : State) : State :=
  {| mealName := mealName st; foods := foods st; searchTerm := t;
     searchResults := searchResults st; loading := loading st;
     selectedFood := selectedFood st; quantityInput := quantityInput st |}.

Definition setSelectedFood (f : option TabelaTaco) (st : State) : State :=
  {| mealName := mealName st; foods := foods st; searchTerm := searchTerm st;
     searchResults := searchResults st; loading := loading st;
     selectedFood := f; quantityInput := quantityInput st |}.

Definition setQuantity (q : jsstring) (st : State) : State :=
  {| mealName := mealName st; foods := foods st; searchTerm := searchTerm st;
     searchResults := searchResults st; loading := loading st;
     selectedFood := selectedFood st; quantityInput := q |}.

(** [handleInputChange], with the search it starts run to its end. *)
Definition handleInputChange (localeCompare : jsstring -> jsstring -> Z)
    (term : jsstring) (resp : response) (st : State) : State :=
  searchFoods localeCompare term resp (setSelectedFood None (setSearchTerm term st)).

Definition handleSelectFood (food : TabelaTaco) (st : State) : State :=
  setSearchResults [] (setSearchTerm (alimento food) (setSelectedFood (Some food) st)).

(** The clear button of the search box. *)
Definition clearSearch (st : State) : State :=
  setSelectedFood None (setSearchResults [] (setSearchTerm [] st)).

(** The meal handed to [onAdd]. *)
Module ExtraMeal.
Record t := {
  id : jsstring;
  meal_name : jsstring;
  foods : list ExtraFood;
  total_calories : number;
  total_protein : number;
  total_carbs : number;
  total_fats : number
}.
End ExtraMeal.

(** The calls of the parent's callbacks. *)
Inductive Effect :=
| onAdd (meal : ExtraMeal.t)
| onClose.

Definition handleClose (st : State) : State * list Effect :=
  ({| mealName := []; foods := []; searchTerm := []; searchResults := [];
      loading := loading st; selectedFood := None; quantityInput := lit "100" |},
   [onClose]).

(** [handleSave()]; [uuid] is what [crypto.randomUUID()] returns. *)
Definition handleSave (uuid : jsstring) (st : State) : State * list Effect :=
  let extraMeal :=
    {| ExtraMeal.id := uuid;
       ExtraMeal.meal_name :=
         match mealName st with
         | [] => lit "Refeicao Extra"
         | _ => mealName st
         end;
       ExtraMeal.foods := foods st;
       ExtraMeal.total_calories := total_calories (mealTotals st);
       ExtraMeal.total_protein := total_protein (mealTotals st);
       ExtraMeal.total_carbs := total_carbs (mealTotals st);
       ExtraMeal.total_fats := total_fats (mealTotals st) |} in
  let (st', effects) := handleClose st in
  (st', onAdd extraMeal :: effects).

(** The save button is disabled while the meal has no item. *)
Definition saveDisabled (st : State) : bool := (List.length (foods st) =? 0)%nat.

(** The line of the totals: the calories as they are, the macros to one
    decimal. *)
Record TotalsLine := {
  shownCalories : jsstring;
  shownProtein : jsstring;
  shownCarbs : jsstring;
  shownFats : jsstring
}.

Definition totalsLine (st : State) : TotalsLine :=
  {| shownCalories := numberToString (total_calories (mealTotals st));
     shownProtein := toFixed 1 (total_protein (mealTotals st));
     shownCarbs := toFixed 1 (total_carbs (mealTotals st));
     shownFats := toFixed 1 (total_fats (mealTotals st)) |}.

End AddExtraMealModal.

(** ** [FoodLibraryManager]: the administration of the reference table *)

Module FoodLibraryManager.
Import JS.

Module Food.
Record t := {
  id : number;
  alimento : jsstring;
  caloria : jsstring;
  proteina : jsstring;
  carboidrato : jsstring;
  fibra : jsstring;
  gordura : option jsstring;
  created_at : option jsstring
}.
End Food.

(** The form, and the row written from it. *)
Module FormData.
Record t := {
  alimento : jsstring;
  caloria : jsstring;
  proteina : jsstring;
  carboidrato : jsstring;
  fibra : jsstring;
  gordura : jsstring
}.
End FormData.

Record State := {
  foods : list Food.t;
  loading : bool;
  searchTerm : jsstring;
  showModal : bool;
  editingFood : option Food.t;
  saving : bool;
  formData : FormData.t
}.

Definition emptyForm : FormData.t :=
  {| FormData.alimento := []; FormData.caloria := []; FormData.proteina := [];
     FormData.carboidrato := []; FormData.fibra := []; FormData.gordura := [] |}.

(** The component as mounted. *)
Definition initial : State :=
  {| foods := []; loading := true; searchTerm := []; showModal := false;
     editingFood := None; saving := false; formData := emptyForm |}.

Definition setFoods (l : list Food.t) (st : State) : State :=
  {| foods := l; loading := loading st; searchTerm := searchTerm st;
     showModal := showModal st; editingFood := editingFood st;
     saving := saving st; formData := formData st |}.

Definition setLoading (b : bool) (st : State) : State :=
  {| foods := foods st; loading := b; searchTerm := searchTerm st;
     showModal := showModal st; editingFood := editingFood st;
     saving := saving st; formData := formData st |}.

Definition setSearchTerm (t : jsstring) (st : State) : State :=
  {| foods := foods st; loading := loading st; searchTerm := t;
     showModal := showModal st; editingFood := editingFood st;
     saving := saving st; formData := formData st |}.

Definition setShowModal (b : bool) (st : State) : State :=
  {| foods := foods st; loading := loading st; searchTerm := searchTerm st;
     showModal := b; editingFood := editingFood st;
     saving := saving st; formData := formData st |}.

Definition setEditingFood (f : option Food.t) (st : State) : State :=
  {| foods := foods st; loading := loading st; searchTerm := searchTerm st;
     showModal := showModal st; editingFood := f;
     saving := saving st; formData := formData st |}.

Definition setSaving (b : bool) (st : State) : State :=
  {| foods := foods st; loading := loading st; searchTerm := searchTerm st;
     showModal := showModal st; editingFood := editingFood st;
     saving := b; formData := formData st |}.

Definition setFormData (d : FormData.t) (st : State) : State :=
  {| foods := foods st; loading := loading st; searchTerm := searchTerm st;
     showModal := showModal st; editingFood := editingFood st;
     saving := saving st; formData := d |}.

(** The requests sent to the table [tabela_taco]. *)
Inductive Request :=
| select
| update (foodData : FormData.t) (id : number)
| insert (foodData : FormData.t)
| delete (id : number).

(** What a handler does besides updating the state: a request to the table,
    an [alert], a [confirm]. (What is written to the console is left out.) *)
Inductive Effect :=
| query (r : Request)
| alert (message : jsstring)
| confirm (message : jsstring).

(** The answer to a write: no error, an error with its message, or an
    exception. *)
Inductive WriteAnswer :=
| WriteOk
| WriteError (message : jsstring)
| WriteThrown (message : jsstring).

(** The answer to the select: an error, the rows (or none), or an
    exception. *)
Inductive LoadAnswer :=
| LoadError
| LoadData (data : option (list Food.t))
| LoadThrown (message : jsstring).

(** [loadFoods()]: the state it leaves, and the exception it ends with if the
    select throws. *)
Definition loadFoods (answer : LoadAnswer) (st : State) : State * option jsstring :=
  let st1 := setLoading true st in
  match answer with
  | LoadThrown message => (st1, Some message)
  | LoadError => (setLoading false st1, None)
  | LoadData data =>
      (setLoading false
         (setFoods (match data with Some rows => rows | None => [] end) st1),
       None)
  end.

Definition resetForm (st : State) : State :=
  setShowModal false (setEditingFood None (setFormData emptyForm st)).

(** [s || d] on strings: the empty string is falsy. *)
Definition orText (s d : jsstring) : jsstring :=
  match s with
  | [] => d
  | _ => s
  end.

(** The row [handleSubmit] writes. *)
Definition foodDataOf (d : FormData.t) : FormData.t :=
  {| FormData.alimento := trim (FormData.alimento d);
     FormData.caloria := orText (FormData.caloria d) (lit "0");
     FormData.proteina := orText (FormData.proteina d) (lit "0");
     FormData.carboidrato := orText (FormData.carboidrato d) (lit "0");
     FormData.fibra := orText (FormData.fibra d) (lit "0");
     FormData.gordura := orText (FormData.gordura d) (lit "0") |}.

(** [handleSubmit(e)], run to its end on the answers of the write and of the
    select that follows it. *)
Definition handleSubmit (written : WriteAnswer) (loaded : LoadAnswer) (st : State)
    : State * list Effect :=
  match trim (FormData.alimento (formData st)) with
  | [] => (st, [alert (lit "Nome do alimento e obrigatorio")])
  | _ =>
      let st1 := setSaving true st in
      let foodData := foodDataOf (formData st) in
      let request :=
        match editingFood st with
        | Some food => update foodData (Food.id food)
        | None => insert foodData
        end in
      match written with
      | WriteError message =>
          (setSaving false st1,
           [query request;
            alert ((match editingFood st with
                    | Some _ => lit "Erro ao atualizar: "
                    | None => lit "Erro ao adicionar: "
                    end) ++ message)])
      | WriteThrown message =>
          (setSaving false st1,
           [query request; alert (lit "Erro ao salvar: " ++ message)])
      | WriteOk =>
          let (st2, thrown) := loadFoods loaded (resetForm st1) in
          match thrown with
          | Some message =>
              (setSaving false st2,
               [query request; query select; alert (lit "Erro ao salvar: " ++ message)])
          | None => (setSaving false st2, [query request; query select])
          end
      end
  end.

Definition handleEdit (food : Food.t) (st : State) : State :=
  setShowModal true
    (setFormData
       {| FormData.alimento := orText (Food.alimento food) [];
          FormData.caloria := orText (Food.caloria food) [];
          FormData.proteina := orText (Food.proteina food) [];
          FormData.carboidrato := orText (Food.carboidrato food) [];
          FormData.fibra := orText (Food.fibra food) [];
          FormData.gordura :=
            match Food.gordura food with
            | Some g => orText g []
            | None => []
            end |}
       (setEditingFood (Some food) st)).

(** The question [handleDelete] asks: the name between double quotes. *)
Definition deleteQuestion (food : Food.t) : jsstring :=
  lit "Tem certeza que deseja excluir " ++ [34%N] ++ Food.alimento food ++ [34%N; 63%N].

(** [handleDelete(food)], on the answer to the question and the answers of the
    delete and of the select, which is started and not awaited. *)
Definition handleDelete (food : Food.t) (confirmed : bool)
    (deleted : WriteAnswer) (loaded : LoadAnswer) (st : State) : State * list Effect :=
  if negb confirmed then (st, [confirm (deleteQuestion food)])
  else
    match deleted with
    | WriteOk =>
        (fst (loadFoods loaded st),
         [confirm (deleteQuestion food); query (delete (Food.id food)); query select])
    | WriteError message | WriteThrown message =>
        (st, [confirm (deleteQuestion food); query (delete (Food.id food));
              alert (lit "Erro ao excluir: " ++ message)])
    end.

(** The "Adicionar" button. *)
Definition openNew (st : State) : State := setShowModal true (resetForm st).

Definition filteredFoods (st : State) : list Food.t :=
  filter (fun food => includes (toLowerCase (Food.alimento food))
                               (toLowerCase (searchTerm st)))
         (foods st).

Definition formatValue (value : jsstring) : jsstring :=
  match value with
  | [] => lit "-"
  | _ => if str_eqb value (lit "0") then lit "-" else value
  end.

(** What the page shows below the search box. *)
Inductive Body :=
| loadingMessage
| emptyMessage (text : jsstring)
| list (cards : list Food.t) (moreResults : option nat).

Definition body (st : State) : Body :=
  if loading st then loadingMessage
  else if (List.length (filteredFoods st) =? 0)%nat then
    emptyMessage (match searchTerm st with
                  | [] => lit "Nenhum alimento cadastrado"
                  | _ => lit "Nenhum alimento encontrado"
                  end)
  else
    list (slice0 50 (filteredFoods st))
         (if (50 <? List.length (filteredFoods st))%nat
          then Some (List.length (filteredFoods st)) else None).

End FoodLibraryManager.

(** ** [usePageData]: when a page fetches its data *)

Module usePageData.
Import JS.

(** The state of the hook and its three references. *)
Record State := {
  isInitialLoading : bool;
  isMountedRef : bool;
  lastFetchTimeRef : Z;
  isFetchingRef : bool
}.

Definition MIN_REFETCH_INTERVAL : Z := 2000.

Definition initial : State :=
  {| isInitialLoading := true; isMountedRef := false;
     lastFetchTimeRef := 0; isFetchingRef := false |}.

Definition setIsInitialLoading (b : bool) (st : State) : State :=
  {| isInitialLoading := b; isMountedRef := isMountedRef st;
     lastFetchTimeRef := lastFetchTimeRef st; isFetchingRef := isFetchingRef st |}.

(** [!userId]: the identifier is undefined or empty. *)
Definition noUser (userId : option jsstring) : bool :=
  match userId with
  | None | Some [] => true
  | Some (_ :: _) => false
  end.

(** [handleFetch(isInitial)] up to its [await fetchData()], at the time [now]
    of [Date.now()]: the state, and whether [fetchData] is called. *)
Definition handleFetchBegin (userId : option jsstring) (isInitial : bool) (now : Z)
    (st : State) : State * bool :=
  if noUser userId then (setIsInitialLoading false st, false)
  else if isFetchingRef st then (st, false)
  else if negb isInitial && (now - lastFetchTimeRef st <? MIN_REFETCH_INTERVAL)%Z
  then (st, false)
  else
    let st1 :=
      {| isInitialLoading := isInitialLoading st; isMountedRef := isMountedRef st;
         lastFetchTimeRef := now; isFetchingRef := true |} in
    (if negb (isMountedRef st1) then setIsInitialLoading true st1 else st1, true).

(** The [finally] of [handleFetch], when [fetchData] has settled. *)
Definition handleFetchEnd (st : State) : State :=
  let st1 :=
    {| isInitialLoading := isInitialLoading st; isMountedRef := isMountedRef st;
       lastFetchTimeRef := lastFetchTimeRef st; isFetchingRef := false |} in
  if negb (isMountedRef st1) then
    setIsInitialLoading false
      {| isInitialLoading := isInitialLoading st1; isMountedRef := true;
         lastFetchTimeRef := lastFetchTimeRef st1; isFetchingRef := isFetchingRef st1 |}
  else st1.

(** The hook with what it has asked of [fetchData]: the calls not yet
    settled, and the log of all calls, the latest first, each with its time
    and whether it was an initial one. *)
Record Hook := {
  refs : State;
  pending : nat;
  fetches : list (Z * bool)
}.

Definition mounted : Hook := {| refs := initial; pending := 0; fetches := [] |}.

(** [Call]: the effect of mounting and navigation ([isInitial] true), a
    visibility change to visible, a window focus or [refetch()]
    ([isInitial] false). [Settles]: a call of [fetchData] returns or throws. *)
Inductive Event :=
| Call (userId : option jsstring) (isInitial : bool) (now : Z)
| Settles.

Definition step (e : Event) (h : Hook) : Hook :=
  match e with
  | Call userId isInitial now =>
      let (st, called) := handleFetchBegin userId isInitial now (refs h) in
      {| refs := st;
         pending := if called then S (pending h) else pending h;
         fetches := if called then (now, isInitial) :: fetches h else fetches h |}
  | Settles =>
      {| refs := handleFetchEnd (refs h); pending := Nat.pred (pending h);
         fetches := fetches h |}
  end.

(** Only a call that was made settles. *)
Definition possible (h : Hook) (e : Event) : Prop :=
  match e with
  | Settles => (0 < pending h)%nat
  | Call _ _ _ => True
  end.

Inductive reachable : Hook -> Prop :=
| reachable_mounted : reachable mounted
| reachable_step h e : reachable h -> possible h e -> reachable (step e h).

End usePageData.

(** ** The specification's contracts, as it words them *)

Module Spec.
Import JS.

(** [parseLocaleNumber]: a number is returned unchanged; null, undefined and
    the empty string give 0; otherwise every comma becomes a period, the text
    is parsed as a floating-point literal, and a failed parse gives 0. *)
Definition parseLocaleNumber (input : JS.value) : number :=
  match input with
  | VNumber x => x
  | VNull | VUndefined => PrimFloat.zero
  | VString s =>
      match s with
      | [] => PrimFloat.zero
      | _ =>
          let parsed := parseFloat (replaceAll 44 46 s) in
          if PrimFloat.is_nan parsed then PrimFloat.zero else parsed
      end
  end.

Record Nutrients := {
  calories : number;
  protein : number;
  carbs : number;
  fats : number
}.

(** [scale]: [multiplier = quantityGrams / 100]; calories to the nearest whole
    unit, the macros to the nearest tenth. *)
Definition scale (per100g : Nutrients) (quantityGrams : number) : Nutrients :=
  let multiplier := (quantityGrams / 100)%float in
  {| calories := Math_round (calories per100g * multiplier);
     protein := Math_round (protein per100g * multiplier * 10) / 10;
     carbs := Math_round (carbs per100g * multiplier * 10) / 10;
     fats := Math_round (fats per100g * multiplier * 10) / 10 |}%float.

End Spec.

(** ** Predicates the statements use *)

(** Comparison of two strings by their code units, a [localeCompare] to try
    the search on. *)
Fixpoint codeUnitCompare (a b : JS.jsstring) : Z :=
  match a, b with
  | [], [] => 0
  | [], _ :: _ => -1
  | _ :: _, [] => 1
  | x :: a', y :: b' =>
      match N.compare x y with
      | Lt => -1
      | Gt => 1
      | Eq => codeUnitCompare a' b'
      end
  end%Z.

(** A comparison function is consistent when "not after" is total and
    transitive, as [localeCompare] is. *)
Definition consistent {A : Type} (cmp : A -> A -> Z) : Prop :=
  (forall a b, (cmp a b <= 0)%Z \/ (cmp b a <= 0)%Z) /\
  (forall a b c, (cmp a b <= 0)%Z -> (cmp b c <= 0)%Z -> (cmp a c <= 0)%Z).

(** [p] occurs in [s] as a contiguous substring. *)
Definition substring (p s : JS.jsstring) : Prop := exists u v, s = u ++ p ++ v.

(** [a] may stand before [b] in the ranking for the first word [w]: a name
    that starts with [w] is not after one that does not, and within each of the
    two groups the names ascend. *)
Definition rankedBefore (localeCompare : JS.jsstring -> JS.jsstring -> Z)
    (w : JS.jsstring) (a b : Database.TabelaTaco) : Prop :=
  let na := FoodSelect.normalizeText (Database.alimento a) in
  let nb := FoodSelect.normalizeText (Database.alimento b) in
  (JS.startsWith nb w = true -> JS.startsWith na w = true) /\
  (JS.startsWith na w = JS.startsWith nb w -> (localeCompare na nb <= 0)%Z).

(** Every search word occurs in the normalized name of [food]. *)
Definition everyWordOccurs (words : list JS.jsstring) (food : Database.TabelaTaco) : Prop :=
  forall w, In w words ->
    substring w (FoodSelect.normalizeText (Database.alimento food)).

(** What [parseFloat] cannot tell apart. A comma or a period that stands
    after the period of a literal ends the literal either way. [agree] relates
    two strings that are the same up to a position where each has a comma or a
    period; [agree1] relates two strings that are the same up to and including
    their first period and [agree] after it. *)
Definition isSep (c : N) : Prop := c = 44%N \/ c = 46%N.

Inductive agree : JS.jsstring -> JS.jsstring -> Prop :=
| agree_nil : agree [] []
| agree_sep c c' s s' : isSep c -> isSep c' -> agree (c :: s) (c' :: s')
| agree_cons c s s' : agree s s' -> agree (c :: s) (c :: s').

Inductive agree1 : JS.jsstring -> JS.jsstring -> Prop :=
| agree1_nil : agree1 [] []
| agree1_dot s s' : agree s s' -> agree1 (46%N :: s) (46%N :: s')
| agree1_cons c s s' : c <> 46%N -> agree1 s s' -> agree1 (c :: s) (c :: s').

(** The per-100 g values of a row, parsed. *)
Definition per100g (food : Database.TabelaTaco) : Spec.Nutrients :=
  {| Spec.calories := FoodSelect.parseBrazilianNumber (Database.caloria food);
     Spec.protein := FoodSelect.parseBrazilianNumber (Database.proteina food);
     Spec.carbs := FoodSelect.parseBrazilianNumber (Database.carboidrato food);
     Spec.fats := FoodSelect.parseBrazilianNumber (Database.gordura food) |}.

(** The scaled values an item carries. *)
Definition nutrientsOf (f : AddExtraMealModal.ExtraFood) : Spec.Nutrients :=
  {| Spec.calories := AddExtraMealModal.calories f;
     Spec.protein := AddExtraMealModal.protein f;
     Spec.carbs := AddExtraMealModal.carbs f;
     Spec.fats := AddExtraMealModal.fats f |}.

(** The sum of a list of whole numbers. *)
Definition Zsum (l : list Z) : Z := fold_right Z.add 0%Z l.

(** [erased p l l']: [l'] is [l] with exactly the elements satisfying [p]
    taken out, the others kept as they are and in their order. *)
Inductive erased {A : Type} (p : A -> Prop) : list A -> list A -> Prop :=
| erased_nil : erased p [] []
| erased_drop x l l' : p x -> erased p l l' -> erased p (x :: l) l'
| erased_keep x l l' : ~ p x -> erased p l l' -> erased p (x :: l) (x :: l').

(** The matching candidates in ranked order, before the result is cut. *)
Definition rankedMatches (localeCompare : JS.jsstring -> JS.jsstring -> Z)
    (term : JS.jsstring) (data : list Database.TabelaTaco) : list Database.TabelaTaco :=
  let words := FoodSelect.searchWordsOf term in
  JS.sort (FoodSelect.byRelevance localeCompare words)
          (filter (FoodSelect.matchesAll words) data).

(** ** The values of binary64 numbers

    What the statements about rounding and drift are written with: the real
    value of a positive normal number, the canonical form of a whole number,
    and "equal up to [k] roundings". *)

(** [2^e] as a real number. *)
Definition bpow (e : Z) : R := powerRZ 2 e.

(** The unit roundoff bound of binary64 used here: [2^-52]. *)
Definition u : R := bpow (-52).

(** A bound on [(1 + u)^k - 1] for up to eight roundings: [2^-40]. *)
Definition eps : R := / 1099511627776.

(** [x] is a positive normal number whose value is [v]. *)
Definition posval (x : float) (v : R) : Prop :=
  exists m e, Prim2SF x = S754_finite false m e /\
              Zpos (digits2_pos m) = 53%Z /\
              v = (IZR (Zpos m) * bpow e)%R.

(** The canonical form of the whole number [n], of at most 53 bits: the
    mantissa shifted to 53 bits. *)
Definition canon (n : positive) : spec_float :=
  S754_finite false (Pos.shiftl n (Z.to_N (53 - Zpos (digits2_pos n))))
                    (Zpos (digits2_pos n) - 53).

(** [v] and [x] are positive and within a factor [(1 + u)^k] of each other. *)
Definition near (k : nat) (v x : R) : Prop :=
  (0 < x /\ v <= x * (1 + u) ^ k /\ x <= v * (1 + u) ^ k)%R.

(** ** Predicates of the components' states *)

(** The highlighted index points into the list of foods, when there is one. *)
Definition highlightValid (st : FoodSelect.State) : Prop :=
  FoodSelect.foods st <> [] ->
  (FoodSelect.highlightedIndex st < List.length (FoodSelect.foods st))%nat.

(** The events of the inline search under a parent that controls it: the
    [value] it passes is the one [onChange] told it last, which is the term. *)
Definition controlled (st : FoodSelect.State) (e : FoodSelect.Event) : Prop :=
  FoodSelect.possible st e /\
  (forall value, e = FoodSelect.ValueProp value -> value = FoodSelect.searchTerm st).

(** [n] presses of the key [key]. *)
Definition pressed (key : JS.jsstring) (n : nat) (st : FoodSelect.State) : FoodSelect.State :=
  Nat.iter n (fun s => fst (FoodSelect.handleKeyDown key s)) st.

(** A piece of a split that is a word. *)
Definition nonEmpty (w : JS.jsstring) : bool := (0 <? JS.length w)%nat.

(** A text normalized but for the trimming. *)
Definition folded (text : JS.jsstring) : JS.jsstring :=
  JS.replaceAll 44 32 (JS.stripMarks (JS.normalizeNFD (JS.toLowerCase text))).

(** A code unit below 256 that normalization leaves as it is. *)
Definition settled (c : N) : bool :=
  (c <? 256)%N && (JS.lowerUnit c =? c)%N && JS.str_eqb (JS.decompose c) [c]
  && negb (JS.isCombiningMark c) && negb (c =? 44)%N.

(** The identifiers of the items of the dialog. *)
Definition ids (st : AddExtraMealModal.State) : list JS.jsstring :=
  map AddExtraMealModal.id (AddExtraMealModal.foods st).

(** The rows that the requests among [effects] write to the table. *)
Definition writes (effects : list FoodLibraryManager.Effect)
    : list FoodLibraryManager.FormData.t :=
  flat_map (fun e =>
    match e with
    | FoodLibraryManager.query (FoodLibraryManager.update d _)
    | FoodLibraryManager.query (FoodLibraryManager.insert d) => [d]
    | _ => []
    end) effects.

(** The values of a row of the table, as a form holds them. *)
Definition formOf (food : FoodLibraryManager.Food.t) : FoodLibraryManager.FormData.t :=
  {| FoodLibraryManager.FormData.alimento := FoodLibraryManager.Food.alimento food;
     FoodLibraryManager.FormData.caloria := FoodLibraryManager.Food.caloria food;
     FoodLibraryManager.FormData.proteina := FoodLibraryManager.Food.proteina food;
     FoodLibraryManager.FormData.carboidrato := FoodLibraryManager.Food.carboidrato food;
     FoodLibraryManager.FormData.fibra := FoodLibraryManager.Food.fibra food;
     FoodLibraryManager.FormData.gordura :=
       match FoodLibraryManager.Food.gordura food with
       | Some g => g
       | None => []
       end |}.

(** Every call of [fetchData] that was not an initial one came at least the
    minimum interval after the call before it (after time 0, for the first
    call). The log has the latest call first. *)
Fixpoint throttled (log : list (Z * bool)) : Prop :=
  match log with
  | [] => True
  | (now, isInitial) :: earlier =>
      (isInitial = false ->
       (hd 0 (map fst earlier) + usePageData.MIN_REFETCH_INTERVAL <= now)%Z) /\
      throttled earlier
  end.

(** At most one call of [fetchData] has not settled, and [isFetchingRef] tells
    whether one has not. *)
Definition exclusive (h : usePageData.Hook) : Prop :=
  (usePageData.pending h <= 1)%nat /\
  (usePageData.isFetchingRef (usePageData.refs h) = true <-> usePageData.pending h = 1%nat).

(** Once a call has settled, the page is not in its initial loading. *)
Definition settledOnce (h : usePageData.Hook) : Prop :=
  usePageData.isMountedRef (usePageData.refs h) = true ->
  usePageData.isInitialLoading (usePageData.refs h) = false.

(** The time kept in [lastFetchTimeRef] is that of the latest call. *)
Definition logged (h : usePageData.Hook) : Prop :=
  usePageData.lastFetchTimeRef (usePageData.refs h)
    = hd 0%Z (map fst (usePageData.fetches h)) /\
  throttled (usePageData.fetches h).

(** [acc] is the binary64 sum of tenths that add up to [S] tenths, within [k]
    roundings: zero when [S] is zero. *)
Definition sumsTo (acc : float) (S : Z) (k : nat) : Prop :=
  (S = 0%Z /\ acc = PrimFloat.zero) \/
  ((0 < S)%Z /\ exists v, posval acc v /\ near k v (IZR S / 10)%R).

(** The item [f] carries [c] kcal and [p], [g] and [t] tenths of a gram of
    protein, carbohydrate and fat. *)
Definition carries (f : AddExtraMealModal.ExtraFood) (q : Z * Z * Z * Z) : Prop :=
  let '(c, p, g, t) := q in
  (0 <= c /\ 0 <= p /\ 0 <= g /\ 0 <= t)%Z /\
  AddExtraMealModal.calories f = JS.Z2F c /\
  AddExtraMealModal.protein f = (JS.Z2F p / 10)%float /\
  AddExtraMealModal.carbs f = (JS.Z2F g / 10)%float /\
  AddExtraMealModal.fats f = (JS.Z2F t / 10)%float.

Definition kcalOf (q : Z * Z * Z * Z) : Z := let '(c, _, _, _) := q in c.
Definition proteinOf (q : Z * Z * Z * Z) : Z := let '(_, p, _, _) := q in p.
Definition carbsOf (q : Z * Z * Z * Z) : Z := let '(_, _, g, _) := q in g.
Definition fatsOf (q : Z * Z * Z * Z) : Z := let '(_, _, _, t) := q in t.

(** The code unit of the digit [d]. *)
Definition digitUnit (d : Z) : N := Z.to_N (48 + d)%Z.

(** A numeral: digits, the first of which is not 0 unless it is alone. *)
Definition numeral (ds : JS.jsstring) : Prop :=
  ds <> [] /\ forallb JS.isDigit ds = true /\
  (forall r, ds = 48%N :: r -> r = []).

(** The quantity of the item is between 1 and 500 g. *)
Definition gramsInRange (f : AddExtraMealModal.ExtraFood) : Prop :=
  (1 <=? AddExtraMealModal.quantity f)%float = true /\
  (AddExtraMealModal.quantity f <=? 500)%float = true.

(** Each of the four whole values is at most [b]. *)
Definition within (b : Z) (q : Z * Z * Z * Z) : Prop :=
  (kcalOf q <= b /\ proteinOf q <= b /\ carbsOf q <= b /\ fatsOf q <= b)%Z.

(** A value of the table written as a whole number below a million, with no
    leading zero, or as such a number, a comma or a point, and one digit. *)
Definition tableNumber (v : JS.value) : Prop :=
  exists D, numeral D /\ (JS.digitsValue D < 1000000)%Z /\
    (v = JS.VString D \/
     exists d, JS.isDigit d = true /\
       (v = JS.VString (D ++ [44; d]%N) \/ v = JS.VString (D ++ [46; d]%N))).

(** ** Sample data *)

Definition sampleFood (n : Z) (nm : JS.jsstring) : Database.TabelaTaco :=
  {| Database.id := JS.VNumber (JS.Z2F n);
     Database.alimento := nm;
     Database.caloria := JS.VString (JS.lit "124");
     Database.proteina := JS.VString (JS.lit "2,5");
     Database.carboidrato := JS.VString (JS.lit "25,8");
     Database.gordura := JS.VString (JS.lit "1,0") |}.

(** Twenty-one rows, "bananaa" to "bananau". *)
Definition bananas : list Database.TabelaTaco :=
  map (fun k => sampleFood (Z.of_nat k) (JS.lit "banana" ++ [N.of_nat (97 + k)]))
      (seq 0 21).

Definition fruits : list Database.TabelaTaco :=
  [sampleFood 1 (JS.lit "Banana prata"); sampleFood 2 (JS.lit "Abacate");
   sampleFood 3 (JS.lit "Banana nanica")].

(** Four names, two of which hold both "arr" and "int". *)
Definition grains : list Database.TabelaTaco :=
  [sampleFood 1 (JS.lit "Arroz, integral, cozido");
   sampleFood 2 (JS.lit "Arroz branco");
   sampleFood 3 (JS.lit "Farinha integral de arroz");
   sampleFood 4 (JS.lit "Macarrao")].

Definition modal0 : AddExtraMealModal.State :=
  {| AddExtraMealModal.mealName := [];
     AddExtraMealModal.foods := [];
     AddExtraMealModal.searchTerm := [];
     AddExtraMealModal.searchResults := [];
     AddExtraMealModal.loading := false;
     AddExtraMealModal.selectedFood := None;
     AddExtraMealModal.quantityInput := JS.lit "100" |}.

Definition inline0 (term : JS.jsstring) : FoodSelect.State :=
  {| FoodSelect.isOpen := true;
     FoodSelect.searchTerm := term;
     FoodSelect.foods := [];
     FoodSelect.loading := false;
     FoodSelect.selectedFood := None;
     FoodSelect.highlightedIndex := 0 |}.

(** The dialog with cooked brown rice selected and 150 g typed. *)
Definition modalRice : AddExtraMealModal.State :=
  {| AddExtraMealModal.mealName := [];
     AddExtraMealModal.foods := [];
     AddExtraMealModal.searchTerm := JS.lit "Arroz, integral, cozido";
     AddExtraMealModal.searchResults := [];
     AddExtraMealModal.loading := false;
     AddExtraMealModal.selectedFood :=
       Some (sampleFood 1 (JS.lit "Arroz, integral, cozido"));
     AddExtraMealModal.quantityInput := JS.lit "150" |}.

(** The dialog holding the items [l]. *)
Definition stateWith (l : list AddExtraMealModal.ExtraFood) : AddExtraMealModal.State :=
  AddExtraMealModal.setFoods l modal0.

(** An item of 100 g with [c] kcal and [p] tenths of a gram of protein. *)
Definition sampleItem (ident : JS.jsstring) (c p : Z) : AddExtraMealModal.ExtraFood :=
  {| AddExtraMealModal.id := ident;
     AddExtraMealModal.name := JS.lit "item";
     AddExtraMealModal.quantity := 100%float;
     AddExtraMealModal.calories := JS.Z2F c;
     AddExtraMealModal.protein := (JS.Z2F p / 10)%float;
     AddExtraMealModal.carbs := 0%float;
     AddExtraMealModal.fats := 0%float |}.

(** A meal of two items. *)
Definition twoItems : AddExtraMealModal.State :=
  stateWith [sampleItem (JS.lit "a") 186 38; sampleItem (JS.lit "b") 100 1].

(** Rice added at 150 g. *)
Definition riceAdded : AddExtraMealModal.State :=
  AddExtraMealModal.addFoodToMeal (fun n => n) (JS.lit "id-1") modalRice.

(** The rice item once its quantity field has been emptied. *)
Definition riceEmptied : AddExtraMealModal.ExtraFood :=
  {| AddExtraMealModal.id := JS.lit "id-1";
     AddExtraMealModal.name := JS.lit "Arroz, integral, cozido";
     AddExtraMealModal.quantity := 0%float;
     AddExtraMealModal.calories := 0%float;
     AddExtraMealModal.protein := 0%float;
     AddExtraMealModal.carbs := 0%float;
     AddExtraMealModal.fats := 0%float |}.

(** The inline search after the events [events]. *)
Definition played (localeCompare : JS.jsstring -> JS.jsstring -> Z)
    (events : list FoodSelect.Event) (st : FoodSelect.State) : FoodSelect.State :=
  fold_left (fun s e => FoodSelect.step localeCompare e s) events st.

(** "banana" is typed, the timer fires and the three fruits are fetched. *)
Definition bananaTyped : list FoodSelect.Event :=
  [FoodSelect.InputChange (JS.lit "banana"); FoodSelect.TimerFires;
   FoodSelect.FetchAnswers (JS.lit "banana") (Database.Rows fruits)].

Definition bananaListed : FoodSelect.State :=
  played codeUnitCompare bananaTyped (FoodSelect.initial []).

(** A row of the library and the library holding it. *)
Definition libraryRice : FoodLibraryManager.Food.t :=
  {| FoodLibraryManager.Food.id := 7%float;
     FoodLibraryManager.Food.alimento := JS.lit "Arroz, integral, cozido";
     FoodLibraryManager.Food.caloria := JS.lit "124";
     FoodLibraryManager.Food.proteina := JS.lit "2,5";
     FoodLibraryManager.Food.carboidrato := JS.lit "25,8";
     FoodLibraryManager.Food.fibra := JS.lit "2,7";
     FoodLibraryManager.Food.gordura := Some (JS.lit "1,0");
     FoodLibraryManager.Food.created_at := None |}.

Definition libraryLoaded : FoodLibraryManager.State :=
  fst (FoodLibraryManager.loadFoods
         (FoodLibraryManager.LoadData (Some [libraryRice])) FoodLibraryManager.initial).

(** The form for a new row named " Feijao " with 77 kcal and the rest left
    empty. *)
Definition libraryTyping : FoodLibraryManager.State :=
  FoodLibraryManager.setFormData
    {| FoodLibraryManager.FormData.alimento := JS.lit " Feijao ";
       FoodLibraryManager.FormData.caloria := JS.lit "77";
       FoodLibraryManager.FormData.proteina := [];
       FoodLibraryManager.FormData.carboidrato := [];
       FoodLibraryManager.FormData.fibra := [];
       FoodLibraryManager.FormData.gordura := [] |}
    (FoodLibraryManager.openNew libraryLoaded).

(** A page that fetched at time 1000, saw the fetch settle, and fetches again
    at time 5000 on a window focus. *)
Definition pageRefetching : usePageData.Hook :=
  usePageData.step (usePageData.Call (Some (JS.lit "u1")) false 5000)
    (usePageData.step usePageData.Settles
       (usePageData.step (usePageData.Call (Some (JS.lit "u1")) true 1000)
          usePageData.mounted)).

(** Some values, to try the platform on. *)
Example parseFloat_examples :
  JS.parseFloat (JS.lit "2.5") = 2.5%float /\
  JS.parseFloat (JS.lit "  -12.75e1xyz") = (-127.5)%float /\
  JS.parseFloat (JS.lit "1.234.5") = 1.234%float /\
  JS.parseFloat (JS.lit ".5") = 0.5%float /\
  JS.parseFloat (JS.lit "5.e3") = 5000%float /\
  JS.parseFloat (JS.lit "1e400") = infinity /\
  JS.parseFloat (JS.lit "-Infinityx") = neg_infinity /\
  JS.parseFloat (JS.lit "0.1") = 0.1%float /\
  JS.parseFloat (JS.lit "25,8") = 25%float /\
  JS.parseFloat (JS.lit "abc") = nan /\
  JS.parseFloat [] = nan /\
  JS.parseFloat (JS.lit "17976931348623157e292") = 1.7976931348623157e308%float /\
  JS.parseFloat (JS.lit "4.9e-324") = 5e-324%float /\
  JS.parseFloat (JS.lit "2e-324") = 0%float.
Proof. vm_compute. repeat split; reflexivity. Qed.

Example Math_round_examples :
  JS.Math_round 37.5%float = 38%float /\ JS.Math_round (-37.5)%float = (-37)%float /\
  JS.Math_round 2.4%float = 2%float /\ JS.Math_round (-0.2)%float = neg_zero /\
  JS.Math_round 0.49999999999999994%float = 0%float /\
  JS.Math_round 4503599627370497%float = 4503599627370497%float /\
  JS.Math_round nan = nan /\ JS.Math_round infinity = infinity.
Proof. vm_compute. repeat split; reflexivity. Qed.

Example split_ws_examples :
  JS.split_ws (JS.lit "arr  int") = [JS.lit "arr"; JS.lit "int"] /\
  JS.split_ws (JS.lit " a") = [[]; JS.lit "a"] /\
  JS.split_ws [] = [[]].
Proof. vm_compute. repeat split; reflexivity. Qed.

Example numberToString_examples :
  map JS.numberToString
    [0.1; 0.30000000000000004; 100; 1.5; 1e21; 1e23; 123456789012345680000;
     9007199254740992; 1152921504606846976; 0.000001; 1e-7; 5e-324;
     1.7976931348623157e308; -2.5; 0; neg_zero; nan; neg_infinity]%float
  = map JS.lit
    ["0.1"; "0.30000000000000004"; "100"; "1.5"; "1e+21"; "1e+23";
     "123456789012345680000"; "9007199254740992"; "1152921504606847000";
     "0.000001"; "1e-7"; "5e-324"; "1.7976931348623157e+308"; "-2.5"; "0"; "0";
     "NaN"; "-Infinity"]%string.
Proof. vm_compute. reflexivity. Qed.

Example toFixed_examples :
  map (JS.toFixed 1)
    [0.25; 0.35; 2.5; 0.6000000000000001; 0; neg_zero; -0.04; 1e21; nan;
     infinity; 38.7; 1234.56]%float
  = map JS.lit
    ["0.3"; "0.3"; "2.5"; "0.6"; "0.0"; "0.0"; "-0.0"; "1e+21"; "NaN";
     "Infinity"; "38.7"; "1234.6"]%string /\
  map (JS.toFixed 0) [2.5; -2.5; 0.5; 1.4]%float
  = map JS.lit ["3"; "-3"; "1"; "1"]%string.
Proof. vm_compute. split; reflexivity. Qed.

(** * Properties *)

Import JS Database.

(** ** Strings *)

Lemma str_eqb_eq (a b : jsstring) : str_eqb a b = true <-> a = b.
Proof.
  unfold str_eqb. destruct (list_eq_dec N.eq_dec a b); split; congruence.
Qed.

Lemma str_eqb_neq (a b : jsstring) : str_eqb a b = false <-> a <> b.
Proof.
  unfold str_eqb. destruct (list_eq_dec N.eq_dec a b); split; congruence.
Qed.

Lemma startsWith_prefix (s p : jsstring) :
  startsWith s p = true <-> exists v, s = p ++ v.
Proof.
  revert s. induction p as [|a p IH]; intros s; simpl.
  - split; [intros _; now exists s | intros _; now destruct s].
  - destruct s as [|c s]; simpl.
    + split; [discriminate | intros [v H]; discriminate].
    + rewrite andb_true_iff, N.eqb_eq, IH. split.
      * intros [-> [v ->]]. now exists v.
      * intros [v H]. injection H as -> ->. split; [reflexivity | now exists v].
Qed.

Lemma includes_substring (s p : jsstring) :
  includes s p = true <-> substring p s.
Proof.
  unfold substring. induction s as [|c s IH]; cbn [includes].
  - rewrite orb_false_r, startsWith_prefix. split.
    + intros [v H]. now exists [], v.
    + intros [u [v H]]. destruct u; simpl in H.
      * now exists v.
      * discriminate.
  - rewrite orb_true_iff, IH, startsWith_prefix. split.
    + intros [[v H] | [u [v H]]].
      * now exists [], v.
      * exists (c :: u), v. simpl. now rewrite H.
    + intros [u [v H]]. destruct u as [|c' u]; simpl in H.
      * left. now exists v.
      * right. injection H as _ H. now exists u, v.
Qed.

Lemma trimStart_suffix (s : jsstring) :
  exists w, s = w ++ trimStart s /\ forallb isWhiteSpace w = true.
Proof.
  induction s as [|c s [w [H1 H2]]]; simpl.
  - now exists [].
  - destruct (isWhiteSpace c) eqn:E.
    + exists (c :: w). simpl. rewrite E, H2. split; [now f_equal | reflexivity].
    + now exists [].
Qed.

Lemma trimStart_head (s : jsstring) c r :
  trimStart s = c :: r -> isWhiteSpace c = false.
Proof.
  induction s as [|d s IH]; simpl; [discriminate|].
  destruct (isWhiteSpace d) eqn:E; [exact IH|].
  intros H. injection H as -> _. exact E.
Qed.

Lemma trimEnd_prefix (s : jsstring) :
  exists w, s = trimEnd s ++ w /\ forallb isWhiteSpace w = true.
Proof.
  unfold trimEnd. destruct (trimStart_suffix (rev s)) as [w [H1 H2]].
  exists (rev w). split.
  - rewrite <- rev_app_distr, <- H1. now rewrite rev_involutive.
  - rewrite forallb_forall in *. intros x Hx. apply H2. now apply in_rev.
Qed.

Lemma trim_head (s : jsstring) c r : trim s = c :: r -> isWhiteSpace c = false.
Proof.
  unfold trim. intros H.
  destruct (trimEnd_prefix (trimStart s)) as [w [H1 _]].
  rewrite H in H1. simpl in H1. exact (trimStart_head _ _ _ H1).
Qed.

Lemma trim_last (s : jsstring) c r : trim s = r ++ [c] -> isWhiteSpace c = false.
Proof.
  unfold trim, trimEnd. intros H.
  apply (f_equal (@rev N)) in H. rewrite rev_involutive, rev_app_distr in H.
  simpl in H. exact (trimStart_head _ _ _ H).
Qed.

Lemma trim_incl (s : jsstring) c : In c (trim s) -> In c s.
Proof.
  unfold trim. intros H.
  destruct (trimEnd_prefix (trimStart s)) as [w [H1 _]].
  destruct (trimStart_suffix s) as [w' [H2 _]].
  rewrite H2, H1. apply in_or_app. right. apply in_or_app. now left.
Qed.

(** ** Sorting *)

Section SortFacts.
Context {A : Type} (cmp : A -> A -> Z).

Lemma insert_perm x l : Permutation (insert cmp x l) (x :: l).
Proof.
  induction l as [|y l IH]; simpl; [reflexivity|].
  destruct (cmp x y <=? 0)%Z; [reflexivity|].
  rewrite IH. apply perm_swap.
Qed.

Lemma sort_perm l : Permutation (sort cmp l) l.
Proof.
  induction l as [|x l IH]; simpl; [reflexivity|].
  rewrite insert_perm. now constructor.
Qed.

Hypothesis Hcmp : consistent cmp.

Lemma insert_sorted x l :
  StronglySorted (fun a b => (cmp a b <= 0)%Z) l ->
  StronglySorted (fun a b => (cmp a b <= 0)%Z) (insert cmp x l).
Proof.
  destruct Hcmp as [Htot Htrans].
  induction 1 as [|y l Hs IH Hy]; simpl.
  - constructor; constructor.
  - destruct (Z.leb_spec (cmp x y) 0) as [Hle|Hgt].
    + constructor; [now constructor|].
      constructor; [exact Hle|].
      rewrite Forall_forall in *. intros z Hz. eauto.
    + constructor; [exact IH|].
      rewrite Forall_forall in *. intros z Hz.
      apply (Permutation_in _ (insert_perm x l)) in Hz.
      destruct Hz as [<- | Hz]; [|now apply Hy].
      destruct (Htot x y); [lia | assumption].
Qed.

Lemma sort_sorted l : StronglySorted (fun a b => (cmp a b <= 0)%Z) (sort cmp l).
Proof.
  induction l as [|x l IH]; simpl; [constructor | now apply insert_sorted].
Qed.
End SortFacts.

Lemma StronglySorted_firstn {A} (R : A -> A -> Prop) n l :
  StronglySorted R l -> StronglySorted R (firstn n l).
Proof.
  intros H. revert n. induction H as [|x l Hs IH Hx]; intros [|n]; simpl;
    try constructor.
  - apply IH.
  - rewrite Forall_forall in *. intros y Hy. apply Hx.
    rewrite <- (firstn_skipn n l). apply in_or_app. now left.
Qed.

Lemma StronglySorted_impl {A} (R R' : A -> A -> Prop) l :
  (forall a b, R a b -> R' a b) -> StronglySorted R l -> StronglySorted R' l.
Proof.
  intros HR. induction 1 as [|x l Hs IH Hx]; constructor; [exact IH|].
  rewrite Forall_forall in *. auto.
Qed.

Lemma codeUnitCompare_consistent : consistent codeUnitCompare.
Proof.
  split.
  - induction a as [|x a IH]; destruct b as [|y b]; simpl; try lia.
    rewrite (N.compare_antisym x y).
    destruct (N.compare x y); simpl; try lia. apply IH.
  - induction a as [|x a IH]; destruct b as [|y b]; destruct c as [|z c];
      simpl; try lia.
    destruct (N.compare_spec x y) as [->|Hxy|Hxy]; try lia.
    + destruct (N.compare_spec y z) as [->|Hyz|Hyz]; try lia. apply IH.
    + destruct (N.compare_spec y z) as [->|Hyz|Hyz]; try lia.
      * intros _ _. destruct (N.compare_spec x z); lia.
      * intros _ _. destruct (N.compare_spec x z); lia.
Qed.

(** ** Search: the pieces shared by the two components *)

Lemma normalizeText_same text :
  AddExtraMealModal.normalizeText text = FoodSelect.normalizeText text.
Proof. reflexivity. Qed.

Lemma searchWordsOf_same term :
  AddExtraMealModal.searchWordsOf term = FoodSelect.searchWordsOf term.
Proof. reflexivity. Qed.

Lemma matchesAll_same words food :
  AddExtraMealModal.matchesAll words food = FoodSelect.matchesAll words food.
Proof. reflexivity. Qed.

Lemma byRelevance_same lc words a b :
  AddExtraMealModal.byRelevance lc words a b = FoodSelect.byRelevance lc words a b.
Proof. reflexivity. Qed.

Lemma matchesAll_spec words food :
  FoodSelect.matchesAll words food = true <-> everyWordOccurs words food.
Proof.
  unfold FoodSelect.matchesAll, everyWordOccurs. rewrite forallb_forall.
  split; intros H w Hw; apply includes_substring; auto.
Qed.

Lemma searchWords_nonempty term w :
  In w (FoodSelect.searchWordsOf term) -> w <> [].
Proof.
  unfold FoodSelect.searchWordsOf. rewrite filter_In. intros [_ H] ->.
  discriminate H.
Qed.

Section Ranking.
Variable localeCompare : jsstring -> jsstring -> Z.
Variable words : list jsstring.

Lemma byRelevance_ranked a b :
  (FoodSelect.byRelevance localeCompare words a b <= 0)%Z ->
  rankedBefore localeCompare (hd [] words) a b.
Proof.
  unfold FoodSelect.byRelevance, rankedBefore. cbv zeta.
  destruct (startsWith (FoodSelect.normalizeText (alimento a)) (hd [] words));
    destruct (startsWith (FoodSelect.normalizeText (alimento b)) (hd [] words));
    simpl; intros H; split; intros; try congruence; try lia.
Qed.

Hypothesis Hlc : consistent localeCompare.

Lemma byRelevance_consistent :
  consistent (FoodSelect.byRelevance localeCompare words).
Proof.
  destruct Hlc as [Htot Htrans]. unfold FoodSelect.byRelevance. split.
  - intros a b.
    destruct (startsWith (FoodSelect.normalizeText (alimento a)) (hd [] words));
      destruct (startsWith (FoodSelect.normalizeText (alimento b)) (hd [] words));
      simpl; try lia; apply Htot.
  - intros a b c.
    destruct (startsWith (FoodSelect.normalizeText (alimento a)) (hd [] words));
      destruct (startsWith (FoodSelect.normalizeText (alimento b)) (hd [] words));
      destruct (startsWith (FoodSelect.normalizeText (alimento c)) (hd [] words));
      simpl; try lia; apply Htrans.
Qed.

Lemma ranked_sorted l :
  StronglySorted (rankedBefore localeCompare (hd [] words))
    (sort (FoodSelect.byRelevance localeCompare words) l).
Proof.
  eapply StronglySorted_impl; [apply byRelevance_ranked|].
  apply sort_sorted, byRelevance_consistent.
Qed.
End Ranking.

(** What the two searches leave in their result lists. *)
Lemma modal_results lc term data st :
  AddExtraMealModal.searchResults
    (AddExtraMealModal.searchFoods lc term (Rows data) st) =
  if (JS.length term <? 2)%nat then []
  else firstn 20 (sort (FoodSelect.byRelevance lc (FoodSelect.searchWordsOf term))
                       (filter (FoodSelect.matchesAll (FoodSelect.searchWordsOf term)) data)).
Proof.
  unfold AddExtraMealModal.searchFoods. destruct (JS.length term <? 2)%nat; reflexivity.
Qed.

Lemma inline_results lc data st :
  FoodSelect.foods (FoodSelect.searchFoods lc (Rows data) st) =
  if (JS.length (FoodSelect.searchTerm st) <? 2)%nat then []
  else firstn 30
         (sort (FoodSelect.byRelevance lc (FoodSelect.searchWordsOf (FoodSelect.searchTerm st)))
               (filter (FoodSelect.matchesAll (FoodSelect.searchWordsOf (FoodSelect.searchTerm st))) data)).
Proof.
  unfold FoodSelect.searchFoods.
  destruct (JS.length (FoodSelect.searchTerm st) <? 2)%nat; reflexivity.
Qed.

Lemma In_ranked_prefix lc words data n x :
  In x (firstn n (sort (FoodSelect.byRelevance lc words)
                       (filter (FoodSelect.matchesAll words) data))) ->
  In x data /\ everyWordOccurs words x.
Proof.
  intros H.
  assert (H' : In x (filter (FoodSelect.matchesAll words) data)).
  { apply (Permutation_in _ (sort_perm (FoodSelect.byRelevance lc words) _)).
    rewrite <- (firstn_skipn n (sort _ _)). apply in_or_app. now left. }
  apply filter_In in H'. destruct H' as [H1 H2]. split; [exact H1|].
  now apply matchesAll_spec.
Qed.

Lemma ranked_prefix_complete lc words data n x :
  (List.length (filter (FoodSelect.matchesAll words) data) <= n)%nat ->
  In x data -> everyWordOccurs words x ->
  In x (firstn n (sort (FoodSelect.byRelevance lc words)
                       (filter (FoodSelect.matchesAll words) data))).
Proof.
  intros Hn Hx Hw.
  rewrite firstn_all2.
  - apply (Permutation_in _ (Permutation_sym (sort_perm _ _))).
    apply filter_In. split; [exact Hx | now apply matchesAll_spec].
  - now rewrite (Permutation_length (sort_perm _ _)).
Qed.

Lemma modal_results_ranked lc term data st :
  AddExtraMealModal.searchResults
    (AddExtraMealModal.searchFoods lc term (Rows data) st) =
  if (JS.length term <? 2)%nat then [] else firstn 20 (rankedMatches lc term data).
Proof. apply modal_results. Qed.

Lemma inline_results_ranked lc data st :
  FoodSelect.foods (FoodSelect.searchFoods lc (Rows data) st) =
  if (JS.length (FoodSelect.searchTerm st) <? 2)%nat then []
  else firstn 30 (rankedMatches lc (FoodSelect.searchTerm st) data).
Proof. apply inline_results. Qed.

(** ** C3: which candidates a search returns *)

(** C3. The filter of each search keeps a candidate if and only if every
    word of the query occurs in the candidate's normalized name, as a
    substring and wherever it stands: all the words, in any order. This
    holds for every query, and so for every query whose normalized form has a
    word. Of the four names of [grains], "arr int" keeps the two that hold
    both "arr" and "int": the "int" of "integral" is no prefix of a name, and
    in "Farinha integral de arroz" it comes before "arr"; "Macarrao" holds
    "arr" only. The searches rank and cut what the filter keeps. *)
Theorem filter_keeps_matching_candidates
    (term : jsstring) (data : list TabelaTaco) (sf : FoodSelect.State)
    (x : TabelaTaco) :
  let words := AddExtraMealModal.searchWordsOf term in
  let termF := FoodSelect.searchTerm sf in
  let wordsF := FoodSelect.searchWordsOf termF in
  (In x (filter (AddExtraMealModal.matchesAll words) data) <->
   In x data /\ everyWordOccurs words x) /\
  (In x (filter (FoodSelect.matchesAll wordsF) data) <->
   In x data /\ everyWordOccurs wordsF x) /\
  (forall localeCompare st,
     AddExtraMealModal.searchResults
       (AddExtraMealModal.searchFoods localeCompare term (Rows data) st) =
     if (JS.length term <? 2)%nat then []
     else slice0 20 (sort (AddExtraMealModal.byRelevance localeCompare words)
                          (filter (AddExtraMealModal.matchesAll words) data))) /\
  (forall localeCompare,
     FoodSelect.foods (FoodSelect.searchFoods localeCompare (Rows data) sf) =
     if (JS.length termF <? 2)%nat then []
     else slice0 30 (sort (FoodSelect.byRelevance localeCompare wordsF)
                          (filter (FoodSelect.matchesAll wordsF) data))) /\
  filter (AddExtraMealModal.matchesAll (AddExtraMealModal.searchWordsOf (lit "arr int")))
         grains
  = [sampleFood 1 (lit "Arroz, integral, cozido");
     sampleFood 3 (lit "Farinha integral de arroz")].
Proof.
  cbv zeta. split; [|split; [|split; [|split]]].
  - rewrite filter_In, <- matchesAll_spec. reflexivity.
  - rewrite filter_In, <- matchesAll_spec. reflexivity.
  - intros lc st. apply modal_results.
  - intros lc. apply inline_results.
  - vm_compute. reflexivity.
Qed.

(** X27. What a search returns, after the test of the length of the query
    and the cut of the ranked list. Every record returned is one of the
    candidates, and every query word occurs as a substring of its normalized
    name. Conversely, when the query as typed has at least two code units and
    no more candidates match than the result may hold (20 in the add-meal
    dialog, 30 in the inline search), every matching candidate is returned. *)
Theorem search_returns_matching_candidates
    (localeCompare : jsstring -> jsstring -> Z) (term : jsstring)
    (data : list TabelaTaco) (st : AddExtraMealModal.State) (sf : FoodSelect.State)
    (x : TabelaTaco) :
  let words := AddExtraMealModal.searchWordsOf term in
  let results :=
    AddExtraMealModal.searchResults
      (AddExtraMealModal.searchFoods localeCompare term (Rows data) st) in
  let wordsF := FoodSelect.searchWordsOf (FoodSelect.searchTerm sf) in
  let resultsF := FoodSelect.foods (FoodSelect.searchFoods localeCompare (Rows data) sf) in
  (In x results -> In x data /\ everyWordOccurs words x) /\
  ((2 <= JS.length term)%nat ->
   (List.length (filter (AddExtraMealModal.matchesAll words) data) <= 20)%nat ->
   In x data -> everyWordOccurs words x -> In x results) /\
  (In x resultsF -> In x data /\ everyWordOccurs wordsF x) /\
  ((2 <= JS.length (FoodSelect.searchTerm sf))%nat ->
   (List.length (filter (FoodSelect.matchesAll wordsF) data) <= 30)%nat ->
   In x data -> everyWordOccurs wordsF x -> In x resultsF).
Proof.
  cbv zeta. rewrite modal_results, inline_results.
  split; [|split; [|split]].
  - destruct (JS.length term <? 2)%nat; [intros [] | apply In_ranked_prefix].
  - intros Hlen. apply Nat.ltb_ge in Hlen. rewrite Hlen.
    apply ranked_prefix_complete.
  - destruct (JS.length (FoodSelect.searchTerm sf) <? 2)%nat;
      [intros [] | apply In_ranked_prefix].
  - intros Hlen. apply Nat.ltb_ge in Hlen. rewrite Hlen.
    apply ranked_prefix_complete.
Qed.

Lemma fruits_banana_results :
  AddExtraMealModal.searchResults
    (AddExtraMealModal.searchFoods codeUnitCompare (lit "banana") (Rows fruits) modal0)
  = [sampleFood 3 (lit "Banana nanica"); sampleFood 1 (lit "Banana prata")] /\
  FoodSelect.foods (FoodSelect.searchFoods codeUnitCompare (Rows fruits) (inline0 (lit "banana")))
  = [sampleFood 3 (lit "Banana nanica"); sampleFood 1 (lit "Banana prata")].
Proof. vm_compute. split; reflexivity. Qed.

(** The search for "banana" among the three fruits returns "Banana prata". *)
Lemma search_returns_matching_candidates_witness :
  In (sampleFood 1 (lit "Banana prata"))
     (AddExtraMealModal.searchResults
        (AddExtraMealModal.searchFoods codeUnitCompare (lit "banana") (Rows fruits) modal0)) /\
  In (sampleFood 1 (lit "Banana prata"))
     (FoodSelect.foods
        (FoodSelect.searchFoods codeUnitCompare (Rows fruits) (inline0 (lit "banana")))).
Proof.
  pose proof (search_returns_matching_candidates codeUnitCompare (lit "banana")
                fruits modal0 (inline0 (lit "banana")) (sampleFood 1 (lit "Banana prata")))
    as H.
  cbv zeta in H. destruct H as [_ [H1 [_ H2]]].
  assert (Hw : everyWordOccurs (FoodSelect.searchWordsOf (lit "banana"))
                 (sampleFood 1 (lit "Banana prata"))).
  { apply matchesAll_spec. vm_compute. reflexivity. }
  split.
  - apply H1.
    + vm_compute. lia.
    + vm_compute. lia.
    + simpl. auto.
    + exact Hw.
  - apply H2.
    + vm_compute. lia.
    + vm_compute. lia.
    + simpl. auto.
    + exact Hw.
Defined.

(** ** C4: ranking and truncation *)

(** C4. With a consistent [localeCompare], the matching candidates are ranked
    so that every name starting with the first query word stands before every
    name that does not, and within each of the two groups the normalized names
    ascend; the result is the first 20 of the ranked candidates in the
    add-meal dialog and the first 30 in the inline search. *)
Theorem search_ranking_and_truncation
    (localeCompare : jsstring -> jsstring -> Z) (term : jsstring)
    (data : list TabelaTaco) (st : AddExtraMealModal.State) (sf : FoodSelect.State) :
  consistent localeCompare ->
  let results :=
    AddExtraMealModal.searchResults
      (AddExtraMealModal.searchFoods localeCompare term (Rows data) st) in
  let termF := FoodSelect.searchTerm sf in
  let resultsF := FoodSelect.foods (FoodSelect.searchFoods localeCompare (Rows data) sf) in
  (Permutation (rankedMatches localeCompare term data)
     (filter (AddExtraMealModal.matchesAll (AddExtraMealModal.searchWordsOf term)) data) /\
   StronglySorted
     (rankedBefore localeCompare (hd [] (AddExtraMealModal.searchWordsOf term)))
     (rankedMatches localeCompare term data) /\
   results = (if (JS.length term <? 2)%nat then []
              else firstn 20 (rankedMatches localeCompare term data)) /\
   (List.length results <= 20)%nat /\
   StronglySorted
     (rankedBefore localeCompare (hd [] (AddExtraMealModal.searchWordsOf term))) results) /\
  (Permutation (rankedMatches localeCompare termF data)
     (filter (FoodSelect.matchesAll (FoodSelect.searchWordsOf termF)) data) /\
   StronglySorted
     (rankedBefore localeCompare (hd [] (FoodSelect.searchWordsOf termF)))
     (rankedMatches localeCompare termF data) /\
   resultsF = (if (JS.length termF <? 2)%nat then []
               else firstn 30 (rankedMatches localeCompare termF data)) /\
   (List.length resultsF <= 30)%nat /\
   StronglySorted
     (rankedBefore localeCompare (hd [] (FoodSelect.searchWordsOf termF))) resultsF).
Proof.
  intros Hlc. cbv zeta.
  rewrite modal_results_ranked, inline_results_ranked.
  split.
  - split; [apply sort_perm|]. split; [now apply ranked_sorted|].
    split; [reflexivity|].
    destruct (JS.length term <? 2)%nat.
    + split; [simpl; lia | constructor].
    + split; [apply firstn_le_length|].
      apply StronglySorted_firstn. now apply ranked_sorted.
  - split; [apply sort_perm|]. split; [now apply ranked_sorted|].
    split; [reflexivity|].
    destruct (JS.length (FoodSelect.searchTerm sf) <? 2)%nat.
    + split; [simpl; lia | constructor].
    + split; [apply firstn_le_length|].
      apply StronglySorted_firstn. now apply ranked_sorted.
Qed.

(** The three fruits searched for "banana" with the code-unit comparison: the
    two bananas, "nanica" before "prata". *)
Lemma search_ranking_and_truncation_witness :
  consistent codeUnitCompare /\
  StronglySorted (rankedBefore codeUnitCompare (lit "banana"))
    [sampleFood 3 (lit "Banana nanica"); sampleFood 1 (lit "Banana prata")].
Proof.
  split; [exact codeUnitCompare_consistent|].
  pose proof (search_ranking_and_truncation codeUnitCompare (lit "banana") fruits
                modal0 (inline0 (lit "banana")) codeUnitCompare_consistent) as H.
  cbv zeta in H. destruct H as [[_ [_ [_ [_ H]]]] _].
  destruct fruits_banana_results as [E _]. rewrite E in H. exact H.
Defined.

(** ** C6: the minimum query length *)

(** C6, as amended. A query of fewer than two code units as typed (the length
    is taken before normalization) leaves the result list empty, whatever the
    fetch would answer; in particular the query "a" does. *)
Theorem search_minimum_query_length
    (localeCompare : jsstring -> jsstring -> Z) (term : jsstring)
    (resp : response) (st : AddExtraMealModal.State) (sf : FoodSelect.State) :
  ((JS.length term < 2)%nat ->
   AddExtraMealModal.searchResults
     (AddExtraMealModal.searchFoods localeCompare term resp st) = []) /\
  ((JS.length (FoodSelect.searchTerm sf) < 2)%nat ->
   FoodSelect.foods (FoodSelect.searchFoods localeCompare resp sf) = []) /\
  AddExtraMealModal.searchResults
    (AddExtraMealModal.searchFoods localeCompare (lit "a") resp st) = [] /\
  FoodSelect.foods
    (FoodSelect.searchFoods localeCompare resp (inline0 (lit "a"))) = [].
Proof.
  split; [|split; [|split; reflexivity]].
  - intros H. apply Nat.ltb_lt in H.
    unfold AddExtraMealModal.searchFoods. now rewrite H.
  - intros H. apply Nat.ltb_lt in H.
    unfold FoodSelect.searchFoods. now rewrite H.
Qed.

Lemma search_minimum_query_length_witness :
  AddExtraMealModal.searchResults
    (AddExtraMealModal.searchFoods codeUnitCompare [98%N] (Rows fruits) modal0) = [] /\
  FoodSelect.foods
    (FoodSelect.searchFoods codeUnitCompare (Rows fruits) (inline0 [98%N])) = [].
Proof.
  pose proof (search_minimum_query_length codeUnitCompare [98%N] (Rows fruits)
                modal0 (inline0 [98%N])) as [H1 [H2 _]].
  split; [apply H1 | apply H2]; simpl; lia.
Defined.

(** C6, as stated, fails: the query "a " (an "a" and a space) normalizes to
    "a", of one character, and the search returns the three fruits, each of
    which contains an "a". *)
Lemma search_short_normalized_query_refuted :
  JS.length (FoodSelect.normalizeText (lit "a ")) = 1%nat /\
  AddExtraMealModal.searchResults
    (AddExtraMealModal.searchFoods codeUnitCompare (lit "a ") (Rows fruits) modal0)
  = [sampleFood 2 (lit "Abacate"); sampleFood 3 (lit "Banana nanica");
     sampleFood 1 (lit "Banana prata")] /\
  FoodSelect.foods
    (FoodSelect.searchFoods codeUnitCompare (Rows fruits) (inline0 (lit "a ")))
  = [sampleFood 2 (lit "Abacate"); sampleFood 3 (lit "Banana nanica");
     sampleFood 1 (lit "Banana prata")].
Proof. vm_compute. repeat split; reflexivity. Qed.

(** ** C10: what editing and removing leave alone *)

Lemma rescaleFood_other ident qty f :
  AddExtraMealModal.id f <> ident -> AddExtraMealModal.rescaleFood ident qty f = f.
Proof.
  intros H. unfold AddExtraMealModal.rescaleFood.
  apply str_eqb_neq in H. now rewrite H.
Qed.

Lemma rescaleFood_same ident qty f :
  AddExtraMealModal.id f = ident ->
  AddExtraMealModal.id (AddExtraMealModal.rescaleFood ident qty f) = AddExtraMealModal.id f /\
  AddExtraMealModal.name (AddExtraMealModal.rescaleFood ident qty f) = AddExtraMealModal.name f /\
  AddExtraMealModal.quantity (AddExtraMealModal.rescaleFood ident qty f) = qty.
Proof.
  intros H. unfold AddExtraMealModal.rescaleFood.
  apply str_eqb_eq in H. rewrite H. simpl. auto.
Qed.

Lemma updateFoodQuantity_foods ident newQty st :
  AddExtraMealModal.foods (AddExtraMealModal.updateFoodQuantity ident newQty st) =
  map (AddExtraMealModal.rescaleFood ident (or_else (parseFloat newQty) 0%float))
      (AddExtraMealModal.foods st).
Proof. reflexivity. Qed.

Lemma rescaleFood_fields ident qty f :
  AddExtraMealModal.id f = ident ->
  AddExtraMealModal.rescaleFood ident qty f =
  {| AddExtraMealModal.id := AddExtraMealModal.id f;
     AddExtraMealModal.name := AddExtraMealModal.name f;
     AddExtraMealModal.quantity := qty;
     AddExtraMealModal.calories :=
       Math_round (AddExtraMealModal.calories f / (AddExtraMealModal.quantity f / 100)
                   * (qty / 100));
     AddExtraMealModal.protein :=
       Math_round (AddExtraMealModal.protein f / (AddExtraMealModal.quantity f / 100)
                   * (qty / 100) * 10) / 10;
     AddExtraMealModal.carbs :=
       Math_round (AddExtraMealModal.carbs f / (AddExtraMealModal.quantity f / 100)
                   * (qty / 100) * 10) / 10;
     AddExtraMealModal.fats :=
       Math_round (AddExtraMealModal.fats f / (AddExtraMealModal.quantity f / 100)
                   * (qty / 100) * 10) / 10 |}%float.
Proof.
  intros H. unfold AddExtraMealModal.rescaleFood.
  apply str_eqb_eq in H. rewrite H. reflexivity.
Qed.

Lemma filter_erased {A} (keep : A -> bool) (p : A -> Prop) l :
  (forall x, keep x = false <-> p x) -> erased p l (filter keep l).
Proof.
  intros H. induction l as [|x l IH]; simpl; [constructor|].
  destruct (keep x) eqn:E.
  - apply erased_keep; [|exact IH]. intros Hp. apply H in Hp. congruence.
  - apply erased_drop; [|exact IH]. now apply H.
Qed.

(** C10. [updateFoodQuantity] leaves every item with another identifier as it
    is and keeps the identifier and the name of an item it rescales, whose
    quantity becomes the one typed; [removeFood] takes out exactly the items
    with the identifier and keeps the others, unchanged and in their order.
    Neither touches the rest of the dialog's state. *)
Theorem selected_items_frame
    (ident newQty : jsstring) (st : AddExtraMealModal.State) :
  let updated := AddExtraMealModal.updateFoodQuantity ident newQty st in
  let removed := AddExtraMealModal.removeFood ident st in
  Forall2
    (fun f f' =>
       (AddExtraMealModal.id f <> ident -> f' = f) /\
       (AddExtraMealModal.id f = ident ->
        AddExtraMealModal.id f' = AddExtraMealModal.id f /\
        AddExtraMealModal.name f' = AddExtraMealModal.name f /\
        AddExtraMealModal.quantity f' = or_else (parseFloat newQty) 0%float))
    (AddExtraMealModal.foods st) (AddExtraMealModal.foods updated) /\
  erased (fun f => AddExtraMealModal.id f = ident)
    (AddExtraMealModal.foods st) (AddExtraMealModal.foods removed) /\
  updated = AddExtraMealModal.setFoods (AddExtraMealModal.foods updated) st /\
  removed = AddExtraMealModal.setFoods (AddExtraMealModal.foods removed) st.
Proof.
  cbv zeta. split; [|split; [|split; reflexivity]].
  - unfold AddExtraMealModal.updateFoodQuantity. simpl.
    induction (AddExtraMealModal.foods st) as [|f l IH]; simpl; constructor.
    + split; intros H.
      * now apply rescaleFood_other.
      * now apply rescaleFood_same.
    + exact IH.
  - unfold AddExtraMealModal.removeFood. simpl.
    apply filter_erased. intros f. rewrite negb_false_iff. apply str_eqb_eq.
Qed.

(** In the meal of two items, editing or removing "a" leaves "b" as it is. *)
Lemma selected_items_frame_witness :
  nth_error
    (AddExtraMealModal.foods
       (AddExtraMealModal.updateFoodQuantity (lit "a") (lit "50") twoItems)) 1
  = Some (sampleItem (lit "b") 100 1) /\
  erased (fun f => AddExtraMealModal.id f = lit "a")
    [sampleItem (lit "a") 186 38; sampleItem (lit "b") 100 1]
    (AddExtraMealModal.foods (AddExtraMealModal.removeFood (lit "a") twoItems)).
Proof.
  destruct (selected_items_frame (lit "a") (lit "50") twoItems) as [HF [HE _]].
  split; [|exact HE].
  rewrite updateFoodQuantity_foods in HF |- *.
  cbn [twoItems stateWith AddExtraMealModal.setFoods AddExtraMealModal.foods map] in HF |- *.
  apply Forall2_cons_iff in HF. destruct HF as [_ HF].
  apply Forall2_cons_iff in HF. destruct HF as [[Hother _] _].
  cbn [nth_error]. apply (f_equal Some). apply Hother. vm_compute. discriminate.
Defined.

(** ** C7: normalization *)

Lemma replaceAll_no_source c d s : c <> d -> ~ In c (replaceAll c d s).
Proof.
  intros Hcd H. unfold replaceAll in H. apply in_map_iff in H.
  destruct H as [x [Hx _]]. destruct (N.eqb_spec x c); congruence.
Qed.

Lemma replaceAll_In c d s x : In x (replaceAll c d s) -> x = d \/ In x s.
Proof.
  unfold replaceAll. rewrite in_map_iff. intros [y [Hy Hin]].
  destruct (y =? c)%N; subst; auto.
Qed.

Lemma below_256 (P : N -> bool) :
  forallb P (map N.of_nat (seq 0 256)) = true ->
  forall c, (c < 256)%N -> P c = true.
Proof.
  intros H c Hc. rewrite forallb_forall in H. apply H.
  apply in_map_iff. exists (N.to_nat c). split; [apply N2Nat.id|].
  apply in_seq. lia.
Qed.

Lemma isLatin1_In s c : isLatin1 s = true -> In c s -> (c < 256)%N.
Proof.
  unfold isLatin1. rewrite forallb_forall. intros H Hin.
  now apply N.ltb_lt, H.
Qed.

Lemma isLatin1_app a b : isLatin1 (a ++ b) = isLatin1 a && isLatin1 b.
Proof. apply forallb_app. Qed.






(** ** C5: parsing a number of the table *)

Lemma agree1_agree x y : agree1 x y -> agree x y.
Proof.
  induction 1 as [|s s' H|c s s' Hc H IH].
  - constructor.
  - apply agree_sep; right; reflexivity.
  - now apply agree_cons.
Qed.

Lemma isDigit_not_sep c : isDigit c = true -> ~ isSep c.
Proof.
  unfold isDigit, isSep. rewrite andb_true_iff, !N.leb_le. lia.
Qed.

Lemma isWhiteSpace_not_sep c : isWhiteSpace c = true -> ~ isSep c.
Proof.
  intros H [-> | ->]; discriminate H.
Qed.

Lemma agree_replaceAll s : agree s (replaceAll 44 46 s).
Proof.
  induction s as [|x s IH]; simpl; [constructor|].
  destruct (N.eqb_spec x 44) as [->|Hx].
  - apply agree_sep; [left | right]; reflexivity.
  - now apply agree_cons.
Qed.

Lemma agree_replaceFirst_replaceAll s :
  agree (replaceFirst 44 46 s) (replaceAll 44 46 s).
Proof.
  induction s as [|x s IH]; simpl; [constructor|].
  destruct (N.eqb_spec x 44) as [->|Hx].
  - apply agree_sep; right; reflexivity.
  - now apply agree_cons.
Qed.

Lemma agree1_replaceFirst_replaceAll s :
  agree1 (replaceFirst 44 46 s) (replaceAll 44 46 s).
Proof.
  induction s as [|x s IH]; simpl; [constructor|].
  destruct (N.eqb_spec x 44) as [->|Hx].
  - apply agree1_dot, agree_replaceAll.
  - destruct (N.eq_dec x 46) as [->|Hd].
    + apply agree1_dot, agree_replaceFirst_replaceAll.
    + now apply agree1_cons.
Qed.

Lemma span_agree x y :
  agree x y ->
  fst (span isDigit x) = fst (span isDigit y) /\
  agree (snd (span isDigit x)) (snd (span isDigit y)).
Proof.
  induction 1 as [|c c' s s' Hc Hc'|c s s' H [IH1 IH2]]; simpl.
  - split; [reflexivity | constructor].
  - destruct (isDigit c) eqn:E; [now apply isDigit_not_sep in E|].
    destruct (isDigit c') eqn:E'; [now apply isDigit_not_sep in E'|].
    split; [reflexivity | now apply agree_sep].
  - destruct (isDigit c).
    + destruct (span isDigit s), (span isDigit s'). simpl in *.
      split; [now f_equal | assumption].
    + split; [reflexivity | now apply agree_cons].
Qed.

Lemma span_agree1 x y :
  agree1 x y ->
  fst (span isDigit x) = fst (span isDigit y) /\
  agree1 (snd (span isDigit x)) (snd (span isDigit y)).
Proof.
  induction 1 as [|s s' H|c s s' Hc H [IH1 IH2]]; simpl.
  - split; [reflexivity | constructor].
  - split; [reflexivity | now apply agree1_dot].
  - destruct (isDigit c).
    + destruct (span isDigit s), (span isDigit s'). simpl in *.
      split; [now f_equal | assumption].
    + split; [reflexivity | now apply agree1_cons].
Qed.

Lemma readSign_agree x y :
  agree x y ->
  fst (readSign x) = fst (readSign y) /\ agree (snd (readSign x)) (snd (readSign y)).
Proof.
  intros H. destruct H as [|c c' s s' Hc Hc'|c s s' H].
  - split; [reflexivity | constructor].
  - destruct Hc as [-> | ->], Hc' as [-> | ->]; simpl;
      (split; [reflexivity | apply agree_sep; unfold isSep; auto]).
  - unfold readSign. destruct (c =? 43)%N; [now split|].
    destruct (c =? 45)%N; [now split|].
    split; [reflexivity | now apply agree_cons].
Qed.

Lemma readSign_agree1 x y :
  agree1 x y ->
  fst (readSign x) = fst (readSign y) /\ agree1 (snd (readSign x)) (snd (readSign y)).
Proof.
  intros H. destruct H as [|s s' H|c s s' Hc H].
  - split; [reflexivity | constructor].
  - split; [reflexivity | now apply agree1_dot].
  - unfold readSign. destruct (c =? 43)%N; [now split|].
    destruct (c =? 45)%N; [now split|].
    split; [reflexivity | now apply agree1_cons].
Qed.

Lemma readExponent_agree x y : agree x y -> readExponent x = readExponent y.
Proof.
  intros H. destruct H as [|c c' s s' Hc Hc'|c s s' H]; [reflexivity| |].
  - destruct Hc as [-> | ->], Hc' as [-> | ->]; reflexivity.
  - unfold readExponent. destruct ((c =? 101) || (c =? 69))%N; [|reflexivity].
    destruct (readSign_agree _ _ H) as [E1 E2].
    destruct (readSign s) as [n r], (readSign s') as [n' r']. simpl in E1, E2.
    destruct (span_agree _ _ E2) as [E3 _].
    destruct (span isDigit r), (span isDigit r'). simpl in E3. now subst.
Qed.

Lemma trimStart_agree1 x y : agree1 x y -> agree1 (trimStart x) (trimStart y).
Proof.
  induction 1 as [|s s' H|c s s' Hc H IH]; simpl.
  - constructor.
  - now apply agree1_dot.
  - destruct (isWhiteSpace c); [exact IH | now apply agree1_cons].
Qed.

Lemma startsWith_agree1 x y p :
  agree1 x y -> ~ In 46%N p -> startsWith x p = startsWith y p.
Proof.
  intros H. revert p. induction H as [|s s' H|c s s' Hc H IH]; intros p Hp.
  - reflexivity.
  - destruct p as [|a p]; [reflexivity|]. cbn [startsWith].
    destruct (N.eqb_spec 46 a) as [<-|Ha]; [|reflexivity].
    exfalso. apply Hp. now left.
  - destruct p as [|a p]; [reflexivity|]. cbn [startsWith]. f_equal.
    apply IH. intros Hin. apply Hp. now right.
Qed.

Lemma readUnsigned_agree1 x y : agree1 x y -> readUnsigned x = readUnsigned y.
Proof.
  intros H. unfold readUnsigned.
  rewrite (startsWith_agree1 x y (lit "Infinity") H)
    by (vm_compute; intuition discriminate).
  destruct (startsWith y (lit "Infinity")); [reflexivity|].
  destruct (span_agree1 _ _ H) as [E1 E2].
  destruct (span isDigit x) as [ip r1], (span isDigit y) as [ip' r1'].
  simpl in E1, E2. subst ip'.
  assert (E : (match r1 with
               | c :: r => if (c =? 46)%N then span isDigit r else ([], r1)
               | [] => ([], r1)
               end) = (match r1' with
               | c :: r => if (c =? 46)%N then span isDigit r else ([], r1')
               | [] => ([], r1')
               end) \/
              exists fp r2 r2',
                (match r1 with
                 | c :: r => if (c =? 46)%N then span isDigit r else ([], r1)
                 | [] => ([], r1)
                 end) = (fp, r2) /\
                (match r1' with
                 | c :: r => if (c =? 46)%N then span isDigit r else ([], r1')
                 | [] => ([], r1')
                 end) = (fp, r2') /\ agree r2 r2').
  { destruct E2 as [|s s' Hs|c s s' Hc Hs].
    - now left.
    - right. simpl. destruct (span_agree _ _ Hs) as [F1 F2].
      destruct (span isDigit s) as [fp r2], (span isDigit s') as [fp' r2'].
      simpl in F1, F2. subst fp'. now exists fp, r2, r2'.
    - right. apply N.eqb_neq in Hc. rewrite Hc.
      exists [], (c :: s), (c :: s'). split; [reflexivity|].
      split; [reflexivity|]. apply agree_cons. now apply agree1_agree. }
  destruct E as [E | [fp [r2 [r2' [Ea [Eb Hr]]]]]].
  - rewrite E. reflexivity.
  - rewrite Ea, Eb. now rewrite (readExponent_agree _ _ Hr).
Qed.

Lemma parseFloat_agree1 x y : agree1 x y -> parseFloat x = parseFloat y.
Proof.
  intros H. unfold parseFloat.
  destruct (readSign_agree1 _ _ (trimStart_agree1 _ _ H)) as [E1 E2].
  destruct (readSign (trimStart x)) as [n u], (readSign (trimStart y)) as [n' u'].
  simpl in E1, E2. subst n'. now rewrite (readUnsigned_agree1 _ _ E2).
Qed.

(** Replacing the first comma or every comma by a period gives [parseFloat]
    the same literal to read. *)
Lemma parseFloat_first_comma s :
  parseFloat (replaceFirst 44 46 s) = parseFloat (replaceAll 44 46 s).
Proof. apply parseFloat_agree1, agree1_replaceFirst_replaceAll. Qed.

Lemma parseBrazilianNumber_string s :
  FoodSelect.parseBrazilianNumber (VString s) =
  match s with
  | [] => PrimFloat.zero
  | _ =>
      if PrimFloat.is_nan (parseFloat (replaceFirst 44 46 s)) then PrimFloat.zero
      else parseFloat (replaceFirst 44 46 s)
  end.
Proof. destruct s; reflexivity. Qed.

(** C5. [parseBrazilianNumber] is the specification's [parseLocaleNumber]: a
    number comes back unchanged; null, undefined and the empty string give 0;
    any other string is parsed as a floating-point literal with its commas read
    as periods (replacing the first comma, as the code does, or every comma
    gives the same literal), and a string that does not parse gives 0, never
    NaN. *)
Theorem parseBrazilianNumber_is_parseLocaleNumber :
  (forall v, FoodSelect.parseBrazilianNumber v = Spec.parseLocaleNumber v) /\
  (forall x, FoodSelect.parseBrazilianNumber (VNumber x) = x) /\
  FoodSelect.parseBrazilianNumber VNull = 0%float /\
  FoodSelect.parseBrazilianNumber VUndefined = 0%float /\
  FoodSelect.parseBrazilianNumber (VString []) = 0%float /\
  (forall s, isNaN (FoodSelect.parseBrazilianNumber (VString s)) = false) /\
  (forall s, isNaN (parseFloat (replaceAll 44 46 s)) = true ->
             FoodSelect.parseBrazilianNumber (VString s) = 0%float) /\
  FoodSelect.parseBrazilianNumber (VString (lit "2,5")) = 2.5%float /\
  FoodSelect.parseBrazilianNumber (VString (lit "abc")) = 0%float /\
  FoodSelect.parseBrazilianNumber (VNumber 42%float) = 42%float.
Proof.
  split.
  { intros [x|s| |]; try reflexivity.
    rewrite parseBrazilianNumber_string. unfold Spec.parseLocaleNumber.
    destruct s as [|c s]; [reflexivity|]. now rewrite parseFloat_first_comma. }
  split; [reflexivity|]. split; [reflexivity|]. split; [reflexivity|].
  split; [reflexivity|]. split.
  { intros s. rewrite parseBrazilianNumber_string. unfold isNaN.
    destruct s as [|c s]; [reflexivity|].
    destruct (PrimFloat.is_nan (parseFloat (replaceFirst 44 46 (c :: s)))) eqn:E;
      [reflexivity | exact E]. }
  split.
  { intros s H. rewrite parseBrazilianNumber_string. unfold isNaN in H.
    destruct s as [|c s]; [reflexivity|].
    now rewrite parseFloat_first_comma, H. }
  split; [vm_compute; reflexivity|]. split; [vm_compute; reflexivity|].
  reflexivity.
Qed.

(** The text "abc" is no literal, whichever commas are replaced. *)
Lemma parseBrazilianNumber_is_parseLocaleNumber_witness :
  isNaN (parseFloat (replaceAll 44 46 (lit "abc"))) = true /\
  FoodSelect.parseBrazilianNumber (VString (lit "abc")) = 0%float.
Proof.
  assert (E : isNaN (parseFloat (replaceAll 44 46 (lit "abc"))) = true)
    by (vm_compute; reflexivity).
  split; [exact E|].
  destruct parseBrazilianNumber_is_parseLocaleNumber as [_ [_ [_ [_ [_ [_ [H _]]]]]]].
  apply H. exact E.
Defined.

(** ** C1: scaling a record to a quantity *)

(** The integer [Math.round] picks is the nearest one, a tie going up:
    [n <= v * 2^e + 1/2 < n + 1]. *)
Lemma Math_round_half_up (s : bool) (m : positive) (e : Z) :
  (e < 0)%Z ->
  let v := if s then Zneg m else Zpos m in
  let n := round_half_up s m e in
  (2 * n * 2 ^ (- e) <= 2 * v + 2 ^ (- e) < 2 * (n + 1) * 2 ^ (- e))%Z.
Proof.
  intros He v n. unfold n, round_half_up. fold v.
  replace (1 - e)%Z with (Z.succ (- e)) by lia.
  rewrite Z.pow_succ_r by lia.
  assert (Hp : (0 < 2 ^ (- e))%Z) by (apply Z.pow_pos_nonneg; lia).
  pose proof (Z.div_mod (2 * v + 2 ^ (- e)) (2 * 2 ^ (- e)) ltac:(lia)) as Hd.
  pose proof (Z.mod_pos_bound (2 * v + 2 ^ (- e)) (2 * 2 ^ (- e)) ltac:(lia)) as Hm.
  nia.
Qed.

(** C1. The item [addFoodToMeal] appends carries the record's per-100 g
    values scaled as the specification's [scale] does, for the quantity typed
    (100 when it does not parse or is zero): the calories are
    [round (calories * (q / 100))] and each macro is
    [round (value * (q / 100) * 10) / 10]. In particular 124 kcal, 2.5, 25.8
    and 1.0 g per 100 g give 186 kcal, 3.8, 38.7 and 1.5 g for 150 g. *)
Theorem addFoodToMeal_scales
    (formatFoodName : jsstring -> jsstring) (uuid : jsstring)
    (st : AddExtraMealModal.State) (food : TabelaTaco) :
  AddExtraMealModal.selectedFood st = Some food ->
  let q := or_else (parseFloat (AddExtraMealModal.quantityInput st)) 100%float in
  let p := per100g food in
  exists newFood,
    AddExtraMealModal.foods (AddExtraMealModal.addFoodToMeal formatFoodName uuid st)
      = AddExtraMealModal.foods st ++ [newFood] /\
    AddExtraMealModal.quantity newFood = q /\
    nutrientsOf newFood = Spec.scale p q /\
    AddExtraMealModal.calories newFood = Math_round (Spec.calories p * (q / 100))%float /\
    AddExtraMealModal.protein newFood
      = (Math_round (Spec.protein p * (q / 100) * 10) / 10)%float /\
    AddExtraMealModal.carbs newFood
      = (Math_round (Spec.carbs p * (q / 100) * 10) / 10)%float /\
    AddExtraMealModal.fats newFood
      = (Math_round (Spec.fats p * (q / 100) * 10) / 10)%float /\
    Spec.scale {| Spec.calories := 124; Spec.protein := 2.5;
                  Spec.carbs := 25.8; Spec.fats := 1.0 |}%float 150%float
      = {| Spec.calories := 186; Spec.protein := 3.8;
           Spec.carbs := 38.7; Spec.fats := 1.5 |}%float.
Proof.
  intros Hsel. cbv zeta. unfold AddExtraMealModal.addFoodToMeal. rewrite Hsel.
  eexists. split; [reflexivity|]. simpl.
  repeat (split; [reflexivity|]). vm_compute. reflexivity.
Qed.

(** Rice at 124 kcal, 2,5 g, 25,8 g and 1,0 g per 100 g, 150 g of it. *)
Lemma addFoodToMeal_scales_witness :
  exists newFood,
    AddExtraMealModal.foods (AddExtraMealModal.addFoodToMeal (fun n => n) (lit "id-1") modalRice)
      = [newFood] /\
    nutrientsOf newFood
      = {| Spec.calories := 186; Spec.protein := 3.8;
           Spec.carbs := 38.7; Spec.fats := 1.5 |}%float.
Proof.
  destruct (addFoodToMeal_scales (fun n => n) (lit "id-1") modalRice
              (sampleFood 1 (lit "Arroz, integral, cozido")) eq_refl)
    as [newFood [H1 [_ [H2 _]]]].
  exists newFood. split; [exact H1|].
  rewrite H2. vm_compute. reflexivity.
Defined.

(** ** C2: editing the quantity of an item whose quantity is zero *)

Lemma is_zero_SF x : PrimFloat.is_zero x = true -> exists s, Prim2SF x = S754_zero s.
Proof.
  unfold PrimFloat.is_zero. rewrite FloatAxioms.eqb_spec.
  change (Prim2SF PrimFloat.zero) with (S754_zero false).
  destruct (Prim2SF x) as [s|s| |s m e]; simpl; try discriminate.
  - intros _. now exists s.
  - destruct s; discriminate.
  - destruct s; discriminate.
Qed.

Lemma zero_over_100 x :
  PrimFloat.is_zero x = true -> exists s, Prim2SF (x / 100)%float = S754_zero s.
Proof.
  intros H. destruct (is_zero_SF x H) as [s Hs].
  rewrite FloatAxioms.div_spec, Hs.
  destruct s; eexists; vm_compute; reflexivity.
Qed.

Lemma div_by_zero_not_finite x y s :
  Prim2SF y = S754_zero s -> isFinite (x / y)%float = false.
Proof.
  intros H. unfold isFinite. rewrite FloatAxioms.div_spec, H.
  destruct (Prim2SF x) as [sx|sx| |sx m e]; reflexivity.
Qed.

Lemma mul_not_finite x y : isFinite x = false -> isFinite (x * y)%float = false.
Proof.
  unfold isFinite. rewrite FloatAxioms.mul_spec.
  destruct (Prim2SF x) as [sx|sx| |sx m e]; try discriminate; intros _;
    destruct (Prim2SF y) as [sy|sy| |sy my ey]; reflexivity.
Qed.

Lemma div_not_finite x y : isFinite x = false -> isFinite (x / y)%float = false.
Proof.
  unfold isFinite. rewrite FloatAxioms.div_spec.
  destruct (Prim2SF x) as [sx|sx| |sx m e]; try discriminate; intros _;
    destruct (Prim2SF y) as [sy|sy| |sy my ey]; reflexivity.
Qed.

Lemma Math_round_not_finite x : isFinite x = false -> Math_round x = x.
Proof.
  unfold isFinite, Math_round.
  destruct (Prim2SF x) as [sx|sx| |sx m e]; try discriminate; reflexivity.
Qed.

(** A value rescaled from a zero quantity: a whole number and a tenth. *)
Lemma rescaled_from_zero v q qty :
  PrimFloat.is_zero q = true ->
  isFinite (Math_round (v / (q / 100) * (qty / 100)))%float = false /\
  isFinite (Math_round (v / (q / 100) * (qty / 100) * 10) / 10)%float = false.
Proof.
  intros Hq. destruct (zero_over_100 q Hq) as [s Hs].
  pose proof (div_by_zero_not_finite v _ s Hs) as H1.
  pose proof (mul_not_finite _ (qty / 100)%float H1) as H2.
  pose proof (mul_not_finite _ 10%float H2) as H3.
  split.
  - now rewrite Math_round_not_finite.
  - rewrite Math_round_not_finite by exact H3. now apply div_not_finite.
Qed.

(** C2, which the code breaks. The guard on a zero quantity is computed into
    [ratio] and not used: the nutrient values are divided by [quantity / 100]
    all the same. Whatever the new quantity, an item whose quantity is zero
    comes out with four values that are not finite numbers. Rice is added at
    150 g; the quantity field is emptied, which sets the quantity and the four
    values to 0; typing "50" then divides 0 by 0, and the four values are
    NaN. *)
Theorem updateFoodQuantity_divides_by_zero :
  (forall ident qty f,
     AddExtraMealModal.id f = ident ->
     PrimFloat.is_zero (AddExtraMealModal.quantity f) = true ->
     let f' := AddExtraMealModal.rescaleFood ident qty f in
     isFinite (AddExtraMealModal.calories f') = false /\
     isFinite (AddExtraMealModal.protein f') = false /\
     isFinite (AddExtraMealModal.carbs f') = false /\
     isFinite (AddExtraMealModal.fats f') = false) /\
  (let st2 := AddExtraMealModal.updateFoodQuantity (lit "id-1") [] riceAdded in
   let st3 := AddExtraMealModal.updateFoodQuantity (lit "id-1") (lit "50") st2 in
   AddExtraMealModal.foods st2 = [riceEmptied] /\
   map (fun f => (AddExtraMealModal.quantity f, nutrientsOf f)) (AddExtraMealModal.foods st3)
     = [(50%float, {| Spec.calories := nan; Spec.protein := nan;
                      Spec.carbs := nan; Spec.fats := nan |})]).
Proof.
  split.
  - intros ident qty f Hid Hq. cbv zeta.
    rewrite (rescaleFood_fields ident qty f Hid).
    cbn [AddExtraMealModal.calories AddExtraMealModal.protein
         AddExtraMealModal.carbs AddExtraMealModal.fats].
    split; [|split; [|split]]; now apply rescaled_from_zero.
  - vm_compute. split; reflexivity.
Qed.

(** The emptied rice item, edited to 50 g. *)
Lemma updateFoodQuantity_divides_by_zero_witness :
  isFinite (AddExtraMealModal.calories
              (AddExtraMealModal.rescaleFood (lit "id-1") 50%float riceEmptied)) = false /\
  isFinite (AddExtraMealModal.protein
              (AddExtraMealModal.rescaleFood (lit "id-1") 50%float riceEmptied)) = false.
Proof.
  destruct updateFoodQuantity_divides_by_zero as [H _].
  destruct (H (lit "id-1") 50%float riceEmptied eq_refl eq_refl) as [H1 [H2 _]].
  split; [exact H1 | exact H2].
Defined.

(** ** Binary64 arithmetic

    Facts about the rounding of products, quotients and sums, proved from the
    specification of the primitive operations ([Prim2SF], [SF64mul], [SF64div],
    [SF64add]). *)

Section FloatFacts.
Local Open Scope Z_scope.

(** *** The number of bits of a mantissa *)
Lemma digits2_bounds (m : positive) :
  2 ^ (Zpos (digits2_pos m) - 1) <= Zpos m < 2 ^ Zpos (digits2_pos m).
Proof.
  induction m as [m IH|m IH|]; simpl digits2_pos.
  - rewrite Pos2Z.inj_succ. replace (Z.succ (Zpos (digits2_pos m)) - 1) with (Z.succ (Zpos (digits2_pos m) - 1)) by lia.
    rewrite !Z.pow_succ_r by lia. lia.
  - rewrite Pos2Z.inj_succ. replace (Z.succ (Zpos (digits2_pos m)) - 1) with (Z.succ (Zpos (digits2_pos m) - 1)) by lia.
    rewrite !Z.pow_succ_r by lia. lia.
  - simpl. lia.
Qed.

Lemma digits2_unique (m : positive) (k : Z) :
  2 ^ (k - 1) <= Zpos m < 2 ^ k -> Zpos (digits2_pos m) = k.
Proof.
  intros [H1 H2]. pose proof (digits2_bounds m) as [H3 H4].
  assert (0 < k). { destruct k as [|k|k]; [simpl in H2; lia | lia | rewrite Z.pow_neg_r in H2 by lia; lia]. }
  assert (Hlt1 : 2 ^ (k - 1) < 2 ^ Zpos (digits2_pos m)) by lia.
  assert (Hlt2 : 2 ^ (Zpos (digits2_pos m) - 1) < 2 ^ k) by lia.
  apply Z.pow_lt_mono_r_iff in Hlt1; try lia.
  apply Z.pow_lt_mono_r_iff in Hlt2; try lia.
Qed.

(** *** Shifting a mantissa right *)
Lemma shr_1_m r : 0 <= shr_m r -> shr_m (shr_1 r) = shr_m r / 2.
Proof.
  destruct r as [m r s]. simpl. intros H.
  destruct m as [|[p|p|]|p]; simpl; try lia; try reflexivity.
  - apply Z.div_unique with 1; lia.
  - apply Z.div_unique with 0; lia.
Qed.

Lemma pow2_pos k : 0 <= k -> 0 < 2 ^ k.
Proof. intros. apply Z.pow_pos_nonneg; lia. Qed.

Lemma div_div_pos a b c : 0 < b -> 0 < c -> a / b / c = a / (b * c).
Proof. intros. apply Z.div_div; lia. Qed.

Lemma iter_shr_m p r :
  0 <= shr_m r -> shr_m (SpecFloat.iter_pos shr_1 p r) = shr_m r / 2 ^ Zpos p.
Proof.
  revert r. induction p as [p IH|p IH|]; intros r Hr; simpl SpecFloat.iter_pos.
  - pose proof (pow2_pos (Zpos p) ltac:(lia)) as Hp.
    assert (H1 : 0 <= shr_m (shr_1 r)) by (rewrite shr_1_m by lia; apply Z.div_pos; lia).
    assert (H2 : 0 <= shr_m (SpecFloat.iter_pos shr_1 p (shr_1 r)))
      by (rewrite IH by lia; apply Z.div_pos; lia).
    rewrite IH, IH, shr_1_m by lia.
    rewrite !div_div_pos by lia.
    f_equal.
    assert (E : 2 ^ Zpos p~1 = 2 * 2 ^ Zpos p * 2 ^ Zpos p).
    { rewrite Pos2Z.inj_xI.
      replace (2 * Zpos p + 1) with (1 + Zpos p + Zpos p) by lia.
      rewrite !Z.pow_add_r by lia. now rewrite Z.pow_1_r. }
    rewrite E. lia.
  - pose proof (pow2_pos (Zpos p) ltac:(lia)) as Hp.
    assert (H2 : 0 <= shr_m (SpecFloat.iter_pos shr_1 p r))
      by (rewrite IH by lia; apply Z.div_pos; lia).
    rewrite IH, IH by lia.
    rewrite !div_div_pos by lia.
    f_equal.
    assert (E : 2 ^ Zpos p~0 = 2 ^ Zpos p * 2 ^ Zpos p).
    { replace (Zpos p~0) with (Zpos p + Zpos p) by lia.
      now rewrite Z.pow_add_r by lia. }
    rewrite E. lia.
  - rewrite shr_1_m by lia. now rewrite Z.pow_1_r.
Qed.

Lemma div_exact a b q : 0 < b -> a = q * b -> a / b = q.
Proof. intros Hb ->. now apply Z.div_mul; lia. Qed.

Lemma shr_1_exact m : 0 <= m -> (2 | m) ->
  shr_1 {| shr_m := m; shr_r := false; shr_s := false |} = {| shr_m := m / 2; shr_r := false; shr_s := false |}.
Proof.
  intros H [k Hk].
  destruct m as [|[p|p|]|p]; try lia; try reflexivity.
  simpl. f_equal. symmetry. apply div_exact; lia.
Qed.

Lemma iter_shr_exact p m : 0 <= m -> (2 ^ Zpos p | m) ->
  SpecFloat.iter_pos shr_1 p {| shr_m := m; shr_r := false; shr_s := false |}
  = {| shr_m := m / 2 ^ Zpos p; shr_r := false; shr_s := false |}.
Proof.
  revert m. induction p as [p IH|p IH|]; intros m Hm [k Hk]; cbn [SpecFloat.iter_pos].
  - pose proof (pow2_pos (Zpos p) ltac:(lia)) as Hp.
    assert (E : 2 ^ Zpos p~1 = 2 * 2 ^ Zpos p * 2 ^ Zpos p).
    { replace (Zpos p~1) with (1 + Zpos p + Zpos p) by lia.
      rewrite !Z.pow_add_r by lia. now rewrite Z.pow_1_r. }
    rewrite E in *.
    rewrite shr_1_exact; [|lia|exists (k * 2 ^ Zpos p * 2 ^ Zpos p); lia].
    assert (E1 : m / 2 = k * 2 ^ Zpos p * 2 ^ Zpos p) by (apply div_exact; lia).
    rewrite IH; [|rewrite E1; nia|exists (k * 2 ^ Zpos p); lia].
    assert (E2 : m / 2 / 2 ^ Zpos p = k * 2 ^ Zpos p) by (rewrite E1; apply div_exact; lia).
    rewrite IH; [|rewrite E2; nia|exists k; lia].
    f_equal. rewrite E2. rewrite Z.div_mul by lia. symmetry. apply div_exact; lia.
  - pose proof (pow2_pos (Zpos p) ltac:(lia)) as Hp.
    assert (E : 2 ^ Zpos p~0 = 2 ^ Zpos p * 2 ^ Zpos p).
    { replace (Zpos p~0) with (Zpos p + Zpos p) by lia.
      now rewrite Z.pow_add_r by lia. }
    rewrite E in *.
    rewrite IH; [|lia|exists (k * 2 ^ Zpos p); lia].
    assert (E2 : m / 2 ^ Zpos p = k * 2 ^ Zpos p) by (apply div_exact; lia).
    rewrite IH; [|rewrite E2; nia|exists k; lia].
    f_equal. rewrite E2. rewrite Z.div_mul by lia. symmetry. apply div_exact; lia.
  - rewrite Z.pow_1_r in *. apply shr_1_exact; [lia | now exists k].
Qed.

(** *** Rounding a mantissa of at least 53 bits, in the normal range *)
Lemma fexp_normal e : -1074 <= e - 53 -> fexp prec emax e = e - 53.
Proof. unfold fexp, emin, prec, emax. lia. Qed.

Lemma Zdigits2_bounds m : 0 < m -> 2 ^ (Zdigits2 m - 1) <= m < 2 ^ Zdigits2 m.
Proof. destruct m as [|p|p]; try lia. intros _. apply digits2_bounds. Qed.

Lemma Zdigits2_unique m k : 0 < m -> 2 ^ (k - 1) <= m < 2 ^ k -> Zdigits2 m = k.
Proof. destruct m as [|p|p]; try lia. intros _. apply digits2_unique. Qed.

Lemma shr_m_of_loc m l : shr_m (shr_record_of_loc m l) = m.
Proof. destruct l as [|[]]; reflexivity. Qed.

Lemma shr_fexp_normal mx ex lx :
  0 < mx -> 53 <= Zdigits2 mx -> -1074 <= Zdigits2 mx + ex - 53 ->
  snd (shr_fexp prec emax mx ex lx) = ex + (Zdigits2 mx - 53) /\
  shr_m (fst (shr_fexp prec emax mx ex lx)) = mx / 2 ^ (Zdigits2 mx - 53).
Proof.
  intros Hm Hd Hn. unfold shr_fexp. rewrite fexp_normal by lia.
  replace (Zdigits2 mx + ex - 53 - ex) with (Zdigits2 mx - 53) by lia.
  destruct (Zdigits2 mx - 53) as [|p|p] eqn:E; try lia; simpl.
  - rewrite shr_m_of_loc. split; [lia|]. now rewrite Z.div_1_r.
  - split; [reflexivity|]. rewrite iter_shr_m; rewrite shr_m_of_loc; [reflexivity | lia].
Qed.

Lemma shr_fexp_exact mx ex :
  0 < mx -> 53 <= Zdigits2 mx -> -1074 <= Zdigits2 mx + ex - 53 ->
  (2 ^ (Zdigits2 mx - 53) | mx) ->
  shr_fexp prec emax mx ex loc_Exact =
  ({| shr_m := mx / 2 ^ (Zdigits2 mx - 53); shr_r := false; shr_s := false |},
   ex + (Zdigits2 mx - 53)).
Proof.
  intros Hm Hd Hn Hdiv. unfold shr_fexp. rewrite fexp_normal by lia.
  replace (Zdigits2 mx + ex - 53 - ex) with (Zdigits2 mx - 53) by lia.
  destruct (Zdigits2 mx - 53) as [|p|p] eqn:E; try lia; simpl.
  - rewrite Z.div_1_r. f_equal. lia.
  - rewrite iter_shr_exact; [reflexivity | lia | assumption].
Qed.

Lemma rne_cases m l : round_nearest_even m l = m \/ round_nearest_even m l = m + 1.
Proof. destruct l as [|[]]; simpl; auto. destruct (Z.even m); auto. Qed.

Lemma top_bits mx : 0 < mx -> 53 <= Zdigits2 mx ->
  2 ^ 52 <= mx / 2 ^ (Zdigits2 mx - 53) < 2 ^ 53 /\
  (mx / 2 ^ (Zdigits2 mx - 53)) * 2 ^ (Zdigits2 mx - 53) <= mx
    < (mx / 2 ^ (Zdigits2 mx - 53) + 1) * 2 ^ (Zdigits2 mx - 53).
Proof.
  intros Hm Hd. pose proof (Zdigits2_bounds mx Hm) as [H1 H2].
  set (n := Zdigits2 mx - 53) in *.
  pose proof (pow2_pos n ltac:(lia)) as Hp.
  replace (Zdigits2 mx - 1) with (52 + n) in H1 by lia.
  replace (Zdigits2 mx) with (53 + n) in H2 by lia.
  rewrite Z.pow_add_r in H1, H2 by lia.
  pose proof (Z.div_mod mx (2 ^ n) ltac:(lia)) as Hdm.
  pose proof (Z.mod_pos_bound mx (2 ^ n) Hp) as Hmod.
  split; [|lia].
  split.
  - apply Z.div_le_lower_bound; lia.
  - apply Z.div_lt_upper_bound; lia.
Qed.

Lemma BRA_normal sx mx ex lx :
  0 < mx -> 53 <= Zdigits2 mx ->
  -1074 <= Zdigits2 mx + ex - 53 <= 970 ->
  let m1 := mx / 2 ^ (Zdigits2 mx - 53) in
  let e1 := ex + (Zdigits2 mx - 53) in
  exists m e,
    binary_round_aux prec emax sx mx ex lx = S754_finite sx m e /\
    Zpos (digits2_pos m) = 53 /\ -1074 <= e <= 971 /\
    ((e = e1 /\ (Zpos m = m1 \/ Zpos m = m1 + 1)) \/
     (e = e1 + 1 /\ 2 * Zpos m = m1 + 1)).
Proof.
  intros Hm Hd Hn m1 e1.
  destruct (top_bits mx Hm Hd) as [[Hlo Hhi] _]. fold m1 in Hlo, Hhi.
  unfold binary_round_aux.
  destruct (shr_fexp_normal mx ex lx Hm Hd ltac:(lia)) as [Ee Em].
  destruct (shr_fexp prec emax mx ex lx) as [mrs' e']. simpl in Ee, Em.
  fold m1 in Em. fold e1 in Ee. subst e'. rewrite Em.
  set (m2 := round_nearest_even m1 (loc_of_shr_record mrs')).
  assert (Hm2 : m2 = m1 \/ m2 = m1 + 1) by apply rne_cases.
  destruct (Z.eq_dec m2 (2 ^ 53)) as [Htop|Htop].
  - assert (Hdig : Zdigits2 m2 = 54).
    { apply Zdigits2_unique; rewrite Htop; simpl; lia. }
    rewrite shr_fexp_exact; rewrite ?Hdig; try lia.
    + rewrite Htop. change (2 ^ 53 / 2 ^ (54 - 53)) with (Zpos (2 ^ 52)%positive).
      cbn [shr_m]. assert (Hle : (e1 + (54 - 53) <=? emax - prec) = true)
        by (apply Z.leb_le; unfold emax, prec; lia).
      rewrite Hle. exists (2 ^ 52)%positive, (e1 + (54 - 53)).
      split; [reflexivity|]. split; [reflexivity|]. split; [lia|].
      right. split; [lia|]. change (Zpos (2 ^ 52)) with (2 ^ 52). lia.
    + rewrite Htop. exists (2 ^ 52). reflexivity.
  - assert (Hdig : Zdigits2 m2 = 53).
    { apply Zdigits2_unique; [lia|]. change (2 ^ (53 - 1)) with (2 ^ 52). lia. }
    rewrite shr_fexp_exact; rewrite ?Hdig; try lia.
    + change (2 ^ (53 - 53)) with 1. rewrite Z.div_1_r. cbn [shr_m].
      destruct m2 as [|p|p] eqn:Ep; try lia.
      assert (Hle : (e1 + (53 - 53) <=? emax - prec) = true)
        by (apply Z.leb_le; unfold emax, prec; lia).
      rewrite Hle. exists p, (e1 + (53 - 53)).
      split; [reflexivity|]. split; [exact Hdig|]. split; [lia|].
      left. split; [lia|]. lia.
    + change (2 ^ (53 - 53)) with 1. apply Z.divide_1_l.
Qed.

Lemma BRA_exact sx mx ex :
  0 < mx -> 53 <= Zdigits2 mx ->
  -1074 <= Zdigits2 mx + ex - 53 <= 971 ->
  (2 ^ (Zdigits2 mx - 53) | mx) ->
  exists m,
    binary_round_aux prec emax sx mx ex loc_Exact
      = S754_finite sx m (ex + (Zdigits2 mx - 53)) /\
    Zpos (digits2_pos m) = 53 /\
    Zpos m = mx / 2 ^ (Zdigits2 mx - 53).
Proof.
  intros Hm Hd Hn Hdiv.
  destruct (top_bits mx Hm Hd) as [[Hlo Hhi] _].
  unfold binary_round_aux. rewrite shr_fexp_exact by (assumption || lia).
  cbn [shr_m loc_of_shr_record round_nearest_even].
  set (m1 := mx / 2 ^ (Zdigits2 mx - 53)) in *.
  assert (Hdig : Zdigits2 m1 = 53).
  { apply Zdigits2_unique; [lia|]. change (2 ^ (53 - 1)) with (2 ^ 52). lia. }
  rewrite shr_fexp_exact; rewrite ?Hdig; try lia.
  - change (2 ^ (53 - 53)) with 1. rewrite Z.div_1_r. cbn [shr_m].
    destruct m1 as [|p|p] eqn:Ep; try lia.
    assert (Hle : (ex + (Zdigits2 mx - 53) + (53 - 53) <=? emax - prec) = true)
      by (apply Z.leb_le; unfold emax, prec; lia).
    rewrite Hle. exists p. split; [f_equal; lia|]. split; [exact Hdig | reflexivity].
  - change (2 ^ (53 - 53)) with 1. apply Z.divide_1_l.
Qed.

Lemma iter_xO_value M d : Zpos (Pos.iter xO M d) = Zpos M * 2 ^ Zpos d.
Proof.
  rewrite (Pos.iter_swap_gen _ _ Zpos xO (Z.mul 2)) by reflexivity.
  change (Pos.iter (Z.mul 2) (Zpos M) d) with (Z.shiftl (Zpos M) (Zpos d)).
  apply Z.shiftl_mul_pow2. lia.
Qed.

Lemma shiftl_pos_value n k : 0 <= k -> Zpos (Pos.shiftl n (Z.to_N k)) = Zpos n * 2 ^ k.
Proof.
  intros Hk. destruct k as [|k|k]; try lia.
  - simpl. lia.
  - simpl Z.to_N. simpl Pos.shiftl. apply iter_xO_value.
Qed.

(** Rounding [M * 2^E] when it is a whole number [N] below [2^53]: the
    canonical form of [N]. *)
Lemma binary_round_integer (M : positive) (E : Z) (N : positive) :
  E <= 0 -> Zpos M = Zpos N * 2 ^ (- E) -> Zpos N < 2 ^ 53 ->
  binary_round prec emax false M E = canon N.
Proof.
  intros HE HM HN. unfold binary_round, canon.
  pose proof (digits2_bounds N) as [HN1 HN2].
  set (dN := Zpos (digits2_pos N)) in *.
  assert (HdN : 1 <= dN <= 53).
  { split; [unfold dN; lia|].
    destruct (Z.le_gt_cases dN 53); [assumption|].
    assert (2 ^ 53 <= 2 ^ (dN - 1)) by (apply Z.pow_le_mono_r; lia). lia. }
  pose proof (pow2_pos (- E) ltac:(lia)) as HpE.
  assert (HdM : Zpos (digits2_pos M) = dN - E).
  { apply digits2_unique. rewrite HM.
    replace (dN - E - 1) with (dN - 1 + - E) by lia.
    replace (dN - E) with (dN + - E) by lia.
    rewrite !Z.pow_add_r by lia. nia. }
  rewrite HdM. rewrite fexp_normal by lia.
  replace (dN - E + E - 53) with (dN - 53) by lia.
  unfold shl_align.
  destruct (dN - 53 - E) as [|d|d] eqn:Ed.
  - destruct (BRA_exact false (Zpos M) E ltac:(lia)) as [m [Hr [Hdig Hval]]].
    + simpl Zdigits2. lia.
    + simpl Zdigits2. lia.
    + simpl Zdigits2. replace (Zpos (digits2_pos M) - 53) with 0 by lia.
      apply Z.divide_1_l.
    + rewrite Hr. simpl Zdigits2 in *. f_equal.
      * apply Pos2Z.inj. rewrite Hval, shiftl_pos_value by lia.
        replace (Zpos (digits2_pos M) - 53) with 0 by lia.
        rewrite Z.div_1_r. rewrite HM. f_equal. f_equal. lia.
      * lia.
  - destruct (BRA_exact false (Zpos M) E ltac:(lia)) as [m [Hr [Hdig Hval]]].
    + simpl Zdigits2. lia.
    + simpl Zdigits2. lia.
    + simpl Zdigits2. rewrite HdM. rewrite HM.
      exists (Zpos N * 2 ^ (53 - dN)).
      replace (- E) with ((53 - dN) + (dN - E - 53)) by lia.
      rewrite Z.pow_add_r by lia. lia.
    + rewrite Hr. simpl Zdigits2 in *. f_equal.
      * apply Pos2Z.inj. rewrite Hval, shiftl_pos_value by lia.
        rewrite HdM, HM.
        apply div_exact; [apply pow2_pos; lia|].
        replace (- E) with ((53 - dN) + (dN - E - 53)) by lia.
        rewrite Z.pow_add_r by lia. lia.
      * lia.
  - pose proof (iter_xO_value M d) as Hsh.
    pose proof (pow2_pos (Zpos d) ltac:(lia)) as Hpd.
    assert (Hval' : Zpos (Pos.iter xO M d) = Zpos N * 2 ^ (53 - dN)).
    { rewrite Hsh, HM. replace (53 - dN) with (- E + Zpos d) by lia.
      rewrite Z.pow_add_r by lia. lia. }
    assert (Hdd : Zdigits2 (Zpos (Pos.iter xO M d)) = 53).
    { apply Zdigits2_unique; [lia|]. rewrite Hval'.
      pose proof (pow2_pos (53 - dN) ltac:(lia)).
      replace (53 - 1) with (dN - 1 + (53 - dN)) by lia.
      replace (2 ^ 53) with (2 ^ (dN + (53 - dN))) by (f_equal; lia).
      rewrite !Z.pow_add_r by lia. nia. }
    destruct (BRA_exact false (Zpos (Pos.iter xO M d)) (dN - 53) ltac:(lia))
      as [m [Hr [Hdig Hval]]].
    + lia.
    + lia.
    + rewrite Hdd. apply Z.divide_1_l.
    + rewrite Hr. rewrite Hdd in *. f_equal.
      * apply Pos2Z.inj. rewrite Hval, shiftl_pos_value by lia.
        change (2 ^ (53 - 53)) with 1. rewrite Z.div_1_r. exact Hval'.
      * lia.
Qed.

(** *** Real values *)
Local Open Scope R_scope.

Lemma bpow_pos e : 0 < bpow e.
Proof. apply powerRZ_lt. lra. Qed.

Lemma bpow_add a b : bpow (a + b) = bpow a * bpow b.
Proof. apply powerRZ_add. lra. Qed.

Lemma bpow_IZR e : (0 <= e)%Z -> bpow e = IZR (2 ^ e).
Proof.
  intros He. unfold bpow. rewrite <- (Z2Nat.id e He) at 1.
  rewrite <- pow_powerRZ. rewrite pow_IZR. now rewrite Z2Nat.id.
Qed.

Lemma bpow_opp e : bpow (- e) = / bpow e.
Proof.
  pose proof (bpow_pos e). pose proof (bpow_add (- e) e) as H1.
  replace (- e + e)%Z with 0%Z in H1 by lia. unfold bpow at 1 in H1. simpl in H1.
  apply Rmult_eq_reg_r with (bpow e); [|lra]. rewrite <- H1. field. lra.
Qed.

Lemma bpow_le a b : (a <= b)%Z -> bpow a <= bpow b.
Proof.
  intros H. replace b with (a + (b - a))%Z by lia. rewrite bpow_add.
  rewrite (bpow_IZR (b - a)) by lia.
  pose proof (bpow_pos a). 
  assert (1 <= IZR (2 ^ (b - a))) by (apply IZR_le; pose proof (pow2_pos (b - a) ltac:(lia)); lia).
  nra.
Qed.

Lemma bpow_lt_inv a b : bpow a < bpow b -> (a < b)%Z.
Proof.
  intros H. destruct (Z.lt_ge_cases a b); [assumption|].
  pose proof (bpow_le b a ltac:(lia)). lra.
Qed.

Lemma u_value : u * IZR (2 ^ 52) = 1.
Proof.
  unfold u. change (-52)%Z with (- (52))%Z. rewrite bpow_opp, (bpow_IZR 52) by lia.
  apply Rinv_l. apply not_0_IZR. lia.
Qed.

Lemma u_pos : 0 < u.
Proof. apply bpow_pos. Qed.

Lemma BRA_near sx mx ex lx (x : R) :
  (0 < mx)%Z -> (53 <= Zdigits2 mx)%Z ->
  (-1074 <= Zdigits2 mx + ex - 53 <= 970)%Z ->
  IZR mx * bpow ex <= x < IZR (mx + 1) * bpow ex ->
  exists m e,
    binary_round_aux prec emax sx mx ex lx = S754_finite sx m e /\
    Zpos (digits2_pos m) = 53%Z /\
    near 1 (IZR (Zpos m) * bpow e) x.
Proof.
  intros Hm Hd Hn [Hx1 Hx2].
  destruct (BRA_normal sx mx ex lx Hm Hd Hn) as [m [e [Hr [Hdig [He Hcase]]]]].
  exists m, e. split; [exact Hr|]. split; [exact Hdig|].
  destruct (top_bits mx Hm Hd) as [[Hlo Hhi] [Hb1 Hb2]].
  set (n := (Zdigits2 mx - 53)%Z) in *.
  set (m1 := (mx / 2 ^ n)%Z) in *.
  pose proof (pow2_pos n ltac:(lia)) as Hpn.
  assert (HB : 0 < bpow ex) by apply bpow_pos.
  assert (HP : 1 <= IZR (2 ^ n)) by (apply IZR_le; lia).
  assert (HA : IZR (2 ^ 52) <= IZR m1) by (apply IZR_le; lia).
  assert (H52 : 1 <= IZR (2 ^ 52)) by (apply IZR_le; lia).
  assert (HAP : IZR m1 * IZR (2 ^ n) <= IZR mx)
    by (rewrite <- mult_IZR; apply IZR_le; lia).
  assert (HAP' : IZR mx + 1 <= (IZR m1 + 1) * IZR (2 ^ n)).
  { rewrite <- (plus_IZR m1 1), <- mult_IZR, <- (plus_IZR mx 1). apply IZR_le. lia. }
  rewrite plus_IZR in Hx2.
  set (dl := IZR (2 ^ n) * bpow ex).
  assert (Hdl : 0 < dl) by (unfold dl; nra).
  assert (Ee1 : bpow (ex + n) = dl)
    by (rewrite bpow_add, (bpow_IZR n) by lia; unfold dl; ring).
  assert (Hlo1 : IZR m1 * dl <= x).
  { unfold dl. apply Rle_trans with (IZR mx * bpow ex); [|exact Hx1].
    rewrite <- Rmult_assoc. apply Rmult_le_compat_r; lra. }
  assert (Hhi1 : x < (IZR m1 + 1) * dl).
  { unfold dl. apply Rlt_le_trans with ((IZR mx + 1) * bpow ex); [exact Hx2|].
    rewrite <- Rmult_assoc. apply Rmult_le_compat_r; lra. }
  assert (Hul : dl <= u * (IZR m1 * dl)).
  { pose proof u_value. pose proof u_pos.
    assert (1 <= u * IZR m1) by nra. nra. }
  assert (Hv : IZR (Zpos m) * bpow e = IZR m1 * dl \/
               IZR (Zpos m) * bpow e = (IZR m1 + 1) * dl).
  { destruct Hcase as [[-> [Hmm|Hmm]]|[-> Hmm]].
    - left. now rewrite Ee1, Hmm.
    - right. rewrite Ee1, Hmm, plus_IZR. reflexivity.
    - right. replace (ex + n + 1)%Z with (1 + (ex + n))%Z by lia.
      rewrite bpow_add, Ee1. rewrite (bpow_IZR 1) by lia.
      change (IZR (2 ^ 1)) with 2. rewrite <- (plus_IZR m1 1), <- Hmm, mult_IZR. ring. }
  pose proof u_pos.
  unfold near. rewrite pow_1.
  assert (0 < IZR m1 * dl) by nra.
  split; [lra|].
  destruct Hv as [-> | ->]; split; nra.
Qed.

(** *** Products and quotients of positive normal numbers *)
Lemma posval_pos x v : posval x v -> 0 < v.
Proof.
  intros [m [e [_ [_ ->]]]]. pose proof (bpow_pos e).
  assert (0 < IZR (Zpos m)) by (apply IZR_lt; lia). nra.
Qed.

Lemma bpow_upper a v : bpow a <= v -> v <= IZR (2 ^ 64) -> (a <= 64)%Z.
Proof.
  intros H1 H2.
  assert (H3 : bpow a < bpow 65).
  { apply Rle_lt_trans with (IZR (2 ^ 64)); [lra|]. rewrite (bpow_IZR 65) by lia.
    apply IZR_lt. reflexivity. }
  apply bpow_lt_inv in H3. lia.
Qed.

Lemma bpow_lower b v : v < bpow b -> / IZR (2 ^ 64) <= v -> (- 64 < b)%Z.
Proof.
  intros H1 H2.
  assert (H3 : bpow (Z.opp 64) < bpow b).
  { apply Rle_lt_trans with v; [|exact H1].
    rewrite bpow_opp, (bpow_IZR 64) by lia. exact H2. }
  apply bpow_lt_inv in H3. lia.
Qed.

Lemma exp_range (M E a b : Z) :
  (0 <= a)%Z -> (0 <= b)%Z -> (2 ^ a <= M < 2 ^ b)%Z ->
  / IZR (2 ^ 64) <= IZR M * bpow E <= IZR (2 ^ 64) ->
  (- 64 - b < E <= 64 - a)%Z.
Proof.
  intros Ha Hb [HM1 HM2] [Hv1 Hv2].
  pose proof (bpow_pos E) as HE.
  assert (H1 : bpow (a + E) <= IZR M * bpow E).
  { rewrite bpow_add, (bpow_IZR a) by lia. apply Rmult_le_compat_r; [lra|]. now apply IZR_le. }
  assert (H2 : IZR M * bpow E < bpow (b + E)).
  { rewrite bpow_add, (bpow_IZR b) by lia. apply Rmult_lt_compat_r; [lra|]. now apply IZR_lt. }
  pose proof (bpow_upper _ _ H1 Hv2). pose proof (bpow_lower _ _ H2 Hv1). lia.
Qed.

Lemma digits_range (M a b : Z) :
  (0 < M)%Z -> (0 <= a)%Z -> (2 ^ a <= M < 2 ^ b)%Z -> (a < Zdigits2 M <= b)%Z.
Proof.
  intros HM Ha [H1 H2]. pose proof (Zdigits2_bounds M HM) as [H3 H4].
  assert (Hd : (0 < Zdigits2 M)%Z) by (destruct M; simpl; lia).
  assert (H5 : (2 ^ a < 2 ^ Zdigits2 M)%Z) by lia.
  assert (H6 : (2 ^ (Zdigits2 M - 1) < 2 ^ b)%Z) by lia.
  apply Z.pow_lt_mono_r_iff in H5; try lia.
  destruct (Z.le_gt_cases 0 b) as [Hb|Hb].
  - apply Z.pow_lt_mono_r_iff in H6; lia.
  - rewrite (Z.pow_neg_r 2 b) in H2 by lia. lia.
Qed.

Lemma mantissa_bounds m : Zpos (digits2_pos m) = 53%Z -> (2 ^ 52 <= Zpos m < 2 ^ 53)%Z.
Proof. intros H. pose proof (digits2_bounds m) as Hb. rewrite H in Hb. exact Hb. Qed.

Lemma mul_posval x y vx vy :
  posval x vx -> posval y vy ->
  / IZR (2 ^ 64) <= vx * vy <= IZR (2 ^ 64) ->
  exists v, posval (x * y)%float v /\ near 1 v (vx * vy).
Proof.
  intros [mx [ex [Hx [Hdx ->]]]] [my [ey [Hy [Hdy ->]]]] Hr.
  pose proof (mantissa_bounds mx Hdx) as Hbx.
  pose proof (mantissa_bounds my Hdy) as Hby.
  assert (HM : (2 ^ 104 <= Zpos (mx * my) < 2 ^ 106)%Z).
  { rewrite Pos2Z.inj_mul. change (2 ^ 104)%Z with (2 ^ 52 * 2 ^ 52)%Z.
    change (2 ^ 106)%Z with (2 ^ 53 * 2 ^ 53)%Z. nia. }
  assert (Ev : IZR (Zpos mx) * bpow ex * (IZR (Zpos my) * bpow ey)
               = IZR (Zpos (mx * my)) * bpow (ex + ey)).
  { rewrite Pos2Z.inj_mul, mult_IZR, bpow_add. ring. }
  rewrite Ev in *.
  pose proof (exp_range _ _ 104 106 ltac:(lia) ltac:(lia) HM Hr) as HE.
  pose proof (digits_range (Zpos (mx * my)) 104 106 ltac:(lia) ltac:(lia) HM) as HD.
  destruct (BRA_near false (Zpos (mx * my)) (ex + ey) loc_Exact
              (IZR (Zpos (mx * my)) * bpow (ex + ey)))
    as [m [e [Hres [Hdig Hnear]]]]; try lia.
  { split; [lra|]. apply Rmult_lt_compat_r; [apply bpow_pos|]. apply IZR_lt. lia. }
  exists (IZR (Zpos m) * bpow e). split; [|exact Hnear].
  exists m, e. split; [|split; [exact Hdig | reflexivity]].
  rewrite FloatAxioms.mul_spec, Hx, Hy. exact Hres.
Qed.

Lemma div_core mx my ex ey :
  Zpos (digits2_pos mx) = 53%Z -> Zpos (digits2_pos my) = 53%Z ->
  (-1021 <= ex - ey)%Z ->
  SFdiv_core_binary prec emax (Zpos mx) ex (Zpos my) ey =
  ((Zpos mx * 2 ^ 53 / Zpos my)%Z, (ex - ey - 53)%Z,
   new_location (Zpos my) (Zpos mx * 2 ^ 53 mod Zpos my)%Z).
Proof.
  intros Hdx Hdy He. unfold SFdiv_core_binary. simpl Zdigits2. rewrite Hdx, Hdy.
  replace (53 + ex - (53 + ey))%Z with (ex - ey)%Z by lia.
  rewrite fexp_normal by lia.
  rewrite Z.min_l by lia.
  replace (ex - ey - (ex - ey - 53))%Z with 53%Z by lia.
  rewrite Z.shiftl_mul_pow2 by lia.
  unfold Z.div, Z.modulo.
  destruct (Z.div_eucl (Zpos mx * 2 ^ 53) (Zpos my)) as [q r]. reflexivity.
Qed.

Lemma div_posval x y vx vy :
  posval x vx -> posval y vy ->
  / IZR (2 ^ 64) <= vx / vy <= IZR (2 ^ 64) ->
  exists v, posval (x / y)%float v /\ near 1 v (vx / vy).
Proof.
  intros [mx [ex [Hx [Hdx ->]]]] [my [ey [Hy [Hdy ->]]]] Hr.
  pose proof (mantissa_bounds mx Hdx) as Hbx.
  pose proof (mantissa_bounds my Hdy) as Hby.
  set (q := (Zpos mx * 2 ^ 53 / Zpos my)%Z).
  pose proof (Z.div_mod (Zpos mx * 2 ^ 53) (Zpos my) ltac:(lia)) as Hdm.
  pose proof (Z.mod_pos_bound (Zpos mx * 2 ^ 53) (Zpos my) ltac:(lia)) as Hmod.
  fold q in Hdm.
  assert (Hq : (2 ^ 52 <= q < 2 ^ 54)%Z).
  { split.
    - apply Z.div_le_lower_bound; [lia|]. change (2 ^ 53)%Z with (2 * 2 ^ 52)%Z. nia.
    - apply Z.div_lt_upper_bound; [lia|]. change (2 ^ 54)%Z with (2 * 2 ^ 53)%Z.
      change (2 ^ 53)%Z with (2 * 2 ^ 52)%Z in *. nia. }
  assert (Hmy : 0 < IZR (Zpos my)) by (apply IZR_lt; lia).
  assert (Hmx : 0 < IZR (Zpos mx)) by (apply IZR_lt; lia).
  pose proof (bpow_pos ey) as HBy. pose proof (bpow_pos ex) as HBx.
  assert (H53 : 0 < IZR (2 ^ 53)) by (apply IZR_lt; lia).
  assert (Eq0 : IZR (Zpos mx) * bpow ex / (IZR (Zpos my) * bpow ey)
                = IZR (Zpos mx) / IZR (Zpos my) * bpow (ex - ey)).
  { replace (ex - ey)%Z with (ex + - ey)%Z by lia.
    rewrite bpow_add, bpow_opp. field. lra. }
  assert (Hratio : / 2 < IZR (Zpos mx) / IZR (Zpos my) < 2).
  { assert (IZR (Zpos mx) < IZR (2 ^ 53)) by (apply IZR_lt; lia).
    assert (IZR (Zpos my) < IZR (2 ^ 53)) by (apply IZR_lt; lia).
    assert (IZR (2 ^ 52) <= IZR (Zpos mx)) by (apply IZR_le; lia).
    assert (IZR (2 ^ 52) <= IZR (Zpos my)) by (apply IZR_le; lia).
    assert (IZR (2 ^ 53) = 2 * IZR (2 ^ 52)) by (rewrite <- mult_IZR; reflexivity).
    split.
    - apply Rmult_lt_reg_r with (IZR (Zpos my)); [exact Hmy|].
      replace (IZR (Zpos mx) / IZR (Zpos my) * IZR (Zpos my)) with (IZR (Zpos mx))
        by (field; lra). lra.
    - apply Rmult_lt_reg_r with (IZR (Zpos my)); [exact Hmy|].
      replace (IZR (Zpos mx) / IZR (Zpos my) * IZR (Zpos my)) with (IZR (Zpos mx))
        by (field; lra). lra. }
  assert (HE : (-65 < ex - ey <= 65)%Z).
  { pose proof (bpow_pos (ex - ey)) as HB.
    rewrite Eq0 in Hr. destruct Hr as [Hr1 Hr2].
    assert (H1 : bpow (ex - ey - 1) <= IZR (Zpos mx) / IZR (Zpos my) * bpow (ex - ey)).
    { replace (ex - ey - 1)%Z with (ex - ey + - (1))%Z by lia.
      rewrite bpow_add, bpow_opp, (bpow_IZR 1) by lia. change (IZR (2 ^ 1)) with 2. nra. }
    assert (H2 : IZR (Zpos mx) / IZR (Zpos my) * bpow (ex - ey) < bpow (ex - ey + 1)).
    { rewrite bpow_add, (bpow_IZR 1) by lia. change (IZR (2 ^ 1)) with 2. nra. }
    pose proof (bpow_upper _ _ H1 Hr2). pose proof (bpow_lower _ _ H2 Hr1). lia. }
  assert (Ev : IZR (Zpos mx) * bpow ex / (IZR (Zpos my) * bpow ey)
               = IZR (Zpos mx * 2 ^ 53) / IZR (Zpos my) * bpow (ex - ey - 53)).
  { rewrite Eq0. replace (ex - ey - 53)%Z with (ex - ey + - (53))%Z by lia.
    rewrite bpow_add, bpow_opp, (bpow_IZR 53), mult_IZR by lia.
    field. lra. }
  assert (Hq1 : IZR q <= IZR (Zpos mx * 2 ^ 53) / IZR (Zpos my)).
  { apply Rmult_le_reg_r with (IZR (Zpos my)); [exact Hmy|].
    replace (IZR (Zpos mx * 2 ^ 53) / IZR (Zpos my) * IZR (Zpos my))
      with (IZR (Zpos mx * 2 ^ 53)) by (field; lra).
    rewrite <- mult_IZR. apply IZR_le. lia. }
  assert (Hq2 : IZR (Zpos mx * 2 ^ 53) / IZR (Zpos my) < IZR (q + 1)).
  { apply Rmult_lt_reg_r with (IZR (Zpos my)); [exact Hmy|].
    replace (IZR (Zpos mx * 2 ^ 53) / IZR (Zpos my) * IZR (Zpos my))
      with (IZR (Zpos mx * 2 ^ 53)) by (field; lra).
    rewrite <- mult_IZR. apply IZR_lt. lia. }
  pose proof (bpow_pos (ex - ey - 53)) as HB.
  pose proof (digits_range q 52 54 ltac:(lia) ltac:(lia) Hq) as HD.
  destruct (BRA_near false q (ex - ey - 53)
              (new_location (Zpos my) (Zpos mx * 2 ^ 53 mod Zpos my)%Z)
              (IZR (Zpos mx) * bpow ex / (IZR (Zpos my) * bpow ey)))
    as [m [e [Hres [Hdig Hnear]]]]; try lia.
  { rewrite Ev. split.
    - apply Rmult_le_compat_r; lra.
    - apply Rmult_lt_compat_r; lra. }
  exists (IZR (Zpos m) * bpow e). split; [|exact Hnear].
  exists m, e. split; [|split; [exact Hdig | reflexivity]].
  rewrite FloatAxioms.div_spec, Hx, Hy. unfold SF64div, SFdiv.
  rewrite div_core by (assumption || lia). exact Hres.
Qed.

(** *** Zeros, whole numbers and [Math.round] *)




Lemma zero_div y vy : posval y vy -> (PrimFloat.zero / y)%float = PrimFloat.zero.
Proof.
  intros [m [e [Hy _]]]. apply Prim2SF_inj.
  rewrite FloatAxioms.div_spec, Hy. reflexivity.
Qed.

Lemma zero_mul y vy : posval y vy -> (PrimFloat.zero * y)%float = PrimFloat.zero.
Proof.
  intros [m [e [Hy _]]]. apply Prim2SF_inj.
  rewrite FloatAxioms.mul_spec, Hy. reflexivity.
Qed.

Lemma Prim2SF_Z2F p : (Zpos p < 2 ^ 53)%Z -> Prim2SF (Z2F (Zpos p)) = canon p.
Proof.
  intros Hp. unfold Z2F. rewrite of_uint63_spec, Uint63.of_Z_spec.
  rewrite Z.mod_small by (unfold wB; simpl; lia).
  unfold binary_normalize. apply binary_round_integer; [lia| |exact Hp].
  simpl. lia.
Qed.

Lemma canon_digits p :
  (Zpos p < 2 ^ 53)%Z ->
  Zpos (digits2_pos (Pos.shiftl p (Z.to_N (53 - Zpos (digits2_pos p))))) = 53%Z /\
  IZR (Zpos (Pos.shiftl p (Z.to_N (53 - Zpos (digits2_pos p)))))
    * bpow (Zpos (digits2_pos p) - 53) = IZR (Zpos p).
Proof.
  intros Hp. pose proof (digits2_bounds p) as [H1 H2].
  set (d := Zpos (digits2_pos p)) in *.
  assert (Hd : (1 <= d <= 53)%Z).
  { split; [unfold d; lia|].
    destruct (Z.le_gt_cases d 53); [assumption|].
    assert (2 ^ 53 <= 2 ^ (d - 1))%Z by (apply Z.pow_le_mono_r; lia). lia. }
  pose proof (pow2_pos (53 - d) ltac:(lia)) as Hpp.
  rewrite shiftl_pos_value by lia. split.
  - change (Zpos (digits2_pos (Pos.shiftl p (Z.to_N (53 - d)))))
      with (Zdigits2 (Zpos (Pos.shiftl p (Z.to_N (53 - d))))).
    apply Zdigits2_unique; [lia|]. rewrite shiftl_pos_value by lia.
    replace (53 - 1)%Z with (d - 1 + (53 - d))%Z by lia.
    replace (2 ^ 53)%Z with (2 ^ (d + (53 - d)))%Z by (f_equal; lia).
    rewrite !Z.pow_add_r by lia. nia.
  - rewrite mult_IZR. replace (d - 53)%Z with (- (53 - d))%Z by lia.
    rewrite bpow_opp, (bpow_IZR (53 - d)) by lia.
    field. apply not_0_IZR. lia.
Qed.

Lemma Z2F_posval n : (0 < n < 2 ^ 53)%Z -> posval (Z2F n) (IZR n).
Proof.
  intros [H1 H2]. destruct n as [|p|p]; try lia.
  destruct (canon_digits p H2) as [Hd Hv].
  eexists _, _. split; [apply Prim2SF_Z2F; exact H2|].
  split; [exact Hd | now rewrite Hv].
Qed.

Lemma Math_round_posval x v :
  posval x v -> v < IZR (2 ^ 52) ->
  exists n, Math_round x = Z2F n /\ (0 <= n)%Z /\ IZR n <= v + / 2 < IZR n + 1.
Proof.
  intros [m [e [Hx [Hd ->]]]] Hv.
  pose proof (mantissa_bounds m Hd) as [Hm1 Hm2].
  assert (He : (e < 0)%Z).
  { destruct (Z.lt_ge_cases e 0); [assumption|]. exfalso.
    assert (1 <= bpow e) by (rewrite bpow_IZR by lia; apply IZR_le;
                             pose proof (pow2_pos e ltac:(lia)); lia).
    assert (IZR (2 ^ 52) <= IZR (Zpos m)) by (apply IZR_le; lia).
    assert (0 < IZR (2 ^ 52)) by (apply IZR_lt; lia). nra. }
  exists (round_half_up false m e). split; [|split].
  - unfold Math_round. rewrite Hx.
    destruct (Z.leb_spec 0 e); [lia|].
    destruct (Z.eqb_spec (round_half_up false m e) 0) as [->|]; reflexivity.
  - unfold round_half_up. apply Z.div_pos; [|apply pow2_pos; lia].
    pose proof (pow2_pos (- e) ltac:(lia)). lia.
  - pose proof (Math_round_half_up false m e He) as H. cbv zeta in H.
    set (n := round_half_up false m e) in *.
    pose proof (pow2_pos (- e) ltac:(lia)) as Hp.
    assert (HP : 0 < IZR (2 ^ (- e))) by (apply IZR_lt; lia).
    assert (EB : bpow e = / IZR (2 ^ (- e))).
    { replace e with (- (- e))%Z at 1 by lia. rewrite bpow_opp, bpow_IZR by lia. reflexivity. }
    destruct H as [Ha Hb]. apply IZR_le in Ha. apply IZR_lt in Hb.
    rewrite !plus_IZR, !mult_IZR in Ha, Hb. rewrite ?plus_IZR in Hb.
    rewrite EB.
    assert (Hinv : IZR (Zpos m) * / IZR (2 ^ (- e)) * IZR (2 ^ (- e)) = IZR (Zpos m))
      by (field; lra).
    set (P := IZR (2 ^ (- e))) in *. set (w := IZR (Zpos m) * / P) in *.
    split.
    + apply Rmult_le_reg_r with (2 * P); [lra|]. nra.
    + apply Rmult_lt_reg_r with (2 * P); [lra|]. nra.
Qed.

(** *** Rounding errors compose *)
Lemma pow1u_pos k : 0 < (1 + u) ^ k.
Proof. apply pow_lt. pose proof u_pos. lra. Qed.

Lemma pow1u_ge1 k : 1 <= (1 + u) ^ k.
Proof. apply pow_R1_Rle. pose proof u_pos. lra. Qed.

Lemma near_pos k v x : near k v x -> 0 < v.
Proof.
  intros [Hx [_ H]]. pose proof (pow1u_pos k).
  destruct (Rlt_le_dec 0 v); [assumption|]. nra.
Qed.

Lemma near_refl x : 0 < x -> near 0 x x.
Proof. intros H. unfold near. simpl. lra. Qed.

Lemma near_weaken j k v x : (j <= k)%nat -> near j v x -> near k v x.
Proof.
  intros Hjk H. pose proof (near_pos _ _ _ H) as Hv. destruct H as [Hx [H1 H2]].
  replace k with (j + (k - j))%nat by lia. unfold near. rewrite pow_add.
  pose proof (pow1u_ge1 (k - j)). pose proof (pow1u_pos j).
  split; [exact Hx|]. split; nra.
Qed.

Lemma near_trans j k a b c : near j a b -> near k b c -> near (j + k) a c.
Proof.
  intros Hab Hbc. pose proof (near_pos _ _ _ Hab) as Ha.
  destruct Hab as [Hb [H1 H2]]. destruct Hbc as [Hc [H3 H4]].
  unfold near. rewrite pow_add. pose proof (pow1u_pos j). pose proof (pow1u_pos k).
  split; [exact Hc|]. split.
  - apply Rle_trans with (b * (1 + u) ^ j); [exact H1|].
    replace (c * ((1 + u) ^ j * (1 + u) ^ k)) with (c * (1 + u) ^ k * (1 + u) ^ j) by ring.
    apply Rmult_le_compat_r; lra.
  - apply Rle_trans with (b * (1 + u) ^ k); [exact H4|].
    replace (a * ((1 + u) ^ j * (1 + u) ^ k)) with (a * (1 + u) ^ j * (1 + u) ^ k) by ring.
    apply Rmult_le_compat_r; lra.
Qed.

Lemma near_mul j k a a' b b' :
  near j a a' -> near k b b' -> near (j + k) (a * b) (a' * b').
Proof.
  intros Ha Hb. pose proof (near_pos _ _ _ Ha) as Hpa. pose proof (near_pos _ _ _ Hb) as Hpb.
  destruct Ha as [Ha' [H1 H2]]. destruct Hb as [Hb' [H3 H4]].
  unfold near. rewrite pow_add. pose proof (pow1u_pos j). pose proof (pow1u_pos k).
  split; [nra|]. split.
  - replace (a' * b' * ((1 + u) ^ j * (1 + u) ^ k))
      with ((a' * (1 + u) ^ j) * (b' * (1 + u) ^ k)) by ring.
    apply Rmult_le_compat; lra.
  - replace (a * b * ((1 + u) ^ j * (1 + u) ^ k))
      with ((a * (1 + u) ^ j) * (b * (1 + u) ^ k)) by ring.
    apply Rmult_le_compat; lra.
Qed.

Lemma near_inv k b b' : near k b b' -> near k (/ b) (/ b').
Proof.
  intros Hb. pose proof (near_pos _ _ _ Hb) as Hpb. destruct Hb as [Hb' [H1 H2]].
  pose proof (pow1u_pos k) as HU.
  assert (0 < / b) by now apply Rinv_0_lt_compat.
  assert (0 < / b') by now apply Rinv_0_lt_compat.
  split; [assumption|]. split.
  - apply Rmult_le_reg_r with (b * b'); [nra|].
    replace (/ b * (b * b')) with b' by (field; lra).
    replace (/ b' * (1 + u) ^ k * (b * b')) with (b * (1 + u) ^ k) by (field; lra).
    exact H2.
  - apply Rmult_le_reg_r with (b * b'); [nra|].
    replace (/ b' * (b * b')) with b by (field; lra).
    replace (/ b * (1 + u) ^ k * (b * b')) with (b' * (1 + u) ^ k) by (field; lra).
    exact H1.
Qed.

Lemma near_div j k a a' b b' :
  near j a a' -> near k b b' -> near (j + k) (a / b) (a' / b').
Proof. intros Ha Hb. apply near_mul; [exact Ha | now apply near_inv]. Qed.

Lemma pow1u_bound k : (k <= 8)%nat -> (1 + u) ^ k <= 1 + eps.
Proof.
  intros Hk. pose proof u_pos as Hu. pose proof u_value as Huv.
  replace (2 ^ 52)%Z with 4503599627370496%Z in Huv by reflexivity.
  assert (Hu' : u = / 4503599627370496).
  { apply Rmult_eq_reg_r with 4503599627370496; [|lra]. rewrite Huv. field. }
  assert (H : forall n, (n <= 8)%nat -> (1 + u) ^ n <= 1 + 2 * INR n * u).
  { induction n as [|n IH]; intros Hn.
    - simpl. lra.
    - rewrite S_INR. simpl pow. specialize (IH ltac:(lia)).
      assert (0 <= INR n <= 8).
      { split; [apply pos_INR|]. replace 8 with (INR 8) by (simpl; lra). apply le_INR. lia. }
      pose proof (pow1u_pos n). nra. }
  specialize (H k Hk).
  assert (INR k <= 8) by (replace 8 with (INR 8) by (simpl; lra); apply le_INR; lia).
  unfold eps. nra.
Qed.

Lemma near_bounds k v x l h :
  (k <= 8)%nat -> near k v x -> 0 < l -> l <= x <= h -> l / 2 <= v <= 2 * h.
Proof.
  intros Hk Hn Hl [Hx1 Hx2]. pose proof (near_pos _ _ _ Hn) as Hv.
  destruct Hn as [Hx [H1 H2]]. pose proof (pow1u_bound k Hk) as HU.
  pose proof (pow1u_ge1 k). unfold eps in HU.
  split; nra.
Qed.

(** *** The two rescaling expressions *)
Lemma big_literal : IZR (2 ^ 64) = 18446744073709551616.
Proof. reflexivity. Qed.

Lemma mul_interval a b la ha lb hb :
  0 < la -> 0 < lb -> la <= a <= ha -> lb <= b <= hb ->
  la * lb <= a * b <= ha * hb.
Proof. intros. split; apply Rmult_le_compat; lra. Qed.

Lemma div_interval a b la ha lb hb :
  0 < la -> 0 < lb -> la <= a <= ha -> lb <= b <= hb ->
  la / hb <= a / b <= ha / lb.
Proof.
  intros Hla Hlb [Ha1 Ha2] [Hb1 Hb2]. unfold Rdiv.
  assert (/ hb <= / b) by (apply Rinv_le_contravar; lra).
  assert (/ b <= / lb) by (apply Rinv_le_contravar; lra).
  assert (0 < / hb) by (apply Rinv_0_lt_compat; lra).
  split; apply Rmult_le_compat; lra.
Qed.

Lemma mul_step x y vx vy X Y j k lx hx ly hy :
  posval x vx -> posval y vy ->
  near j vx X -> near k vy Y -> (j <= 8)%nat -> (k <= 8)%nat ->
  / 4294967296 <= lx -> lx <= X <= hx -> hx <= 4294967296 * 1048576 ->
  / 1024 <= ly -> ly <= Y <= hy -> hy <= 1024 ->
  exists v, posval (x * y)%float v /\ near (1 + (j + k)) v (X * Y) /\
            lx * ly <= X * Y <= hx * hy.
Proof.
  intros Hx Hy Hnx Hny Hj Hk Hlx HX Hhx Hly HY Hhy.
  assert (0 < / 4294967296) by lra. assert (0 < / 1024) by lra.
  pose proof (near_bounds _ _ _ lx hx Hj Hnx ltac:(lra) HX) as Bx.
  pose proof (near_bounds _ _ _ ly hy Hk Hny ltac:(lra) HY) as By.
  pose proof (mul_interval vx vy (lx / 2) (2 * hx) (ly / 2) (2 * hy)
                ltac:(lra) ltac:(lra) Bx By) as Bxy.
  destruct (mul_posval x y vx vy Hx Hy) as [v [Hv Hn]].
  { rewrite big_literal. split.
    - apply Rle_trans with (lx / 2 * (ly / 2)); [|lra].
      apply Rle_trans with (/ 4294967296 / 2 * (/ 1024 / 2)); [lra|].
      apply Rmult_le_compat; lra.
    - apply Rle_trans with (2 * hx * (2 * hy)); [lra|].
      apply Rle_trans with (2 * (4294967296 * 1048576) * (2 * 1024)); [|lra].
      apply Rmult_le_compat; lra. }
  exists v. split; [exact Hv|]. split.
  - apply near_trans with (vx * vy); [exact Hn | now apply near_mul].
  - apply mul_interval; lra.
Qed.

Lemma div_step x y vx vy X Y j k lx hx ly hy :
  posval x vx -> posval y vy ->
  near j vx X -> near k vy Y -> (j <= 8)%nat -> (k <= 8)%nat ->
  / 4294967296 <= lx -> lx <= X <= hx -> hx <= 4294967296 * 1048576 ->
  / 1024 <= ly -> ly <= Y <= hy -> hy <= 1024 ->
  exists v, posval (x / y)%float v /\ near (1 + (j + k)) v (X / Y) /\
            lx / hy <= X / Y <= hx / ly.
Proof.
  intros Hx Hy Hnx Hny Hj Hk Hlx HX Hhx Hly HY Hhy.
  assert (0 < / 4294967296) by lra. assert (0 < / 1024) by lra.
  pose proof (near_bounds _ _ _ lx hx Hj Hnx ltac:(lra) HX) as Bx.
  pose proof (near_bounds _ _ _ ly hy Hk Hny ltac:(lra) HY) as By.
  pose proof (div_interval vx vy (lx / 2) (2 * hx) (ly / 2) (2 * hy)
                ltac:(lra) ltac:(lra) Bx By) as Bxy.
  destruct (div_posval x y vx vy Hx Hy) as [v [Hv Hn]].
  { rewrite big_literal. split.
    - apply Rle_trans with (lx / 2 / (2 * hy)); [|lra].
      apply Rle_trans with (/ 4294967296 / 2 / (2 * 1024)); [lra|].
      apply (div_interval (lx / 2) (2 * hy) (/ 4294967296 / 2) (lx / 2)
               (2 * hy) (2 * 1024)); lra.
    - apply Rle_trans with (2 * hx / (ly / 2)); [lra|].
      apply Rle_trans with (2 * (4294967296 * 1048576) / (/ 1024 / 2)); [|lra].
      apply (div_interval (2 * hx) (ly / 2) (2 * hx) (2 * (4294967296 * 1048576))
               (/ 1024 / 2) (ly / 2)); lra. }
  exists v. split; [exact Hv|]. split.
  - apply near_trans with (vx / vy); [exact Hn | now apply near_div].
  - apply div_interval; lra.
Qed.

Lemma posval_10 : posval 10%float 10.
Proof. change 10%float with (Z2F 10). apply Z2F_posval. lia. Qed.

Lemma posval_100 : posval 100%float 100.
Proof. change 100%float with (Z2F 100). apply Z2F_posval. lia. Qed.

Lemma posval_2 : posval (200 / 100)%float 2.
Proof. change (200 / 100)%float with (Z2F 2). apply Z2F_posval. lia. Qed.

Lemma posval_exact x v : posval x v -> near 0 v v.
Proof. intros H. apply near_refl. exact (posval_pos _ _ H). Qed.

Lemma IZR_range (a lo hi : Z) : (lo <= a <= hi)%Z -> IZR lo <= IZR a <= IZR hi.
Proof. intros [H1 H2]. split; now apply IZR_le. Qed.

Lemma leg_whole a d0 d1 D0 D1 :
  (1 <= a <= 2 ^ 40)%Z -> posval d0 D0 -> posval d1 D1 ->
  / 128 <= D0 <= 8 -> / 128 <= D1 <= 8 ->
  exists a' t,
    Math_round (Z2F a / d0 * d1)%float = Z2F a' /\ (0 <= a')%Z /\
    near 4 t (IZR a * (D1 / D0)) /\ IZR a' <= t + / 2 < IZR a' + 1.
Proof.
  intros Ha H0 H1 B0 B1.
  pose proof (IZR_range a 1 (2 ^ 40) Ha) as Ba.
  replace (2 ^ 40)%Z with 1099511627776%Z in Ba by reflexivity.
  assert (Hza : posval (Z2F a) (IZR a)).
  { apply Z2F_posval. split; [lia|].
    apply Z.le_lt_trans with (2 ^ 40)%Z; [lia | reflexivity]. }
  destruct (div_step _ _ _ _ (IZR a) D0 0 0 1 1099511627776 (/ 128) 8
              Hza H0 (posval_exact _ _ Hza) (posval_exact _ _ H0))
    as [v1 [P1 [N1 R1]]]; try lia; try lra.
  destruct (mul_step _ _ _ _ (IZR a / D0) D1 1 0 (1 / 8) (1099511627776 / / 128) (/ 128) 8
              P1 H1 N1 (posval_exact _ _ H1))
    as [v2 [P2 [N2 R2]]]; try lia; try lra.
  destruct (Math_round_posval _ v2 P2) as [a' [E [Hpos Hrnd]]].
  { pose proof (near_bounds (1 + (1 + 0)) _ _ (1 / 8 * / 128)
                  (1099511627776 / / 128 * 8) ltac:(lia) N2 ltac:(lra) R2) as B.
    replace (2 ^ 52)%Z with 4503599627370496%Z by reflexivity. lra. }
  exists a', v2. split; [exact E|]. split; [exact Hpos|]. split; [|exact Hrnd].
  apply near_weaken with (j := (1 + (1 + 0))%nat); [lia|].
  replace (IZR a * (D1 / D0)) with (IZR a / D0 * D1) by (field; lra). exact N2.
Qed.

Lemma leg_tenths n d0 d1 D0 D1 :
  (1 <= n <= 2 ^ 40)%Z -> posval d0 D0 -> posval d1 D1 ->
  / 128 <= D0 <= 8 -> / 128 <= D1 <= 8 ->
  exists n' t,
    Math_round (Z2F n / 10 / d0 * d1 * 10)%float = Z2F n' /\ (0 <= n')%Z /\
    near 4 t (IZR n * (D1 / D0)) /\ IZR n' <= t + / 2 < IZR n' + 1.
Proof.
  intros Hn H0 H1 B0 B1.
  pose proof (IZR_range n 1 (2 ^ 40) Hn) as Bn.
  replace (2 ^ 40)%Z with 1099511627776%Z in Bn by reflexivity.
  assert (Hzn : posval (Z2F n) (IZR n)).
  { apply Z2F_posval. split; [lia|].
    apply Z.le_lt_trans with (2 ^ 40)%Z; [lia | reflexivity]. }
  destruct (div_step _ _ _ _ (IZR n) 10 0 0 1 1099511627776 10 10
              Hzn posval_10 (posval_exact _ _ Hzn) (posval_exact _ _ posval_10))
    as [v0 [P0 [N0 R0]]]; try lia; try lra.
  destruct (div_step _ _ _ _ (IZR n / 10) D0 1 0 (1 / 10) (1099511627776 / 10) (/ 128) 8
              P0 H0 N0 (posval_exact _ _ H0))
    as [v1 [P1 [N1 R1]]]; try lia; try lra.
  destruct (mul_step _ _ _ _ (IZR n / 10 / D0) D1 2 0
              (1 / 10 / 8) (1099511627776 / 10 / / 128) (/ 128) 8
              P1 H1 N1 (posval_exact _ _ H1))
    as [v2 [P2 [N2 R2]]]; try lia; try lra.
  destruct (mul_step _ _ _ _ (IZR n / 10 / D0 * D1) 10 3 0
              (1 / 10 / 8 * / 128) (1099511627776 / 10 / / 128 * 8) 10 10
              P2 posval_10 N2 (posval_exact _ _ posval_10))
    as [v3 [P3 [N3 R3]]]; try lia; try lra.
  destruct (Math_round_posval _ v3 P3) as [n' [E [Hpos Hrnd]]].
  { pose proof (near_bounds (1 + (3 + 0)) _ _ (1 / 10 / 8 * / 128 * 10)
                  (1099511627776 / 10 / / 128 * 8 * 10) ltac:(lia) N3 ltac:(lra) R3) as B.
    replace (2 ^ 52)%Z with 4503599627370496%Z by reflexivity. lra. }
  exists n', v3. split; [exact E|]. split; [exact Hpos|]. split; [|exact Hrnd].
  replace (IZR n * (D1 / D0)) with (IZR n / 10 / D0 * D1 * 10) by (field; lra). exact N3.
Qed.

Lemma Math_round_zero : Math_round PrimFloat.zero = PrimFloat.zero.
Proof. reflexivity. Qed.

Lemma leg_whole_zero d0 d1 D0 D1 :
  posval d0 D0 -> posval d1 D1 ->
  Math_round (Z2F 0 / d0 * d1)%float = Z2F 0.
Proof.
  intros H0 H1. simpl Z2F.
  rewrite (zero_div _ _ H0), (zero_mul _ _ H1). reflexivity.
Qed.

Lemma leg_tenths_zero d0 d1 D0 D1 :
  posval d0 D0 -> posval d1 D1 ->
  Math_round (Z2F 0 / 10 / d0 * d1 * 10)%float = Z2F 0.
Proof.
  intros H0 H1. simpl Z2F.
  rewrite (zero_div _ _ posval_10), (zero_div _ _ H0), (zero_mul _ _ H1),
    (zero_mul _ _ posval_10).
  reflexivity.
Qed.

(** *** The round trip, on real numbers *)
Lemma near4_bounds t X :
  near 4 t X -> exists E, 0 <= E <= eps /\ t <= X * (1 + E) /\ X <= t * (1 + E) /\ 0 < X /\ 0 < t.
Proof.
  intros H. pose proof (near_pos _ _ _ H) as Ht. destruct H as [HX [H1 H2]].
  exists ((1 + u) ^ 4 - 1). pose proof (pow1u_bound 4 ltac:(lia)). pose proof (pow1u_ge1 4).
  replace (1 + ((1 + u) ^ 4 - 1)) with ((1 + u) ^ 4) by ring.
  repeat split; lra.
Qed.

Lemma first_leg_bound (a a1 : Z) (t1 D : R) :
  (1 <= a <= 1000000000)%Z -> / 128 <= D ->
  near 4 t1 (IZR a * (2 / D)) -> IZR a1 <= t1 + / 2 ->
  (a1 <= 2 ^ 40)%Z.
Proof.
  intros Ha HD Hn Hr.
  destruct (near4_bounds _ _ Hn) as [E [[HE1 HE2] [H1 [H2 [HX Ht]]]]].
  unfold eps in HE2.
  pose proof (IZR_range a 1 1000000000 Ha) as [Ha1 Ha2].
  assert (HD' : 0 < D) by lra.
  assert (Hrho : 2 / D <= 256).
  { apply Rmult_le_reg_r with D; [lra|]. replace (2 / D * D) with 2 by (field; lra). lra. }
  assert (Hrho' : 0 < 2 / D) by (apply Rdiv_lt_0_compat; lra).
  assert (HX' : IZR a * (2 / D) <= 1000000000 * 256) by (apply Rmult_le_compat; lra).
  assert (Ht1 : t1 <= 1000000000 * 256 * 2) by nra.
  apply le_IZR. replace (2 ^ 40)%Z with 1099511627776%Z by reflexivity. lra.
Qed.

Lemma round_trip_real (a a1 a2 : Z) (t1 t2 D : R) :
  (1 <= a <= 1000000000)%Z -> / 128 <= D <= 501 / 100 ->
  near 4 t1 (IZR a * (2 / D)) -> IZR a1 <= t1 + / 2 < IZR a1 + 1 -> (0 <= a1)%Z ->
  ((1 <= a1)%Z -> near 4 t2 (IZR a1 * (D / 2)) /\ IZR a2 <= t2 + / 2 < IZR a2 + 1) ->
  (a1 = 0%Z -> a2 = 0%Z) ->
  (a - 1 <= a2 <= a + 1)%Z.
Proof.
  intros Ha [HD1 HD2] Hn1 [Hr1 Hr1'] Hpos Hleg2 Hzero.
  destruct (near4_bounds _ _ Hn1) as [E [[HE1 HE2] [H1 [H2 [HX Ht]]]]].
  unfold eps in HE2.
  pose proof (IZR_range a 1 1000000000 Ha) as [Ha1 Ha2].
  assert (HD' : 0 < D) by lra.
  set (A := IZR a) in *. set (s1 := t1 * (D / 2)).
  assert (Hs1 : s1 <= A * (1 + E)).
  { unfold s1. replace (A * (1 + E)) with (A * (2 / D) * (1 + E) * (D / 2)) by (field; lra).
    apply Rmult_le_compat_r; lra. }
  assert (Hs2 : A <= s1 * (1 + E)).
  { unfold s1. replace A with (A * (2 / D) * (D / 2)) by (field; lra).
    replace (t1 * (D / 2) * (1 + E)) with (t1 * (1 + E) * (D / 2)) by ring.
    apply Rmult_le_compat_r; lra. }
  assert (HAE : A * E <= / 1000) by nra.
  destruct (Z.eq_dec a1 0) as [Hz|Hnz].
  - rewrite (Hzero Hz). subst a1. simpl in Hr1'.
    assert (s1 < 501 / 400) by (unfold s1; nra).
    assert (A < 2) by nra.
    assert (a < 2)%Z by (apply lt_IZR; exact H0).
    lia.
  - destruct (Hleg2 ltac:(lia)) as [Hn2 [Hr2 Hr2']].
    destruct (near4_bounds _ _ Hn2) as [E' [[HE1' HE2'] [H3 [H4 [HX' Ht2]]]]].
    unfold eps in HE2'.
    set (A1 := IZR a1) in *.
    assert (HA1s : A1 * (D / 2) <= s1 + D / 4) by (unfold s1; nra).
    assert (HA1s' : s1 - D / 4 < A1 * (D / 2)) by (unfold s1; nra).
    assert (Hs1b : s1 <= A + / 1000) by nra.
    assert (Hs1c : A - / 100 <= s1).
    { assert (s1 * E <= / 500) by nra. nra. }
    assert (Hup : t2 <= A + 127 / 100).
    { assert (A1 * (D / 2) <= A + / 1000 + 501 / 400) by lra.
      assert (A1 * (D / 2) * E' <= / 500) by nra.
      nra. }
    assert (Hlo : A - 127 / 100 < t2).
    { assert (A - / 100 - 501 / 400 < A1 * (D / 2)) by lra.
      assert (t2 * E' <= / 500) by nra.
      nra. }
    split.
    + assert (IZR (a - 2) < IZR a2) by (rewrite minus_IZR; fold A; lra).
      apply lt_IZR in H. lia.
    + assert (IZR a2 < IZR (a + 2)) by (rewrite plus_IZR; fold A; lra).
      apply lt_IZR in H. lia.
Qed.

(** *** A quantity between 1 and 500 *)
Lemma valid_digits m e :
  valid_binary (S754_finite false m e) = true -> (-1074 < e)%Z ->
  Zpos (digits2_pos m) = 53%Z.
Proof.
  unfold SpecFloat.valid_binary, bounded, canonical_mantissa, fexp, emin, prec, emax.
  intros H He. apply andb_true_iff in H. destruct H as [H _].
  apply Z.eqb_eq in H. unfold SpecFloat.fexp, SpecFloat.emin in H. lia.
Qed.

Lemma range_posval q :
  (1 <=? q)%float = true -> (q <=? 500)%float = true ->
  exists v, posval q v /\ 1 <= v <= 500.
Proof.
  intros H1 H2. rewrite FloatAxioms.leb_spec in H1, H2.
  pose proof (Prim2SF_valid q) as Hval.
  change (Prim2SF 1) with (S754_finite false 4503599627370496 (-52)) in H1.
  change (Prim2SF 500) with (S754_finite false 8796093022208000 (-44)) in H2.
  destruct (Prim2SF q) as [s|s| |s m e] eqn:Hq.
  - discriminate H1.
  - destruct s; discriminate.
  - discriminate H1.
  - destruct s; [discriminate H1|].
    unfold SFleb, SFcompare in H1, H2.
    assert (He1 : (-52 <= e)%Z).
    { destruct (Z.compare_spec (-52) e); try lia; try discriminate H1. }
    assert (He2 : (e <= -44)%Z).
    { destruct (Z.compare_spec e (-44)); try lia; try discriminate H2. }
    pose proof (valid_digits m e Hval ltac:(lia)) as Hd.
    pose proof (mantissa_bounds m Hd) as [Hm1 Hm2].
    exists (IZR (Zpos m) * bpow e). split.
    { exists m, e. auto. }
    assert (HB : bpow e = / IZR (2 ^ (- e))).
    { replace e with (- (- e))%Z at 1 by lia. rewrite bpow_opp, bpow_IZR by lia. reflexivity. }
    rewrite HB.
    pose proof (pow2_pos (- e) ltac:(lia)) as Hp.
    assert (HP : 0 < IZR (2 ^ (- e))) by (apply IZR_lt; lia).
    split.
    + apply Rmult_le_reg_r with (IZR (2 ^ (- e))); [exact HP|].
      replace (IZR (Zpos m) * / IZR (2 ^ (- e)) * IZR (2 ^ (- e))) with (IZR (Zpos m))
        by (field; lra).
      rewrite Rmult_1_l. apply IZR_le.
      apply Z.le_trans with (2 ^ 52)%Z; [|lia].
      apply Z.pow_le_mono_r; lia.
    + apply Rmult_le_reg_r with (IZR (2 ^ (- e))); [exact HP|].
      replace (IZR (Zpos m) * / IZR (2 ^ (- e)) * IZR (2 ^ (- e))) with (IZR (Zpos m))
        by (field; lra).
      rewrite <- mult_IZR. apply IZR_le.
      destruct (Z.eq_dec e (-44)) as [->|Hne].
      * rewrite Z.compare_refl in H2.
        replace (- (-44))%Z with 44%Z by reflexivity.
        replace (2 ^ 44)%Z with 17592186044416%Z by reflexivity.
        rewrite Pos.compare_cont_spec in H2.
        destruct (Pos.compare_spec m 8796093022208000) as [Hc|Hc|Hc].
        -- subst m. apply Z.leb_le. reflexivity.
        -- assert (Hc' : (Zpos m < Zpos 8796093022208000)%Z) by exact Hc.
           apply Z.lt_le_incl.
           apply Z.lt_le_trans with (1 := Hc'). apply Z.leb_le. reflexivity.
        -- cbn [Pos.switch_Eq] in H2. discriminate H2.
      * assert (2 ^ 9 <= 2 ^ (- e))%Z by (apply Z.pow_le_mono_r; lia).
        change (2 ^ 9)%Z with 512%Z in *. change (2 ^ 53)%Z with 9007199254740992%Z in Hm2.
        assert (2 ^ (- e) <= 2 ^ 52)%Z by (apply Z.pow_le_mono_r; lia).
        assert (2 ^ 45 <= 2 ^ (- e))%Z by (apply Z.pow_le_mono_r; lia).
        change (2 ^ 45)%Z with 35184372088832%Z in *. nia.
Qed.

(** *** Sums of whole numbers are exact *)
Local Open Scope Z_scope.

Lemma shl_align_value m e ez :
  ez <= e -> Zpos (fst (shl_align m e ez)) = Zpos m * 2 ^ (e - ez).
Proof.
  intros H. unfold shl_align.
  destruct (ez - e) as [|d|d] eqn:E; try lia; simpl fst.
  - replace (e - ez) with 0 by lia. simpl. lia.
  - rewrite iter_xO_value. f_equal. f_equal. lia.
Qed.

Lemma canon_add a b :
  Zpos a + Zpos b < 2 ^ 53 -> SF64add (canon a) (canon b) = canon (a + b).
Proof.
  intros Hab. unfold SF64add, SFadd, canon.
  set (da := Zpos (digits2_pos a)). set (db := Zpos (digits2_pos b)).
  set (ma := Pos.shiftl a (Z.to_N (53 - da))).
  set (mb := Pos.shiftl b (Z.to_N (53 - db))).
  set (ez := Z.min (da - 53) (db - 53)).
  assert (Hda : 1 <= da <= 53).
  { pose proof (digits2_bounds a) as [H1 H2]. fold da in H1, H2.
    split; [unfold da; lia|]. destruct (Z.le_gt_cases da 53); [assumption|].
    assert (2 ^ 53 <= 2 ^ (da - 1)) by (apply Z.pow_le_mono_r; lia). lia. }
  assert (Hdb : 1 <= db <= 53).
  { pose proof (digits2_bounds b) as [H1 H2]. fold db in H1, H2.
    split; [unfold db; lia|]. destruct (Z.le_gt_cases db 53); [assumption|].
    assert (2 ^ 53 <= 2 ^ (db - 1)) by (apply Z.pow_le_mono_r; lia). lia. }
  assert (Hma : Zpos ma = Zpos a * 2 ^ (53 - da)) by (apply shiftl_pos_value; lia).
  assert (Hmb : Zpos mb = Zpos b * 2 ^ (53 - db)) by (apply shiftl_pos_value; lia).
  assert (Hez : ez <= da - 53 /\ ez <= db - 53 /\ ez <= 0) by (unfold ez; lia).
  destruct Hez as [Hez1 [Hez2 Hez3]].
  cbn [cond_Zopp].
  rewrite (shl_align_value ma (da - 53) ez Hez1), (shl_align_value mb (db - 53) ez Hez2).
  assert (Ea : Zpos ma * 2 ^ (da - 53 - ez) = Zpos a * 2 ^ (- ez)).
  { rewrite Hma, <- Z.mul_assoc, <- Z.pow_add_r by lia. f_equal. f_equal. lia. }
  assert (Eb : Zpos mb * 2 ^ (db - 53 - ez) = Zpos b * 2 ^ (- ez)).
  { rewrite Hmb, <- Z.mul_assoc, <- Z.pow_add_r by lia. f_equal. f_equal. lia. }
  rewrite Ea, Eb.
  pose proof (pow2_pos (- ez) ltac:(lia)) as Hp.
  destruct (Zpos a * 2 ^ (- ez) + Zpos b * 2 ^ (- ez)) as [|S|S] eqn:ES; try lia.
  unfold binary_normalize.
  apply (binary_round_integer S ez (a + b)); [lia| |exact Hab].
  rewrite <- ES. rewrite Pos2Z.inj_add. lia.
Qed.

Lemma Z2F_add a b :
  0 <= a -> 0 <= b -> a + b < 2 ^ 53 -> (Z2F a + Z2F b)%float = Z2F (a + b).
Proof.
  intros Ha Hb Hab. apply Prim2SF_inj. rewrite FloatAxioms.add_spec.
  destruct a as [|a|a]; try lia; destruct b as [|b|b]; try lia.
  - reflexivity.
  - simpl Z.add. change (Z2F 0) with PrimFloat.zero.
    change (Prim2SF PrimFloat.zero) with (S754_zero false).
    rewrite (Prim2SF_Z2F b) by lia. reflexivity.
  - rewrite Z.add_0_r. change (Z2F 0) with PrimFloat.zero.
    change (Prim2SF PrimFloat.zero) with (S754_zero false).
    rewrite (Prim2SF_Z2F a) by lia. reflexivity.
  - rewrite (Prim2SF_Z2F a), (Prim2SF_Z2F b) by lia.
    change (Zpos a + Zpos b) with (Zpos (a + b)).
    rewrite (Prim2SF_Z2F (a + b)) by (rewrite Pos2Z.inj_add; lia).
    apply canon_add. exact Hab.
Qed.

End FloatFacts.

(** ** C9: the drift of a quantity edit made and undone *)

Section RoundTrip.
Local Open Scope R_scope.

Lemma near_eps k v x :
  (k <= 8)%nat -> near k v x -> v <= x * (1 + eps) /\ x <= v * (1 + eps).
Proof.
  intros Hk Hn. pose proof (near_pos _ _ _ Hn) as Hv.
  destruct Hn as [Hx [H1 H2]]. pose proof (pow1u_bound k Hk) as HU.
  split; nra.
Qed.

(** The multiplier [quantity / 100] of a quantity between 1 and 500. *)
Lemma multiplier_posval q :
  (1 <=? q)%float = true -> (q <=? 500)%float = true ->
  exists D, posval (q / 100)%float D /\ / 128 <= D <= 501 / 100.
Proof.
  intros H1 H2. destruct (range_posval q H1 H2) as [V [HV BV]].
  destruct (div_step _ _ _ _ V 100 0 0 1 500 100 100
              HV posval_100 (posval_exact _ _ HV) (posval_exact _ _ posval_100))
    as [D [PD [ND RD]]]; try lia; try lra.
  exists D. split; [exact PD|].
  destruct (near_eps (1 + (0 + 0)) _ _ ltac:(lia) ND) as [E1 E2]. unfold eps in E1, E2.
  split; nra.
Qed.

Lemma whole_round_trip c d D :
  (0 <= c <= 1000000000)%Z -> posval d D -> / 128 <= D <= 501 / 100 ->
  exists c1 c2,
    Math_round (Z2F c / d * (200 / 100))%float = Z2F c1 /\
    Math_round (Z2F c1 / (200 / 100) * d)%float = Z2F c2 /\
    (c - 1 <= c2 <= c + 1)%Z.
Proof.
  intros Hc Hd HD.
  destruct (Z.eq_dec c 0) as [->|Hc0].
  - exists 0%Z, 0%Z. split; [|split; [|lia]].
    + exact (leg_whole_zero _ _ _ _ Hd posval_2).
    + exact (leg_whole_zero _ _ _ _ posval_2 Hd).
  - assert (Hr : (1 <= c <= 2 ^ 40)%Z).
    { split; [lia|]. apply Z.le_trans with 1000000000%Z; [lia|].
      apply Z.leb_le. reflexivity. }
    assert (H2 : / 128 <= 2 <= 8) by lra.
    assert (HD' : / 128 <= D <= 8) by lra.
    destruct (leg_whole c d (200 / 100)%float D 2 Hr Hd posval_2 HD' H2)
      as [c1 [t1 [E1 [P1 [N1 R1]]]]].
    assert (Hc1 : (c1 <= 2 ^ 40)%Z).
    { apply (first_leg_bound c c1 t1 D); try lia; try lra. exact N1. }
    destruct (Z.eq_dec c1 0) as [Hz|Hnz].
    + exists c1, 0%Z. split; [exact E1|]. split.
      * rewrite Hz. exact (leg_whole_zero _ _ _ _ posval_2 Hd).
      * apply (round_trip_real c c1 0 t1 0 D); try lia; try lra; try assumption.
    + destruct (leg_whole c1 (200 / 100)%float d 2 D ltac:(lia) posval_2 Hd H2 HD')
        as [c2 [t2 [E2 [P2 [N2 R2]]]]].
      exists c1, c2. split; [exact E1|]. split; [exact E2|].
      apply (round_trip_real c c1 c2 t1 t2 D); try lia; try lra; try assumption.
      intros _. split; assumption.
Qed.

Lemma tenths_round_trip n d D :
  (0 <= n <= 1000000000)%Z -> posval d D -> / 128 <= D <= 501 / 100 ->
  exists n1 n2,
    Math_round (Z2F n / 10 / d * (200 / 100) * 10)%float = Z2F n1 /\
    Math_round (Z2F n1 / 10 / (200 / 100) * d * 10)%float = Z2F n2 /\
    (n - 1 <= n2 <= n + 1)%Z.
Proof.
  intros Hc Hd HD.
  destruct (Z.eq_dec n 0) as [->|Hc0].
  - exists 0%Z, 0%Z. split; [|split; [|lia]].
    + exact (leg_tenths_zero _ _ _ _ Hd posval_2).
    + exact (leg_tenths_zero _ _ _ _ posval_2 Hd).
  - assert (Hr : (1 <= n <= 2 ^ 40)%Z).
    { split; [lia|]. apply Z.le_trans with 1000000000%Z; [lia|].
      apply Z.leb_le. reflexivity. }
    assert (H2 : / 128 <= 2 <= 8) by lra.
    assert (HD' : / 128 <= D <= 8) by lra.
    destruct (leg_tenths n d (200 / 100)%float D 2 Hr Hd posval_2 HD' H2)
      as [c1 [t1 [E1 [P1 [N1 R1]]]]].
    assert (Hc1 : (c1 <= 2 ^ 40)%Z).
    { apply (first_leg_bound n c1 t1 D); try lia; try lra. exact N1. }
    destruct (Z.eq_dec c1 0) as [Hz|Hnz].
    + exists c1, 0%Z. split; [exact E1|]. split.
      * rewrite Hz. exact (leg_tenths_zero _ _ _ _ posval_2 Hd).
      * apply (round_trip_real n c1 0 t1 0 D); try lia; try lra; try assumption.
    + destruct (leg_tenths c1 (200 / 100)%float d 2 D ltac:(lia) posval_2 Hd H2 HD')
        as [c2 [t2 [E2 [P2 [N2 R2]]]]].
      exists c1, c2. split; [exact E1|]. split; [exact E2|].
      apply (round_trip_real n c1 c2 t1 t2 D); try lia; try lra; try assumption.
      intros _. split; assumption.
Qed.
End RoundTrip.

(** C9, as amended. An item of 1 to 500 g whose calories are a whole number
    and whose macros are tenths (in each case at most 10^9) is edited to 200 g
    and then back to its quantity: the item comes back with its identifier,
    name and quantity, its calories within 1 of what they were and each macro
    within one tenth. [qs] is the text typed to restore the quantity; the
    macros are given in tenths, [Z2F p / 10] being the number a scaled item
    carries. *)
Theorem rescale_round_trip_drift
    (ident qs : jsstring) (st : AddExtraMealModal.State) (i : nat)
    (item : AddExtraMealModal.ExtraFood) (c p g f : Z) :
  nth_error (AddExtraMealModal.foods st) i = Some item ->
  AddExtraMealModal.id item = ident ->
  (1 <=? AddExtraMealModal.quantity item)%float = true ->
  (AddExtraMealModal.quantity item <=? 500)%float = true ->
  or_else (parseFloat qs) 0%float = AddExtraMealModal.quantity item ->
  AddExtraMealModal.calories item = Z2F c ->
  AddExtraMealModal.protein item = (Z2F p / 10)%float ->
  AddExtraMealModal.carbs item = (Z2F g / 10)%float ->
  AddExtraMealModal.fats item = (Z2F f / 10)%float ->
  (0 <= c <= 1000000000)%Z -> (0 <= p <= 1000000000)%Z ->
  (0 <= g <= 1000000000)%Z -> (0 <= f <= 1000000000)%Z ->
  exists c' p' g' f',
    nth_error
      (AddExtraMealModal.foods
         (AddExtraMealModal.updateFoodQuantity ident qs
            (AddExtraMealModal.updateFoodQuantity ident (lit "200") st))) i
    = Some {| AddExtraMealModal.id := ident;
              AddExtraMealModal.name := AddExtraMealModal.name item;
              AddExtraMealModal.quantity := AddExtraMealModal.quantity item;
              AddExtraMealModal.calories := Z2F c';
              AddExtraMealModal.protein := (Z2F p' / 10)%float;
              AddExtraMealModal.carbs := (Z2F g' / 10)%float;
              AddExtraMealModal.fats := (Z2F f' / 10)%float |} /\
    (c - 1 <= c' <= c + 1)%Z /\ (p - 1 <= p' <= p + 1)%Z /\
    (g - 1 <= g' <= g + 1)%Z /\ (f - 1 <= f' <= f + 1)%Z.
Proof.
  intros Hnth Hid Hq1 Hq2 Hqs Hc Hp Hg Hf Bc Bp Bg Bf.
  destruct (multiplier_posval _ Hq1 Hq2) as [D [Hd HD]].
  destruct (whole_round_trip c _ D Bc Hd HD) as [c1 [c2 [Ec1 [Ec2 Hc2]]]].
  destruct (tenths_round_trip p _ D Bp Hd HD) as [p1 [p2 [Ep1 [Ep2 Hp2]]]].
  destruct (tenths_round_trip g _ D Bg Hd HD) as [g1 [g2 [Eg1 [Eg2 Hg2]]]].
  destruct (tenths_round_trip f _ D Bf Hd HD) as [f1 [f2 [Ef1 [Ef2 Hf2]]]].
  exists c2, p2, g2, f2. split; [|auto].
  rewrite !updateFoodQuantity_foods, map_map.
  rewrite (map_nth_error _ _ _ Hnth). f_equal.
  rewrite Hqs.
  change (or_else (parseFloat (lit "200")) 0%float) with 200%float.
  rewrite (rescaleFood_fields ident 200%float item Hid).
  rewrite rescaleFood_fields by exact Hid.
  cbn [AddExtraMealModal.id AddExtraMealModal.name AddExtraMealModal.quantity
       AddExtraMealModal.calories AddExtraMealModal.protein
       AddExtraMealModal.carbs AddExtraMealModal.fats].
  rewrite Hc, Hp, Hg, Hf.
  rewrite Ec1, Ep1, Eg1, Ef1, Ec2, Ep2, Eg2, Ef2, Hid. reflexivity.
Qed.

(** ** C8: the totals of a meal *)

Lemma Zsum_perm l l' : Permutation l l' -> Zsum l = Zsum l'.
Proof.
  induction 1 as [|x l l' H IH|x y l|l l' l'' H1 IH1 H2 IH2]; simpl; lia.
Qed.

Lemma Zsum_nonneg l : Forall (fun n => 0 <= n)%Z l -> (0 <= Zsum l)%Z.
Proof. induction 1; simpl; lia. Qed.

Lemma sum_whole ns acc :
  (0 <= acc)%Z -> Forall (fun n => 0 <= n)%Z ns -> (acc + Zsum ns < 2 ^ 53)%Z ->
  fold_left PrimFloat.add (map Z2F ns) (Z2F acc) = Z2F (acc + Zsum ns).
Proof.
  intros Hacc Hns. revert acc Hacc.
  induction Hns as [|n ns Hn Hns IH]; intros acc Hacc Hsum; simpl in *.
  - now rewrite Z.add_0_r.
  - pose proof (Zsum_nonneg ns Hns).
    rewrite Z2F_add by lia. rewrite IH by lia. f_equal. lia.
Qed.

Lemma totals_fold l acc :
  let t :=
    fold_left
      (fun acc food =>
         {| AddExtraMealModal.total_calories :=
              AddExtraMealModal.total_calories acc + AddExtraMealModal.calories food;
            AddExtraMealModal.total_protein :=
              AddExtraMealModal.total_protein acc + AddExtraMealModal.protein food;
            AddExtraMealModal.total_carbs :=
              AddExtraMealModal.total_carbs acc + AddExtraMealModal.carbs food;
            AddExtraMealModal.total_fats :=
              AddExtraMealModal.total_fats acc + AddExtraMealModal.fats food |}%float)
      l acc in
  AddExtraMealModal.total_calories t
    = fold_left PrimFloat.add (map AddExtraMealModal.calories l)
        (AddExtraMealModal.total_calories acc) /\
  AddExtraMealModal.total_protein t
    = fold_left PrimFloat.add (map AddExtraMealModal.protein l)
        (AddExtraMealModal.total_protein acc) /\
  AddExtraMealModal.total_carbs t
    = fold_left PrimFloat.add (map AddExtraMealModal.carbs l)
        (AddExtraMealModal.total_carbs acc) /\
  AddExtraMealModal.total_fats t
    = fold_left PrimFloat.add (map AddExtraMealModal.fats l)
        (AddExtraMealModal.total_fats acc).
Proof.
  cbv zeta. revert acc. induction l as [|f l IH]; intros acc; simpl.
  - auto.
  - apply IH.
Qed.

Lemma mealTotals_fields st :
  let t := AddExtraMealModal.mealTotals st in
  let l := AddExtraMealModal.foods st in
  AddExtraMealModal.total_calories t
    = fold_left PrimFloat.add (map AddExtraMealModal.calories l) 0%float /\
  AddExtraMealModal.total_protein t
    = fold_left PrimFloat.add (map AddExtraMealModal.protein l) 0%float /\
  AddExtraMealModal.total_carbs t
    = fold_left PrimFloat.add (map AddExtraMealModal.carbs l) 0%float /\
  AddExtraMealModal.total_fats t
    = fold_left PrimFloat.add (map AddExtraMealModal.fats l) 0%float.
Proof. apply (totals_fold (AddExtraMealModal.foods st)). Qed.

Lemma whole_calories_total st ns :
  map AddExtraMealModal.calories (AddExtraMealModal.foods st) = map Z2F ns ->
  Forall (fun n => 0 <= n)%Z ns -> (Zsum ns < 2 ^ 53)%Z ->
  AddExtraMealModal.total_calories (AddExtraMealModal.mealTotals st) = Z2F (Zsum ns).
Proof.
  intros Hmap Hns Hsum.
  destruct (mealTotals_fields st) as [H _]. cbv zeta in H. rewrite H, Hmap.
  change 0%float with (Z2F 0). now rewrite sum_whole by (lia || assumption).
Qed.

(** C8, as amended. The totals of a meal with no item are zero. Each total
    is the sum of the items' values of that field, added from the left in
    binary64, starting at 0. When the items' calories are whole numbers that
    add up to less than 2^53, as [Math.round] leaves them, the calories total
    is their exact sum, the same for every order of the items. (The macro
    totals are sums of tenths, which binary64 rounds: they can differ in the
    last place from one order to another.) *)
Theorem mealTotals_sums :
  (forall st, AddExtraMealModal.foods st = [] ->
     AddExtraMealModal.mealTotals st =
     {| AddExtraMealModal.total_calories := 0; AddExtraMealModal.total_protein := 0;
        AddExtraMealModal.total_carbs := 0; AddExtraMealModal.total_fats := 0 |}%float) /\
  (forall st,
     let t := AddExtraMealModal.mealTotals st in
     let l := AddExtraMealModal.foods st in
     AddExtraMealModal.total_calories t
       = fold_left PrimFloat.add (map AddExtraMealModal.calories l) 0%float /\
     AddExtraMealModal.total_protein t
       = fold_left PrimFloat.add (map AddExtraMealModal.protein l) 0%float /\
     AddExtraMealModal.total_carbs t
       = fold_left PrimFloat.add (map AddExtraMealModal.carbs l) 0%float /\
     AddExtraMealModal.total_fats t
       = fold_left PrimFloat.add (map AddExtraMealModal.fats l) 0%float) /\
  (forall st st' ns,
     Permutation (AddExtraMealModal.foods st) (AddExtraMealModal.foods st') ->
     map AddExtraMealModal.calories (AddExtraMealModal.foods st) = map Z2F ns ->
     Forall (fun n => 0 <= n)%Z ns -> (Zsum ns < 2 ^ 53)%Z ->
     AddExtraMealModal.total_calories (AddExtraMealModal.mealTotals st) = Z2F (Zsum ns) /\
     AddExtraMealModal.total_calories (AddExtraMealModal.mealTotals st')
       = AddExtraMealModal.total_calories (AddExtraMealModal.mealTotals st)).
Proof.
  split; [|split].
  - intros st H. unfold AddExtraMealModal.mealTotals. now rewrite H.
  - exact mealTotals_fields.
  - intros st st' ns Hperm Hmap Hns Hsum.
    pose proof (whole_calories_total st ns Hmap Hns Hsum) as E. split; [exact E|].
    rewrite E.
    assert (Hp : Permutation (map Z2F ns)
                   (map AddExtraMealModal.calories (AddExtraMealModal.foods st'))).
    { rewrite <- Hmap. now apply Permutation_map. }
    apply Permutation_sym in Hp.
    destruct (Permutation_map_inv _ _ Hp) as [ns' [Hmap' Hperm']].
    rewrite (Zsum_perm _ _ Hperm').
    apply whole_calories_total; [exact Hmap'| |].
    + apply (Permutation_Forall Hperm'). exact Hns.
    + now rewrite <- (Zsum_perm _ _ Hperm').
Qed.

(** Two items of 186 and 100 kcal, in both orders: 286 kcal. *)
Lemma mealTotals_sums_witness :
  AddExtraMealModal.total_calories
    (AddExtraMealModal.mealTotals
       (stateWith [sampleItem (lit "a") 186 38; sampleItem (lit "b") 100 1]))
  = Z2F 286 /\
  AddExtraMealModal.total_calories
    (AddExtraMealModal.mealTotals
       (stateWith [sampleItem (lit "b") 100 1; sampleItem (lit "a") 186 38]))
  = AddExtraMealModal.total_calories
      (AddExtraMealModal.mealTotals
         (stateWith [sampleItem (lit "a") 186 38; sampleItem (lit "b") 100 1])).
Proof.
  destruct mealTotals_sums as [_ [_ H]].
  apply (H (stateWith [sampleItem (lit "a") 186 38; sampleItem (lit "b") 100 1])
           (stateWith [sampleItem (lit "b") 100 1; sampleItem (lit "a") 186 38])
           [186; 100]%Z).
  - apply perm_swap.
  - reflexivity.
  - repeat constructor; lia.
  - reflexivity.
Defined.

(** C8, as stated, fails for the macros: three items with 0.1, 0.2 and 0.3 g
    of protein total 0.6000000000000001 g in this order and 0.6 g in the
    reverse order. *)
Lemma mealTotals_order_refuted :
  Permutation
    [sampleItem (lit "a") 0 1; sampleItem (lit "b") 0 2; sampleItem (lit "c") 0 3]
    [sampleItem (lit "c") 0 3; sampleItem (lit "b") 0 2; sampleItem (lit "a") 0 1] /\
  map AddExtraMealModal.protein
    [sampleItem (lit "a") 0 1; sampleItem (lit "b") 0 2; sampleItem (lit "c") 0 3]
  = [0.1; 0.2; 0.3]%float /\
  AddExtraMealModal.total_protein
    (AddExtraMealModal.mealTotals
       (stateWith [sampleItem (lit "a") 0 1; sampleItem (lit "b") 0 2;
                   sampleItem (lit "c") 0 3]))
  = 0.60000000000000009%float /\
  AddExtraMealModal.total_protein
    (AddExtraMealModal.mealTotals
       (stateWith [sampleItem (lit "c") 0 3; sampleItem (lit "b") 0 2;
                   sampleItem (lit "a") 0 1]))
  = 0.59999999999999998%float /\
  (0.60000000000000009 =? 0.59999999999999998)%float = false.
Proof.
  split.
  - apply (Permutation_rev
             [sampleItem (lit "a") 0 1; sampleItem (lit "b") 0 2; sampleItem (lit "c") 0 3]).
  - vm_compute. repeat split; reflexivity.
Qed.

(** Rice added at 150 g (186 kcal, 3.8, 38.7 and 1.5 g), edited to 200 g and
    back to 150 g. *)
Lemma rescale_round_trip_drift_witness :
  exists c' p' g' f',
    nth_error
      (AddExtraMealModal.foods
         (AddExtraMealModal.updateFoodQuantity (lit "id-1") (lit "150")
            (AddExtraMealModal.updateFoodQuantity (lit "id-1") (lit "200") riceAdded))) 0
    = Some {| AddExtraMealModal.id := lit "id-1";
              AddExtraMealModal.name := lit "Arroz, integral, cozido";
              AddExtraMealModal.quantity := 150%float;
              AddExtraMealModal.calories := Z2F c';
              AddExtraMealModal.protein := (Z2F p' / 10)%float;
              AddExtraMealModal.carbs := (Z2F g' / 10)%float;
              AddExtraMealModal.fats := (Z2F f' / 10)%float |} /\
    (186 - 1 <= c' <= 186 + 1)%Z /\ (38 - 1 <= p' <= 38 + 1)%Z /\
    (387 - 1 <= g' <= 387 + 1)%Z /\ (15 - 1 <= f' <= 15 + 1)%Z.
Proof.
  apply (rescale_round_trip_drift (lit "id-1") (lit "150") riceAdded 0
           {| AddExtraMealModal.id := lit "id-1";
              AddExtraMealModal.name := lit "Arroz, integral, cozido";
              AddExtraMealModal.quantity := 150%float;
              AddExtraMealModal.calories := Z2F 186;
              AddExtraMealModal.protein := (Z2F 38 / 10)%float;
              AddExtraMealModal.carbs := (Z2F 387 / 10)%float;
              AddExtraMealModal.fats := (Z2F 15 / 10)%float |}
           186 38 387 15);
    try (vm_compute; reflexivity); lia.
Defined.

(** C9, as stated, fails for a large quantity. Rice added at 150 g and
    edited to 1000 g carries 25.3 g of protein; edited to 200 g and back to
    1000 g it carries 25.5 g, two tenths more. *)
Lemma rescale_round_trip_refuted :
  let st := AddExtraMealModal.updateFoodQuantity (lit "id-1") (lit "1000") riceAdded in
  let back :=
    AddExtraMealModal.updateFoodQuantity (lit "id-1") (lit "1000")
      (AddExtraMealModal.updateFoodQuantity (lit "id-1") (lit "200") st) in
  map (fun f => (AddExtraMealModal.quantity f, AddExtraMealModal.protein f))
      (AddExtraMealModal.foods st) = [(1000, 25.3)]%float /\
  map (fun f => (AddExtraMealModal.quantity f, AddExtraMealModal.protein f))
      (AddExtraMealModal.foods back) = [(1000, 25.5)]%float /\
  (0.1 <? 25.5 - 25.3)%float = true.
Proof. vm_compute. repeat split; reflexivity. Qed.

(** * Further properties of the components *)

(** ** The inline search as a state machine *)

Lemma handleKeyDown_highlightValid key st :
  highlightValid st -> highlightValid (fst (FoodSelect.handleKeyDown key st)).
Proof.
  intros H. unfold FoodSelect.handleKeyDown.
  destruct (negb (FoodSelect.isOpen st) || (List.length (FoodSelect.foods st) =? 0)%nat) eqn:G;
    [exact H|].
  apply orb_false_iff in G. destruct G as [_ G]. apply Nat.eqb_neq in G.
  assert (Hne : FoodSelect.foods st <> []) by (intros E; rewrite E in G; apply G; reflexivity).
  specialize (H Hne).
  destruct (str_eqb key (lit "ArrowDown")).
  { intros _. cbn [fst FoodSelect.setHighlightedIndex FoodSelect.highlightedIndex FoodSelect.foods].
    destruct (Nat.ltb_spec (FoodSelect.highlightedIndex st) (List.length (FoodSelect.foods st) - 1)); lia. }
  destruct (str_eqb key (lit "ArrowUp")).
  { intros _. cbn [fst FoodSelect.setHighlightedIndex FoodSelect.highlightedIndex FoodSelect.foods].
    destruct (0 <? FoodSelect.highlightedIndex st)%nat; lia. }
  destruct (str_eqb key (lit "Enter")).
  { destruct (nth_error (FoodSelect.foods st) (FoodSelect.highlightedIndex st)); intros _; exact H. }
  destruct (str_eqb key (lit "Escape")); intros _; exact H.
Qed.

Lemma step_highlightValid lc e st :
  FoodSelect.possible st e -> highlightValid st -> highlightValid (FoodSelect.step lc e st).
Proof.
  intros Hp H. destruct e as [v| |v|food|i| |key| | |term resp]; cbn [FoodSelect.step].
  - unfold FoodSelect.valueChanged. destruct v; exact H.
  - exact H.
  - exact H.
  - exact H.
  - destruct Hp as [_ [_ Hi]]. intros _. exact Hi.
  - intros Hne. exfalso. apply Hne. reflexivity.
  - now apply handleKeyDown_highlightValid.
  - unfold FoodSelect.handleFocus.
    destruct (2 <=? JS.length (FoodSelect.searchTerm st))%nat; exact H.
  - unfold FoodSelect.searchFoodsBegin.
    destruct (JS.length (FoodSelect.searchTerm st) <? 2)%nat; [|exact H].
    intros Hne. exfalso. apply Hne. reflexivity.
  - unfold FoodSelect.searchFoodsEnd. destruct resp as [|data|].
    + intros Hne. exfalso. apply Hne. reflexivity.
    + unfold highlightValid.
      cbn [FoodSelect.setLoading FoodSelect.setHighlightedIndex FoodSelect.setFoods
           FoodSelect.foods FoodSelect.highlightedIndex].
      intros Hne. destruct (slice0 30 _); [congruence | simpl; lia].
    + exact H.
Qed.

Lemma reachable_highlightValid lc st :
  FoodSelect.reachable lc FoodSelect.possible st -> highlightValid st.
Proof.
  induction 1 as [value|st e Hr IH Hp].
  - intros Hne. exfalso. apply Hne. reflexivity.
  - now apply step_highlightValid.
Qed.

(** X1. In every state the inline search reaches, a list of foods that is not
    empty has an item at the highlighted index; so Enter on the open dropdown
    always picks that item, as [handleFoodSelect] does. *)
Theorem highlighted_item_exists lc st :
  FoodSelect.reachable lc FoodSelect.possible st ->
  FoodSelect.foods st <> [] ->
  exists food,
    nth_error (FoodSelect.foods st) (FoodSelect.highlightedIndex st) = Some food /\
    (FoodSelect.isOpen st = true ->
     FoodSelect.handleKeyDown (lit "Enter") st =
     (fst (FoodSelect.handleFoodSelect food st),
      FoodSelect.preventDefault :: snd (FoodSelect.handleFoodSelect food st))).
Proof.
  intros Hr Hne. pose proof (reachable_highlightValid lc st Hr Hne) as Hlt.
  destruct (nth_error (FoodSelect.foods st) (FoodSelect.highlightedIndex st)) as [food|] eqn:E.
  - exists food. split; [reflexivity|]. intros Ho.
    unfold FoodSelect.handleKeyDown. rewrite Ho.
    assert (G : (List.length (FoodSelect.foods st) =? 0)%nat = false).
    { apply Nat.eqb_neq. destruct (FoodSelect.foods st); [congruence | simpl; lia]. }
    rewrite G. cbn [negb orb].
    change (str_eqb (lit "Enter") (lit "ArrowDown")) with false.
    change (str_eqb (lit "Enter") (lit "ArrowUp")) with false.
    change (str_eqb (lit "Enter") (lit "Enter")) with true.
    cbv iota. rewrite E. reflexivity.
  - apply nth_error_None in E. lia.
Qed.

(** A selected food is the one the input names. *)
(** X2. Under a parent that passes back as [value] what [onChange] told it,
    whenever a food is selected the input holds that food's name. *)
Theorem selected_food_names_the_term lc st food :
  FoodSelect.reachable lc controlled st ->
  FoodSelect.selectedFood st = Some food ->
  FoodSelect.searchTerm st = alimento food.
Proof.
  intros Hr. revert food. induction Hr as [value|st e Hr IH [Hp Hv]]; intros food.
  - discriminate.
  - destruct e as [v| |v|f|i| |key| | |term resp]; cbn [FoodSelect.step].
    + rewrite (Hv v eq_refl). unfold FoodSelect.valueChanged.
      destruct (FoodSelect.searchTerm st) eqn:E; cbn; [discriminate|].
      apply IH.
    + apply IH.
    + discriminate.
    + cbn. intros H. injection H as <-. reflexivity.
    + apply IH.
    + discriminate.
    + unfold FoodSelect.handleKeyDown.
      destruct (negb (FoodSelect.isOpen st) || _); [apply IH|].
      destruct (str_eqb key (lit "ArrowDown")); [apply IH|].
      destruct (str_eqb key (lit "ArrowUp")); [apply IH|].
      destruct (str_eqb key (lit "Enter")).
      { destruct (nth_error _ _) as [f|]; [|apply IH].
        cbn. intros H. injection H as <-. reflexivity. }
      destruct (str_eqb key (lit "Escape")); apply IH.
    + unfold FoodSelect.handleFocus.
      destruct (2 <=? JS.length (FoodSelect.searchTerm st))%nat; apply IH.
    + unfold FoodSelect.searchFoodsBegin.
      destruct (JS.length (FoodSelect.searchTerm st) <? 2)%nat; apply IH.
    + unfold FoodSelect.searchFoodsEnd. destruct resp; apply IH.
Qed.

Lemma setHighlightedIndex_same st :
  FoodSelect.setHighlightedIndex (FoodSelect.highlightedIndex st) st = st.
Proof. destruct st; reflexivity. Qed.

Lemma setHighlightedIndex_twice i j st :
  FoodSelect.setHighlightedIndex i (FoodSelect.setHighlightedIndex j st) =
  FoodSelect.setHighlightedIndex i st.
Proof. reflexivity. Qed.

Lemma arrow_on_open key st :
  FoodSelect.isOpen st = true -> FoodSelect.foods st <> [] ->
  (str_eqb key (lit "ArrowDown") = true ->
   fst (FoodSelect.handleKeyDown key st) =
   FoodSelect.setHighlightedIndex
     (if (FoodSelect.highlightedIndex st <? List.length (FoodSelect.foods st) - 1)%nat
      then (FoodSelect.highlightedIndex st + 1)%nat else FoodSelect.highlightedIndex st) st) /\
  (str_eqb key (lit "ArrowUp") = true ->
   fst (FoodSelect.handleKeyDown key st) =
   FoodSelect.setHighlightedIndex
     (if (0 <? FoodSelect.highlightedIndex st)%nat
      then (FoodSelect.highlightedIndex st - 1)%nat else FoodSelect.highlightedIndex st) st).
Proof.
  intros Ho Hne.
  assert (G : (List.length (FoodSelect.foods st) =? 0)%nat = false).
  { apply Nat.eqb_neq. destruct (FoodSelect.foods st); [congruence | simpl; lia]. }
  unfold FoodSelect.handleKeyDown. rewrite Ho, G. cbn [negb orb].
  split; intros Hk.
  - rewrite Hk. reflexivity.
  - destruct (str_eqb key (lit "ArrowDown")) eqn:Hd.
    + apply str_eqb_eq in Hd. subst key. discriminate Hk.
    + rewrite Hk. reflexivity.
Qed.

Lemma pressed_succ key n st :
  pressed key (S n) st = fst (FoodSelect.handleKeyDown key (pressed key n st)).
Proof. reflexivity. Qed.

(** X3. On the open dropdown, [n] presses of ArrowDown move the highlight
    down by [n] and stop at the last item; [n] presses of ArrowUp move it up by
    [n] and stop at the first. Nothing else of the state changes. *)
Theorem arrow_keys_saturate st n :
  FoodSelect.isOpen st = true ->
  (FoodSelect.highlightedIndex st < List.length (FoodSelect.foods st))%nat ->
  pressed (lit "ArrowDown") n st =
    FoodSelect.setHighlightedIndex
      (Nat.min (FoodSelect.highlightedIndex st + n) (List.length (FoodSelect.foods st) - 1)) st /\
  pressed (lit "ArrowUp") n st =
    FoodSelect.setHighlightedIndex (FoodSelect.highlightedIndex st - n) st.
Proof.
  intros Ho Hi.
  assert (Hne : FoodSelect.foods st <> []).
  { intros E. rewrite E in Hi. simpl in Hi. lia. }
  induction n as [|n [IHd IHu]].
  - change (pressed (lit "ArrowDown") 0 st) with st.
    change (pressed (lit "ArrowUp") 0 st) with st.
    rewrite Nat.add_0_r, Nat.sub_0_r, Nat.min_l by lia.
    now rewrite setHighlightedIndex_same.
  - rewrite !pressed_succ, IHd, IHu. split.
    + destruct (arrow_on_open (lit "ArrowDown")
                  (FoodSelect.setHighlightedIndex
                     (Nat.min (FoodSelect.highlightedIndex st + n)
                        (List.length (FoodSelect.foods st) - 1)) st) Ho Hne) as [H _].
      rewrite (H eq_refl).
      cbn [FoodSelect.setHighlightedIndex FoodSelect.highlightedIndex FoodSelect.foods].
      rewrite setHighlightedIndex_twice. f_equal.
      destruct (Nat.ltb_spec (Nat.min (FoodSelect.highlightedIndex st + n)
                                (List.length (FoodSelect.foods st) - 1))
                  (List.length (FoodSelect.foods st) - 1)); lia.
    + destruct (arrow_on_open (lit "ArrowUp")
                  (FoodSelect.setHighlightedIndex (FoodSelect.highlightedIndex st - n) st)
                  Ho Hne) as [_ H].
      rewrite (H eq_refl).
      cbn [FoodSelect.setHighlightedIndex FoodSelect.highlightedIndex FoodSelect.foods].
      rewrite setHighlightedIndex_twice. f_equal.
      destruct (Nat.ltb_spec 0 (FoodSelect.highlightedIndex st - n)); lia.
Qed.

(** X4. When a list of foods is shown and the term is cut to fewer than two
    code units, the dropdown shows the hint together with the list of the
    earlier term, until the timer fires and clears the list. *)
Theorem short_term_keeps_stale_list lc st v :
  FoodSelect.loading st = false -> FoodSelect.foods st <> [] -> (JS.length v < 2)%nat ->
  FoodSelect.dropdown (FoodSelect.step lc (FoodSelect.InputChange v) st)
    = [FoodSelect.hintState; FoodSelect.foodList (FoodSelect.foods st)] /\
  FoodSelect.dropdown
    (FoodSelect.step lc FoodSelect.TimerFires
       (FoodSelect.step lc (FoodSelect.InputChange v) st))
    = [FoodSelect.hintState].
Proof.
  intros Hl Hne Hv. apply Nat.ltb_lt in Hv.
  assert (Hv' : (2 <=? JS.length v)%nat = false).
  { apply Nat.leb_gt. now apply Nat.ltb_lt. }
  assert (G : (List.length (FoodSelect.foods st) =? 0)%nat = false).
  { apply Nat.eqb_neq. destruct (FoodSelect.foods st); [congruence | simpl; lia]. }
  assert (G' : (0 <? List.length (FoodSelect.foods st))%nat = true).
  { apply Nat.ltb_lt. apply Nat.eqb_neq in G. lia. }
  split.
  - cbn [FoodSelect.step FoodSelect.handleInputChange fst].
    unfold FoodSelect.dropdown.
    cbn [FoodSelect.setIsOpen FoodSelect.setSelectedFood FoodSelect.setSearchTerm
         FoodSelect.isOpen FoodSelect.loading FoodSelect.searchTerm FoodSelect.foods].
    rewrite Hl, Hv, Hv', G, G'. reflexivity.
  - cbn [FoodSelect.step FoodSelect.handleInputChange fst].
    unfold FoodSelect.searchFoodsBegin.
    cbn [FoodSelect.setIsOpen FoodSelect.setSelectedFood FoodSelect.setSearchTerm
         FoodSelect.isOpen FoodSelect.loading FoodSelect.searchTerm FoodSelect.foods].
    rewrite Hv. unfold FoodSelect.dropdown.
    cbn [FoodSelect.setFoods FoodSelect.setIsOpen FoodSelect.setSelectedFood
         FoodSelect.setSearchTerm FoodSelect.isOpen FoodSelect.loading
         FoodSelect.searchTerm FoodSelect.foods List.length].
    rewrite Hl, Hv, Hv'. reflexivity.
Qed.

(** ** The words of a query *)

(** On Basic Latin and Latin-1 Supplement a text is folded piece by piece. *)
Lemma folded_app a b :
  isLatin1 (a ++ b) = true -> folded (a ++ b) = folded a ++ folded b.
Proof.
  intros _. unfold folded, replaceAll, stripMarks, normalizeNFD, toLowerCase.
  now rewrite map_app, flat_map_app, filter_app, map_app.
Qed.

Lemma normalizeText_folded text : FoodSelect.normalizeText text = trim (folded text).
Proof. reflexivity. Qed.

(** Every piece of a split is a contiguous part of the text. *)
Lemma piece_substring s : forall cur insep w,
  (insep = true -> cur = []) ->
  In w (split_ws_aux s cur insep) -> substring w (rev cur ++ s).
Proof.
  induction s as [|c r IH]; intros cur insep w Hinv; cbn [split_ws_aux].
  - intros [<-|[]]. exists [], []. now rewrite !app_nil_r.
  - destruct (isWhiteSpace c).
    + destruct insep.
      * rewrite (Hinv eq_refl). intros H.
        destruct (IH [] true w (fun _ => eq_refl) H) as [u [v E]].
        simpl in E. exists (c :: u), v. simpl. now rewrite E.
      * intros [<-|H].
        -- exists [], (c :: r). reflexivity.
        -- destruct (IH [] true w (fun _ => eq_refl) H) as [u [v E]].
           simpl in E. exists (rev cur ++ c :: u), v.
           rewrite E. now rewrite <- app_assoc.
    + intros H. destruct (IH (c :: cur) false w ltac:(discriminate) H) as [u [v E]].
      exists u, v. rewrite <- E. simpl. now rewrite <- app_assoc.
Qed.

Lemma word_substring term w :
  In w (FoodSelect.searchWordsOf term) -> substring w (FoodSelect.normalizeText term).
Proof.
  unfold FoodSelect.searchWordsOf. rewrite filter_In. intros [H _].
  apply (piece_substring _ [] false w ltac:(discriminate) H).
Qed.

Lemma own_name_matches food :
  FoodSelect.matchesAll (FoodSelect.searchWordsOf (alimento food)) food = true.
Proof.
  apply matchesAll_spec. intros w Hw. now apply word_substring.
Qed.

(** *** A longer query *)

Lemma head_piece B : forall cur insep,
  exists x, In (rev cur ++ x) (split_ws_aux B cur insep).
Proof.
  induction B as [|c r IH]; intros cur insep; cbn [split_ws_aux].
  - exists []. left. now rewrite app_nil_r.
  - destruct (isWhiteSpace c).
    + destruct insep.
      * apply IH.
      * exists []. left. now rewrite app_nil_r.
    + destruct (IH (c :: cur) false) as [x Hx].
      exists (c :: x). simpl in Hx. now rewrite <- app_assoc in Hx.
Qed.

Lemma piece_extends A B : forall cur insep w,
  In w (split_ws_aux A cur insep) ->
  exists x, In (w ++ x) (split_ws_aux (A ++ B) cur insep).
Proof.
  induction A as [|c r IH]; intros cur insep w; cbn [split_ws_aux app].
  - intros [<-|[]]. apply head_piece.
  - destruct (isWhiteSpace c).
    + destruct insep.
      * apply IH.
      * intros [<-|H].
        -- exists []. left. now rewrite app_nil_r.
        -- destruct (IH [] true w H) as [x Hx]. exists x. now right.
    + apply IH.
Qed.

Lemma gap_pieces W : forall cur insep,
  forallb isWhiteSpace W = true ->
  filter nonEmpty (split_ws_aux W cur insep) = filter nonEmpty [rev cur].
Proof.
  induction W as [|c W IH]; intros cur insep H; cbn [split_ws_aux].
  - reflexivity.
  - simpl in H. apply andb_true_iff in H. destruct H as [Hc HW]. rewrite Hc.
    destruct insep.
    + now apply IH.
    + cbn [filter]. rewrite (IH [] true HW). cbn. destruct (nonEmpty (rev cur)); reflexivity.
Qed.

Lemma trailing_gap X W : forall cur insep,
  forallb isWhiteSpace W = true ->
  filter nonEmpty (split_ws_aux (X ++ W) cur insep) =
  filter nonEmpty (split_ws_aux X cur insep).
Proof.
  induction X as [|c r IH]; intros cur insep H; cbn [split_ws_aux app].
  - now apply gap_pieces.
  - destruct (isWhiteSpace c).
    + destruct insep; [now apply IH|]. cbn [filter]. now rewrite IH.
    + now apply IH.
Qed.

Lemma after_gap s :
  filter nonEmpty (split_ws_aux s [] true) = filter nonEmpty (split_ws_aux s [] false).
Proof.
  destruct s as [|c r]; cbn [split_ws_aux]; [reflexivity|].
  destruct (isWhiteSpace c); reflexivity.
Qed.

Lemma leading_gap X :
  filter nonEmpty (split_ws (trimStart X)) = filter nonEmpty (split_ws X).
Proof.
  unfold split_ws. induction X as [|c r IH]; cbn [trimStart split_ws_aux]; [reflexivity|].
  destruct (isWhiteSpace c) eqn:E.
  - cbn [filter]. cbn. now rewrite IH, after_gap.
  - cbn [split_ws_aux]. now rewrite E.
Qed.

Lemma words_of_trim X :
  filter nonEmpty (split_ws (trim X)) = filter nonEmpty (split_ws X).
Proof.
  unfold trim. rewrite <- (leading_gap X).
  destruct (trimEnd_prefix (trimStart X)) as [W [E HW]].
  set (Y := trimEnd (trimStart X)) in *. rewrite E. unfold split_ws.
  now rewrite trailing_gap.
Qed.

Lemma searchWordsOf_folded term :
  FoodSelect.searchWordsOf term = filter nonEmpty (split_ws (folded term)).
Proof. unfold FoodSelect.searchWordsOf. apply words_of_trim. Qed.

Lemma word_extends t s w :
  isLatin1 (t ++ s) = true ->
  In w (FoodSelect.searchWordsOf t) ->
  exists x, In (w ++ x) (FoodSelect.searchWordsOf (t ++ s)).
Proof.
  intros Hl. rewrite !searchWordsOf_folded, (folded_app t s Hl). intros H.
  apply filter_In in H. destruct H as [H Hne].
  destruct (piece_extends (folded t) (folded s) [] false w H) as [x Hx].
  exists x. apply filter_In. split; [exact Hx|].
  unfold nonEmpty, JS.length in *. rewrite length_app.
  apply Nat.ltb_lt in Hne. apply Nat.ltb_lt. lia.
Qed.

Lemma substring_prefix w x s : substring (w ++ x) s -> substring w s.
Proof.
  intros [u [v E]]. exists u, (x ++ v). now rewrite E, <- app_assoc.
Qed.

Lemma longer_query_matches_less t s food :
  isLatin1 (t ++ s) = true ->
  FoodSelect.matchesAll (FoodSelect.searchWordsOf (t ++ s)) food = true ->
  FoodSelect.matchesAll (FoodSelect.searchWordsOf t) food = true.
Proof.
  intros Hl. rewrite !matchesAll_spec. intros H w Hw.
  destruct (word_extends t s w Hl Hw) as [x Hx].
  apply (substring_prefix w x). now apply H.
Qed.

(** *** Normalizing twice *)

Lemma lowered_settled z c :
  (z < 256)%N ->
  In c (decompose (lowerUnit z)) -> isCombiningMark c = false -> c <> 44%N ->
  settled c = true.
Proof.
  intros Hz Hin Hm Hc.
  pose proof (below_256
    (fun z => forallb (fun c => isCombiningMark c || (c =? 44)%N || settled c)
                (decompose (lowerUnit z)))) as H.
  specialize (H ltac:(vm_compute; reflexivity) z Hz).
  rewrite forallb_forall in H. specialize (H c Hin).
  rewrite Hm in H. apply N.eqb_neq in Hc. rewrite Hc in H. exact H.
Qed.

Lemma folded_settled text c :
  isLatin1 text = true -> In c (folded text) -> settled c = true.
Proof.
  unfold folded. intros Hl H.
  assert (Hc44 : c <> 44%N).
  { intros ->. revert H. now apply replaceAll_no_source. }
  apply replaceAll_In in H. destruct H as [->|H]; [reflexivity|].
  unfold stripMarks in H. apply filter_In in H. destruct H as [H Hm].
  apply negb_true_iff in Hm.
  unfold normalizeNFD, toLowerCase in H. apply in_flat_map in H.
  destruct H as [y [Hy Hc]]. apply in_map_iff in Hy. destruct Hy as [z [<- Hz]].
  exact (lowered_settled z c (isLatin1_In text z Hl Hz) Hc Hm Hc44).
Qed.

Lemma settled_latin1 s : (forall c, In c s -> settled c = true) -> isLatin1 s = true.
Proof.
  intros H. unfold isLatin1. apply forallb_forall. intros c Hc.
  specialize (H c Hc). unfold settled in H.
  repeat (apply andb_true_iff in H; destruct H as [H _]). exact H.
Qed.

Lemma folded_fixed s : (forall c, In c s -> settled c = true) -> folded s = s.
Proof.
  induction s as [|c s IH]; intros H; [reflexivity|].
  change (c :: s) with ([c] ++ s).
  rewrite (folded_app [c] s (settled_latin1 _ H)), IH by (intros; apply H; now right).
  f_equal. specialize (H c (or_introl eq_refl)). unfold settled in H.
  apply andb_true_iff in H. destruct H as [H H4].
  apply andb_true_iff in H. destruct H as [H H3].
  apply andb_true_iff in H. destruct H as [H H2].
  apply andb_true_iff in H. destruct H as [_ H1].
  apply N.eqb_eq in H1. apply str_eqb_eq in H2.
  apply negb_true_iff in H3. apply negb_true_iff in H4.
  unfold folded, replaceAll, stripMarks, normalizeNFD, toLowerCase.
  cbn [map flat_map]. rewrite H1, H2. cbn [app filter]. rewrite H3. cbn [negb map].
  now rewrite H4.
Qed.

Lemma trimStart_fixed s :
  (forall c r, s = c :: r -> isWhiteSpace c = false) -> trimStart s = s.
Proof.
  destruct s as [|c r]; intros H; [reflexivity|].
  cbn [trimStart]. now rewrite (H c r eq_refl).
Qed.

Lemma trim_idempotent s : trim (trim s) = trim s.
Proof.
  unfold trim at 1.
  rewrite (trimStart_fixed (trim s)) by (intros c r; apply trim_head).
  unfold trimEnd. rewrite trimStart_fixed; [apply rev_involutive|].
  intros c r E. apply (trim_last s c (rev r)).
  rewrite <- (rev_involutive (trim s)), E. reflexivity.
Qed.

Lemma normalizeText_idempotent text :
  isLatin1 text = true ->
  FoodSelect.normalizeText (FoodSelect.normalizeText text) = FoodSelect.normalizeText text.
Proof.
  intros Hl. rewrite (normalizeText_folded (FoodSelect.normalizeText text)).
  rewrite folded_fixed.
  - rewrite normalizeText_folded. apply trim_idempotent.
  - intros c Hc. rewrite normalizeText_folded in Hc.
    apply trim_incl in Hc. now apply (folded_settled text).
Qed.

(** ** The items of the dialog *)

Lemma addFoodToMeal_foods fmt uuid st :
  AddExtraMealModal.foods (AddExtraMealModal.addFoodToMeal fmt uuid st) =
  match AddExtraMealModal.selectedFood st with
  | None => AddExtraMealModal.foods st
  | Some food =>
      AddExtraMealModal.foods st ++
      [{| AddExtraMealModal.id := uuid;
          AddExtraMealModal.name := fmt (alimento food);
          AddExtraMealModal.quantity :=
            or_else (parseFloat (AddExtraMealModal.quantityInput st)) 100%float;
          AddExtraMealModal.calories :=
            Spec.calories (Spec.scale (per100g food)
              (or_else (parseFloat (AddExtraMealModal.quantityInput st)) 100%float));
          AddExtraMealModal.protein :=
            Spec.protein (Spec.scale (per100g food)
              (or_else (parseFloat (AddExtraMealModal.quantityInput st)) 100%float));
          AddExtraMealModal.carbs :=
            Spec.carbs (Spec.scale (per100g food)
              (or_else (parseFloat (AddExtraMealModal.quantityInput st)) 100%float));
          AddExtraMealModal.fats :=
            Spec.fats (Spec.scale (per100g food)
              (or_else (parseFloat (AddExtraMealModal.quantityInput st)) 100%float)) |}]
  end.
Proof.
  unfold AddExtraMealModal.addFoodToMeal.
  destruct (AddExtraMealModal.selectedFood st); reflexivity.
Qed.

Lemma addFoodToMeal_ids fmt uuid st :
  ids (AddExtraMealModal.addFoodToMeal fmt uuid st) =
  match AddExtraMealModal.selectedFood st with
  | None => ids st
  | Some _ => ids st ++ [uuid]
  end.
Proof.
  unfold ids. rewrite addFoodToMeal_foods.
  destruct (AddExtraMealModal.selectedFood st); [|reflexivity].
  now rewrite map_app.
Qed.

Lemma removeFood_foods ident st :
  AddExtraMealModal.foods (AddExtraMealModal.removeFood ident st) =
  filter (fun f => negb (str_eqb (AddExtraMealModal.id f) ident)) (AddExtraMealModal.foods st).
Proof. reflexivity. Qed.

Lemma removeFood_ids ident st :
  ids (AddExtraMealModal.removeFood ident st) =
  filter (fun i => negb (str_eqb i ident)) (ids st).
Proof.
  unfold ids. rewrite removeFood_foods.
  induction (AddExtraMealModal.foods st) as [|f l IH]; [reflexivity|].
  cbn [filter map]. destruct (str_eqb (AddExtraMealModal.id f) ident); cbn; now rewrite IH.
Qed.

Lemma rescaleFood_id ident qty f :
  AddExtraMealModal.id (AddExtraMealModal.rescaleFood ident qty f) = AddExtraMealModal.id f.
Proof.
  unfold AddExtraMealModal.rescaleFood.
  destruct (negb (str_eqb (AddExtraMealModal.id f) ident)); reflexivity.
Qed.

Lemma updateFoodQuantity_ids ident newQty st :
  ids (AddExtraMealModal.updateFoodQuantity ident newQty st) = ids st.
Proof.
  unfold ids. rewrite updateFoodQuantity_foods, map_map.
  apply map_ext. intros f. apply rescaleFood_id.
Qed.

Lemma NoDup_filter {A} (p : A -> bool) l : NoDup l -> NoDup (filter p l).
Proof.
  induction 1 as [|x l Hx Hl IH]; cbn; [constructor|].
  destruct (p x); [|exact IH].
  constructor; [|exact IH]. intros H. apply filter_In in H. tauto.
Qed.

Lemma filter_out_absent (ident : jsstring) l :
  ~ In ident l -> filter (fun i => negb (str_eqb i ident)) l = l.
Proof.
  induction l as [|x l IH]; intros H; [reflexivity|]. cbn.
  destruct (str_eqb x ident) eqn:E.
  - apply str_eqb_eq in E. subst. exfalso. apply H. now left.
  - cbn. f_equal. apply IH. intros Hin. apply H. now right.
Qed.

Lemma filter_out_once (ident : jsstring) l :
  NoDup l -> In ident l ->
  S (List.length (filter (fun i => negb (str_eqb i ident)) l)) = List.length l.
Proof.
  induction 1 as [|x l Hx Hl IH]; intros Hin; [destruct Hin|]. cbn.
  destruct (str_eqb x ident) eqn:E.
  - apply str_eqb_eq in E. subst. cbn. now rewrite filter_out_absent.
  - cbn. f_equal. apply IH. destruct Hin as [->|Hin]; [|exact Hin].
    assert (str_eqb ident ident = true) by now apply str_eqb_eq. congruence.
Qed.

(** X5. While [crypto.randomUUID()] returns an identifier no item has, the
    identifiers of the items stay distinct under adding, removing and editing;
    and removing the identifier of an item then takes out exactly one item. *)
Theorem fresh_ids_stay_distinct fmt uuid ident newQty st :
  NoDup (ids st) -> ~ In uuid (ids st) ->
  NoDup (ids (AddExtraMealModal.addFoodToMeal fmt uuid st)) /\
  NoDup (ids (AddExtraMealModal.removeFood ident st)) /\
  NoDup (ids (AddExtraMealModal.updateFoodQuantity ident newQty st)) /\
  (In ident (ids st) ->
   S (List.length (AddExtraMealModal.foods (AddExtraMealModal.removeFood ident st)))
   = List.length (AddExtraMealModal.foods st)).
Proof.
  intros Hnd Hfresh. split; [|split; [|split]].
  - rewrite addFoodToMeal_ids. destruct (AddExtraMealModal.selectedFood st); [|exact Hnd].
    apply NoDup_app; [exact Hnd | constructor; [intros []|constructor] |].
    intros x Hx [<-|[]]. now apply Hfresh.
  - rewrite removeFood_ids. now apply NoDup_filter.
  - now rewrite updateFoodQuantity_ids.
  - intros Hin.
    pose proof (filter_out_once ident (ids st) Hnd Hin) as H.
    rewrite <- removeFood_ids in H. unfold ids in H. now rewrite !length_map in H.
Qed.

Lemma filter_out_foods (ident : jsstring) l :
  ~ In ident (map AddExtraMealModal.id l) ->
  filter (fun f => negb (str_eqb (AddExtraMealModal.id f) ident)) l = l.
Proof.
  induction l as [|x l IH]; intros H; [reflexivity|]. cbn.
  destruct (str_eqb (AddExtraMealModal.id x) ident) eqn:E.
  - apply str_eqb_eq in E. exfalso. apply H. now left.
  - cbn. f_equal. apply IH. intros Hin. apply H. now right.
Qed.

(** X6. Adding a food under a fresh identifier and removing that identifier
    gives back the list of items; and since adding clears the selection,
    adding a second time right away changes nothing. *)
Theorem add_then_remove_restores fmt uuid uuid' st :
  ~ In uuid (ids st) ->
  AddExtraMealModal.foods
    (AddExtraMealModal.removeFood uuid (AddExtraMealModal.addFoodToMeal fmt uuid st))
  = AddExtraMealModal.foods st /\
  AddExtraMealModal.addFoodToMeal fmt uuid' (AddExtraMealModal.addFoodToMeal fmt uuid st)
  = AddExtraMealModal.addFoodToMeal fmt uuid st.
Proof.
  intros Hfresh. split.
  - rewrite removeFood_foods, addFoodToMeal_foods.
    destruct (AddExtraMealModal.selectedFood st).
    + rewrite filter_app, (filter_out_foods uuid _ Hfresh). cbn.
      assert (E : str_eqb uuid uuid = true) by now apply str_eqb_eq.
      rewrite E. cbn. apply app_nil_r.
    + now apply filter_out_foods.
  - unfold AddExtraMealModal.addFoodToMeal.
    destruct (AddExtraMealModal.selectedFood st) eqn:E; cbn; [reflexivity | now rewrite E].
Qed.

(** *** How removing and editing compose *)

Lemma rescaleFood_absent ident qty l :
  ~ In ident (map AddExtraMealModal.id l) ->
  map (AddExtraMealModal.rescaleFood ident qty) l = l.
Proof.
  induction l as [|f l IH]; intros H; [reflexivity|]. cbn.
  rewrite rescaleFood_other, IH; [reflexivity | |].
  - intros Hin. apply H. now right.
  - intros E. apply H. now left.
Qed.

Lemma remove_after_rescale i j qty l :
  filter (fun f => negb (str_eqb (AddExtraMealModal.id f) i))
         (map (AddExtraMealModal.rescaleFood j qty) l) =
  map (AddExtraMealModal.rescaleFood j qty)
      (filter (fun f => negb (str_eqb (AddExtraMealModal.id f) i)) l).
Proof.
  induction l as [|f l IH]; [reflexivity|]. cbn.
  rewrite rescaleFood_id.
  destruct (str_eqb (AddExtraMealModal.id f) i); cbn; now rewrite IH.
Qed.

Lemma rescale_removed i qty l :
  map (AddExtraMealModal.rescaleFood i qty)
      (filter (fun f => negb (str_eqb (AddExtraMealModal.id f) i)) l) =
  filter (fun f => negb (str_eqb (AddExtraMealModal.id f) i)) l.
Proof.
  induction l as [|f l IH]; [reflexivity|]. cbn.
  destruct (str_eqb (AddExtraMealModal.id f) i) eqn:E; cbn; [exact IH|].
  rewrite IH. f_equal. apply rescaleFood_other. now apply str_eqb_neq.
Qed.

Lemma filter_filter_comm {A} (p q : A -> bool) l :
  filter p (filter q l) = filter q (filter p l).
Proof.
  induction l as [|x l IH]; [reflexivity|]. cbn.
  destruct (p x) eqn:P, (q x) eqn:Q; cbn; rewrite ?P, ?Q, IH; reflexivity.
Qed.

Lemma filter_twice {A} (p : A -> bool) l : filter p (filter p l) = filter p l.
Proof.
  induction l as [|x l IH]; [reflexivity|]. cbn.
  destruct (p x) eqn:P; cbn; rewrite ?P, IH; reflexivity.
Qed.

Lemma setFoods_setFoods l l' st :
  AddExtraMealModal.setFoods l (AddExtraMealModal.setFoods l' st) = AddExtraMealModal.setFoods l st.
Proof. reflexivity. Qed.

(** X7. Removing commutes with editing a quantity and with removing;
    removing an item makes an edit of it before void; removing twice is
    removing once; removing or editing an identifier no item has leaves the
    items as they are; and after a removal no item has the identifier. *)
Theorem edits_compose i j q st :
  AddExtraMealModal.removeFood i (AddExtraMealModal.updateFoodQuantity j q st)
    = AddExtraMealModal.updateFoodQuantity j q (AddExtraMealModal.removeFood i st) /\
  AddExtraMealModal.removeFood i (AddExtraMealModal.updateFoodQuantity i q st)
    = AddExtraMealModal.removeFood i st /\
  AddExtraMealModal.removeFood i (AddExtraMealModal.removeFood j st)
    = AddExtraMealModal.removeFood j (AddExtraMealModal.removeFood i st) /\
  AddExtraMealModal.removeFood i (AddExtraMealModal.removeFood i st)
    = AddExtraMealModal.removeFood i st /\
  (~ In i (ids st) ->
   AddExtraMealModal.foods (AddExtraMealModal.removeFood i st) = AddExtraMealModal.foods st /\
   AddExtraMealModal.foods (AddExtraMealModal.updateFoodQuantity i q st)
     = AddExtraMealModal.foods st) /\
  ~ In i (ids (AddExtraMealModal.removeFood i st)).
Proof.
  unfold AddExtraMealModal.removeFood, AddExtraMealModal.updateFoodQuantity.
  cbn [AddExtraMealModal.setFoods AddExtraMealModal.foods AddExtraMealModal.mealName
       AddExtraMealModal.searchTerm AddExtraMealModal.searchResults AddExtraMealModal.loading
       AddExtraMealModal.selectedFood AddExtraMealModal.quantityInput].
  split; [|split; [|split; [|split; [|split]]]].
  - now rewrite remove_after_rescale.
  - now rewrite remove_after_rescale, rescale_removed.
  - now rewrite filter_filter_comm.
  - now rewrite filter_twice.
  - intros H. split; [now apply filter_out_foods | now apply rescaleFood_absent].
  - unfold ids. cbn [AddExtraMealModal.foods]. intros H. apply in_map_iff in H.
    destruct H as [f [E Hf]]. apply filter_In in Hf. destruct Hf as [_ Hf].
    apply negb_true_iff in Hf. apply str_eqb_eq in E. congruence.
Qed.

(** *** The totals *)

(** X8. Adding an item raises each total by the value of that item, in one
    binary64 addition: the new item is added last. *)
Theorem add_raises_totals fmt uuid st food :
  AddExtraMealModal.selectedFood st = Some food ->
  exists newFood,
    AddExtraMealModal.foods (AddExtraMealModal.addFoodToMeal fmt uuid st)
      = AddExtraMealModal.foods st ++ [newFood] /\
    AddExtraMealModal.mealTotals (AddExtraMealModal.addFoodToMeal fmt uuid st) =
    {| AddExtraMealModal.total_calories :=
         AddExtraMealModal.total_calories (AddExtraMealModal.mealTotals st)
         + AddExtraMealModal.calories newFood;
       AddExtraMealModal.total_protein :=
         AddExtraMealModal.total_protein (AddExtraMealModal.mealTotals st)
         + AddExtraMealModal.protein newFood;
       AddExtraMealModal.total_carbs :=
         AddExtraMealModal.total_carbs (AddExtraMealModal.mealTotals st)
         + AddExtraMealModal.carbs newFood;
       AddExtraMealModal.total_fats :=
         AddExtraMealModal.total_fats (AddExtraMealModal.mealTotals st)
         + AddExtraMealModal.fats newFood |}%float.
Proof.
  intros Hsel. pose proof (addFoodToMeal_foods fmt uuid st) as E. rewrite Hsel in E.
  eexists. split; [exact E|].
  unfold AddExtraMealModal.mealTotals at 1. rewrite E, fold_left_app. reflexivity.
Qed.

(** X9. [handleSave] hands to [onAdd], once, a meal that has the given
    identifier, a name that is not empty (the default when none was typed), the
    items as they are listed and, as totals, the sums of its own items from the
    left; it then calls [onClose] and leaves the dialog with no item and the
    save button disabled. *)
Theorem saved_meal uuid st :
  exists meal,
    AddExtraMealModal.handleSave uuid st
      = (fst (AddExtraMealModal.handleClose st),
         [AddExtraMealModal.onAdd meal; AddExtraMealModal.onClose]) /\
    AddExtraMealModal.ExtraMeal.id meal = uuid /\
    AddExtraMealModal.ExtraMeal.meal_name meal <> [] /\
    (AddExtraMealModal.mealName st <> [] ->
     AddExtraMealModal.ExtraMeal.meal_name meal = AddExtraMealModal.mealName st) /\
    AddExtraMealModal.ExtraMeal.foods meal = AddExtraMealModal.foods st /\
    AddExtraMealModal.ExtraMeal.total_calories meal
      = fold_left PrimFloat.add
          (map AddExtraMealModal.calories (AddExtraMealModal.ExtraMeal.foods meal)) 0%float /\
    AddExtraMealModal.ExtraMeal.total_protein meal
      = fold_left PrimFloat.add
          (map AddExtraMealModal.protein (AddExtraMealModal.ExtraMeal.foods meal)) 0%float /\
    AddExtraMealModal.ExtraMeal.total_carbs meal
      = fold_left PrimFloat.add
          (map AddExtraMealModal.carbs (AddExtraMealModal.ExtraMeal.foods meal)) 0%float /\
    AddExtraMealModal.ExtraMeal.total_fats meal
      = fold_left PrimFloat.add
          (map AddExtraMealModal.fats (AddExtraMealModal.ExtraMeal.foods meal)) 0%float /\
    AddExtraMealModal.foods (fst (AddExtraMealModal.handleSave uuid st)) = [] /\
    AddExtraMealModal.saveDisabled (fst (AddExtraMealModal.handleSave uuid st)) = true.
Proof.
  eexists. split; [reflexivity|]. cbn [AddExtraMealModal.ExtraMeal.id
    AddExtraMealModal.ExtraMeal.meal_name AddExtraMealModal.ExtraMeal.foods
    AddExtraMealModal.ExtraMeal.total_calories AddExtraMealModal.ExtraMeal.total_protein
    AddExtraMealModal.ExtraMeal.total_carbs AddExtraMealModal.ExtraMeal.total_fats].
  destruct (mealTotals_fields st) as [H1 [H2 [H3 H4]]]. cbv zeta in H1, H2, H3, H4.
  split; [reflexivity|]. split.
  { destruct (AddExtraMealModal.mealName st); discriminate. }
  split.
  { destruct (AddExtraMealModal.mealName st); [congruence | reflexivity]. }
  split; [reflexivity|].
  split; [exact H1|]. split; [exact H2|]. split; [exact H3|]. split; [exact H4|].
  split; reflexivity.
Qed.

(** ** The library of foods *)

Lemma orText_nonempty s d : d <> [] -> FoodLibraryManager.orText s d <> [].
Proof. destruct s; [auto | discriminate]. Qed.

Lemma handleSubmit_blank written loaded st :
  trim (FoodLibraryManager.FormData.alimento (FoodLibraryManager.formData st)) = [] ->
  FoodLibraryManager.handleSubmit written loaded st = (st, [FoodLibraryManager.alert (lit "Nome do alimento e obrigatorio")]).
Proof. intros H. unfold FoodLibraryManager.handleSubmit. now rewrite H. Qed.

Lemma handleSubmit_writes written loaded st :
  writes (snd (FoodLibraryManager.handleSubmit written loaded st)) =
  match trim (FoodLibraryManager.FormData.alimento (FoodLibraryManager.formData st)) with
  | [] => []
  | _ => [FoodLibraryManager.foodDataOf (FoodLibraryManager.formData st)]
  end.
Proof.
  unfold FoodLibraryManager.handleSubmit.
  destruct (trim (FoodLibraryManager.FormData.alimento (FoodLibraryManager.formData st))) as [|c r]; [reflexivity|].
  destruct written as [|m|m].
  - destruct (FoodLibraryManager.loadFoods loaded _) as [st2 [m|]];
      destruct (FoodLibraryManager.editingFood st); reflexivity.
  - destruct (FoodLibraryManager.editingFood st); reflexivity.
  - destruct (FoodLibraryManager.editingFood st); reflexivity.
Qed.

(** X10. [handleSubmit] sends at most one write to the table, and the row
    it writes has a name that is the trimmed name of the form, is not empty and
    neither begins nor ends with white space, and nutrient texts that are not
    empty. (A form whose name is blank writes nothing.) *)
Theorem submit_writes_wellformed written loaded st d :
  In d (writes (snd (FoodLibraryManager.handleSubmit written loaded st))) ->
  writes (snd (FoodLibraryManager.handleSubmit written loaded st)) = [d] /\
  FoodLibraryManager.FormData.alimento d = trim (FoodLibraryManager.FormData.alimento (FoodLibraryManager.formData st)) /\
  FoodLibraryManager.FormData.alimento d <> [] /\
  (forall c r, FoodLibraryManager.FormData.alimento d = c :: r -> isWhiteSpace c = false) /\
  (forall c r, FoodLibraryManager.FormData.alimento d = r ++ [c] -> isWhiteSpace c = false) /\
  FoodLibraryManager.FormData.caloria d <> [] /\ FoodLibraryManager.FormData.proteina d <> [] /\
  FoodLibraryManager.FormData.carboidrato d <> [] /\ FoodLibraryManager.FormData.fibra d <> [] /\
  FoodLibraryManager.FormData.gordura d <> [].
Proof.
  rewrite handleSubmit_writes.
  destruct (trim (FoodLibraryManager.FormData.alimento (FoodLibraryManager.formData st))) as [|c r] eqn:E; [intros []|].
  intros [<-|[]]. split; [reflexivity|].
  cbn [FoodLibraryManager.foodDataOf FoodLibraryManager.FormData.alimento FoodLibraryManager.FormData.caloria FoodLibraryManager.FormData.proteina
       FoodLibraryManager.FormData.carboidrato FoodLibraryManager.FormData.fibra FoodLibraryManager.FormData.gordura].
  split; [exact E|]. split; [rewrite E; discriminate|].
  split; [intros c' r'; apply trim_head|].
  split; [intros c' r'; apply trim_last|].
  repeat split; apply orText_nonempty; discriminate.
Qed.

(** *** Editing a row and submitting it *)

Lemma orText_empty s : FoodLibraryManager.orText s [] = s.
Proof. destruct s; reflexivity. Qed.

Lemma handleEdit_form food st :
  FoodLibraryManager.formData (FoodLibraryManager.handleEdit food st) = formOf food /\
  FoodLibraryManager.editingFood (FoodLibraryManager.handleEdit food st) = Some food /\
  FoodLibraryManager.showModal (FoodLibraryManager.handleEdit food st) = true.
Proof.
  unfold FoodLibraryManager.handleEdit, formOf. cbn. rewrite !orText_empty.
  destruct (FoodLibraryManager.Food.gordura food); [rewrite orText_empty|]; auto.
Qed.

Lemma handleSubmit_request written loaded st :
  trim (FoodLibraryManager.FormData.alimento (FoodLibraryManager.formData st)) <> [] ->
  exists rest,
    snd (FoodLibraryManager.handleSubmit written loaded st) =
    FoodLibraryManager.query (match FoodLibraryManager.editingFood st with
             | Some food => FoodLibraryManager.update (FoodLibraryManager.foodDataOf (FoodLibraryManager.formData st)) (FoodLibraryManager.Food.id food)
             | None => FoodLibraryManager.insert (FoodLibraryManager.foodDataOf (FoodLibraryManager.formData st))
             end) :: rest /\
    writes rest = [].
Proof.
  intros H. unfold FoodLibraryManager.handleSubmit.
  destruct (trim (FoodLibraryManager.FormData.alimento (FoodLibraryManager.formData st))) as [|c r]; [congruence|].
  destruct written as [|m|m].
  - destruct (FoodLibraryManager.loadFoods loaded _) as [st2 [m|]]; eexists; split; reflexivity.
  - eexists; split; reflexivity.
  - eexists; split; reflexivity.
Qed.

Lemma foodDataOf_formOf food :
  trim (FoodLibraryManager.Food.alimento food) = FoodLibraryManager.Food.alimento food ->
  FoodLibraryManager.foodDataOf (formOf food) =
  {| FoodLibraryManager.FormData.alimento := FoodLibraryManager.Food.alimento food;
     FoodLibraryManager.FormData.caloria := FoodLibraryManager.orText (FoodLibraryManager.Food.caloria food) (lit "0");
     FoodLibraryManager.FormData.proteina := FoodLibraryManager.orText (FoodLibraryManager.Food.proteina food) (lit "0");
     FoodLibraryManager.FormData.carboidrato := FoodLibraryManager.orText (FoodLibraryManager.Food.carboidrato food) (lit "0");
     FoodLibraryManager.FormData.fibra := FoodLibraryManager.orText (FoodLibraryManager.Food.fibra food) (lit "0");
     FoodLibraryManager.FormData.gordura :=
       match FoodLibraryManager.Food.gordura food with
       | Some g => FoodLibraryManager.orText g (lit "0")
       | None => lit "0"
       end |}.
Proof.
  intros Htrim. unfold FoodLibraryManager.foodDataOf, formOf.
  cbn [FoodLibraryManager.FormData.alimento FoodLibraryManager.FormData.caloria FoodLibraryManager.FormData.proteina
       FoodLibraryManager.FormData.carboidrato FoodLibraryManager.FormData.fibra FoodLibraryManager.FormData.gordura].
  rewrite Htrim. destruct (FoodLibraryManager.Food.gordura food); reflexivity.
Qed.

(** X11. A row whose name is trimmed and not empty, opened with
    [handleEdit] and submitted unchanged, is written back as an update of its
    own identifier that carries its own values, "0" standing for a nutrient
    that is empty or absent; no other write is sent. When no nutrient is
    empty the row written is the row read. *)
Theorem edit_then_submit_writes_back written loaded st food :
  trim (FoodLibraryManager.Food.alimento food) = FoodLibraryManager.Food.alimento food ->
  FoodLibraryManager.Food.alimento food <> [] ->
  exists rest,
    snd (FoodLibraryManager.handleSubmit written loaded (FoodLibraryManager.handleEdit food st)) =
    FoodLibraryManager.query (FoodLibraryManager.update
      {| FoodLibraryManager.FormData.alimento := FoodLibraryManager.Food.alimento food;
         FoodLibraryManager.FormData.caloria := FoodLibraryManager.orText (FoodLibraryManager.Food.caloria food) (lit "0");
         FoodLibraryManager.FormData.proteina := FoodLibraryManager.orText (FoodLibraryManager.Food.proteina food) (lit "0");
         FoodLibraryManager.FormData.carboidrato := FoodLibraryManager.orText (FoodLibraryManager.Food.carboidrato food) (lit "0");
         FoodLibraryManager.FormData.fibra := FoodLibraryManager.orText (FoodLibraryManager.Food.fibra food) (lit "0");
         FoodLibraryManager.FormData.gordura :=
           match FoodLibraryManager.Food.gordura food with
           | Some g => FoodLibraryManager.orText g (lit "0")
           | None => lit "0"
           end |}
      (FoodLibraryManager.Food.id food)) :: rest /\
    writes rest = [] /\
    (FoodLibraryManager.Food.caloria food <> [] -> FoodLibraryManager.Food.proteina food <> [] ->
     FoodLibraryManager.Food.carboidrato food <> [] -> FoodLibraryManager.Food.fibra food <> [] ->
     (exists g, FoodLibraryManager.Food.gordura food = Some g /\ g <> []) ->
     FoodLibraryManager.foodDataOf (FoodLibraryManager.formData (FoodLibraryManager.handleEdit food st)) = formOf food).
Proof.
  intros Htrim Hne.
  destruct (handleEdit_form food st) as [Hf [He _]].
  destruct (handleSubmit_request written loaded (FoodLibraryManager.handleEdit food st)) as [rest [E Hw]].
  { rewrite Hf. cbn [formOf FoodLibraryManager.FormData.alimento]. now rewrite Htrim. }
  rewrite Hf, He, (foodDataOf_formOf food Htrim) in E.
  exists rest. split; [exact E|]. split; [exact Hw|].
  intros H1 H2 H3 H4 [g [Hg Hg']]. rewrite Hf, (foodDataOf_formOf food Htrim).
  unfold formOf. rewrite Hg.
  destruct (FoodLibraryManager.Food.caloria food), (FoodLibraryManager.Food.proteina food), (FoodLibraryManager.Food.carboidrato food),
    (FoodLibraryManager.Food.fibra food), g; try congruence; reflexivity.
Qed.

(** *** How a submission ends *)

(** X12. A submission with a name always ends with [saving] off. When the
    write fails, the state is otherwise untouched (the form keeps what was
    typed) and one alert is shown. When the write succeeds the form is reset
    and closed and the list is what the select returns, or as it was when the
    select reports an error; when the select throws, the list stays in its
    loading state and the alert says the save failed. *)
Theorem submit_outcomes written loaded st :
  trim (FoodLibraryManager.FormData.alimento (FoodLibraryManager.formData st)) <> [] ->
  let st' := fst (FoodLibraryManager.handleSubmit written loaded st) in
  let effects := snd (FoodLibraryManager.handleSubmit written loaded st) in
  FoodLibraryManager.saving st' = false /\
  (forall message, written = FoodLibraryManager.WriteError message \/ written = FoodLibraryManager.WriteThrown message ->
     st' = FoodLibraryManager.setSaving false st /\
     exists request text, effects = [FoodLibraryManager.query request; FoodLibraryManager.alert (text ++ message)]) /\
  (written = FoodLibraryManager.WriteOk ->
     FoodLibraryManager.formData st' = FoodLibraryManager.emptyForm /\ FoodLibraryManager.editingFood st' = None /\ FoodLibraryManager.showModal st' = false /\
     FoodLibraryManager.searchTerm st' = FoodLibraryManager.searchTerm st /\
     (forall rows, loaded = FoodLibraryManager.LoadData (Some rows) ->
        FoodLibraryManager.foods st' = rows /\ FoodLibraryManager.loading st' = false) /\
     (loaded = FoodLibraryManager.LoadData None -> FoodLibraryManager.foods st' = [] /\ FoodLibraryManager.loading st' = false) /\
     (loaded = FoodLibraryManager.LoadError -> FoodLibraryManager.foods st' = FoodLibraryManager.foods st /\ FoodLibraryManager.loading st' = false) /\
     (forall message, loaded = FoodLibraryManager.LoadThrown message ->
        FoodLibraryManager.foods st' = FoodLibraryManager.foods st /\ FoodLibraryManager.loading st' = true /\
        exists request,
          effects = [FoodLibraryManager.query request; FoodLibraryManager.query FoodLibraryManager.select;
                     FoodLibraryManager.alert (lit "Erro ao salvar: " ++ message)])).
Proof.
  intros Hne. cbv zeta. unfold FoodLibraryManager.handleSubmit.
  destruct (trim (FoodLibraryManager.FormData.alimento (FoodLibraryManager.formData st))) as [|c r]; [congruence|].
  destruct written as [|m|m].
  - split.
    { destruct loaded as [|[rows|]|m]; reflexivity. }
    split; [intros message [H|H]; discriminate H|].
    intros _.
    destruct loaded as [|[rows|]|m]; cbn;
      repeat match goal with |- _ /\ _ => split end;
      try reflexivity; intros;
      try match goal with H : _ = _ |- _ => discriminate H end;
      try match goal with H : _ = _ |- _ => injection H as <- end;
      repeat match goal with |- _ /\ _ => split end;
      try reflexivity; eexists; reflexivity.
  - split; [reflexivity|]. split; [|discriminate].
    intros message [H|H]; [|discriminate H]. injection H as <-.
    split; [reflexivity|]. eexists _, _. reflexivity.
  - split; [reflexivity|]. split; [|discriminate].
    intros message [H|H]; [discriminate H|]. injection H as <-.
    split; [reflexivity|]. eexists _, _. reflexivity.
Qed.

(** *** The list of the library *)

Lemma lowerUnit_idempotent c : (c < 256)%N -> lowerUnit (lowerUnit c) = lowerUnit c.
Proof.
  intros Hc.
  pose proof (below_256 (fun c => (lowerUnit (lowerUnit c) =? lowerUnit c)%N)) as H.
  specialize (H ltac:(vm_compute; reflexivity) c Hc). now apply N.eqb_eq.
Qed.

Lemma toLowerCase_idempotent s :
  isLatin1 s = true -> toLowerCase (toLowerCase s) = toLowerCase s.
Proof.
  intros Hl. unfold toLowerCase. rewrite map_map. apply map_ext_in.
  intros c Hc. apply lowerUnit_idempotent. exact (isLatin1_In s c Hl Hc).
Qed.

Lemma toLowerCase_app t s :
  isLatin1 (t ++ s) = true -> toLowerCase (t ++ s) = toLowerCase t ++ toLowerCase s.
Proof. intros _. apply map_app. Qed.

Lemma includes_parts s p q :
  includes s (p ++ q) = true -> includes s p = true /\ includes s q = true.
Proof.
  rewrite !includes_substring. intros [u [v E]]. split.
  - exists u, (q ++ v). now rewrite E, <- app_assoc.
  - exists (u ++ p), v. now rewrite E, <- !app_assoc.
Qed.

Lemma includes_empty s : includes s [] = true.
Proof. destruct s; reflexivity. Qed.

Lemma filter_all {A} (p : A -> bool) l : (forall x, p x = true) -> filter p l = l.
Proof.
  intros H. induction l as [|x l IH]; [reflexivity|]. cbn. now rewrite H, IH.
Qed.

(** X13. The list of the library: an empty term keeps every row; for a term
    of Basic Latin and Latin-1 Supplement the case of the term does not
    matter, and what the term finds, every part of the term finds; and the
    page shows the first 50 rows found, with the count of all rows found
    exactly when there are more than 50. *)
Theorem library_list st :
  (FoodLibraryManager.searchTerm st = [] -> FoodLibraryManager.filteredFoods st = FoodLibraryManager.foods st) /\
  (forall t, isLatin1 t = true ->
             FoodLibraryManager.filteredFoods (FoodLibraryManager.setSearchTerm (toLowerCase t) st)
             = FoodLibraryManager.filteredFoods (FoodLibraryManager.setSearchTerm t st)) /\
  (forall t s food, isLatin1 (t ++ s) = true ->
     In food (FoodLibraryManager.filteredFoods (FoodLibraryManager.setSearchTerm (t ++ s) st)) ->
     In food (FoodLibraryManager.filteredFoods (FoodLibraryManager.setSearchTerm t st)) /\
     In food (FoodLibraryManager.filteredFoods (FoodLibraryManager.setSearchTerm s st))) /\
  (forall cards more, FoodLibraryManager.body st = FoodLibraryManager.list cards more ->
     FoodLibraryManager.loading st = false /\
     cards = firstn 50 (FoodLibraryManager.filteredFoods st) /\ cards <> [] /\
     (List.length cards <= 50)%nat /\
     (more = None -> cards = FoodLibraryManager.filteredFoods st) /\
     (forall n, more = Some n ->
        n = List.length (FoodLibraryManager.filteredFoods st) /\ (50 < n)%nat /\ List.length cards = 50%nat)).
Proof.
  split; [|split; [|split]].
  - intros H. unfold FoodLibraryManager.filteredFoods. rewrite H. apply filter_all.
    intros x. apply includes_empty.
  - intros t Hl. unfold FoodLibraryManager.filteredFoods. cbn [FoodLibraryManager.setSearchTerm FoodLibraryManager.searchTerm FoodLibraryManager.foods].
    now rewrite (toLowerCase_idempotent t Hl).
  - intros t s food Hl. unfold FoodLibraryManager.filteredFoods. cbn [FoodLibraryManager.setSearchTerm FoodLibraryManager.searchTerm FoodLibraryManager.foods].
    rewrite !filter_In. intros [Hin H]. rewrite (toLowerCase_app t s Hl) in H.
    apply includes_parts in H. tauto.
  - intros cards more. unfold FoodLibraryManager.body.
    destruct (FoodLibraryManager.loading st); [discriminate|].
    destruct (Nat.eqb_spec (List.length (FoodLibraryManager.filteredFoods st)) 0) as [E|E]; [discriminate|].
    intros H.
    assert (E1 : cards = slice0 50 (FoodLibraryManager.filteredFoods st)) by congruence.
    assert (E2 : more = if (50 <? List.length (FoodLibraryManager.filteredFoods st))%nat
                        then Some (List.length (FoodLibraryManager.filteredFoods st)) else None)
      by congruence.
    clear H. subst cards more. split; [reflexivity|].
    split; [reflexivity|]. split.
    { unfold slice0. destruct (FoodLibraryManager.filteredFoods st); [simpl in E; lia | discriminate]. }
    split; [apply firstn_le_length|]. unfold slice0.
    destruct (Nat.ltb_spec 50 (List.length (FoodLibraryManager.filteredFoods st))) as [G|G].
    + split; [discriminate|]. intros n H. injection H as <-.
      split; [reflexivity|]. split; [exact G|]. apply firstn_length_le. lia.
    + split; [|discriminate]. intros _. apply firstn_all2. exact G.
Qed.

(** ** The fetches of a page *)

Lemma handleFetchBegin_cases userId isInitial now st :
  (snd (usePageData.handleFetchBegin userId isInitial now st) = false /\
   (fst (usePageData.handleFetchBegin userId isInitial now st) = st \/
    fst (usePageData.handleFetchBegin userId isInitial now st) = usePageData.setIsInitialLoading false st)) \/
  (snd (usePageData.handleFetchBegin userId isInitial now st) = true /\
   usePageData.isFetchingRef st = false /\
   (isInitial = false -> (usePageData.lastFetchTimeRef st + usePageData.MIN_REFETCH_INTERVAL <= now)%Z) /\
   fst (usePageData.handleFetchBegin userId isInitial now st) =
   {| usePageData.isInitialLoading := if usePageData.isMountedRef st then usePageData.isInitialLoading st else true;
      usePageData.isMountedRef := usePageData.isMountedRef st;
      usePageData.lastFetchTimeRef := now; usePageData.isFetchingRef := true |}).
Proof.
  unfold usePageData.handleFetchBegin.
  destruct (usePageData.noUser userId); [left; split; [reflexivity | now right]|].
  destruct (usePageData.isFetchingRef st) eqn:F; [left; split; [reflexivity | now left]|].
  destruct isInitial; cbn [negb andb].
  - right. split; [reflexivity|]. split; [reflexivity|]. split; [discriminate|].
    cbn. destruct (usePageData.isMountedRef st); reflexivity.
  - destruct (Z.ltb_spec (now - usePageData.lastFetchTimeRef st) usePageData.MIN_REFETCH_INTERVAL) as [G|G].
    + left. split; [reflexivity | now left].
    + right. split; [reflexivity|]. split; [reflexivity|]. split; [intros _; lia|].
      cbn. destruct (usePageData.isMountedRef st); reflexivity.
Qed.

Lemma step_exclusive e h : usePageData.possible h e -> exclusive h -> exclusive (usePageData.step e h).
Proof.
  intros Hp [H1 H2]. destruct e as [userId isInitial now|]; cbn [usePageData.step].
  - destruct (handleFetchBegin_cases userId isInitial now (usePageData.refs h))
      as [[Hs [Hf|Hf]]|[Hs [Hnf [_ Hf]]]];
      destruct (usePageData.handleFetchBegin userId isInitial now (usePageData.refs h)) as [st called];
      cbn [fst snd] in *; subst; unfold exclusive; cbn [usePageData.refs usePageData.pending].
    + tauto.
    + cbn [usePageData.setIsInitialLoading usePageData.isFetchingRef]. tauto.
    + cbn [usePageData.isFetchingRef].
      assert (usePageData.pending h <> 1)%nat by (intros E; apply H2 in E; congruence).
      split; [lia|]. split; intros _; [lia | reflexivity].
  - unfold exclusive. cbn [usePageData.refs usePageData.pending]. cbn in Hp.
    assert (E : usePageData.pending h = 1%nat) by lia. rewrite E. cbn [Nat.pred].
    split; [lia|]. unfold usePageData.handleFetchEnd. cbn.
    destruct (usePageData.isMountedRef (usePageData.refs h)); cbn; split; (discriminate || lia).
Qed.

(** X14. At most one call of [fetchData] is unsettled at any time, and
    [isFetchingRef] is set exactly while one is; a call of [handleFetch] made
    meanwhile changes nothing (but for turning off the initial loading when
    there is no user) and does not call [fetchData]. *)
Theorem one_fetch_at_a_time h :
  usePageData.reachable h ->
  (usePageData.pending h <= 1)%nat /\
  (usePageData.isFetchingRef (usePageData.refs h) = true <-> usePageData.pending h = 1%nat) /\
  (forall userId isInitial now,
     usePageData.pending h = 1%nat -> usePageData.step (usePageData.Call userId isInitial now) h = h \/
     (usePageData.noUser userId = true /\
      usePageData.pending (usePageData.step (usePageData.Call userId isInitial now) h) = 1%nat /\
      usePageData.fetches (usePageData.step (usePageData.Call userId isInitial now) h) = usePageData.fetches h)).
Proof.
  intros Hr.
  assert (He : exclusive h).
  { induction Hr as [|h e Hr IH Hp].
    - split; [cbn; lia|]. cbn. split; [discriminate | lia].
    - now apply step_exclusive. }
  destruct He as [H1 H2]. split; [exact H1|]. split; [exact H2|].
  intros userId isInitial now Hp. apply H2 in Hp.
  cbn [usePageData.step]. unfold usePageData.handleFetchBegin.
  destruct (usePageData.noUser userId).
  - right. split; [reflexivity|]. cbn. split; [now apply H2 | reflexivity].
  - rewrite Hp. left. destruct h; reflexivity.
Qed.

Lemma step_mounted e h :
  usePageData.isMountedRef (usePageData.refs h) = true -> usePageData.isMountedRef (usePageData.refs (usePageData.step e h)) = true.
Proof.
  intros Hm. destruct e as [userId isInitial now|]; cbn [usePageData.step].
  - destruct (handleFetchBegin_cases userId isInitial now (usePageData.refs h))
      as [[Hs [Hf|Hf]]|[Hs [Hnf [_ Hf]]]];
      destruct (usePageData.handleFetchBegin userId isInitial now (usePageData.refs h)) as [st called];
      cbn [fst snd] in *; subst; cbn; exact Hm.
  - cbn [usePageData.refs]. unfold usePageData.handleFetchEnd. cbn. rewrite Hm. cbn. reflexivity.
Qed.

Lemma step_settledOnce e h : settledOnce h -> settledOnce (usePageData.step e h).
Proof.
  unfold settledOnce. intros H. destruct e as [userId isInitial now|]; cbn [usePageData.step].
  - destruct (handleFetchBegin_cases userId isInitial now (usePageData.refs h))
      as [[Hs [Hf|Hf]]|[Hs [Hnf [_ Hf]]]];
      destruct (usePageData.handleFetchBegin userId isInitial now (usePageData.refs h)) as [st called];
      cbn [fst snd] in *; subst; cbn.
    + exact H.
    + reflexivity.
    + intros Hm. rewrite Hm. now apply H.
  - cbn [usePageData.refs]. unfold usePageData.handleFetchEnd. cbn.
    destruct (usePageData.isMountedRef (usePageData.refs h)) eqn:Hm; cbn; [intros _; now apply H | reflexivity].
Qed.

(** X15. Once a call of [fetchData] has settled, the initial loading is off
    and stays off whatever happens next. *)
Theorem skeleton_only_before_first_fetch h :
  usePageData.reachable h ->
  (usePageData.isMountedRef (usePageData.refs h) = true -> usePageData.isInitialLoading (usePageData.refs h) = false) /\
  usePageData.isMountedRef (usePageData.refs (usePageData.step usePageData.Settles h)) = true /\
  (forall events,
     usePageData.isMountedRef (usePageData.refs h) = true ->
     usePageData.isInitialLoading (usePageData.refs (fold_left (fun h e => usePageData.step e h) events h)) = false).
Proof.
  intros Hr.
  assert (Hs : settledOnce h).
  { induction Hr as [|h e Hr IH Hp]; [discriminate|]. now apply step_settledOnce. }
  split; [exact Hs|]. split.
  - cbn. unfold usePageData.handleFetchEnd. cbn. destruct (usePageData.isMountedRef (usePageData.refs h)) eqn:E; cbn; auto.
  - intros events. clear Hr. revert h Hs.
    induction events as [|e events IH]; intros h Hs Hm; cbn [fold_left].
    + now apply Hs.
    + apply IH; [now apply step_settledOnce | now apply step_mounted].
Qed.

Lemma step_logged e h : logged h -> logged (usePageData.step e h).
Proof.
  intros [H1 H2]. destruct e as [userId isInitial now|]; cbn [usePageData.step].
  - destruct (handleFetchBegin_cases userId isInitial now (usePageData.refs h))
      as [[Hs [Hf|Hf]]|[Hs [Hnf [Hg Hf]]]];
      destruct (usePageData.handleFetchBegin userId isInitial now (usePageData.refs h)) as [st called];
      cbn [fst snd] in *; subst; unfold logged; cbn [usePageData.refs usePageData.fetches].
    + tauto.
    + cbn [usePageData.setIsInitialLoading usePageData.lastFetchTimeRef]. tauto.
    + cbn [usePageData.lastFetchTimeRef map fst hd throttled]. split; [reflexivity|].
      split; [|exact H2]. intros E. rewrite <- H1. now apply Hg.
  - unfold logged. cbn [usePageData.refs usePageData.fetches]. unfold usePageData.handleFetchEnd.
    destruct (usePageData.isMountedRef (usePageData.refs h)); cbn; tauto.
Qed.

(** X16. Every call of [fetchData] that is not an initial one comes at
    least 2000 ms after the call before it; [lastFetchTimeRef] holds the time
    of the latest call, and a refetch asked less than 2000 ms after it calls
    nothing. *)
Theorem refetches_are_throttled h :
  usePageData.reachable h ->
  throttled (usePageData.fetches h) /\
  usePageData.lastFetchTimeRef (usePageData.refs h) = hd 0%Z (map fst (usePageData.fetches h)) /\
  (forall userId now,
     (now < usePageData.lastFetchTimeRef (usePageData.refs h) + usePageData.MIN_REFETCH_INTERVAL)%Z ->
     usePageData.fetches (usePageData.step (usePageData.Call userId false now) h) = usePageData.fetches h).
Proof.
  intros Hr.
  assert (Hl : logged h).
  { induction Hr as [|h e Hr IH Hp].
    - split; [reflexivity | exact I].
    - now apply step_logged. }
  destruct Hl as [H1 H2]. split; [exact H2|]. split; [exact H1|].
  intros userId now Hn. cbn [usePageData.step].
  destruct (handleFetchBegin_cases userId false now (usePageData.refs h))
    as [[Hs _]|[Hs [_ [Hg _]]]];
    destruct (usePageData.handleFetchBegin userId false now (usePageData.refs h)) as [st called];
    cbn [fst snd] in *; subst; cbn [usePageData.fetches]; [reflexivity|].
  specialize (Hg eq_refl). lia.
Qed.

(** ** Further properties of the search *)

Lemma filter_length_le {A} (p q : A -> bool) l :
  (forall x, p x = true -> q x = true) ->
  (List.length (filter p l) <= List.length (filter q l))%nat.
Proof.
  intros H. induction l as [|x l IH]; [apply Nat.le_refl|]. cbn.
  destruct (p x) eqn:P.
  - rewrite (H x P). cbn. lia.
  - destruct (q x); cbn; lia.
Qed.

Lemma In_rankedMatches lc term data food :
  In food (rankedMatches lc term data) <->
  In food data /\ FoodSelect.matchesAll (FoodSelect.searchWordsOf term) food = true.
Proof.
  unfold rankedMatches. rewrite <- filter_In. split; intros H.
  - exact (Permutation_in _ (sort_perm _ _) H).
  - exact (Permutation_in _ (Permutation_sym (sort_perm _ _)) H).
Qed.

Lemma length_rankedMatches lc term data :
  List.length (rankedMatches lc term data) =
  List.length (filter (FoodSelect.matchesAll (FoodSelect.searchWordsOf term)) data).
Proof. unfold rankedMatches. apply Permutation_length, sort_perm. Qed.

(** X17. A food's own name finds the food: for a name of two code units or
    more, when no more candidates match than the result may hold, the food is
    among the results of the add-meal search for its name, and among those of
    the inline search re-run after the food was picked. *)
Theorem selected_name_finds_food lc data food st sf :
  In food data -> (2 <= JS.length (alimento food))%nat ->
  ((List.length (rankedMatches lc (alimento food) data) <= 20)%nat ->
   In food (AddExtraMealModal.searchResults
              (AddExtraMealModal.handleInputChange lc (alimento food) (Rows data) st))) /\
  ((List.length (rankedMatches lc (alimento food) data) <= 30)%nat ->
   In food (FoodSelect.foods
              (FoodSelect.searchFoodsEnd lc (alimento food) (Rows data)
                 (FoodSelect.searchFoodsBegin (fst (FoodSelect.handleFoodSelect food sf)))))).
Proof.
  intros Hin Hlen.
  assert (Hm : everyWordOccurs (FoodSelect.searchWordsOf (alimento food)) food).
  { apply matchesAll_spec, own_name_matches. }
  split; intros Hn; rewrite length_rankedMatches in Hn.
  - unfold AddExtraMealModal.handleInputChange. rewrite modal_results.
    apply Nat.ltb_ge in Hlen. rewrite Hlen.
    now apply ranked_prefix_complete.
  - unfold FoodSelect.searchFoodsEnd.
    cbn [FoodSelect.setLoading FoodSelect.setHighlightedIndex FoodSelect.setFoods
         FoodSelect.foods].
    now apply ranked_prefix_complete.
Qed.

(** X18. Typing on narrows the search, for a query of Basic Latin and
    Latin-1 Supplement: every candidate that matches a query continued by
    more text matches the query, so the matches of the longer query are
    among, and no more than, those of the shorter. *)
Theorem longer_query_narrows lc t s data food :
  isLatin1 (t ++ s) = true ->
  In food (rankedMatches lc (t ++ s) data) ->
  In food (rankedMatches lc t data) /\
  (List.length (rankedMatches lc (t ++ s) data) <= List.length (rankedMatches lc t data))%nat.
Proof.
  intros Hl H. split.
  - apply In_rankedMatches in H. apply In_rankedMatches.
    destruct H as [Hin Hm]. split; [exact Hin|].
    now apply (longer_query_matches_less t s).
  - rewrite !length_rankedMatches. apply filter_length_le.
    intros x. now apply longer_query_matches_less.
Qed.

(** X19. On a text of Basic Latin and Latin-1 Supplement [normalizeText] is
    idempotent, in both components; such a query and its normalized form have
    the same words and the same ranked matches. *)
Theorem normalizeText_twice text :
  isLatin1 text = true ->
  let once := FoodSelect.normalizeText text in
  FoodSelect.normalizeText once = once /\
  AddExtraMealModal.normalizeText (AddExtraMealModal.normalizeText text)
    = AddExtraMealModal.normalizeText text /\
  FoodSelect.searchWordsOf once = FoodSelect.searchWordsOf text /\
  (forall lc data, rankedMatches lc once data = rankedMatches lc text data).
Proof.
  intros Hl. cbv zeta. pose proof (normalizeText_idempotent text Hl) as H.
  split; [exact H|]. split; [exact H|].
  assert (Hw : FoodSelect.searchWordsOf (FoodSelect.normalizeText text)
               = FoodSelect.searchWordsOf text).
  { unfold FoodSelect.searchWordsOf. now rewrite H. }
  split; [exact Hw|]. intros lc data. unfold rankedMatches. now rewrite Hw.
Qed.

(** ** Decimal digits *)

Section Digits.
Local Open Scope Z_scope.

Lemma digitsValue_app ds c :
  digitsValue (ds ++ [c]) = 10 * digitsValue ds + (Z.of_N c - 48).
Proof. unfold digitsValue. now rewrite fold_left_app. Qed.

Lemma isDigit_range c : isDigit c = true <-> 0 <= Z.of_N c - 48 <= 9.
Proof.
  unfold isDigit. rewrite andb_true_iff, !N.leb_le. lia.
Qed.

Lemma digitsValue_nonneg ds : forallb isDigit ds = true -> 0 <= digitsValue ds.
Proof.
  induction ds as [|c ds IH] using rev_ind; intros H; [reflexivity|].
  rewrite forallb_app in H. apply andb_true_iff in H. destruct H as [H1 H2].
  simpl in H2. rewrite andb_true_r in H2. apply isDigit_range in H2.
  rewrite digitsValue_app. specialize (IH H1). lia.
Qed.

(** [decimalFrom] writes the digits of [n] before [acc], given fuel for them. *)
Lemma decimalFrom_step fuel n acc :
  0 <= n -> 10 <= n ->
  decimalFrom (S fuel) n acc = decimalFrom fuel (n / 10) (digitUnit (n mod 10) :: acc).
Proof.
  intros H0 H. cbn [decimalFrom]. destruct (Z.ltb_spec n 10); [lia | reflexivity].
Qed.

Lemma decimalFrom_last fuel n acc :
  0 <= n < 10 -> decimalFrom (S fuel) n acc = digitUnit n :: acc.
Proof.
  intros H. cbn [decimalFrom]. destruct (Z.ltb_spec n 10); [|lia].
  rewrite Z.mod_small by lia. reflexivity.
Qed.

Lemma numeral_value_lower ds :
  numeral ds -> (1 < List.length ds)%nat -> 10 ^ (Z.of_nat (List.length ds) - 1) <= digitsValue ds.
Proof.
  induction ds as [|c ds IH] using rev_ind; intros [Hne [Hd Hz]] Hlen; [congruence|].
  rewrite forallb_app in Hd. apply andb_true_iff in Hd. destruct Hd as [Hd1 Hd2].
  simpl in Hd2. rewrite andb_true_r in Hd2. apply isDigit_range in Hd2.
  rewrite digitsValue_app, length_app in *. cbn [List.length] in *.
  destruct ds as [|a ds'] eqn:E; [simpl in Hlen; lia|]. rewrite <- E in *.
  assert (Hnum : numeral ds).
  { split; [rewrite E; discriminate|]. split; [exact Hd1|].
    intros r Hr. rewrite Hr in Hz. specialize (Hz (r ++ [c]) eq_refl).
    destruct r; [reflexivity | discriminate Hz]. }
  destruct (Nat.eq_dec (List.length ds) 1) as [L1|L1].
  - rewrite L1. change (Z.of_nat (1 + 1) - 1) with 1. change (10 ^ 1) with 10.
    assert (1 <= digitsValue ds).
    { rewrite E in *. destruct ds'; [|simpl in L1; lia].
      unfold digitsValue. simpl. simpl in Hd1. rewrite andb_true_r in Hd1.
      apply isDigit_range in Hd1.
      destruct (N.eq_dec a 48) as [->|Ha].
      - specialize (Hz [c] eq_refl). discriminate Hz.
      - lia. }
    lia.
  - assert (Hl : (1 < List.length ds)%nat) by (rewrite E in *; simpl in *; lia).
    specialize (IH Hnum Hl).
    replace (Z.of_nat (List.length ds + 1) - 1) with (Z.succ (Z.of_nat (List.length ds) - 1)) by lia.
    rewrite Z.pow_succ_r by lia. lia.
Qed.

Lemma digitUnit_of c : isDigit c = true -> digitUnit (Z.of_N c - 48) = c.
Proof. intros H. apply isDigit_range in H. unfold digitUnit. lia. Qed.

Lemma isDigit_digitUnit d : 0 <= d <= 9 -> isDigit (digitUnit d) = true.
Proof. intros H. apply isDigit_range. unfold digitUnit. lia. Qed.

Lemma numeral_prefix ds c : numeral (ds ++ [c]) -> ds <> [] -> numeral ds.
Proof.
  intros [_ [Hd Hz]] Hne. rewrite forallb_app in Hd. apply andb_true_iff in Hd.
  split; [exact Hne|]. split; [tauto|].
  intros r Hr. rewrite Hr in Hz. specialize (Hz (r ++ [c]) eq_refl).
  destruct r; [reflexivity | discriminate Hz].
Qed.

Lemma numeral_positive ds : numeral ds -> ds <> [48%N] -> 1 <= digitsValue ds.
Proof.
  intros Hn Hz. destruct ds as [|a [|b r]].
  - destruct Hn as [H _]. congruence.
  - destruct Hn as [_ [Hd _]]. simpl in Hd. rewrite andb_true_r in Hd.
    apply isDigit_range in Hd. unfold digitsValue. simpl.
    destruct (N.eq_dec a 48) as [->|Ha]; [congruence | lia].
  - pose proof (numeral_value_lower (a :: b :: r) Hn ltac:(simpl; lia)) as H.
    assert (1 <= 10 ^ (Z.of_nat (List.length (a :: b :: r)) - 1)).
    { pose proof (Z.pow_pos_nonneg 10 (Z.of_nat (List.length (a :: b :: r)) - 1) ltac:(lia) ltac:(cbn [List.length]; lia)). lia. }
    lia.
Qed.

Lemma decimalFrom_numeral ds :
  numeral ds -> forall fuel acc, (List.length ds <= fuel)%nat ->
  decimalFrom fuel (digitsValue ds) acc = ds ++ acc.
Proof.
  induction ds as [|c ds IH] using rev_ind; intros Hn fuel acc Hf.
  - destruct Hn as [H _]. congruence.
  - pose proof Hn as [_ [Hd Hz]].
    rewrite forallb_app in Hd. apply andb_true_iff in Hd. destruct Hd as [Hd1 Hd2].
    simpl in Hd2. rewrite andb_true_r in Hd2. pose proof Hd2 as Hc.
    apply isDigit_range in Hc.
    rewrite digitsValue_app. rewrite length_app in Hf. cbn [List.length] in Hf.
    destruct fuel as [|fuel]; [lia|].
    destruct ds as [|a ds'] eqn:E.
    + change (digitsValue []) with 0. rewrite Z.mul_0_r, Z.add_0_l.
      rewrite decimalFrom_last by lia. now rewrite digitUnit_of.
    + rewrite <- E in *.
      assert (Hne : ds <> []) by (rewrite E; discriminate).
      pose proof (numeral_prefix ds c Hn Hne) as Hn'.
      assert (Hpos : 1 <= digitsValue ds).
      { apply numeral_positive; [exact Hn'|]. intros E0. rewrite E0 in Hz.
        specialize (Hz [c] eq_refl). discriminate Hz. }
      rewrite decimalFrom_step by lia.
      replace ((10 * digitsValue ds + (Z.of_N c - 48)) / 10) with (digitsValue ds)
        by (apply (Z.div_unique _ _ _ (Z.of_N c - 48)); lia).
      replace ((10 * digitsValue ds + (Z.of_N c - 48)) mod 10) with (Z.of_N c - 48)
        by (apply (Z.mod_unique _ _ (digitsValue ds)); lia).
      rewrite IH by (assumption || lia). rewrite digitUnit_of by assumption.
      now rewrite <- app_assoc.
Qed.

Lemma digitsValue_upper ds :
  forallb isDigit ds = true -> digitsValue ds < 10 ^ Z.of_nat (List.length ds).
Proof.
  induction ds as [|c ds IH] using rev_ind; intros H; [reflexivity|].
  rewrite forallb_app in H. apply andb_true_iff in H. destruct H as [H1 H2].
  simpl in H2. rewrite andb_true_r in H2. apply isDigit_range in H2.
  rewrite digitsValue_app, length_app. cbn [List.length].
  replace (Z.of_nat (List.length ds + 1)) with (Z.succ (Z.of_nat (List.length ds))) by lia.
  rewrite Z.pow_succ_r by lia. specialize (IH H1). lia.
Qed.

Lemma decimal_numeral ds : numeral ds -> decimal (digitsValue ds) = ds.
Proof.
  intros Hn. unfold decimal. rewrite decimalFrom_numeral; [apply app_nil_r | exact Hn |].
  destruct (Nat.le_gt_cases (List.length ds) 1) as [L|L]; [lia|].
  pose proof (numeral_value_lower ds Hn L) as Hlow.
  assert (H2 : 2 ^ (Z.of_nat (List.length ds) - 1) <= digitsValue ds).
  { apply Z.le_trans with (10 ^ (Z.of_nat (List.length ds) - 1)); [|exact Hlow].
    apply Z.pow_le_mono_l. lia. }
  assert (H3 : Z.of_nat (List.length ds) - 1 <= Z.log2 (digitsValue ds)).
  { rewrite <- (Z.log2_pow2 (Z.of_nat (List.length ds) - 1)) by lia.
    now apply Z.log2_le_mono. }
  lia.
Qed.

Lemma numeral_exists n : 0 <= n -> exists ds, numeral ds /\ digitsValue ds = n.
Proof.
  intros Hn. pose proof Hn as Hn0. revert Hn0. pattern n. apply Z_lt_induction; [|exact Hn].
  clear n Hn. intros n IH Hn.
  destruct (Z.lt_ge_cases n 10) as [H|H].
  - exists [digitUnit n]. split.
    + split; [discriminate|]. split.
      * simpl. rewrite isDigit_digitUnit by lia. reflexivity.
      * intros r Hr. now injection Hr.
    + change [digitUnit n] with ([] ++ [digitUnit n]). rewrite digitsValue_app.
      change (digitsValue []) with 0. unfold digitUnit. lia.
  - destruct (IH (n / 10)) as [ds [Hds Hv]].
    { pose proof (Z.div_lt_upper_bound n 10 n ltac:(lia) ltac:(lia)).
      pose proof (Z.div_pos n 10 ltac:(lia) ltac:(lia)). lia. }
    { apply Z.div_pos; lia. }
    pose proof (Z.mod_pos_bound n 10 ltac:(lia)) as Hm.
    exists (ds ++ [digitUnit (n mod 10)]). split.
    + destruct Hds as [Hne [Hd Hz]]. split; [now destruct ds|]. split.
      * rewrite forallb_app, Hd. simpl. rewrite isDigit_digitUnit by lia. reflexivity.
      * intros r Hr. destruct ds as [|a ds']; [congruence|].
        simpl in Hr. injection Hr as -> Hr'.
        specialize (Hz ds' eq_refl). subst ds'.
        exfalso. unfold digitsValue in Hv. simpl in Hv.
        pose proof (Z.div_le_lower_bound n 10 1 ltac:(lia) ltac:(lia)). lia.
    + rewrite digitsValue_app, Hv. unfold digitUnit.
      pose proof (Z.div_mod n 10 ltac:(lia)). lia.
Qed.

Lemma decimal_spec n : 0 <= n -> numeral (decimal n) /\ digitsValue (decimal n) = n.
Proof.
  intros Hn. destruct (numeral_exists n Hn) as [ds [Hds Hv]].
  rewrite <- Hv at 1 2. rewrite (decimal_numeral ds Hds). now split.
Qed.

Lemma zeros_succ j : zeros (S j) = zeros j ++ [48%N].
Proof. unfold zeros. induction j as [|j IH]; [reflexivity|]. simpl in *. now rewrite <- IH. Qed.

Lemma numeral_zeros ds j :
  numeral ds -> 1 <= digitsValue ds ->
  numeral (ds ++ zeros j) /\ digitsValue (ds ++ zeros j) = digitsValue ds * 10 ^ Z.of_nat j.
Proof.
  intros Hn Hpos. induction j as [|j [IH1 IH2]].
  - unfold zeros. simpl. rewrite app_nil_r, Z.mul_1_r. now split.
  - rewrite zeros_succ, app_assoc. split.
    + destruct IH1 as [Hne [Hd Hz]]. split; [now destruct (ds ++ zeros j)|]. split.
      * rewrite forallb_app, Hd. reflexivity.
      * intros r Hr. destruct Hn as [Hne' [_ Hz']].
        destruct ds as [|a ds']; [congruence|].
        simpl in Hr. injection Hr as -> _.
        specialize (Hz' ds' eq_refl). subst ds'.
        unfold digitsValue in Hpos. simpl in Hpos. lia.
    + rewrite digitsValue_app, IH2. rewrite Nat2Z.inj_succ, Z.pow_succ_r by lia.
      change (Z.of_N 48 - 48) with 0. ring.
Qed.

Lemma decimal_scaled M j :
  1 <= M -> decimal (M * 10 ^ Z.of_nat j) = decimal M ++ zeros j.
Proof.
  intros HM. destruct (decimal_spec M ltac:(lia)) as [Hn Hv].
  destruct (numeral_zeros (decimal M) j Hn ltac:(lia)) as [Hn' Hv'].
  rewrite Hv in Hv'. rewrite <- Hv'. now apply decimal_numeral.
Qed.

End Digits.

(** ** Sums of binary64 numbers *)

Section SumFacts.
Local Open Scope Z_scope.

Lemma valid_exponent m e :
  valid_binary (S754_finite false m e) = true -> Zpos (digits2_pos m) = 53 ->
  -1074 <= e <= 971.
Proof.
  unfold SpecFloat.valid_binary, bounded, canonical_mantissa.
  intros H Hd. apply andb_true_iff in H. destruct H as [H1 H2].
  apply Z.eqb_eq in H1. apply Z.leb_le in H2.
  unfold SpecFloat.fexp, SpecFloat.emin, emax, prec in *. lia.
Qed.

Lemma posval_exponent x m e :
  Prim2SF x = S754_finite false m e -> Zpos (digits2_pos m) = 53 -> -1074 <= e <= 971.
Proof.
  intros Hx Hd. apply (valid_exponent m e); [|exact Hd]. rewrite <- Hx. apply Prim2SF_valid.
Qed.

Lemma binary_round_wide M E :
  53 <= Zpos (digits2_pos M) -> -1074 <= E ->
  binary_round prec emax false M E = binary_round_aux prec emax false (Zpos M) E loc_Exact.
Proof.
  intros Hd HE. unfold binary_round, shl_align.
  assert (H : E <= SpecFloat.fexp prec emax (Zpos (digits2_pos M) + E)).
  { unfold SpecFloat.fexp, SpecFloat.emin, emax, prec. lia. }
  destruct (SpecFloat.fexp prec emax (Zpos (digits2_pos M) + E) - E) eqn:G; try lia; reflexivity.
Qed.

Local Open Scope R_scope.

Lemma add_posval x y vx vy :
  posval x vx -> posval y vy -> vx + vy <= IZR (2 ^ 64) ->
  exists v, posval (x + y)%float v /\ near 1 v (vx + vy).
Proof.
  intros [mx [ex [Hx [Hdx ->]]]] [my [ey [Hy [Hdy ->]]]] Hr.
  pose proof (mantissa_bounds mx Hdx) as Hbx.
  pose proof (mantissa_bounds my Hdy) as Hby.
  pose proof (posval_exponent x mx ex Hx Hdx) as Hex.
  pose proof (posval_exponent y my ey Hy Hdy) as Hey.
  set (ez := Z.min ex ey).
  assert (Hez : (ez <= ex /\ ez <= ey /\ -1074 <= ez)%Z) by (unfold ez; lia).
  destruct Hez as [Hez1 [Hez2 Hez3]].
  set (M := (Zpos mx * 2 ^ (ex - ez) + Zpos my * 2 ^ (ey - ez))%Z).
  pose proof (pow2_pos (ex - ez) ltac:(lia)) as Hp1.
  pose proof (pow2_pos (ey - ez) ltac:(lia)) as Hp2.
  assert (HM : (2 ^ 52 <= M)%Z) by (unfold M; nia).
  assert (HM0 : (0 < M)%Z) by lia.
  assert (Ev : IZR (Zpos mx) * bpow ex + IZR (Zpos my) * bpow ey = IZR M * bpow ez).
  { unfold M. rewrite plus_IZR, !mult_IZR.
    rewrite <- (bpow_IZR (ex - ez)), <- (bpow_IZR (ey - ez)) by lia.
    replace (bpow ex) with (bpow (ex - ez) * bpow ez)
      by (rewrite <- bpow_add; f_equal; lia).
    replace (bpow ey) with (bpow (ey - ez) * bpow ez)
      by (rewrite <- bpow_add; f_equal; lia).
    ring. }
  rewrite Ev in *.
  pose proof (Zdigits2_bounds M HM0) as [Hd1 Hd2].
  assert (Hd53 : (53 <= Zdigits2 M)%Z).
  { destruct (Z.le_gt_cases 53 (Zdigits2 M)) as [G|G]; [exact G|].
    assert (2 ^ Zdigits2 M <= 2 ^ 52)%Z by (apply Z.pow_le_mono_r; lia). lia. }
  assert (Hup : (Zdigits2 M - 1 + ez <= 64)%Z).
  { apply (bpow_upper _ (IZR M * bpow ez)); [|exact Hr].
    rewrite bpow_add, (bpow_IZR (Zdigits2 M - 1)) by lia.
    apply Rmult_le_compat_r; [pose proof (bpow_pos ez); lra|]. now apply IZR_le. }
  destruct (BRA_near false M ez loc_Exact (IZR M * bpow ez))
    as [m [e [Hres [Hdig Hnear]]]]; try lia.
  { split; [lra|]. apply Rmult_lt_compat_r; [apply bpow_pos|]. apply IZR_lt. lia. }
  exists (IZR (Zpos m) * bpow e). split; [|exact Hnear].
  exists m, e. split; [|split; [exact Hdig | reflexivity]].
  rewrite FloatAxioms.add_spec, Hx, Hy. unfold SF64add, SFadd. fold ez.
  cbn [cond_Zopp].
  rewrite (shl_align_value mx ex ez Hez1), (shl_align_value my ey ez Hez2). fold M.
  destruct M as [|Mp|Mp] eqn:EM; try lia.
  unfold binary_normalize. rewrite binary_round_wide; [exact Hres | exact Hd53 | exact Hez3].
Qed.


Lemma pow1u_linear k : 2 * INR k * u <= 1 -> (1 + u) ^ k <= 1 + 2 * INR k * u.
Proof.
  pose proof u_pos as Hu.
  induction k as [|k IH]; intros H.
  - simpl. lra.
  - rewrite S_INR in *. pose proof (pos_INR k) as Hk.
    assert (H' : 2 * INR k * u <= 1) by nra.
    specialize (IH H'). simpl pow. pose proof (pow1u_pos k). nra.
Qed.

Lemma near_add j k a a' b b' :
  near j a a' -> near k b b' -> near (Nat.max j k) (a + b) (a' + b').
Proof.
  intros Ha Hb.
  apply (near_weaken j (Nat.max j k)) in Ha; [|lia].
  apply (near_weaken k (Nat.max j k)) in Hb; [|lia].
  destruct Ha as [Ha0 [Ha1 Ha2]], Hb as [Hb0 [Hb1 Hb2]].
  unfold near. split; [lra|]. split; nra.
Qed.

Lemma add_zero_l y vy : posval y vy -> (PrimFloat.zero + y)%float = y.
Proof.
  intros [m [e [Hy _]]]. apply Prim2SF_inj. rewrite FloatAxioms.add_spec, Hy. reflexivity.
Qed.

Lemma add_zero_r x vx : posval x vx -> (x + PrimFloat.zero)%float = x.
Proof.
  intros [m [e [Hx _]]]. apply Prim2SF_inj. rewrite FloatAxioms.add_spec, Hx. reflexivity.
Qed.

(** A tenth of a whole number. *)
Lemma tenth_posval p :
  (0 < p < 2 ^ 53)%Z -> exists v, posval (Z2F p / 10)%float v /\ near 1 v (IZR p / 10).
Proof.
  intros Hp.
  pose proof (IZR_range p 1 (2 ^ 53) ltac:(lia)) as Bp.
  replace (2 ^ 53)%Z with 9007199254740992%Z in Bp by reflexivity.
  apply (div_posval _ _ _ _ (Z2F_posval p Hp) posval_10).
  rewrite big_literal. split.
  - apply Rle_trans with (1 / 10); [lra|]. unfold Rdiv. apply Rmult_le_compat_r; lra.
  - apply Rle_trans with (9007199254740992 / 10); [|lra].
    unfold Rdiv. apply Rmult_le_compat_r; lra.
Qed.

Lemma tenth_zero : (Z2F 0 / 10)%float = PrimFloat.zero.
Proof. reflexivity. Qed.


Lemma pow1u_two k : 2 * INR k * u <= 1 -> (1 + u) ^ k <= 2.
Proof. intros H. pose proof (pow1u_linear k H). lra. Qed.

Lemma sum_step acc S k p :
  sumsTo acc S k -> (1 <= k)%nat -> 2 * INR k * u <= 1 ->
  (0 <= p)%Z -> (S + p < 2 ^ 53)%Z ->
  sumsTo (acc + Z2F p / 10)%float (S + p) (Datatypes.S k).
Proof.
  intros Hacc Hk Hu Hp Hb.
  destruct (Z.eq_dec p 0) as [->|Hp0].
  - rewrite Z.add_0_r, tenth_zero.
    destruct Hacc as [[-> ->]|[HS [v [Hv Hn]]]].
    + left. split; reflexivity.
    + right. split; [exact HS|]. exists v. rewrite (add_zero_r acc v Hv).
      split; [exact Hv|]. apply (near_weaken k); [lia | exact Hn].
  - destruct (tenth_posval p) as [vp [Hvp Hnp]].
    { destruct Hacc as [[-> _]|[HS _]]; lia. }
    destruct Hacc as [[-> ->]|[HS [v [Hv Hn]]]].
    + right. split; [lia|]. exists vp. rewrite (add_zero_l _ vp Hvp).
      split; [exact Hvp|]. rewrite Z.add_0_l. apply (near_weaken 1); [lia | exact Hnp].
    + right. split; [lia|].
      pose proof (near_add k 1 v (IZR S / 10) vp (IZR p / 10) Hn Hnp) as Hsum.
      rewrite Nat.max_l in Hsum by lia.
      replace (IZR S / 10 + IZR p / 10) with (IZR (S + p) / 10) in Hsum
        by (rewrite plus_IZR; field).
      destruct (add_posval acc (Z2F p / 10)%float v vp Hv Hvp) as [w [Hw Hnw]].
      { destruct Hsum as [_ [H1 _]]. pose proof (pow1u_two k Hu) as H2.
        pose proof (IZR_range (S + p) 1 (2 ^ 53) ltac:(lia)) as Bs.
        replace (2 ^ 53)%Z with 9007199254740992%Z in Bs by reflexivity.
        rewrite big_literal.
        apply Rle_trans with (IZR (S + p) / 10 * (1 + u) ^ k); [exact H1|].
        apply Rle_trans with (9007199254740992 / 10 * 2); [|lra].
        apply Rmult_le_compat; try lra.
        pose proof (pow1u_pos k). lra. }
      exists w. split; [exact Hw|].
      replace (Datatypes.S k) with (1 + k)%nat by lia.
      exact (near_trans 1 k _ _ _ Hnw Hsum).
Qed.

Lemma sum_tenths ps : forall acc S k,
  sumsTo acc S k -> (1 <= k)%nat ->
  2 * INR (k + List.length ps) * u <= 1 ->
  Forall (fun p => 0 <= p)%Z ps -> (S + Zsum ps < 2 ^ 53)%Z ->
  sumsTo (fold_left PrimFloat.add (map (fun p => Z2F p / 10)%float ps) acc)
         (S + Zsum ps) (k + List.length ps).
Proof.
  induction ps as [|p ps IH]; intros acc S k Hacc Hk Hu Hps Hb.
  - simpl. rewrite Z.add_0_r, Nat.add_0_r. exact Hacc.
  - inversion Hps as [|p' ps' Hp Hps']; subst. simpl in Hb |- *.
    pose proof (Zsum_nonneg ps Hps') as Hnn.
    assert (Hu' : 2 * INR k * u <= 1).
    { pose proof u_pos. apply Rle_trans with (2 * INR (k + List.length (p :: ps)) * u); [|exact Hu].
      apply Rmult_le_compat_r; [lra|]. apply Rmult_le_compat_l; [lra|].
      apply le_INR. lia. }
    replace (S + (p + Zsum ps))%Z with (S + p + Zsum ps)%Z by lia.
    replace (k + Datatypes.S (List.length ps))%nat with (Datatypes.S k + List.length ps)%nat by lia.
    apply IH.
    + apply sum_step; try assumption. lia.
    + lia.
    + replace (Datatypes.S k + List.length ps)%nat with (k + List.length (p :: ps))%nat
        by (simpl; lia).
      exact Hu.
    + exact Hps'.
    + lia.
Qed.


(** *** One decimal *)

Lemma nearestScaled_tenths m e T :
  IZR T - / 2 < 10 * (IZR (Zpos m) * bpow e) < IZR T + / 2 ->
  nearestScaled 1 m e = T.
Proof.
  intros [H1 H2]. unfold nearestScaled. change (10 ^ Z.of_nat 1)%Z with 10%Z.
  destruct (Z.leb_spec 0 e) as [He|He].
  - rewrite bpow_IZR in H1, H2 by lia.
    rewrite <- mult_IZR in H1, H2.
    assert (G1 : IZR (T - 1) < IZR (10 * (Zpos m * 2 ^ e))).
    { rewrite minus_IZR, (mult_IZR 10). lra. }
    assert (G2 : IZR (10 * (Zpos m * 2 ^ e)) < IZR (T + 1)).
    { rewrite plus_IZR, (mult_IZR 10). lra. }
    apply lt_IZR in G1, G2. lia.
  - set (D := (2 ^ (- e))%Z).
    assert (HD : (0 < D)%Z) by (apply pow2_pos; lia).
    assert (HB : bpow e = / IZR D).
    { replace e with (- (- e))%Z at 1 by lia. rewrite bpow_opp, bpow_IZR by lia. reflexivity. }
    rewrite HB in H1, H2.
    assert (HDr : 0 < IZR D) by (apply IZR_lt; lia).
    assert (G1 : IZR (2 * T * D - D) < IZR (20 * Zpos m)).
    { rewrite minus_IZR, !mult_IZR.
      apply Rmult_lt_reg_r with (/ IZR D); [now apply Rinv_0_lt_compat|].
      replace ((2 * IZR T * IZR D - IZR D) * / IZR D) with (2 * IZR T - 1) by (field; lra).
      lra. }
    assert (G2 : IZR (20 * Zpos m) < IZR (2 * T * D + D)).
    { rewrite plus_IZR, !mult_IZR.
      apply Rmult_lt_reg_r with (/ IZR D); [now apply Rinv_0_lt_compat|].
      replace ((2 * IZR T * IZR D + IZR D) * / IZR D) with (2 * IZR T + 1) by (field; lra).
      lra. }
    apply lt_IZR in G1, G2.
    replace (1 - e)%Z with (Z.succ (- e)) by lia. rewrite Z.pow_succ_r by lia. fold D.
    symmetry. apply (Z.div_unique _ _ _ (2 * Zpos m * 10 + D - T * (2 * D))); [lia|ring].
Qed.

Lemma toFixed_tenths x v T k :
  posval x v -> near k v (IZR T / 10) -> 2 * INR k * u <= 1 ->
  (0 < T)%Z -> IZR T * (2 * INR k * u) < / 2 -> (T < 2 ^ 53)%Z ->
  toFixed 1 x = fixedDigits 1 T.
Proof.
  intros [m [e [Hx [Hd ->]]]] Hn Hu HT Hsmall Hlt.
  pose proof (pow1u_linear k Hu) as Hpow. pose proof (pow1u_ge1 k) as Hge.
  destruct Hn as [H0 [H1 H2]].
  assert (HTr : 0 < IZR T) by (apply IZR_lt; lia).
  set (V := IZR (Zpos m) * bpow e) in *.
  assert (Hclose : IZR T - / 2 < 10 * V < IZR T + / 2).
  { split; nra. }
  unfold toFixed. rewrite Hx.
  assert (Hbig : let (a, b) := fraction m e in (10 ^ 21 * b <=? a)%Z = false).
  { assert (HV : V < 1000000000000000000000).
    { pose proof (IZR_range T 1 (2 ^ 53) ltac:(lia)) as Bt.
      replace (2 ^ 53)%Z with 9007199254740992%Z in Bt by reflexivity. lra. }
    unfold fraction. destruct (Z.leb_spec 0 e) as [He|He].
    - apply Z.leb_gt. unfold V in HV. rewrite bpow_IZR, <- mult_IZR in HV by lia.
      apply lt_IZR in HV. change (10 ^ 21)%Z with 1000000000000000000000%Z. lia.
    - apply Z.leb_gt. set (D := (2 ^ (- e))%Z).
      assert (HD : (0 < D)%Z) by (apply pow2_pos; lia).
      assert (HB : bpow e = / IZR D).
      { replace e with (- (- e))%Z at 1 by lia. rewrite bpow_opp, bpow_IZR by lia.
        reflexivity. }
      unfold V in HV. rewrite HB in HV.
      assert (HDr : 0 < IZR D) by (apply IZR_lt; lia).
      assert (G : IZR (Zpos m) < IZR (10 ^ 21 * D)).
      { rewrite mult_IZR. change (IZR (10 ^ 21)) with 1000000000000000000000.
        apply Rmult_lt_reg_r with (/ IZR D); [now apply Rinv_0_lt_compat|].
        replace (1000000000000000000000 * IZR D * / IZR D) with 1000000000000000000000
          by (field; lra).
        exact HV. }
      now apply lt_IZR in G. }
  destruct (fraction m e) as [a b]. rewrite Hbig.
  now rewrite (nearestScaled_tenths m e T Hclose).
Qed.

End SumFacts.

(** ** The line of the totals *)

Section TotalsLine.
Local Open Scope R_scope.

Lemma rounding_budget (T k : Z) :
  (0 < T)%Z -> (0 <= k)%Z -> (T * (k + 1) < 2 ^ 49)%Z ->
  2 * IZR k * u <= 1 /\ IZR T * (2 * IZR k * u) < / 2.
Proof.
  intros HT Hk Hb. pose proof u_value as Hu. pose proof u_pos as Hu0.
  replace (IZR (2 ^ 52)) with 4503599627370496 in Hu by reflexivity.
  assert (H1 : IZR (T * (k + 1)) < IZR (2 ^ 49)) by now apply IZR_lt.
  rewrite mult_IZR, plus_IZR in H1.
  replace (IZR (2 ^ 49)) with 562949953421312 in H1 by reflexivity.
  assert (HTr : 1 <= IZR T) by (apply IZR_le; lia).
  assert (Hkr : 0 <= IZR k) by (apply IZR_le; lia).
  assert (Hk2 : IZR k < 562949953421312) by nra.
  assert (E : u = / 4503599627370496).
  { apply Rmult_eq_reg_r with 4503599627370496; [|lra]. rewrite Hu. field. }
  rewrite E. split.
  - apply Rmult_le_reg_r with 4503599627370496; [lra|].
    replace (2 * IZR k * / 4503599627370496 * 4503599627370496) with (2 * IZR k) by field.
    lra.
  - apply Rmult_lt_reg_r with 4503599627370496; [lra|].
    replace (IZR T * (2 * IZR k * / 4503599627370496) * 4503599627370496)
      with (2 * (IZR T * IZR k)) by field.
    nra.
Qed.

Lemma sum_of_zeros ps :
  Forall (fun p => 0 <= p)%Z ps -> Zsum ps = 0%Z ->
  fold_left PrimFloat.add (map (fun p => Z2F p / 10)%float ps) PrimFloat.zero
  = PrimFloat.zero.
Proof.
  induction 1 as [|p ps Hp Hps IH]; intros Hs; [reflexivity|].
  simpl in Hs. pose proof (Zsum_nonneg ps Hps).
  assert (p = 0%Z) by lia. subst p. cbn [map fold_left].
  rewrite tenth_zero. change (PrimFloat.zero + PrimFloat.zero)%float with PrimFloat.zero.
  apply IH. lia.
Qed.

Lemma shown_macro (l : list float) ps :
  l = map (fun p => Z2F p / 10)%float ps ->
  Forall (fun p => 0 <= p)%Z ps ->
  (Zsum ps * (Z.of_nat (List.length ps) + 2) < 2 ^ 49)%Z ->
  toFixed 1 (fold_left PrimFloat.add l 0%float) = fixedDigits 1 (Zsum ps).
Proof.
  intros -> Hps Hb.
  pose proof (Zsum_nonneg ps Hps) as Hnn.
  destruct (Z.eq_dec (Zsum ps) 0) as [E0|E0].
  - change 0%float with PrimFloat.zero. rewrite (sum_of_zeros ps Hps E0), E0. reflexivity.
  - destruct (rounding_budget (Zsum ps) (Z.of_nat (1 + List.length ps)))
      as [B1 B2]; try lia.
    rewrite <- INR_IZR_INZ in B1, B2.
    assert (Hlt : (Zsum ps < 2 ^ 53)%Z).
    { apply Z.lt_trans with (2 ^ 49)%Z; [nia | reflexivity]. }
    pose proof (sum_tenths ps PrimFloat.zero 0 1 (or_introl (conj eq_refl eq_refl))
                  (le_n 1) B1 Hps ltac:(lia)) as H.
    rewrite Z.add_0_l in H. destruct H as [[H _]|[HS [v [Hv Hn]]]]; [lia|].
    change 0%float with PrimFloat.zero.
    exact (toFixed_tenths _ v (Zsum ps) (1 + List.length ps) Hv Hn B1 HS B2 Hlt).
Qed.

End TotalsLine.

Lemma Forall2_permuted {A B} (R : A -> B -> Prop) l l' :
  Permutation l l' -> forall qs, Forall2 R l qs ->
  exists qs', Permutation qs qs' /\ Forall2 R l' qs'.
Proof.
  induction 1 as [|x l l' H IH|x y l|l l' l'' H1 IH1 H2 IH2]; intros qs HF.
  - inversion HF; subst. exists []. split; constructor.
  - inversion HF as [|x' q l0 qs0 Hx Hl]; subst.
    destruct (IH qs0 Hl) as [qs' [Hp HF']].
    exists (q :: qs'). split; [now constructor | now constructor].
  - inversion HF as [|x' q l0 qs0 Hy Hl]; subst.
    inversion Hl as [|x'' q' l1 qs1 Hx Hl']; subst.
    exists (q' :: q :: qs1). split; [apply perm_swap | repeat constructor; assumption].
  - destruct (IH1 qs HF) as [qs1 [Hp1 HF1]].
    destruct (IH2 qs1 HF1) as [qs2 [Hp2 HF2]].
    exists qs2. split; [now apply Permutation_trans with qs1 | exact HF2].
Qed.

Lemma carries_fields l qs :
  Forall2 carries l qs ->
  map AddExtraMealModal.calories l = map Z2F (map kcalOf qs) /\
  map AddExtraMealModal.protein l = map (fun p => Z2F p / 10)%float (map proteinOf qs) /\
  map AddExtraMealModal.carbs l = map (fun p => Z2F p / 10)%float (map carbsOf qs) /\
  map AddExtraMealModal.fats l = map (fun p => Z2F p / 10)%float (map fatsOf qs) /\
  Forall (fun n => 0 <= n)%Z (map kcalOf qs) /\
  Forall (fun n => 0 <= n)%Z (map proteinOf qs) /\
  Forall (fun n => 0 <= n)%Z (map carbsOf qs) /\
  Forall (fun n => 0 <= n)%Z (map fatsOf qs).
Proof.
  induction 1 as [|f q l qs Hq HF IH].
  - repeat split; constructor.
  - destruct IH as [I1 [I2 [I3 [I4 [I5 [I6 [I7 I8]]]]]]].
    destruct q as [[[c p] g] t]. destruct Hq as [[Hc [Hp [Hg Ht]]] [E1 [E2 [E3 E4]]]].
    cbn [map kcalOf proteinOf carbsOf fatsOf].
    rewrite E1, E2, E3, E4, I1, I2, I3, I4.
    repeat split; try reflexivity; constructor; assumption.
Qed.

Lemma totalsLine_of st qs :
  Forall2 carries (AddExtraMealModal.foods st) qs ->
  let n := Z.of_nat (List.length qs) in
  (Zsum (map kcalOf qs) < 2 ^ 53)%Z ->
  (Zsum (map proteinOf qs) * (n + 2) < 2 ^ 49)%Z ->
  (Zsum (map carbsOf qs) * (n + 2) < 2 ^ 49)%Z ->
  (Zsum (map fatsOf qs) * (n + 2) < 2 ^ 49)%Z ->
  AddExtraMealModal.totalsLine st =
  {| AddExtraMealModal.shownCalories := numberToString (Z2F (Zsum (map kcalOf qs)));
     AddExtraMealModal.shownProtein := fixedDigits 1 (Zsum (map proteinOf qs));
     AddExtraMealModal.shownCarbs := fixedDigits 1 (Zsum (map carbsOf qs));
     AddExtraMealModal.shownFats := fixedDigits 1 (Zsum (map fatsOf qs)) |}.
Proof.
  intros HF n Hc Hp Hg Ht.
  destruct (carries_fields _ _ HF) as [E1 [E2 [E3 [E4 [N1 [N2 [N3 N4]]]]]]].
  destruct (mealTotals_fields st) as [T1 [T2 [T3 T4]]]. cbv zeta in T1, T2, T3, T4.
  unfold AddExtraMealModal.totalsLine.
  rewrite (whole_calories_total st _ E1 N1 Hc), T2, T3, T4.
  unfold n in *.
  rewrite (shown_macro _ _ E2 N2), (shown_macro _ _ E3 N3), (shown_macro _ _ E4 N4);
    try (rewrite length_map; assumption).
  reflexivity.
Qed.

(** ** Whole numbers as binary64 numbers and as text *)

Section WholeNumbers.
Local Open Scope Z_scope.

Lemma digits_le_53 p : Zpos p < 2 ^ 53 -> 1 <= Zpos (digits2_pos p) <= 53.
Proof.
  intros Hp. pose proof (digits2_bounds p) as [H1 H2].
  split; [lia|].
  destruct (Z.le_gt_cases (Zpos (digits2_pos p)) 53); [assumption|].
  assert (2 ^ 53 <= 2 ^ (Zpos (digits2_pos p) - 1)) by (apply Z.pow_le_mono_r; lia). lia.
Qed.

(** The quotient, exponent and location the division computes for two whole
    numbers held with exponent 0. *)
Lemma raw_core n d :
  Zpos n < 2 ^ 53 -> Zpos d < 2 ^ 53 ->
  SFdiv_core_binary prec emax (Zpos n) 0 (Zpos d) 0 =
  (Zpos n * 2 ^ (53 + Zpos (digits2_pos d) - Zpos (digits2_pos n)) / Zpos d,
   Zpos (digits2_pos n) - Zpos (digits2_pos d) - 53,
   new_location (Zpos d)
     (Zpos n * 2 ^ (53 + Zpos (digits2_pos d) - Zpos (digits2_pos n)) mod Zpos d)).
Proof.
  intros Hn Hd. pose proof (digits_le_53 n Hn). pose proof (digits_le_53 d Hd).
  unfold SFdiv_core_binary. simpl Zdigits2.
  set (dn := Zpos (digits2_pos n)) in *. set (dd := Zpos (digits2_pos d)) in *.
  replace (dn + 0 - (dd + 0)) with (dn - dd) by lia.
  rewrite fexp_normal by lia. change (0 - 0) with 0.
  rewrite Z.min_l by lia.
  replace (0 - (dn - dd - 53)) with (53 + dd - dn) by lia.
  destruct (53 + dd - dn) as [|s|s] eqn:Es; try lia.
  rewrite Z.shiftl_mul_pow2 by lia.
  unfold Z.div, Z.modulo.
  destruct (Z.div_eucl (Zpos n * 2 ^ Zpos s) (Zpos d)) as [q r]. reflexivity.
Qed.

Lemma new_location_double d r :
  0 < d -> new_location (2 * d) (2 * r) = new_location d r.
Proof.
  intros Hd. unfold new_location.
  replace (Z.even (2 * d)) with true by (symmetry; rewrite Z.even_mul; reflexivity).
  destruct (Z.even d) eqn:Ev; unfold new_location_even, new_location_odd;
    destruct (Z.eqb_spec (2 * r) 0) as [E|E], (Z.eqb_spec r 0) as [E'|E'];
    try lia; try reflexivity; f_equal.
  - destruct (Z.compare_spec (2 * (2 * r)) (2 * d)),
             (Z.compare_spec (2 * r) d); try reflexivity; lia.
  - assert (Ho : Z.odd d = true) by (rewrite <- Z.negb_even, Ev; reflexivity).
    apply Z.odd_spec in Ho. destruct Ho as [k Hk].
    destruct (Z.compare_spec (2 * (2 * r)) (2 * d)),
             (Z.compare_spec (2 * r + 1) d); try reflexivity; lia.
Qed.

Lemma new_location_scaled d r j :
  0 < d -> new_location (d * 2 ^ Z.of_nat j) (r * 2 ^ Z.of_nat j) = new_location d r.
Proof.
  intros Hd. induction j as [|j IH].
  - now rewrite !Z.mul_1_r.
  - rewrite Nat2Z.inj_succ, Z.pow_succ_r by lia.
    replace (d * (2 * 2 ^ Z.of_nat j)) with (2 * (d * 2 ^ Z.of_nat j)) by ring.
    replace (r * (2 * 2 ^ Z.of_nat j)) with (2 * (r * 2 ^ Z.of_nat j)) by ring.
    rewrite new_location_double; [exact IH|].
    pose proof (pow2_pos (Z.of_nat j) ltac:(lia)). nia.
Qed.

(** Dividing two whole numbers held with exponent 0 is dividing their
    canonical forms. *)
Lemma raw_division n d :
  Zpos n < 2 ^ 53 -> Zpos d < 2 ^ 53 ->
  SF64div (S754_finite false n 0) (S754_finite false d 0) = SF64div (canon n) (canon d).
Proof.
  intros Hn Hd. pose proof (digits_le_53 n Hn) as Bn. pose proof (digits_le_53 d Hd) as Bd.
  destruct (canon_digits n Hn) as [Dn _]. destruct (canon_digits d Hd) as [Dd _].
  unfold SF64div, SFdiv, canon. rewrite raw_core by assumption.
  rewrite div_core by (assumption || lia).
  rewrite !shiftl_pos_value by lia.
  set (dn := Zpos (digits2_pos n)) in *. set (dd := Zpos (digits2_pos d)) in *.
  pose proof (pow2_pos (53 - dd) ltac:(lia)) as Hc.
  replace (Zpos n * 2 ^ (53 - dn) * 2 ^ 53)
    with (Zpos n * 2 ^ (53 + dd - dn) * 2 ^ (53 - dd)).
  2:{ rewrite <- !Z.mul_assoc, <- !Z.pow_add_r by lia. do 2 f_equal. lia. }
  rewrite Z.div_mul_cancel_r by lia.
  rewrite Z.mul_mod_distr_r by lia.
  replace (dn - 53 - (dd - 53) - 53) with (dn - dd - 53) by lia.
  replace (53 - dd) with (Z.of_nat (Z.to_nat (53 - dd))) by lia.
  rewrite new_location_scaled by lia. reflexivity.
Qed.

(** A whole number over one. *)
Lemma div_by_one n :
  Zpos n < 2 ^ 53 ->
  SF64div (S754_finite false n 0) (S754_finite false 1 0) = canon n.
Proof.
  intros Hn. pose proof (digits_le_53 n Hn) as Bn.
  unfold SF64div, SFdiv. rewrite raw_core by (assumption || reflexivity).
  change (Zpos (digits2_pos 1)) with 1. rewrite Z.div_1_r, Z.mod_1_r.
  change (new_location 1 0) with loc_Exact. cbn [xorb].
  set (dn := Zpos (digits2_pos n)) in *.
  pose proof (pow2_pos (53 + 1 - dn) ltac:(lia)) as Hp.
  pose proof (digits2_bounds n) as [L1 L2]. fold dn in L1, L2.
  assert (Hdig : Zdigits2 (Zpos n * 2 ^ (53 + 1 - dn)) = 54).
  { apply Zdigits2_unique; [lia|].
    replace (54 - 1) with (dn - 1 + (53 + 1 - dn)) by lia.
    replace (2 ^ 54) with (2 ^ (dn + (53 + 1 - dn))) by (f_equal; lia).
    rewrite !Z.pow_add_r by lia. nia. }
  destruct (BRA_exact false (Zpos n * 2 ^ (53 + 1 - dn)) (dn - 1 - 53))
    as [m [Hr [Hd Hv]]]; rewrite ?Hdig; try lia.
  - change (2 ^ (54 - 53)) with 2. exists (Zpos n * 2 ^ (53 - dn)).
    replace (53 + 1 - dn) with (Z.succ (53 - dn)) by lia.
    rewrite Z.pow_succ_r by lia. ring.
  - rewrite Hr. unfold canon. fold dn. rewrite Hdig in *. f_equal.
    + apply Pos2Z.inj. rewrite Hv, shiftl_pos_value by lia.
      change (2 ^ (54 - 53)) with 2.
      replace (53 + 1 - dn) with (Z.succ (53 - dn)) by lia.
      rewrite Z.pow_succ_r by lia.
      apply div_exact; [lia | ring].
    + lia.
Qed.

Lemma SF2Prim_canon n : Zpos n < 2 ^ 53 -> SF2Prim (canon n) = Z2F (Zpos n).
Proof. intros Hn. rewrite <- (Prim2SF_Z2F n Hn). apply SF2Prim_Prim2SF. Qed.

(** Two whole numbers are equal as numbers when they are equal. *)
Lemma Z2F_eqb V N :
  0 < V < 2 ^ 53 -> 0 < N < 2 ^ 53 -> (Z2F V =? Z2F N)%float = (V =? N).
Proof.
  intros HV HN. destruct V as [|v|v], N as [|n|n]; try lia.
  rewrite FloatAxioms.eqb_spec, !Prim2SF_Z2F by lia.
  pose proof (digits_le_53 v ltac:(lia)) as Bv. pose proof (digits_le_53 n ltac:(lia)) as Bn.
  destruct (Z.eqb_spec (Zpos v) (Zpos n)) as [E|E].
  - injection E as ->. unfold SFeqb, SFcompare, canon.
    rewrite Z.compare_refl, Pos.compare_cont_refl. reflexivity.
  - unfold SFeqb, SFcompare, canon.
    destruct (Z.compare_spec (Zpos (digits2_pos v) - 53) (Zpos (digits2_pos n) - 53))
      as [Ee|Ee|Ee]; try reflexivity.
    assert (Ed : Zpos (digits2_pos v) = Zpos (digits2_pos n)) by lia.
    rewrite Ed.
    destruct (Pos.compare_cont Eq _ _) eqn:Ec; try reflexivity.
    exfalso. apply Pos.compare_eq in Ec. apply (f_equal Zpos) in Ec.
    rewrite !shiftl_pos_value in Ec by lia.
    pose proof (pow2_pos (53 - Zpos (digits2_pos n)) ltac:(lia)). nia.
Qed.

Lemma abs_Z2F N : 0 <= N < 2 ^ 53 -> abs (Z2F N) = Z2F N.
Proof.
  intros HN. destruct N as [|n|n]; try lia; [reflexivity|].
  apply Prim2SF_inj. rewrite FloatAxioms.abs_spec, Prim2SF_Z2F by lia. reflexivity.
Qed.

(** [Math.round] leaves a whole number as it is. *)
Lemma Math_round_whole N : 0 <= N < 2 ^ 53 -> Math_round (Z2F N) = Z2F N.
Proof.
  intros HN. destruct N as [|n|n]; try lia; [reflexivity|].
  pose proof (digits_le_53 n ltac:(lia)) as Bn.
  unfold Math_round. rewrite Prim2SF_Z2F by lia. unfold canon.
  set (e := Zpos (digits2_pos n) - 53).
  destruct (Z.leb_spec 0 e) as [He|He]; [reflexivity|].
  assert (Hr : round_half_up false
                 (Pos.shiftl n (Z.to_N (53 - Zpos (digits2_pos n)))) e = Zpos n).
  { unfold round_half_up. rewrite shiftl_pos_value by lia.
    replace (53 - Zpos (digits2_pos n)) with (- e) by (unfold e; lia).
    pose proof (pow2_pos (- e) ltac:(lia)) as Hp.
    replace (1 - e) with (Z.succ (- e)) by lia. rewrite Z.pow_succ_r by lia.
    symmetry. apply (Z.div_unique _ _ _ (2 ^ (- e))); [lia | ring]. }
  rewrite Hr. reflexivity.
Qed.

(** The digits of a whole number, with a decimal exponent, read back as the
    number they denote. *)
Lemma decimalValue_whole s ex :
  1 <= s -> 0 <= ex -> s * 10 ^ ex < 2 ^ 53 ->
  decimalValue (decimal s) [] ex = Z2F (s * 10 ^ ex).
Proof.
  intros Hs He Hb. unfold decimalValue. rewrite app_nil_r.
  destruct (decimal_spec s ltac:(lia)) as [_ ->].
  cbn [List.length Z.of_nat]. rewrite Z.sub_0_r.
  destruct s as [|m|m]; try lia.
  destruct (Z.leb_spec 0 ex); [|lia].
  pose proof (Z.pow_pos_nonneg 10 ex ltac:(lia) He) as Hp.
  destruct (Zpos m * 10 ^ ex) as [|n|n] eqn:En; try lia.
  rewrite div_by_one by lia. apply SF2Prim_canon. lia.
Qed.


Lemma decimal_length_bounds N :
  1 <= N ->
  10 ^ (Z.of_nat (List.length (decimal N)) - 1) <= N < 10 ^ Z.of_nat (List.length (decimal N))
  /\ 1 <= Z.of_nat (List.length (decimal N)).
Proof.
  intros HN. destruct (decimal_spec N ltac:(lia)) as [Hn Hv].
  pose proof Hn as [Hne [Hd _]].
  pose proof (digitsValue_upper _ Hd) as Hu. rewrite Hv in Hu.
  assert (Hl : (1 <= List.length (decimal N))%nat).
  { destruct (decimal N); [congruence | simpl; lia]. }
  split; [split; [|exact Hu] | lia].
  destruct (Nat.eq_dec (List.length (decimal N)) 1) as [E|E].
  - rewrite E. simpl. lia.
  - pose proof (numeral_value_lower _ Hn ltac:(lia)) as H. now rewrite Hv in H.
Qed.

Section Shortest.
Variables (N a b : Z).
Hypothesis HN : 1 <= N < 10 ^ 15.
Hypothesis Hb : 0 < b.
Hypothesis Ha : a = N * b.

Let n0 := Z.of_nat (List.length (decimal N)).

Lemma n0_bounds : 1 <= n0 <= 15 /\ 10 ^ (n0 - 1) <= N < 10 ^ n0.
Proof.
  destruct (decimal_length_bounds N ltac:(lia)) as [[H1 H2] H3]. fold n0 in H1, H2, H3.
  split; [split; [exact H3|] | now split].
  destruct (Z.le_gt_cases n0 15); [assumption|].
  assert (10 ^ 15 <= 10 ^ (n0 - 1)) by (apply Z.pow_le_mono_r; lia). lia.
Qed.

Lemma candidate_whole k :
  1 <= k <= n0 ->
  candidate (Z2F N) a b n0 k =
  if (N mod 10 ^ (n0 - k) =? 0) then Some (N / 10 ^ (n0 - k), n0) else None.
Proof.
  intros Hk. destruct n0_bounds as [Hn0 [Hlo Hhi]].
  set (P := 10 ^ (n0 - k)).
  assert (HP : 0 < P) by (apply Z.pow_pos_nonneg; lia).
  assert (HPle : P <= 10 ^ (n0 - 1)) by (apply Z.pow_le_mono_r; lia).
  assert (HP15 : P <= 10 ^ 14).
  { apply Z.le_trans with (10 ^ (n0 - 1)); [exact HPle|]. apply Z.pow_le_mono_r; lia. }
  assert (Hscale : scale10 (a, b) (k - n0) = (a, b * P) \/ (k = n0 /\ scale10 (a, b) (k - n0) = (a * 1, b))).
  { unfold scale10. destruct (Z.leb_spec 0 (k - n0)).
    - right. split; [lia|]. replace (k - n0) with 0 by lia. reflexivity.
    - left. unfold P. do 3 f_equal. lia. }
  assert (Hq : N / P * P <= N < (N / P + 1) * P).
  { pose proof (Z.div_mod N P ltac:(lia)). pose proof (Z.mod_pos_bound N P HP). nia. }
  assert (Hlo1 : 1 <= N / P) by (apply Z.div_le_lower_bound; lia).
  assert (Hval : forall a' b', (a', b') = (a, b * P) \/ (k = n0 /\ (a', b') = (a * 1, b)) ->
                 a' / b' = N / P).
  { intros a' b' [E|[Ek E]]; injection E as -> ->.
    - rewrite Ha, (Z.mul_comm b P). apply Z.div_mul_cancel_r; lia.
    - rewrite Z.mul_1_r, Ha, Z.div_mul by lia.
      unfold P. rewrite Ek, Z.sub_diag. now rewrite Z.div_1_r. }
  unfold candidate.
  destruct (scale10 (a, b) (k - n0)) as [a' b'].
  rewrite (Hval a' b') by (destruct Hscale as [E|[E1 E2]]; [left | right; split]; congruence).
  set (lo := N / P) in *.
  assert (Hden_lo : (decimalValue (decimal lo) [] (n0 - k) =? Z2F N)%float = (N mod P =? 0)).
  { rewrite decimalValue_whole
      by (try lia; fold P; change (2 ^ 53) with 9007199254740992;
          change (10 ^ 15) with 1000000000000000 in HN; lia).
    fold P. rewrite Z2F_eqb by (change (2 ^ 53) with 9007199254740992;
                                change (10 ^ 15) with 1000000000000000 in HN; lia).
    pose proof (Z.div_mod N P ltac:(lia)) as Hdm. fold lo in Hdm.
    destruct (Z.eqb_spec (lo * P) N), (Z.eqb_spec (N mod P) 0); try reflexivity; lia. }
  assert (Hden_hi :
    let hi := if (lo + 1 =? 10 ^ k) then (10 ^ (k - 1), n0 + 1) else (lo + 1, n0) in
    (decimalValue (decimal (fst hi)) [] (snd hi - k) =? Z2F N)%float = false).
  { assert (Hbound : (lo + 1) * P < 2 ^ 53).
    { change (2 ^ 53) with 9007199254740992.
      change (10 ^ 15) with 1000000000000000 in HN.
      change (10 ^ 14) with 100000000000000 in HP15. lia. }
    assert (Hpos : N < (lo + 1) * P) by lia.
    assert (Hvalue : forall s e, 1 <= s -> 0 <= e -> s * 10 ^ e = (lo + 1) * P ->
              (decimalValue (decimal s) [] e =? Z2F N)%float = false).
    { intros s e Hs He E. rewrite decimalValue_whole by lia. rewrite E.
      assert (HN53 : 0 < N < 2 ^ 53).
      { change (2 ^ 53) with 9007199254740992.
        change (10 ^ 15) with 1000000000000000 in HN. lia. }
      rewrite Z2F_eqb by (exact HN53 || (split; [lia | exact Hbound])).
      apply Z.eqb_neq. lia. }
    cbv zeta. destruct (Z.eqb_spec (lo + 1) (10 ^ k)) as [E|E]; cbn [fst snd].
    - assert (H1 : 1 <= 10 ^ (k - 1))
        by (pose proof (Z.pow_pos_nonneg 10 (k - 1) ltac:(lia) ltac:(lia)); lia).
      assert (H2 : 10 ^ (k - 1) * 10 ^ (n0 + 1 - k) = (lo + 1) * P).
      { rewrite E. unfold P. rewrite <- !Z.pow_add_r by lia. f_equal. lia. }
      apply (Hvalue (10 ^ (k - 1)) (n0 + 1 - k) H1 ltac:(lia) H2).
    - apply (Hvalue (lo + 1) (n0 - k) ltac:(lia) ltac:(lia) eq_refl). }
  cbv zeta in Hden_hi. cbv zeta. cbn [fst snd]. cbn [fst snd] in Hden_hi.
  rewrite Hden_lo.
  destruct (lo + 1 =? 10 ^ k); cbn [fst snd] in *; rewrite Hden_hi;
    destruct (N mod P =? 0); reflexivity.
Qed.

Lemma shortest_whole fuel : forall k,
  1 <= k <= n0 -> n0 - k < Z.of_nat fuel ->
  exists s k', k <= k' <= n0 /\ shortest fuel (Z2F N) a b n0 k = (s, n0) /\
               s * 10 ^ (n0 - k') = N /\ 1 <= s.
Proof.
  destruct n0_bounds as [Hn0 [Hlo Hhi]].
  induction fuel as [|fuel IH]; intros k Hk Hf; [lia|].
  cbn [shortest]. rewrite candidate_whole by exact Hk.
  set (P := 10 ^ (n0 - k)).
  assert (HP : 0 < P) by (apply Z.pow_pos_nonneg; lia).
  destruct (Z.eqb_spec (N mod P) 0) as [E|E].
  - exists (N / P), k. split; [lia|]. split; [reflexivity|]. fold P.
    pose proof (Z.div_mod N P ltac:(lia)) as Hdm. split; [lia|].
    destruct (Z.le_gt_cases 1 (N / P)); [assumption|]. nia.
  - assert (k < n0).
    { destruct (Z.eq_dec k n0) as [->|]; [|lia]. exfalso. apply E.
      unfold P. rewrite Z.sub_diag. apply Z.mod_1_r. }
    destruct (IH (k + 1)) as [s [k' [Hk' Hrest]]]; try lia.
    exists s, k'. split; [lia | exact Hrest].
Qed.

End Shortest.

(** The text of a whole number below [10^15] is its digits. *)
Lemma numberToString_whole N :
  0 <= N < 10 ^ 15 -> numberToString (Z2F N) = decimal N.
Proof.
  intros HN. destruct (Z.eq_dec N 0) as [->|Hz]; [reflexivity|].
  destruct N as [|n|n]; try lia.
  assert (H53 : Zpos n < 2 ^ 53).
  { change (2 ^ 53) with 9007199254740992. change (10 ^ 15) with 1000000000000000 in HN. lia. }
  assert (H50 : Zpos n < 2 ^ 50).
  { change (2 ^ 50) with 1125899906842624. change (10 ^ 15) with 1000000000000000 in HN. lia. }
  pose proof (digits2_bounds n) as [L1 L2].
  assert (Hd : 1 <= Zpos (digits2_pos n) <= 50).
  { split; [lia|]. destruct (Z.le_gt_cases (Zpos (digits2_pos n)) 50); [assumption|].
    assert (2 ^ 50 <= 2 ^ (Zpos (digits2_pos n) - 1)) by (apply Z.pow_le_mono_r; lia). lia. }
  unfold numberToString. rewrite abs_Z2F by lia. rewrite Prim2SF_Z2F by exact H53.
  unfold canon, fraction.
  set (e := Zpos (digits2_pos n) - 53).
  destruct (Z.leb_spec 0 e) as [He|He]; [unfold e in He; lia|].
  rewrite shiftl_pos_value by lia.
  replace (53 - Zpos (digits2_pos n)) with (- e) by (unfold e; lia).
  pose proof (pow2_pos (- e) ltac:(lia)) as Hp.
  assert (Hde : decimalExponent (Zpos n * 2 ^ (- e)) (2 ^ (- e))
                = Z.of_nat (List.length (decimal (Zpos n)))).
  { unfold decimalExponent. destruct (Z.leb_spec (2 ^ (- e)) (Zpos n * 2 ^ (- e))); [|nia].
    now rewrite Z.div_mul by lia. }
  rewrite Hde.
  destruct (n0_bounds (Zpos n) ltac:(lia)) as [Hn0 _].
  destruct (shortest_whole (Zpos n) (Zpos n * 2 ^ (- e)) (2 ^ (- e)) ltac:(lia) Hp eq_refl 17 1)
    as [s [k' [Hk' [Hs [Hv Hs1]]]]]; try lia.
  rewrite Hs. cbn [app].
  set (n0 := Z.of_nat (List.length (decimal (Zpos n)))) in *.
  assert (Hsplit : decimal (Zpos n) = decimal s ++ zeros (Z.to_nat (n0 - k'))).
  { rewrite <- Hv at 1. rewrite <- (Z2Nat.id (n0 - k')) at 1 by lia.
    now apply decimal_scaled. }
  assert (Hlen : Z.of_nat (List.length (decimal s)) = k').
  { assert (H : List.length (decimal (Zpos n))
               = (List.length (decimal s) + Z.to_nat (n0 - k'))%nat).
    { rewrite Hsplit at 1. rewrite length_app. unfold zeros. now rewrite repeat_length. }
    unfold n0 in *. lia. }
  unfold layout. rewrite Hlen.
  destruct (Z.leb_spec k' n0); [|lia]. destruct (Z.leb_spec n0 21); [|lia].
  cbn [andb]. now rewrite Hsplit.
Qed.

End WholeNumbers.

(** ** Reading and writing the numbers of the table *)

Section TableNumbers.
Local Open Scope Z_scope.

Lemma digit_cases c :
  isDigit c = true ->
  (c = 48 \/ c = 49 \/ c = 50 \/ c = 51 \/ c = 52 \/ c = 53 \/ c = 54 \/ c = 55 \/
   c = 56 \/ c = 57)%N.
Proof. intros H. apply isDigit_range in H. lia. Qed.

Ltac each_digit H :=
  apply digit_cases in H;
  repeat (destruct H as [H|H]; [subst; try reflexivity|]); subst; try reflexivity.

Lemma digit_not_space c : isDigit c = true -> isWhiteSpace c = false.
Proof. intros H. each_digit H. Qed.

Lemma digit_no_sign c r : isDigit c = true -> readSign (c :: r) = (false, c :: r).
Proof. intros H. each_digit H. Qed.

Lemma digit_not_Infinity c r : isDigit c = true -> startsWith (c :: r) (lit "Infinity") = false.
Proof. intros H. each_digit H. Qed.

Lemma digit_not_comma c : isDigit c = true -> (c =? 44)%N = false.
Proof. intros H. each_digit H. Qed.

Lemma span_digits D rest :
  forallb isDigit D = true ->
  match rest with c :: _ => isDigit c = false | [] => True end ->
  span isDigit (D ++ rest) = (D, rest).
Proof.
  intros HD Hr. induction D as [|c D IH]; cbn [app span].
  - destruct rest as [|c r]; [reflexivity|]. cbn [span]. now rewrite Hr.
  - cbn [forallb] in HD. apply andb_true_iff in HD. destruct HD as [Hc HD].
    rewrite Hc, (IH HD). reflexivity.
Qed.

Lemma replaceFirst_digits D rest :
  forallb isDigit D = true ->
  replaceFirst 44 46 (D ++ rest) = D ++ replaceFirst 44 46 rest.
Proof.
  intros HD. induction D as [|c D IH]; [reflexivity|].
  cbn [forallb] in HD. apply andb_true_iff in HD. destruct HD as [Hc HD].
  cbn [app replaceFirst]. rewrite (digit_not_comma c Hc), (IH HD). reflexivity.
Qed.

(** What [parseFloat] reads in digits, and in digits, a point and digits. *)
Lemma parseFloat_digits D F :
  D <> [] -> forallb isDigit D = true -> forallb isDigit F = true ->
  parseFloat D = decimalValue D [] 0 /\
  parseFloat (D ++ 46%N :: F) = decimalValue D F 0.
Proof.
  intros Hne HD HF. destruct D as [|c D']; [congruence|].
  pose proof HD as HD0. cbn [forallb] in HD0. apply andb_true_iff in HD0.
  destruct HD0 as [Hc _].
  unfold parseFloat. cbn [app trimStart]. rewrite (digit_not_space c Hc).
  rewrite !(digit_no_sign c _ Hc). unfold readUnsigned.
  rewrite !(digit_not_Infinity c _ Hc). split.
  - pose proof (span_digits (c :: D') [] HD I) as E. rewrite app_nil_r in E. rewrite E.
    reflexivity.
  - change (c :: D' ++ 46%N :: F) with ((c :: D') ++ 46%N :: F).
    rewrite (span_digits (c :: D') (46%N :: F) HD eq_refl).
    change (46 =? 46)%N with true. cbv iota.
    pose proof (span_digits F [] HF I) as E. rewrite app_nil_r in E. rewrite E.
    reflexivity.
Qed.

Lemma finite_not_nan x s m e : Prim2SF x = S754_finite s m e -> PrimFloat.is_nan x = false.
Proof.
  intros H. unfold PrimFloat.is_nan. rewrite FloatAxioms.eqb_spec, H.
  unfold SFeqb, SFcompare. rewrite Z.compare_refl, Pos.compare_cont_refl.
  destruct s; reflexivity.
Qed.

Lemma posval_not_nan x v : posval x v -> PrimFloat.is_nan x = false.
Proof. intros [m [e [H _]]]. exact (finite_not_nan x _ _ _ H). Qed.

Lemma posval_not_zero x v : posval x v -> PrimFloat.is_zero x = false.
Proof.
  intros [m [e [H _]]]. unfold PrimFloat.is_zero. rewrite FloatAxioms.eqb_spec, H.
  reflexivity.
Qed.

(** Digits with exponent 0 denote their value. *)
Lemma decimalValue_digits D :
  0 <= digitsValue D < 2 ^ 53 -> decimalValue D [] 0 = Z2F (digitsValue D).
Proof.
  intros Hv. unfold decimalValue. rewrite app_nil_r. cbn [List.length Z.of_nat].
  change (0 - 0) with 0. cbv iota.
  destruct (digitsValue D) as [|m|m]; try lia; [reflexivity|].
  change (0 <=? 0) with true. cbv iota. change (10 ^ 0) with 1. rewrite Z.mul_1_r.
  rewrite div_by_one by lia. apply SF2Prim_canon. lia.
Qed.

(** Digits, a point and one digit denote a tenth of the value of the digits
    together. *)
Lemma decimalValue_tenths D d :
  0 <= digitsValue (D ++ [d]) < 2 ^ 53 ->
  decimalValue D [d] 0 = (Z2F (digitsValue (D ++ [d])) / 10)%float.
Proof.
  intros Hv. unfold decimalValue. change (0 - Z.of_nat (List.length [d])) with (-1).
  destruct (digitsValue (D ++ [d])) as [|m|m]; try lia; [reflexivity|].
  change (0 <=? -1) with false. cbv iota. change (10 ^ (- -1)) with 10. cbv beta iota zeta.
  rewrite raw_division by (lia || reflexivity).
  rewrite <- (Prim2SF_Z2F m) by lia.
  change (canon 10) with (Prim2SF 10%float).
  rewrite <- FloatAxioms.div_spec. apply SF2Prim_Prim2SF.
Qed.

Lemma parseBrazilianNumber_text s x :
  s <> [] -> parseFloat (replaceFirst 44 46 s) = x -> PrimFloat.is_nan x = false ->
  FoodSelect.parseBrazilianNumber (VString s) = x.
Proof.
  intros Hs Hx Hn. rewrite parseBrazilianNumber_string.
  destruct s; [congruence|]. now rewrite Hx, Hn.
Qed.

Lemma Z2F_not_nan n : 0 <= n < 2 ^ 53 -> PrimFloat.is_nan (Z2F n) = false.
Proof.
  intros Hn. destruct (Z.eq_dec n 0) as [->|]; [reflexivity|].
  apply (posval_not_nan _ (IZR n)), Z2F_posval. lia.
Qed.

Lemma tenth_not_nan n : 0 <= n < 2 ^ 53 -> PrimFloat.is_nan (Z2F n / 10)%float = false.
Proof.
  intros Hn. destruct (Z.eq_dec n 0) as [->|]; [reflexivity|].
  destruct (tenth_posval n ltac:(lia)) as [v [Hv _]]. exact (posval_not_nan _ _ Hv).
Qed.

(** The table's text of a whole number. *)
Lemma parseBrazilianNumber_whole D :
  D <> [] -> forallb isDigit D = true -> digitsValue D < 2 ^ 53 ->
  FoodSelect.parseBrazilianNumber (VString D) = Z2F (digitsValue D).
Proof.
  intros Hne HD Hv. pose proof (digitsValue_nonneg D HD) as H0.
  destruct (parseFloat_digits D [] Hne HD eq_refl) as [P1 _].
  apply parseBrazilianNumber_text; [exact Hne | | now apply Z2F_not_nan].
  pose proof (replaceFirst_digits D [] HD) as E. rewrite app_nil_r in E.
  cbn [replaceFirst] in E. rewrite app_nil_r in E. rewrite E, P1.
  now apply decimalValue_digits.
Qed.

(** The table's text of a whole number, and of a number with one decimal
    after a comma or a point. *)
Lemma parseBrazilianNumber_numeral D d :
  D <> [] -> forallb isDigit D = true -> isDigit d = true ->
  digitsValue D < 10 ^ 14 ->
  FoodSelect.parseBrazilianNumber (VString D) = Z2F (digitsValue D) /\
  FoodSelect.parseBrazilianNumber (VString (D ++ [44; d]%N))
    = (Z2F (digitsValue (D ++ [d])) / 10)%float /\
  FoodSelect.parseBrazilianNumber (VString (D ++ [46; d]%N))
    = (Z2F (digitsValue (D ++ [d])) / 10)%float.
Proof.
  intros Hne HD Hd Hv.
  pose proof (digitsValue_nonneg D HD) as H0.
  pose proof Hd as Hr. apply isDigit_range in Hr.
  assert (Hv1 : 0 <= digitsValue D < 2 ^ 53).
  { change (2 ^ 53) with 9007199254740992. change (10 ^ 14) with 100000000000000 in Hv. lia. }
  assert (Hv2 : 0 <= digitsValue (D ++ [d]) < 2 ^ 53).
  { rewrite digitsValue_app. change (2 ^ 53) with 9007199254740992.
    change (10 ^ 14) with 100000000000000 in Hv. lia. }
  assert (HF : forallb isDigit [d] = true) by (cbn; now rewrite Hd).
  destruct (parseFloat_digits D [d] Hne HD HF) as [P1 P2].
  split; [|split].
  - apply parseBrazilianNumber_text; [exact Hne | | now apply Z2F_not_nan].
    pose proof (replaceFirst_digits D [] HD) as E. rewrite app_nil_r in E.
    cbn [replaceFirst] in E. rewrite app_nil_r in E. rewrite E, P1.
    now apply decimalValue_digits.
  - apply parseBrazilianNumber_text; [now destruct D | | now apply tenth_not_nan].
    rewrite replaceFirst_digits by exact HD. cbn [replaceFirst].
    change (44 =? 44)%N with true. cbv iota. rewrite P2. now apply decimalValue_tenths.
  - apply parseBrazilianNumber_text; [now destruct D | | now apply tenth_not_nan].
    rewrite replaceFirst_digits by exact HD. cbn [replaceFirst].
    change (46 =? 44)%N with false. cbv iota. rewrite (digit_not_comma d Hd).
    rewrite P2. now apply decimalValue_tenths.
Qed.


Lemma numeral_snoc D d :
  numeral D -> D <> [48%N] -> isDigit d = true -> numeral (D ++ [d]).
Proof.
  intros [Hne [HD Hz]] H0 Hd. split; [now destruct D|]. split.
  - rewrite forallb_app, HD. cbn. now rewrite Hd.
  - intros r Hr. destruct D as [|a D']; [congruence|].
    cbn [app] in Hr. injection Hr as -> _.
    specialize (Hz D' eq_refl). subst D'. congruence.
Qed.

(** The digits [D] and [d] with a point before the last. *)
Lemma fixedDigits_numeral D d :
  numeral D -> isDigit d = true ->
  fixedDigits 1 (digitsValue (D ++ [d])) = D ++ [46; d]%N.
Proof.
  intros HD Hd. destruct (list_eq_dec N.eq_dec D [48%N]) as [->|Hnz].
  - apply digit_cases in Hd.
    repeat (destruct Hd as [Hd|Hd]; [subst d; vm_compute; reflexivity|]).
    subst d. vm_compute. reflexivity.
  - pose proof (numeral_snoc D d HD Hnz Hd) as Hn.
    unfold fixedDigits. rewrite (decimal_numeral _ Hn).
    assert (Hl : (1 <= List.length D)%nat).
    { destruct HD as [Hne _]. destruct D; [congruence | cbn; lia]. }
    rewrite length_app. cbn [List.length].
    destruct (Nat.leb_spec (List.length D + 1) 1) as [L|L]; [lia|].
    replace (List.length D + 1 - 1)%nat with (List.length D) by lia.
    assert (F : firstn (List.length D) (D ++ [d]) = D).
    { rewrite firstn_app, Nat.sub_diag, firstn_all. cbn [firstn]. apply app_nil_r. }
    assert (S : skipn (List.length D) (D ++ [d]) = [d]).
    { rewrite skipn_app, Nat.sub_diag, skipn_all. reflexivity. }
    replace (List.length (D ++ [d]) - 1)%nat with (List.length D)
      by (rewrite length_app; cbn [List.length]; lia).
    rewrite F, S. reflexivity.
Qed.

Local Open Scope R_scope.

(** A tenth of a whole number, written with one decimal. *)
Lemma toFixed_tenth n :
  (0 <= n < 10 ^ 15)%Z -> toFixed 1 (Z2F n / 10)%float = fixedDigits 1 n.
Proof.
  intros Hn. destruct (Z.eq_dec n 0) as [->|Hz]; [reflexivity|].
  assert (H53 : (0 < n < 2 ^ 53)%Z).
  { change (2 ^ 53)%Z with 9007199254740992%Z.
    change (10 ^ 15)%Z with 1000000000000000%Z in Hn. lia. }
  destruct (tenth_posval n H53) as [v [Hv Hnear]].
  pose proof u_value as Hu. pose proof u_pos as Hu0.
  replace (IZR (2 ^ 52)) with 4503599627370496 in Hu by reflexivity.
  assert (E : u = / 4503599627370496).
  { apply Rmult_eq_reg_r with 4503599627370496; [|lra]. rewrite Hu. field. }
  pose proof (IZR_range n 1 (10 ^ 15) ltac:(lia)) as Bn.
  replace (IZR (10 ^ 15)) with 1000000000000000 in Bn by reflexivity.
  apply (toFixed_tenths _ v n 1 Hv Hnear); try lia.
  - change (INR 1) with 1. rewrite E. lra.
  - change (INR 1) with 1. rewrite E. lra.
Qed.

(** A whole number, written with one decimal. *)
Lemma toFixed_whole n :
  (0 <= n < 10 ^ 14)%Z -> toFixed 1 (Z2F n) = fixedDigits 1 (10 * n).
Proof.
  intros Hn. destruct (Z.eq_dec n 0) as [->|Hz]; [reflexivity|].
  assert (H53 : (0 < n < 2 ^ 53)%Z).
  { change (2 ^ 53)%Z with 9007199254740992%Z.
    change (10 ^ 14)%Z with 100000000000000%Z in Hn. lia. }
  assert (Hr : 0 < IZR n) by (apply IZR_lt; lia).
  apply (toFixed_tenths _ (IZR n) (10 * n) 0 (Z2F_posval n H53)); try lia.
  - rewrite mult_IZR. replace (10 * IZR n / 10) with (IZR n) by field.
    now apply near_refl.
  - change (INR 0) with 0. lra.
  - change (INR 0) with 0. lra.
Qed.

End TableNumbers.


(** ** What the totals line and the selected food show *)

(** X20. When every item of the meal carries whole kilocalories and whole
    tenths of a gram, the line of the totals shows the exact sums, the
    kilocalories as a whole number and the grams with one decimal, whatever
    the order of the items. *)
Theorem shown_totals_do_not_depend_on_order st st' qs :
  Forall2 carries (AddExtraMealModal.foods st) qs ->
  Permutation (AddExtraMealModal.foods st) (AddExtraMealModal.foods st') ->
  (Zsum (map kcalOf qs) < 10 ^ 15)%Z ->
  (Zsum (map proteinOf qs) * (Z.of_nat (List.length qs) + 2) < 2 ^ 49)%Z ->
  (Zsum (map carbsOf qs) * (Z.of_nat (List.length qs) + 2) < 2 ^ 49)%Z ->
  (Zsum (map fatsOf qs) * (Z.of_nat (List.length qs) + 2) < 2 ^ 49)%Z ->
  AddExtraMealModal.totalsLine st =
  {| AddExtraMealModal.shownCalories := decimal (Zsum (map kcalOf qs));
     AddExtraMealModal.shownProtein := fixedDigits 1 (Zsum (map proteinOf qs));
     AddExtraMealModal.shownCarbs := fixedDigits 1 (Zsum (map carbsOf qs));
     AddExtraMealModal.shownFats := fixedDigits 1 (Zsum (map fatsOf qs)) |} /\
  AddExtraMealModal.totalsLine st' = AddExtraMealModal.totalsLine st.
Proof.
  intros HF Hperm Hc Hp Hg Ht.
  assert (Hc53 : (Zsum (map kcalOf qs) < 2 ^ 53)%Z).
  { change (2 ^ 53)%Z with 9007199254740992%Z.
    change (10 ^ 15)%Z with 1000000000000000%Z in Hc. lia. }
  destruct (carries_fields _ _ HF) as [_ [_ [_ [_ [N1 _]]]]].
  pose proof (Zsum_nonneg _ N1) as Hc0.
  pose proof (totalsLine_of st qs HF Hc53 Hp Hg Ht) as E.
  rewrite numberToString_whole in E by lia.
  split; [exact E|].
  destruct (Forall2_permuted carries _ _ Hperm qs HF) as [qs' [Hq HF']].
  assert (S1 : Zsum (map kcalOf qs') = Zsum (map kcalOf qs))
    by (apply Zsum_perm, Permutation_map, Permutation_sym, Hq).
  assert (S2 : Zsum (map proteinOf qs') = Zsum (map proteinOf qs))
    by (apply Zsum_perm, Permutation_map, Permutation_sym, Hq).
  assert (S3 : Zsum (map carbsOf qs') = Zsum (map carbsOf qs))
    by (apply Zsum_perm, Permutation_map, Permutation_sym, Hq).
  assert (S4 : Zsum (map fatsOf qs') = Zsum (map fatsOf qs))
    by (apply Zsum_perm, Permutation_map, Permutation_sym, Hq).
  assert (Hl : List.length qs' = List.length qs)
    by (apply Permutation_length, Permutation_sym, Hq).
  rewrite E, (totalsLine_of st' qs' HF'); rewrite ?S1, ?S2, ?S3, ?S4, ?Hl; try assumption.
  rewrite numberToString_whole by lia. reflexivity.
Qed.

(** X21. A nutrient of the table written as a whole number, or with one
    decimal after a comma or a point, is shown with one decimal after a
    point: the digits are kept. *)
Theorem formatNutrient_keeps_the_digits D d :
  numeral D -> (digitsValue D < 10 ^ 14)%Z -> isDigit d = true ->
  FoodSelect.formatNutrient (D ++ [44; d]%N) = D ++ [46; d]%N /\
  FoodSelect.formatNutrient (D ++ [46; d]%N) = D ++ [46; d]%N /\
  FoodSelect.formatNutrient D = D ++ [46; 48]%N.
Proof.
  intros HD Hv Hd. pose proof HD as [Hne [Hdig _]].
  pose proof (digitsValue_nonneg D Hdig) as H0.
  pose proof Hd as Hr. apply isDigit_range in Hr.
  destruct (parseBrazilianNumber_numeral D d Hne Hdig Hd Hv) as [P1 [P2 P3]].
  assert (Hn : (0 <= digitsValue (D ++ [d]) < 10 ^ 15)%Z).
  { rewrite digitsValue_app. change (10 ^ 15)%Z with 1000000000000000%Z.
    change (10 ^ 14)%Z with 100000000000000%Z in Hv. lia. }
  unfold FoodSelect.formatNutrient. rewrite P1, P2, P3.
  rewrite toFixed_tenth by exact Hn. rewrite fixedDigits_numeral by assumption.
  split; [reflexivity|]. split; [reflexivity|].
  rewrite toFixed_whole by lia.
  replace (10 * digitsValue D)%Z with (digitsValue (D ++ [48%N]))
    by (rewrite digitsValue_app; change (Z.of_N 48 - 48)%Z with 0%Z; lia).
  now apply fixedDigits_numeral.
Qed.

(** X22. A calorie text of the table that is a whole number is shown as that
    number followed by [kcal]; the text [0] is shown as it is. *)
Theorem formatCalories_of_whole_number D :
  numeral D -> (digitsValue D < 10 ^ 15)%Z ->
  FoodSelect.formatCalories D =
  if (digitsValue D =? 0)%Z then D else D ++ lit " kcal".
Proof.
  intros HD Hv. pose proof HD as [Hne [Hdig _]].
  pose proof (digitsValue_nonneg D Hdig) as H0.
  assert (H53 : (digitsValue D < 2 ^ 53)%Z).
  { change (2 ^ 53)%Z with 9007199254740992%Z.
    change (10 ^ 15)%Z with 1000000000000000%Z in Hv. lia. }
  unfold FoodSelect.formatCalories.
  rewrite (parseBrazilianNumber_whole D Hne Hdig H53).
  destruct (Z.eqb_spec (digitsValue D) 0) as [E|E].
  - rewrite E. reflexivity.
  - rewrite (posval_not_zero _ (IZR (digitsValue D))) by (apply Z2F_posval; lia).
    rewrite Math_round_whole by lia.
    rewrite numberToString_whole by lia.
    now rewrite decimal_numeral.
Qed.


(** ** The items of a meal keep whole values *)

Section WholeValues.
Local Open Scope R_scope.

Lemma product_whole x m M :
  (x = PrimFloat.zero \/ exists v, posval x v /\ / 16 <= v <= 16777216) ->
  posval m M -> / 128 <= M <= 8 ->
  exists c, Math_round (x * m)%float = Z2F c /\ (0 <= c <= 2 ^ 40)%Z.
Proof.
  intros [->|[vx [Hx Bx]]] Hm BM.
  - exists 0%Z. split; [|lia]. rewrite (zero_mul _ _ Hm). reflexivity.
  - destruct (mul_step _ _ _ _ vx M 0 0 (/ 16) 16777216 (/ 128) 8
                Hx Hm (posval_exact _ _ Hx) (posval_exact _ _ Hm))
      as [w [Hw [Nw Rw]]]; try lia; try lra.
    destruct (near_eps (1 + (0 + 0)) _ _ ltac:(lia) Nw) as [E1 E2]. unfold eps in E1, E2.
    destruct (Math_round_posval _ _ Hw) as [n [En [Hn0 [Hn1 Hn2]]]].
    { replace (IZR (2 ^ 52)) with 4503599627370496 by reflexivity. nra. }
    exists n. split; [exact En|]. split; [exact Hn0|].
    apply le_IZR. replace (IZR (2 ^ 40)) with 1099511627776 by reflexivity. nra.
Qed.

Lemma product_tenths x m M :
  (x = PrimFloat.zero \/ exists v, posval x v /\ / 16 <= v <= 16777216) ->
  posval m M -> / 128 <= M <= 8 ->
  exists p, Math_round (x * m * 10)%float = Z2F p /\ (0 <= p <= 2 ^ 40)%Z.
Proof.
  intros [->|[vx [Hx Bx]]] Hm BM.
  - exists 0%Z. split; [|lia].
    rewrite (zero_mul _ _ Hm), (zero_mul _ _ posval_10). reflexivity.
  - destruct (mul_step _ _ _ _ vx M 0 0 (/ 16) 16777216 (/ 128) 8
                Hx Hm (posval_exact _ _ Hx) (posval_exact _ _ Hm))
      as [w [Hw [Nw Rw]]]; try lia; try lra.
    destruct (mul_step _ _ _ _ (vx * M) 10 (1 + (0 + 0)) 0
                (/ 16 * / 128) (16777216 * 8) 10 10
                Hw posval_10 Nw (posval_exact _ _ posval_10))
      as [w' [Hw' [Nw' Rw']]]; try lia; try lra.
    destruct (near_eps (1 + (1 + (0 + 0) + 0)) _ _ ltac:(lia) Nw') as [E1 E2]. unfold eps in E1, E2.
    destruct (Math_round_posval _ _ Hw') as [n [En [Hn0 [Hn1 Hn2]]]].
    { replace (IZR (2 ^ 52)) with 4503599627370496 by reflexivity. nra. }
    exists n. split; [exact En|]. split; [exact Hn0|].
    apply le_IZR. replace (IZR (2 ^ 40)) with 1099511627776 by reflexivity. nra.
Qed.

(** What a number of the table parses to. *)
Lemma tableNumber_value v :
  tableNumber v ->
  FoodSelect.parseBrazilianNumber v = PrimFloat.zero \/
  exists w, posval (FoodSelect.parseBrazilianNumber v) w /\ / 16 <= w <= 16777216.
Proof.
  intros [D [HD [Hv Hform]]]. pose proof HD as [Hne [Hdig _]].
  pose proof (digitsValue_nonneg D Hdig) as H0.
  assert (tenths : forall n, (0 <= n < 10000000)%Z ->
            (Z2F n / 10)%float = PrimFloat.zero \/
            exists w, posval (Z2F n / 10)%float w /\ / 16 <= w <= 16777216).
  { intros n Hn. destruct (Z.eq_dec n 0) as [->|Hz]; [left; reflexivity|]. right.
    destruct (tenth_posval n) as [w [Hw Nw]].
    { split; [lia|]. apply Z.lt_trans with 10000000%Z; [lia | reflexivity]. }
    exists w. split; [exact Hw|].
    destruct (near_eps (1 + (0 + 0)) _ _ ltac:(lia) Nw) as [E1 E2]. unfold eps in E1, E2.
    pose proof (IZR_range n 1 10000000 ltac:(lia)) as Bn. nra. }
  destruct Hform as [->|[d [Hd Hform]]].
  - rewrite parseBrazilianNumber_whole
      by first [assumption | apply Z.lt_trans with 1000000%Z; [lia | reflexivity]].
    destruct (Z.eq_dec (digitsValue D) 0) as [->|Hz]; [left; reflexivity|]. right.
    exists (IZR (digitsValue D)). split.
    + apply Z2F_posval. split; [lia|].
      apply Z.lt_trans with 1000000%Z; [lia | reflexivity].
    + pose proof (IZR_range (digitsValue D) 1 1000000 ltac:(lia)). lra.
  - pose proof Hd as Hr. apply isDigit_range in Hr.
    destruct (parseBrazilianNumber_numeral D d Hne Hdig Hd) as [_ [P2 P3]].
    { apply Z.lt_trans with 1000000%Z; [lia | reflexivity]. }
    assert (Hn : (0 <= digitsValue (D ++ [d]) < 10000000)%Z)
      by (rewrite digitsValue_app; lia).
    destruct Hform as [->| ->]; [rewrite P2 | rewrite P3]; now apply tenths.
Qed.

End WholeValues.

Section Rescaled.
Local Open Scope R_scope.

Lemma whole_leg c d0 d1 D0 D1 :
  (0 <= c <= 2 ^ 40)%Z -> posval d0 D0 -> posval d1 D1 ->
  / 128 <= D0 <= 8 -> / 128 <= D1 <= 8 ->
  exists c', Math_round (Z2F c / d0 * d1)%float = Z2F c' /\ (0 <= c')%Z.
Proof.
  intros Hc H0 H1 B0 B1. destruct (Z.eq_dec c 0) as [->|Hz].
  - exists 0%Z. split; [exact (leg_whole_zero _ _ _ _ H0 H1) | lia].
  - destruct (leg_whole c d0 d1 D0 D1 ltac:(lia) H0 H1 B0 B1) as [c' [t [E [P _]]]].
    exists c'. now split.
Qed.

Lemma tenths_leg n d0 d1 D0 D1 :
  (0 <= n <= 2 ^ 40)%Z -> posval d0 D0 -> posval d1 D1 ->
  / 128 <= D0 <= 8 -> / 128 <= D1 <= 8 ->
  exists n', Math_round (Z2F n / 10 / d0 * d1 * 10)%float = Z2F n' /\ (0 <= n')%Z.
Proof.
  intros Hn H0 H1 B0 B1. destruct (Z.eq_dec n 0) as [->|Hz].
  - exists 0%Z. split; [exact (leg_tenths_zero _ _ _ _ H0 H1) | lia].
  - destruct (leg_tenths n d0 d1 D0 D1 ltac:(lia) H0 H1 B0 B1) as [n' [t [E [P _]]]].
    exists n'. now split.
Qed.

Lemma rescaleFood_carries ident qty f q :
  carries f q -> within (2 ^ 40) q -> gramsInRange f ->
  (1 <=? qty)%float = true -> (qty <=? 500)%float = true ->
  exists q', carries (AddExtraMealModal.rescaleFood ident qty f) q' /\
             gramsInRange (AddExtraMealModal.rescaleFood ident qty f).
Proof.
  intros Hq Hb [G1 G2] Q1 Q2.
  destruct (str_eqb (AddExtraMealModal.id f) ident) eqn:E.
  - apply str_eqb_eq in E.
    destruct (multiplier_posval _ G1 G2) as [D0 [H0 B0]].
    destruct (multiplier_posval _ Q1 Q2) as [D1 [H1 B1]].
    destruct q as [[[c p] g] t].
    destruct Hq as [[Hc [Hp [Hg Ht]]] [E1 [E2 [E3 E4]]]].
    destruct Hb as [Bc [Bp [Bg Bt]]]. cbn [kcalOf proteinOf carbsOf fatsOf] in *.
    destruct (whole_leg c _ _ D0 D1 ltac:(lia) H0 H1 ltac:(lra) ltac:(lra)) as [c' [Ec Pc]].
    destruct (tenths_leg p _ _ D0 D1 ltac:(lia) H0 H1 ltac:(lra) ltac:(lra)) as [p' [Ep Pp]].
    destruct (tenths_leg g _ _ D0 D1 ltac:(lia) H0 H1 ltac:(lra) ltac:(lra)) as [g' [Eg Pg]].
    destruct (tenths_leg t _ _ D0 D1 ltac:(lia) H0 H1 ltac:(lra) ltac:(lra)) as [t' [Et Pt]].
    exists (c', p', g', t'). rewrite (rescaleFood_fields ident qty f E).
    rewrite E1, E2, E3, E4, Ec, Ep, Eg, Et.
    split; [|split; [exact Q1 | exact Q2]].
    split; [repeat split; assumption|]. repeat split; reflexivity.
  - exists q. unfold AddExtraMealModal.rescaleFood. rewrite E. cbn [negb].
    split; [exact Hq | split; assumption].
Qed.

End Rescaled.

(** X23. Changing the quantity of an item keeps the meal well formed: when
    every item carries whole kilocalories and whole tenths of a gram (at most
    2^40) for a quantity between 1 and 500 g, and the quantity typed is
    between 1 and 500, every item of the edited meal again carries whole
    kilocalories and whole tenths of a gram for a quantity in that range. *)
Theorem quantity_edit_keeps_whole_values ident newQty st qs :
  Forall2 carries (AddExtraMealModal.foods st) qs ->
  Forall (within (2 ^ 40)) qs ->
  Forall gramsInRange (AddExtraMealModal.foods st) ->
  (1 <=? or_else (parseFloat newQty) 0)%float = true ->
  (or_else (parseFloat newQty) 0 <=? 500)%float = true ->
  exists qs',
    Forall2 carries
      (AddExtraMealModal.foods (AddExtraMealModal.updateFoodQuantity ident newQty st)) qs' /\
    Forall gramsInRange
      (AddExtraMealModal.foods (AddExtraMealModal.updateFoodQuantity ident newQty st)).
Proof.
  intros HF HB HG Q1 Q2. rewrite updateFoodQuantity_foods.
  set (qty := or_else (parseFloat newQty) 0%float) in *.
  induction HF as [|f q l qs Hq HF IH].
  - exists []. split; constructor.
  - inversion HB as [|q0 qs0 Hb HB']; subst. inversion HG as [|f0 l0 Hg HG']; subst.
    destruct (IH HB' HG') as [qs' [I1 I2]].
    destruct (rescaleFood_carries ident qty f q Hq Hb Hg Q1 Q2) as [q' [C1 C2]].
    exists (q' :: qs'). cbn [map]. split; constructor; assumption.
Qed.

(** X24. An item added from a food of the table whose four values are
    written as whole numbers or with one decimal, for a quantity between 1
    and 500 g (100 when the field does not hold a number), carries whole
    kilocalories and whole tenths of a gram: the meal stays a meal of such
    items. *)
Theorem added_item_carries_whole_values
    (formatFoodName : jsstring -> jsstring) (uuid : jsstring)
    (st : AddExtraMealModal.State) (food : TabelaTaco) qs :
  AddExtraMealModal.selectedFood st = Some food ->
  Forall2 carries (AddExtraMealModal.foods st) qs ->
  tableNumber (caloria food) -> tableNumber (proteina food) ->
  tableNumber (carboidrato food) -> tableNumber (gordura food) ->
  (1 <=? or_else (parseFloat (AddExtraMealModal.quantityInput st)) 100)%float = true ->
  (or_else (parseFloat (AddExtraMealModal.quantityInput st)) 100 <=? 500)%float = true ->
  exists newFood q,
    AddExtraMealModal.foods (AddExtraMealModal.addFoodToMeal formatFoodName uuid st)
      = AddExtraMealModal.foods st ++ [newFood] /\
    Forall2 carries
      (AddExtraMealModal.foods (AddExtraMealModal.addFoodToMeal formatFoodName uuid st))
      (qs ++ [q]) /\
    within (2 ^ 40) q /\ gramsInRange newFood.
Proof.
  intros Hsel HF Tc Tp Tg Tt Q1 Q2.
  destruct (multiplier_posval _ Q1 Q2) as [M [Hm BM]].
  assert (BM' : (/ 128 <= M <= 8)%R) by lra.
  destruct (product_whole _ _ M (tableNumber_value _ Tc) Hm BM') as [c [Ec Bc]].
  destruct (product_tenths _ _ M (tableNumber_value _ Tp) Hm BM') as [p [Ep Bp]].
  destruct (product_tenths _ _ M (tableNumber_value _ Tg) Hm BM') as [g [Eg Bg]].
  destruct (product_tenths _ _ M (tableNumber_value _ Tt) Hm BM') as [t [Et Bt]].
  unfold AddExtraMealModal.addFoodToMeal. rewrite Hsel. cbv zeta.
  cbn [AddExtraMealModal.foods].
  eexists. exists (c, p, g, t). split; [reflexivity|]. split; [|split].
  - apply Forall2_app; [exact HF|]. constructor; [|constructor].
    unfold carries. cbn [AddExtraMealModal.calories AddExtraMealModal.protein
                         AddExtraMealModal.carbs AddExtraMealModal.fats].
    rewrite Ec, Ep, Eg, Et. split; [lia|]. repeat split; reflexivity.
  - unfold within. cbn [kcalOf proteinOf carbsOf fatsOf]. lia.
  - split; [exact Q1 | exact Q2].
Qed.

(** ** A text with two separators *)

Section Separators.
Local Open Scope Z_scope.

(** After digits, a point and digits, a comma or a point ends the number. *)
Lemma parseFloat_stops D F c rest :
  D <> [] -> forallb isDigit D = true -> forallb isDigit F = true ->
  (c = 44 \/ c = 46)%N ->
  parseFloat (D ++ 46%N :: F ++ c :: rest) = decimalValue D F 0.
Proof.
  intros Hne HD HF Hc. destruct D as [|a D']; [congruence|].
  pose proof HD as HD0. cbn [forallb] in HD0. apply andb_true_iff in HD0.
  destruct HD0 as [Ha _].
  unfold parseFloat. cbn [app trimStart]. rewrite (digit_not_space a Ha).
  rewrite (digit_no_sign a _ Ha). unfold readUnsigned.
  rewrite (digit_not_Infinity a _ Ha).
  change (a :: D' ++ 46%N :: F ++ c :: rest) with ((a :: D') ++ 46%N :: F ++ c :: rest).
  rewrite (span_digits (a :: D') (46%N :: F ++ c :: rest) HD eq_refl).
  change (46 =? 46)%N with true. cbv iota.
  rewrite (span_digits F (c :: rest) HF) by (destruct Hc as [->| ->]; reflexivity).
  destruct Hc as [->| ->]; reflexivity.
Qed.

Lemma parseBrazilianNumber_same s s' :
  s <> [] -> s' <> [] ->
  parseFloat (replaceFirst 44 46 s) = parseFloat (replaceFirst 44 46 s') ->
  FoodSelect.parseBrazilianNumber (VString s) = FoodSelect.parseBrazilianNumber (VString s').
Proof.
  intros Hs Hs' E. rewrite !parseBrazilianNumber_string.
  destruct s; [congruence|]. destruct s'; [congruence|]. now rewrite E.
Qed.

End Separators.

(** X25. In a text with two separators, such as 1.234,56 or 1,234.56, the
    first is read as the decimal point and the second ends the number: the
    value is that of the digits before the second separator. *)
Theorem second_separator_ends_the_number D F rest sep1 sep2 :
  D <> [] -> forallb isDigit D = true -> forallb isDigit F = true ->
  (sep1 = 44 \/ sep1 = 46)%N -> (sep2 = 44 \/ sep2 = 46)%N ->
  FoodSelect.parseBrazilianNumber (VString (D ++ sep1 :: F ++ sep2 :: rest)) =
  FoodSelect.parseBrazilianNumber (VString (D ++ 46%N :: F)).
Proof.
  intros Hne HD HF H1 H2.
  apply parseBrazilianNumber_same; [now destruct D | now destruct D |].
  rewrite !replaceFirst_digits by exact HD.
  assert (ER : replaceFirst 44 46 (46%N :: F) = 46%N :: F).
  { cbn [replaceFirst]. change (46 =? 44)%N with false. cbv iota.
    pose proof (replaceFirst_digits F [] HF) as E. rewrite app_nil_r in E.
    cbn [replaceFirst] in E. rewrite app_nil_r in E. now rewrite E. }
  rewrite ER.
  destruct (parseFloat_digits D F Hne HD HF) as [_ ->].
  destruct H1 as [->| ->]; cbn [replaceFirst].
  - change (44 =? 44)%N with true. cbv iota. now apply parseFloat_stops.
  - change (46 =? 44)%N with false. cbv iota.
    rewrite replaceFirst_digits by exact HF.
    destruct H2 as [->| ->]; cbn [replaceFirst].
    + change (44 =? 44)%N with true. cbv iota. apply parseFloat_stops; auto.
    + change (46 =? 44)%N with false. cbv iota. apply parseFloat_stops; auto.
Qed.

(** ** Calories with one decimal *)

Section HalfKilocalories.
Local Open Scope Z_scope.

(** A tenth of a whole number that ends in 5 is a binary64 number. *)
Lemma tenth_exact n :
  0 < n < 2 ^ 53 -> n mod 10 = 5 -> posval (Z2F n / 10)%float (IZR n / 10)%R.
Proof.
  intros Hn Hmod. destruct n as [|p|p]; try lia.
  pose proof (digits_le_53 p ltac:(lia)) as Bn.
  destruct (canon_digits p ltac:(lia)) as [Dn _].
  pose proof (digits2_bounds p) as [L1 L2].
  set (dn := Zpos (digits2_pos p)) in *.
  set (k := Zpos p / 10).
  assert (Hk : Zpos p = 10 * k + 5).
  { unfold k. pose proof (Z.div_mod (Zpos p) 10 ltac:(lia)). lia. }
  assert (Hk0 : 0 <= k) by (unfold k; apply Z.div_pos; lia).
  set (P := 2 ^ (56 - dn)).
  assert (HP : 0 < P) by (apply pow2_pos; lia).
  set (q := (2 * k + 1) * P).
  assert (Hq5 : 5 * q = Zpos p * P) by (unfold q; lia).
  assert (E55 : 2 ^ (dn - 1) * P = 2 ^ 55).
  { unfold P. rewrite <- Z.pow_add_r by lia. f_equal. lia. }
  assert (E56 : 2 ^ dn * P = 2 ^ 56).
  { unfold P. rewrite <- Z.pow_add_r by lia. f_equal. lia. }
  assert (Hq : 2 ^ 52 <= q < 2 ^ 54).
  { change (2 ^ 52) with 4503599627370496. change (2 ^ 54) with 18014398509481984.
    change (2 ^ 55) with 36028797018963968 in E55.
    change (2 ^ 56) with 72057594037927936 in E56. nia. }
  pose proof (digits_range q 52 54 ltac:(lia) ltac:(lia) Hq) as HD.
  set (j := Zdigits2 q - 53) in *.
  assert (Hj : j = 0 \/ j = 1) by (unfold j; lia).
  assert (Hdivj : exists c, q = c * 2 ^ j).
  { destruct Hj as [->| ->].
    - exists q. change (2 ^ 0) with 1. lia.
    - exists ((2 * k + 1) * 2 ^ (55 - dn)). unfold q, P. change (2 ^ 1) with 2.
      replace (56 - dn) with (Z.succ (55 - dn)) by lia. rewrite Z.pow_succ_r by lia. ring. }
  set (mx := Pos.shiftl p (Z.to_N (53 - dn))) in *.
  assert (Hmx : Zpos mx = Zpos p * 2 ^ (53 - dn)) by (apply shiftl_pos_value; lia).
  assert (Hprod : Zpos mx * 2 ^ 53 = q * 5629499534213120).
  { rewrite Hmx. change 5629499534213120 with (5 * 2 ^ 50).
    replace (q * (5 * 2 ^ 50)) with (5 * q * 2 ^ 50) by ring. rewrite Hq5. unfold P.
    rewrite <- !Z.mul_assoc, <- !Z.pow_add_r by lia. do 2 f_equal. lia. }
  destruct (BRA_exact false q (dn - 53 - (-49) - 53)) as [m [Hr [Hd Hv]]]; try lia.
  { fold j. destruct Hdivj as [c Hc]. exists c. exact Hc. }
  fold j in Hr, Hv.
  exists m, (dn - 53 - (-49) - 53 + j). split; [|split; [exact Hd|]].
  - rewrite FloatAxioms.div_spec, Prim2SF_Z2F by lia.
    change (Prim2SF 10%float) with (S754_finite false 5629499534213120 (-49)).
    unfold SF64div, SFdiv, canon. fold dn. fold mx.
    rewrite div_core by (assumption || reflexivity || lia).
    rewrite Hprod, Z.div_mul, Z.mod_mul by lia.
    change (new_location 5629499534213120 0) with loc_Exact. cbn [xorb]. exact Hr.
  - destruct Hdivj as [c Hc].
    assert (Hpj : 0 < 2 ^ j) by (apply pow2_pos; lia).
    assert (Hm : Zpos m * 2 ^ j = q).
    { rewrite Hv, Hc, Z.div_mul by lia. reflexivity. }
    replace (dn - 53 - (-49) - 53 + j) with (- (57 - dn) + j) by lia.
    rewrite bpow_add, bpow_opp, (bpow_IZR (57 - dn)), (bpow_IZR j) by lia.
    replace (57 - dn) with (Z.succ (56 - dn)) by lia. rewrite Z.pow_succ_r by lia.
    fold P. rewrite mult_IZR.
    apply (f_equal IZR) in Hm, Hq5. rewrite !mult_IZR in Hm, Hq5.
    assert (HPr : (0 < IZR P)%R) by (apply IZR_lt; lia).
    apply Rmult_eq_reg_r with (10 * IZR P)%R; [|lra].
    replace (IZR (Zpos p) / 10 * (10 * IZR P))%R with (IZR (Zpos p) * IZR P)%R
      by (field; lra).
    replace (IZR (Zpos m) * (/ (2 * IZR P) * IZR (2 ^ j)) * (10 * IZR P))%R
      with (5 * (IZR (Zpos m) * IZR (2 ^ j)))%R by (field; lra).
    rewrite Hm, Hq5, mult_IZR. reflexivity.
Qed.

Local Open Scope R_scope.

(** [Math.round] of a number of tenths: halves go up. *)
Lemma Math_round_tenth n :
  (0 < n < 10 ^ 15)%Z -> Math_round (Z2F n / 10)%float = Z2F ((n + 5) / 10).
Proof.
  intros Hn.
  assert (H53 : (0 < n < 2 ^ 53)%Z).
  { change (2 ^ 53)%Z with 9007199254740992%Z.
    change (10 ^ 15)%Z with 1000000000000000%Z in Hn. lia. }
  pose proof (IZR_range n 1 (10 ^ 15) ltac:(lia)) as Bn.
  replace (IZR (10 ^ 15)) with 1000000000000000 in Bn by reflexivity.
  set (K := ((n + 5) / 10)%Z).
  pose proof (Z.div_mod (n + 5) 10 ltac:(lia)) as Hdm. fold K in Hdm.
  pose proof (Z.mod_pos_bound (n + 5) 10 ltac:(lia)) as Hr.
  set (r := ((n + 5) mod 10)%Z) in *.
  assert (En : IZR n = 10 * IZR K + IZR r - 5).
  { rewrite <- (mult_IZR 10), <- plus_IZR, <- (minus_IZR _ 5). f_equal. lia. }
  assert (Br : 0 <= IZR r <= 9) by (apply (IZR_range r 0 9); lia).
  assert (Hfloor : forall v, IZR K <= v + / 2 < IZR K + 1 ->
            posval (Z2F n / 10)%float v -> Math_round (Z2F n / 10)%float = Z2F K).
  { intros v [V1 V2] Hv.
    destruct (Math_round_posval _ v Hv) as [n' [E [_ [N1 N2]]]].
    { replace (IZR (2 ^ 52)) with 4503599627370496 by reflexivity. lra. }
    rewrite E. f_equal.
    assert (G1 : IZR n' < IZR (K + 1)) by (rewrite plus_IZR; lra).
    assert (G2 : IZR K < IZR (n' + 1)) by (rewrite plus_IZR; lra).
    apply lt_IZR in G1, G2. lia. }
  destruct (Z.eq_dec r 0) as [Hr0|Hr0].
  - apply (Hfloor (IZR n / 10)).
    + rewrite Hr0 in En. lra.
    + apply tenth_exact; [exact H53|].
      unfold r in Hr0.
      pose proof (Z.div_mod n 10 ltac:(lia)) as Hdn.
      pose proof (Z.mod_pos_bound n 10 ltac:(lia)) as Hrn.
      assert (n = 10 * (K - 1) + 5)%Z by lia.
      symmetry. apply (Z.mod_unique n 10 (K - 1) 5); lia.
  - destruct (tenth_posval n H53) as [v [Hv [Hx [N1 N2]]]].
    cbn [pow] in N1, N2. rewrite Rmult_1_r in N1, N2.
    pose proof u_value as Hu.
    replace (IZR (2 ^ 52)) with 4503599627370496 in Hu by reflexivity.
    assert (E : u = / 4503599627370496).
    { apply Rmult_eq_reg_r with 4503599627370496; [|lra]. rewrite Hu. field. }
    rewrite E in N1, N2.
    assert (Br1 : 1 <= IZR r) by (apply (IZR_le 1 r); lia).
    apply (Hfloor v); [|exact Hv]. lra.
Qed.

End HalfKilocalories.

(** X26. A calorie text of the table with one decimal, after a comma or a
    point, is shown rounded to the nearest whole number, halves upwards,
    followed by [kcal]; a text that denotes zero is shown as it is. *)
Theorem formatCalories_rounds_half_up D d sep :
  numeral D -> (digitsValue D < 10 ^ 14)%Z -> isDigit d = true ->
  (sep = 44 \/ sep = 46)%N ->
  FoodSelect.formatCalories (D ++ [sep; d]) =
  if (digitsValue (D ++ [d]) =? 0)%Z then D ++ [sep; d]
  else decimal ((digitsValue (D ++ [d]) + 5) / 10) ++ lit " kcal".
Proof.
  intros HD Hv Hd Hsep. pose proof HD as [Hne [Hdig _]].
  pose proof (digitsValue_nonneg D Hdig) as H0.
  pose proof Hd as Hr. apply isDigit_range in Hr.
  destruct (parseBrazilianNumber_numeral D d Hne Hdig Hd Hv) as [_ [P2 P3]].
  assert (Hn : (0 <= digitsValue (D ++ [d]) < 10 ^ 15)%Z).
  { rewrite digitsValue_app. change (10 ^ 15)%Z with 1000000000000000%Z.
    change (10 ^ 14)%Z with 100000000000000%Z in Hv. lia. }
  assert (Hparse : FoodSelect.parseBrazilianNumber (VString (D ++ [sep; d]))
                   = (Z2F (digitsValue (D ++ [d])) / 10)%float).
  { destruct Hsep as [->| ->]; assumption. }
  unfold FoodSelect.formatCalories. rewrite Hparse.
  set (n := digitsValue (D ++ [d])) in *.
  destruct (Z.eqb_spec n 0) as [E|E].
  - rewrite E. reflexivity.
  - assert (H53 : (0 < n < 2 ^ 53)%Z).
    { change (2 ^ 53)%Z with 9007199254740992%Z.
      change (10 ^ 15)%Z with 1000000000000000%Z in Hn. lia. }
    destruct (tenth_posval n H53) as [v [Hpv _]].
    rewrite (posval_not_zero _ _ Hpv).
    rewrite Math_round_tenth by lia.
    assert (HK : (0 <= (n + 5) / 10 < 10 ^ 15)%Z).
    { split; [apply Z.div_pos; lia|].
      apply Z.div_lt_upper_bound; [lia|].
      change (10 ^ 15)%Z with 1000000000000000%Z in *. lia. }
    now rewrite numberToString_whole by exact HK.
Qed.

(** ** The properties at sample inputs *)

Lemma bananaListed_reachable :
  FoodSelect.reachable codeUnitCompare FoodSelect.possible bananaListed.
Proof.
  unfold bananaListed, played, bananaTyped. cbn [fold_left].
  apply FoodSelect.reachable_step; [|cbn; lia].
  apply FoodSelect.reachable_step; [|exact I].
  apply FoodSelect.reachable_step; [|exact I].
  apply FoodSelect.reachable_initial.
Qed.

Lemma bananaListed_value :
  bananaListed =
  {| FoodSelect.isOpen := true; FoodSelect.searchTerm := lit "banana";
     FoodSelect.foods := [sampleFood 3 (lit "Banana nanica"); sampleFood 1 (lit "Banana prata")];
     FoodSelect.loading := false; FoodSelect.selectedFood := None;
     FoodSelect.highlightedIndex := 0 |}.
Proof. vm_compute. reflexivity. Qed.

(** With the two bananas listed and the second highlighted, Enter picks it. *)
Lemma highlighted_item_exists_witness :
  exists food,
    nth_error (FoodSelect.foods (FoodSelect.step codeUnitCompare
                 (FoodSelect.KeyDown (lit "ArrowDown")) bananaListed))
              (FoodSelect.highlightedIndex (FoodSelect.step codeUnitCompare
                 (FoodSelect.KeyDown (lit "ArrowDown")) bananaListed))
      = Some food /\
    food = sampleFood 1 (lit "Banana prata").
Proof.
  destruct (highlighted_item_exists codeUnitCompare
              (FoodSelect.step codeUnitCompare (FoodSelect.KeyDown (lit "ArrowDown"))
                 bananaListed)) as [food [H _]].
  - apply FoodSelect.reachable_step; [exact bananaListed_reachable | exact I].
  - rewrite bananaListed_value. vm_compute. discriminate.
  - exists food. split; [exact H|].
    rewrite bananaListed_value in H. vm_compute in H. injection H as <-.
    vm_compute. reflexivity.
Defined.

(** "Banana nanica" is picked with Enter and the parent passes the name back. *)
Lemma selected_food_names_the_term_witness :
  FoodSelect.searchTerm
    (FoodSelect.step codeUnitCompare (FoodSelect.ValueProp (lit "Banana nanica"))
       (FoodSelect.step codeUnitCompare (FoodSelect.KeyDown (lit "Enter")) bananaListed))
  = alimento (sampleFood 3 (lit "Banana nanica")).
Proof.
  apply (selected_food_names_the_term codeUnitCompare).
  - apply FoodSelect.reachable_step.
    + apply FoodSelect.reachable_step.
      * unfold bananaListed, played, bananaTyped. cbn [fold_left].
        apply FoodSelect.reachable_step;
          [|split; [cbn; lia | intros v H; discriminate H]].
        apply FoodSelect.reachable_step;
          [|split; [exact I | intros v H; discriminate H]].
        apply FoodSelect.reachable_step;
          [|split; [exact I | intros v H; discriminate H]].
        apply FoodSelect.reachable_initial.
      * split; [exact I | intros v H; discriminate H].
    + split; [exact I|]. intros v H. injection H as <-.
      rewrite bananaListed_value. vm_compute. reflexivity.
  - rewrite bananaListed_value. vm_compute. reflexivity.
Defined.

(** From the first of the two bananas, five presses down reach the second
    and stay there; five presses up stay on the first. *)
Lemma arrow_keys_saturate_witness :
  FoodSelect.highlightedIndex (pressed (lit "ArrowDown") 5 bananaListed) = 1%nat /\
  FoodSelect.highlightedIndex (pressed (lit "ArrowUp") 5 bananaListed) = 0%nat.
Proof.
  destruct (arrow_keys_saturate bananaListed 5) as [H1 H2].
  - rewrite bananaListed_value. reflexivity.
  - rewrite bananaListed_value. cbn. lia.
  - rewrite H1, H2, bananaListed_value. split; reflexivity.
Defined.

(** With the two bananas listed, the term is cut down to "b". *)
Lemma short_term_keeps_stale_list_witness :
  FoodSelect.dropdown
    (FoodSelect.step codeUnitCompare (FoodSelect.InputChange (lit "b")) bananaListed)
  = [FoodSelect.hintState;
     FoodSelect.foodList [sampleFood 3 (lit "Banana nanica"); sampleFood 1 (lit "Banana prata")]].
Proof.
  destruct (short_term_keeps_stale_list codeUnitCompare bananaListed (lit "b")) as [H _].
  - rewrite bananaListed_value. reflexivity.
  - rewrite bananaListed_value. discriminate.
  - cbn. lia.
  - rewrite H, bananaListed_value. reflexivity.
Defined.

(** "Banana prata" typed in full finds the row of that name. *)
Lemma selected_name_finds_food_witness :
  In (sampleFood 1 (lit "Banana prata"))
     (AddExtraMealModal.searchResults
        (AddExtraMealModal.handleInputChange codeUnitCompare (lit "Banana prata")
           (Rows fruits) modal0)).
Proof.
  destruct (selected_name_finds_food codeUnitCompare fruits
              (sampleFood 1 (lit "Banana prata")) modal0 (inline0 [])) as [H _].
  - simpl. auto.
  - cbn. lia.
  - apply H. vm_compute. lia.
Defined.

(** What "banana p" finds, "banana" finds. *)
Lemma longer_query_narrows_witness :
  In (sampleFood 1 (lit "Banana prata")) (rankedMatches codeUnitCompare (lit "banana") fruits).
Proof.
  apply (longer_query_narrows codeUnitCompare (lit "banana") (lit " p") fruits).
  - reflexivity.
  - vm_compute. left. reflexivity.
Defined.

(** "Arroz, Integral Cozido" normalized once and twice. *)
Lemma normalizeText_twice_witness :
  FoodSelect.normalizeText (lit "arroz  integral cozido") = lit "arroz  integral cozido" /\
  FoodSelect.searchWordsOf (lit "arroz  integral cozido")
  = FoodSelect.searchWordsOf (lit "Arroz, Integral Cozido").
Proof.
  destruct (normalizeText_twice (lit "Arroz, Integral Cozido") eq_refl) as [H1 [_ [H2 _]]].
  split; [exact H1 | exact H2].
Defined.

(** The two items "a" and "b", a new item "c", and "a" removed. *)
Lemma fresh_ids_stay_distinct_witness :
  NoDup (ids (AddExtraMealModal.addFoodToMeal (fun n => n) (lit "c") twoItems)) /\
  S (List.length (AddExtraMealModal.foods (AddExtraMealModal.removeFood (lit "a") twoItems)))
  = 2%nat.
Proof.
  destruct (fresh_ids_stay_distinct (fun n => n) (lit "c") (lit "a") (lit "50") twoItems)
    as [H1 [_ [_ H2]]].
  - vm_compute. repeat constructor; simpl; intuition discriminate.
  - vm_compute. intuition discriminate.
  - split; [exact H1|]. apply H2. vm_compute. left. reflexivity.
Defined.

(** Rice is added to the empty meal and removed again. *)
Lemma add_then_remove_restores_witness :
  AddExtraMealModal.foods
    (AddExtraMealModal.removeFood (lit "id-1")
       (AddExtraMealModal.addFoodToMeal (fun n => n) (lit "id-1") modalRice))
  = [].
Proof.
  destruct (add_then_remove_restores (fun n => n) (lit "id-1") (lit "id-2") modalRice)
    as [H _].
  - vm_compute. intros [].
  - exact H.
Defined.

(** Removing "a" is not undone by removing it again, and "b" stays. *)
Lemma edits_compose_witness :
  ids (AddExtraMealModal.removeFood (lit "a") (AddExtraMealModal.removeFood (lit "a") twoItems))
  = [lit "b"] /\
  AddExtraMealModal.foods (AddExtraMealModal.updateFoodQuantity (lit "z") (lit "50") twoItems)
  = AddExtraMealModal.foods twoItems.
Proof.
  destruct (edits_compose (lit "a") (lit "b") (lit "50") twoItems) as [_ [_ [_ [H _]]]].
  destruct (edits_compose (lit "z") (lit "b") (lit "50") twoItems) as [_ [_ [_ [_ [H' _]]]]].
  split.
  - rewrite H. vm_compute. reflexivity.
  - apply H'. vm_compute. intuition discriminate.
Defined.

(** Rice at 150 g added to the empty meal: 186 kcal in total. *)
Lemma add_raises_totals_witness :
  AddExtraMealModal.total_calories
    (AddExtraMealModal.mealTotals
       (AddExtraMealModal.addFoodToMeal (fun n => n) (lit "id-1") modalRice))
  = 186%float.
Proof.
  destruct (add_raises_totals (fun n => n) (lit "id-1") modalRice
              (sampleFood 1 (lit "Arroz, integral, cozido")) eq_refl)
    as [newFood [E H]].
  rewrite H. cbn [AddExtraMealModal.total_calories].
  apply app_inj_tail in E. destruct E as [_ <-]. vm_compute. reflexivity.
Defined.

(** The meal of two items saved without a name. *)
Lemma saved_meal_witness :
  exists meal,
    snd (AddExtraMealModal.handleSave (lit "m-1") twoItems)
      = [AddExtraMealModal.onAdd meal; AddExtraMealModal.onClose] /\
    AddExtraMealModal.ExtraMeal.meal_name meal = lit "Refeicao Extra" /\
    AddExtraMealModal.ExtraMeal.total_calories meal = 286%float.
Proof.
  destruct (saved_meal (lit "m-1") twoItems) as [meal [E [_ [_ [_ [Hf [Hc _]]]]]]].
  exists meal. split; [now rewrite E|].
  assert (Em : meal = match snd (AddExtraMealModal.handleSave (lit "m-1") twoItems) with
                      | AddExtraMealModal.onAdd m :: _ => m
                      | _ => meal
                      end) by now rewrite E.
  split.
  - rewrite Em. vm_compute. reflexivity.
  - rewrite Hc, Hf. vm_compute. reflexivity.
Defined.

(** The form named " Feijao " is submitted: one row, named "Feijao", with "0"
    for what was left empty. *)
Lemma submit_writes_wellformed_witness :
  writes (snd (FoodLibraryManager.handleSubmit FoodLibraryManager.WriteOk
                 (FoodLibraryManager.LoadData (Some [libraryRice])) libraryTyping))
  = [{| FoodLibraryManager.FormData.alimento := lit "Feijao";
        FoodLibraryManager.FormData.caloria := lit "77";
        FoodLibraryManager.FormData.proteina := lit "0";
        FoodLibraryManager.FormData.carboidrato := lit "0";
        FoodLibraryManager.FormData.fibra := lit "0";
        FoodLibraryManager.FormData.gordura := lit "0" |}].
Proof.
  destruct (submit_writes_wellformed FoodLibraryManager.WriteOk
              (FoodLibraryManager.LoadData (Some [libraryRice])) libraryTyping
              {| FoodLibraryManager.FormData.alimento := lit "Feijao";
                 FoodLibraryManager.FormData.caloria := lit "77";
                 FoodLibraryManager.FormData.proteina := lit "0";
                 FoodLibraryManager.FormData.carboidrato := lit "0";
                 FoodLibraryManager.FormData.fibra := lit "0";
                 FoodLibraryManager.FormData.gordura := lit "0" |}) as [H _].
  - vm_compute. left. reflexivity.
  - exact H.
Defined.

(** The rice row is opened for editing and submitted as it is. *)
Lemma edit_then_submit_writes_back_witness :
  writes (snd (FoodLibraryManager.handleSubmit FoodLibraryManager.WriteOk
                 (FoodLibraryManager.LoadData (Some [libraryRice]))
                 (FoodLibraryManager.handleEdit libraryRice libraryLoaded)))
  = [formOf libraryRice].
Proof.
  destruct (edit_then_submit_writes_back FoodLibraryManager.WriteOk
              (FoodLibraryManager.LoadData (Some [libraryRice])) libraryLoaded libraryRice)
    as [rest [E [Hw _]]].
  - vm_compute. reflexivity.
  - discriminate.
  - rewrite E. cbn [writes flat_map]. fold (writes rest). rewrite Hw. reflexivity.
Defined.

(** The write of the form named " Feijao " fails: the form stays. *)
Lemma submit_outcomes_witness :
  FoodLibraryManager.formData
    (fst (FoodLibraryManager.handleSubmit (FoodLibraryManager.WriteError (lit "denied"))
            FoodLibraryManager.LoadError libraryTyping))
  = FoodLibraryManager.formData libraryTyping /\
  FoodLibraryManager.saving
    (fst (FoodLibraryManager.handleSubmit (FoodLibraryManager.WriteError (lit "denied"))
            FoodLibraryManager.LoadError libraryTyping))
  = false.
Proof.
  pose proof (submit_outcomes (FoodLibraryManager.WriteError (lit "denied"))
                FoodLibraryManager.LoadError libraryTyping) as H.
  cbv zeta in H. destruct H as [Hs [He _]].
  - vm_compute. discriminate.
  - split; [|exact Hs].
    destruct (He (lit "denied") (or_introl eq_refl)) as [E _]. now rewrite E.
Defined.

(** The library holding the rice row, searched for "ARROZ" and for "arroz". *)
Lemma library_list_witness :
  FoodLibraryManager.filteredFoods
    (FoodLibraryManager.setSearchTerm (lit "arroz") libraryLoaded)
  = FoodLibraryManager.filteredFoods
      (FoodLibraryManager.setSearchTerm (lit "ARROZ") libraryLoaded) /\
  In libraryRice
     (FoodLibraryManager.filteredFoods (FoodLibraryManager.setSearchTerm (lit "arr") libraryLoaded)).
Proof.
  destruct (library_list libraryLoaded) as [_ [H1 [H2 _]]]. split.
  - exact (H1 (lit "ARROZ") eq_refl).
  - apply (H2 (lit "arr") (lit "oz") libraryRice eq_refl). vm_compute. left. reflexivity.
Defined.

Lemma pageRefetching_reachable : usePageData.reachable pageRefetching.
Proof.
  unfold pageRefetching.
  apply usePageData.reachable_step; [|exact I].
  apply usePageData.reachable_step; [|cbn; lia].
  apply usePageData.reachable_step; [|exact I].
  apply usePageData.reachable_mounted.
Qed.

(** The page that refetches at time 5000 has one call that has not settled. *)
Lemma one_fetch_at_a_time_witness :
  usePageData.pending pageRefetching = 1%nat /\
  usePageData.step (usePageData.Call (Some (lit "u1")) true 9000) pageRefetching
  = pageRefetching.
Proof.
  destruct (one_fetch_at_a_time pageRefetching pageRefetching_reachable) as [_ [H1 H2]].
  split.
  - apply H1. reflexivity.
  - destruct (H2 (Some (lit "u1")) true 9000%Z) as [E|[E _]].
    + apply H1. reflexivity.
    + exact E.
    + discriminate E.
Defined.

(** The page that refetches at time 5000 does not show its initial loading. *)
Lemma skeleton_only_before_first_fetch_witness :
  usePageData.isInitialLoading (usePageData.refs pageRefetching) = false.
Proof.
  destruct (skeleton_only_before_first_fetch pageRefetching pageRefetching_reachable)
    as [H _].
  apply H. reflexivity.
Defined.

(** The page that refetched at time 5000 ignores a window focus at time 6999. *)
Lemma refetches_are_throttled_witness :
  throttled [(5000, false); (1000, true)]%Z /\
  usePageData.fetches
    (usePageData.step (usePageData.Call (Some (lit "u1")) false 6999)
       (usePageData.step usePageData.Settles pageRefetching))
  = [(5000, false); (1000, true)]%Z.
Proof.
  destruct (refetches_are_throttled (usePageData.step usePageData.Settles pageRefetching))
    as [H1 [_ H2]].
  - apply usePageData.reachable_step; [exact pageRefetching_reachable | cbn; lia].
  - split; [exact H1|].
    rewrite (H2 (Some (lit "u1")) 6999%Z); [reflexivity | vm_compute; reflexivity].
Defined.

(** The three items with 0.1, 0.2 and 0.3 g of protein, whose totals differ
    with the order, show "0.6" in both orders. *)
Lemma shown_totals_do_not_depend_on_order_witness :
  AddExtraMealModal.shownProtein
    (AddExtraMealModal.totalsLine
       (stateWith [sampleItem (lit "a") 0 1; sampleItem (lit "b") 0 2;
                   sampleItem (lit "c") 0 3])) = lit "0.6" /\
  AddExtraMealModal.shownProtein
    (AddExtraMealModal.totalsLine
       (stateWith [sampleItem (lit "c") 0 3; sampleItem (lit "b") 0 2;
                   sampleItem (lit "a") 0 1])) = lit "0.6".
Proof.
  destruct (shown_totals_do_not_depend_on_order
              (stateWith [sampleItem (lit "a") 0 1; sampleItem (lit "b") 0 2;
                          sampleItem (lit "c") 0 3])
              (stateWith [sampleItem (lit "c") 0 3; sampleItem (lit "b") 0 2;
                          sampleItem (lit "a") 0 1])
              [(0, 1, 0, 0); (0, 2, 0, 0); (0, 3, 0, 0)]%Z) as [H1 H2].
  - repeat constructor; cbn; lia.
  - apply (Permutation_rev
             [sampleItem (lit "a") 0 1; sampleItem (lit "b") 0 2; sampleItem (lit "c") 0 3]).
  - vm_compute. reflexivity.
  - vm_compute. reflexivity.
  - vm_compute. reflexivity.
  - vm_compute. reflexivity.
  - rewrite H2, H1. split; vm_compute; reflexivity.
Defined.

(** The table's "2,5" is shown as "2.5", and "128" as "128.0". *)
Lemma formatNutrient_keeps_the_digits_witness :
  FoodSelect.formatNutrient (lit "2,5") = lit "2.5" /\
  FoodSelect.formatNutrient (lit "128") = lit "128.0".
Proof.
  split.
  - destruct (formatNutrient_keeps_the_digits (lit "2") 53%N) as [H _].
    + split; [discriminate|]. split; [reflexivity|]. intros r Hr. discriminate Hr.
    + vm_compute. reflexivity.
    + reflexivity.
    + exact H.
  - destruct (formatNutrient_keeps_the_digits (lit "128") 48%N) as [_ [_ H]].
    + split; [discriminate|]. split; [reflexivity|]. intros r Hr. discriminate Hr.
    + vm_compute. reflexivity.
    + reflexivity.
    + exact H.
Defined.

(** The table's "128" is shown as "128 kcal". *)
Lemma formatCalories_of_whole_number_witness :
  FoodSelect.formatCalories (lit "128") = lit "128 kcal".
Proof.
  apply (formatCalories_of_whole_number (lit "128")).
  - split; [discriminate|]. split; [reflexivity|]. intros r Hr. discriminate Hr.
  - vm_compute. reflexivity.
Defined.

(** The meal of two items of 100 g, the first edited to 200 g. *)
Lemma quantity_edit_keeps_whole_values_witness :
  exists qs',
    Forall2 carries
      (AddExtraMealModal.foods
         (AddExtraMealModal.updateFoodQuantity (lit "a") (lit "200") twoItems)) qs' /\
    Forall gramsInRange
      (AddExtraMealModal.foods
         (AddExtraMealModal.updateFoodQuantity (lit "a") (lit "200") twoItems)).
Proof.
  apply (quantity_edit_keeps_whole_values (lit "a") (lit "200") twoItems
           [(186, 38, 0, 0); (100, 1, 0, 0)]%Z).
  - repeat constructor; cbn; lia.
  - repeat constructor; vm_compute; discriminate.
  - repeat constructor.
  - reflexivity.
  - reflexivity.
Defined.

(** Rice, written "124", "2,5", "25,8" and "1,0" in the table, 150 g of it. *)
Lemma added_item_carries_whole_values_witness :
  exists newFood q,
    AddExtraMealModal.foods
      (AddExtraMealModal.addFoodToMeal (fun n => n) (lit "id-1") modalRice)
      = [] ++ [newFood] /\
    Forall2 carries
      (AddExtraMealModal.foods
         (AddExtraMealModal.addFoodToMeal (fun n => n) (lit "id-1") modalRice))
      ([] ++ [q]) /\
    within (2 ^ 40) q /\ gramsInRange newFood.
Proof.
  assert (N : forall D, D = lit "124" \/ D = lit "2" \/ D = lit "25" \/ D = lit "1" ->
              numeral D /\ (digitsValue D < 1000000)%Z).
  { intros D [->|[->|[->| ->]]]; (split; [|reflexivity]);
      (split; [discriminate|]); (split; [reflexivity|]); intros r Hr; discriminate Hr. }
  apply (added_item_carries_whole_values (fun n => n) (lit "id-1") modalRice
           (sampleFood 1 (lit "Arroz, integral, cozido")) []).
  - reflexivity.
  - constructor.
  - exists (lit "124"). destruct (N (lit "124")) as [H1 H2]; [tauto|].
    split; [exact H1|]. split; [exact H2|]. left. reflexivity.
  - exists (lit "2"). destruct (N (lit "2")) as [H1 H2]; [tauto|].
    split; [exact H1|]. split; [exact H2|]. right. exists 53%N.
    split; [reflexivity|]. left. reflexivity.
  - exists (lit "25"). destruct (N (lit "25")) as [H1 H2]; [tauto|].
    split; [exact H1|]. split; [exact H2|]. right. exists 56%N.
    split; [reflexivity|]. left. reflexivity.
  - exists (lit "1"). destruct (N (lit "1")) as [H1 H2]; [tauto|].
    split; [exact H1|]. split; [exact H2|]. right. exists 48%N.
    split; [reflexivity|]. left. reflexivity.
  - reflexivity.
  - reflexivity.
Defined.

(** "1.234,56" and "1,234.56" are both read as 1.234. *)
Lemma second_separator_ends_the_number_witness :
  FoodSelect.parseBrazilianNumber (VString (lit "1.234,56")) = 1.234%float /\
  FoodSelect.parseBrazilianNumber (VString (lit "1,234.56")) = 1.234%float.
Proof.
  split.
  - exact (eq_trans
             (second_separator_ends_the_number (lit "1") (lit "234") (lit "56") 46%N 44%N
                ltac:(discriminate) eq_refl eq_refl (or_intror eq_refl) (or_introl eq_refl))
             eq_refl).
  - exact (eq_trans
             (second_separator_ends_the_number (lit "1") (lit "234") (lit "56") 44%N 46%N
                ltac:(discriminate) eq_refl eq_refl (or_introl eq_refl) (or_intror eq_refl))
             eq_refl).
Defined.

(** "52,5" is shown as 53 kcal, "52,4" as 52 kcal and "0,4" as 0 kcal. *)
Lemma formatCalories_rounds_half_up_witness :
  FoodSelect.formatCalories (lit "52,5") = lit "53 kcal" /\
  FoodSelect.formatCalories (lit "52,4") = lit "52 kcal" /\
  FoodSelect.formatCalories (lit "0,4") = lit "0 kcal".
Proof.
  assert (N : forall D, D = lit "52" \/ D = lit "0" ->
              numeral D /\ (digitsValue D < 10 ^ 14)%Z).
  { intros D [->| ->]; (split; [|reflexivity]);
      (split; [discriminate|]); (split; [reflexivity|]); intros r Hr;
      try discriminate Hr; now injection Hr. }
  destruct (N (lit "52") (or_introl eq_refl)) as [A1 A2].
  destruct (N (lit "0") (or_intror eq_refl)) as [B1 B2].
  split; [|split].
  - exact (formatCalories_rounds_half_up (lit "52") 53%N 44%N A1 A2 eq_refl
             (or_introl eq_refl)).
  - exact (formatCalories_rounds_half_up (lit "52") 52%N 44%N A1 A2 eq_refl
             (or_introl eq_refl)).
  - exact (formatCalories_rounds_half_up (lit "0") 52%N 44%N B1 B2 eq_refl
             (or_introl eq_refl)).
Defined.
